(** * JLMA-CFES: validation, scoring, phase gates and the retry orchestrator

    A shallow embedding of eight classes of the JavaScript sources:

      - [PatternValidator]   (src/validators/PatternValidator.js)
      - [TruthScoring]       (src/adapters/ClaudeFlowAdapter.js, second part)
      - [ValidationHooks]    (src/hooks/ValidationHooks.js)
      - [SPARCIntegration]   (src/core/PerformanceMonitor.js, second part)
      - [ClaudeFlowAdapter]  (src/adapters/ClaudeFlowAdapter.js, first part)
      - [JLMACFES]           (src/hooks/HookAutomation.js, the facade)
      - [PerformanceMonitor] (src/core/PerformanceMonitor.js, first part)
      - [EnhancementCore]    (src/core/PerformanceMonitor.js, third part)

    Conventions of the embedding.

      - A JavaScript string is a [string]: a sequence of code units below 256.
      - A JavaScript number is an integer ([Z] or [nat]) where the code
        counts, and an exact rational ([Q]) where it measures time or adds
        up the few decimals of a phase score, whose comparisons come out
        in doubles as they do in [Q].  The truth scores are IEEE 754
        doubles, primitive [float]s: there the outcome of a comparison
        hangs on the rounding of the arithmetic.
      - An [async] function is modelled by its settled value: [Returns v]
        for a fulfilled promise, [Raises e] for a rejected one.  A hook
        handler and a rollback function are code of the caller, which may
        also throw [undefined] or [null]: their settled values are of the
        type [supplied].
      - Wall-clock readings ([performance.now], [Date.now]) are arguments.
      - [emit] appends to an event log kept in the state of the component.

    The definitions come first, one module per class; the properties
    follow, one module per subject. *)

From Stdlib Require Import Bool Arith Lia List Ascii String ZArith QArith Qround.
From Stdlib Require Import DecimalString Permutation Sorted.
From Stdlib Require Floats Uint63.
Import ListNotations.

Set Implicit Arguments.
Set Warnings "-register-all,-inexact-float".
Open Scope string_scope.
Open Scope nat_scope.

(* ================================================================== *)
(** * The fragment of the JavaScript runtime the sources rely on *)
(* ================================================================== *)

Module JS.

(** Values that cross the API: task results, phase outputs, hook
    parameters. *)
Inductive value : Type :=
| JUndefined
| JNull
| JBool (b : bool)
| JNum (q : Q)
| JStr (s : string)
| JArr (l : list value)
| JObj (props : list (string * value)).

(** What a [throw] carries.  [Error.message] is all the sources ever read;
    the text of an engine-made [TypeError] is not fixed by the language. *)
Inductive error : Type :=
| Error (message : string)
| TypeError.

(** The settled value of a call that may throw. *)
Inductive outcome (A : Type) : Type :=
| Returns (a : A)
| Raises (e : error).
Arguments Returns {A} a.
Arguments Raises {A} e.

(** What a function of the caller can throw.  On an error object, as on
    any value that has properties, a [catch] clause can read
    [error.message]; on [undefined] and [null] ([throw undefined], a promise
    rejected without a reason) that read throws a [TypeError] of its own. *)
Inductive thrown : Type :=
| ThrownError (e : error)
| ThrownNullish.

(** The settled value of a call of such a function. *)
Inductive supplied (A : Type) : Type :=
| Gives (a : A)
| Throws (t : thrown).
Arguments Gives {A} a.
Arguments Throws {A} t.

(** [ToBoolean]. *)
Definition truthy (v : value) : bool :=
  match v with
  | JUndefined | JNull => false
  | JBool b => b
  | JNum q => negb (Qeq_bool q 0)
  | JStr s => negb (String.eqb s "")
  | JArr _ | JObj _ => true
  end.

(** Lookup in a list of bindings: the first binding of a key is the one
    in force. *)
Fixpoint assoc {V : Type} (k : string) (l : list (string * V)) : option V :=
  match l with
  | [] => None
  | (k', v) :: l' => if String.eqb k' k then Some v else assoc k l'
  end.

(** [v[k]] for a key that is no inherited name: the own property of an
    object, [undefined] on anything else ([v?.[k]] when [v] may be [null]
    or [undefined]). *)
Definition get (v : value) (k : string) : value :=
  match v with
  | JObj props => match assoc k props with Some x => x | None => JUndefined end
  | _ => JUndefined
  end.

(** The property names every object literal inherits from
    [Object.prototype]: [o[k]] is truthy for them although [k] is not a
    key of [o]. *)
Definition Object_prototype_keys : list string :=
  [ "constructor"; "__defineGetter__"; "__defineSetter__"; "hasOwnProperty";
    "__lookupGetter__"; "__lookupSetter__"; "isPrototypeOf";
    "propertyIsEnumerable"; "toString"; "valueOf"; "__proto__";
    "toLocaleString" ].

Definition mem_string (k : string) (l : list string) : bool :=
  existsb (String.eqb k) l.

(** [x?.length], read for its truth value only. *)
Definition length_truthy (v : value) : bool :=
  match v with
  | JStr s => negb (String.eqb s "")
  | JArr l => match l with [] => false | _ => true end
  | JObj _ => truthy (get v "length")
  | _ => false
  end.

(** ** Strings *)

(** The double quote character, and the string made of it. *)
Definition dquote : ascii := "034"%char.
Definition DQ : string := String dquote "".

Fixpoint repeat_string (s : string) (n : nat) : string :=
  match n with
  | O => ""
  | S n' => s ++ repeat_string s n'
  end.

(** [s.substring(0, n)]. *)
Fixpoint take (n : nat) (s : string) : string :=
  match n, s with
  | S n', String c s' => String c (take n' s')
  | _, _ => ""
  end.

Fixpoint drop (n : nat) (s : string) : string :=
  match n, s with
  | S n', String _ s' => drop n' s'
  | _, _ => s
  end.

(** [s.slice(-n)] for [n > 0]. *)
Definition slice_last (n : nat) (s : string) : string :=
  drop (String.length s - n) s.

Fixpoint last_char (s : string) : option ascii :=
  match s with
  | "" => None
  | String c "" => Some c
  | String _ s' => last_char s'
  end.

Definition head_char (s : string) : option ascii :=
  match s with
  | "" => None
  | String c _ => Some c
  end.

(** [s.split(sep)[0]]: the text before the first occurrence of [sep], all
    of [s] when there is none.  [sep] is not empty where it is used. *)
Fixpoint before_first (sep s : string) : string :=
  if prefix sep s then ""
  else match s with
       | "" => ""
       | String c s' => String c (before_first sep s')
       end.

(** [s.includes(t)]. *)
Fixpoint includes (t s : string) : bool :=
  prefix t s ||
  match s with
  | "" => false
  | String _ s' => includes t s'
  end.

(** [l.join(sep)]. *)
Definition join (sep : string) (l : list string) : string :=
  String.concat sep l.

(** ** Numbers *)

(** [Math.round(x)]: the nearest integer, a tie going up. *)
Definition Math_round (x : Q) : Z := Qfloor (x + (1 # 2)).

(** [Math.round(x * 1000) / 1000]. *)
Definition round3 (x : Q) : Q := (inject_Z (Math_round (x * 1000)) / 1000)%Q.

(** [Math.max(a, b)]. *)
Definition Qmax (a b : Q) : Q := if Qle_bool a b then b else a.

(** A count written in decimal, as a template literal prints it. *)
Definition decimal (n : nat) : string :=
  NilEmpty.string_of_uint (Nat.to_uint n).

End JS.

Import JS.

(* ================================================================== *)
(** * Doubles *)
(* ================================================================== *)

(** The numbers of [TruthScoring] are doubles: primitive floats, with the
    operations of IEEE 754 binary64 (round to nearest, ties to even), the
    arithmetic of the language. *)

Module Double.

Import PrimFloat FloatOps SpecFloat.
Open Scope float_scope.

(** An integer as a double; exact up to 2^53. *)
Definition of_Z (z : Z) : float :=
  if (z <? 0)%Z then - of_uint63 (Uint63.of_Z (- z))
  else of_uint63 (Uint63.of_Z z).

Definition of_nat (n : nat) : float := of_Z (Z.of_nat n).

(** [Math.round(x)]: [floor(x + 1/2)], of the exact sum, with the sign of
    [x] when that is zero; [x] itself when it is a zero, infinite or [NaN].
    A finite double other than zero is [m * 2^e], an integer already when
    [0 <= e]; when [e < 0] it is below 2^53 and the floor is computed on
    the integers [m] and [2^(-e)]. *)
Definition Math_round (x : float) : float :=
  match Prim2SF x with
  | S754_finite s m e =>
      if (0 <=? e)%Z then x
      else
        let sm := if s then Z.neg m else Z.pos m in
        let n := ((sm + 2 ^ (- e - 1)) / 2 ^ (- e))%Z in
        if (n =? 0)%Z then (if s then neg_zero else zero) else of_Z n
  | _ => x
  end.

(** [Math.round(x * 1000) / 1000]. *)
Definition round3 (x : float) : float := Math_round (x * 1000) / 1000.

(** [Math.max(a, b)]. *)
Definition Math_max (a b : float) : float :=
  if is_nan a || is_nan b then nan
  else if a <? b then b
  else if b <? a then a
  else if get_sign a then b else a.

(** [ToBoolean] of a number: [0], [-0] and [NaN] are falsy. *)
Definition truthy (x : float) : bool := negb (is_zero x || is_nan x).

(** [x || d], where [x] is a number or [undefined]. *)
Definition or_else (x : option float) (d : float) : float :=
  match x with
  | Some q => if truthy q then q else d
  | None => d
  end.

End Double.

(* ================================================================== *)
(** * Regular expressions *)
(* ================================================================== *)

(** The sources detect everything with regular-expression literals.  They
    are embedded as syntax trees and run by a backtracking matcher that
    follows the order of choices of the ECMAScript semantics
    (alternatives left to right, greedy quantifiers longest first, lazy
    ones shortest first). *)

Module Regex.

(** A member of a bracket expression. *)
Inductive citem : Type :=
| CChar (c : ascii)
| CRange (lo hi : ascii)
| CDigit                       (* \d *)
| CSpace                       (* \s *)
| CNotSpace.                   (* \S *)

Inductive regex : Type :=
| Str (s : string)                                   (* literal text *)
| Any                                                (* .  *)
| Set_ (neg : bool) (items : list citem)             (* [...] and [^...] *)
| Seq (r1 r2 : regex)
| Alt (r1 r2 : regex)                                (* r1|r2 *)
| Rep (greedy : bool) (lo : nat) (hi : option nat) (r : regex)
| Grp (r : regex)                                    (* ( ) and (?: ) *)
| NotAhead (r : regex)                               (* (?!r) *)
| WordB.                                             (* \b *)

Definition code (c : ascii) : nat := nat_of_ascii c.

Definition between (lo hi n : nat) : bool := (lo <=? n) && (n <=? hi).

Definition is_digit (c : ascii) : bool := between 48 57 (code c).

(** [\s] on code units below 256: TAB, LF, VT, FF, CR, SP, NBSP. *)
Definition is_space (c : ascii) : bool :=
  let n := code c in between 9 13 n || (n =? 32) || (n =? 160).

Definition is_line_terminator (c : ascii) : bool :=
  let n := code c in (n =? 10) || (n =? 13).

(** [\w], which decides [\b]. *)
Definition is_word (c : ascii) : bool :=
  let n := code c in
  between 97 122 n || between 65 90 n || between 48 57 n || (n =? 95).

(** [Canonicalize] of the [i] flag: upper case, on code units below 256. *)
Definition canon (c : ascii) : ascii :=
  let n := code c in
  if between 97 122 n || (between 224 254 n && negb (n =? 247))
  then ascii_of_nat (n - 32) else c.

Definition char_eq (ci : bool) (a b : ascii) : bool :=
  if ci then Ascii.eqb (canon a) (canon b) else Ascii.eqb a b.

Definition item_has (i : citem) (c : ascii) : bool :=
  match i with
  | CChar a => Ascii.eqb a c
  | CRange lo hi => between (code lo) (code hi) (code c)
  | CDigit => is_digit c
  | CSpace => is_space c
  | CNotSpace => negb (is_space c)
  end.

Definition all_chars : list ascii :=
  map ascii_of_nat (seq 0 256).

(** Membership in a bracket expression; under the [i] flag a character
    belongs when some member has the same canonical form. *)
Definition in_set (ci : bool) (items : list citem) (c : ascii) : bool :=
  if ci
  then existsb (fun a => existsb (fun i => item_has i a) items
                         && Ascii.eqb (canon a) (canon c)) all_chars
  else existsb (fun i => item_has i c) items.

(** A continuation receives the character just consumed (for [\b]) and the
    input still to be read. *)
Definition kont (A : Type) : Type := option ascii -> string -> option A.

Fixpoint lit {A : Type} (ci : bool) (t : string) (p : option ascii)
  (s : string) (k : kont A) : option A :=
  match t with
  | "" => k p s
  | String c t' =>
      match s with
      | String c' s' => if char_eq ci c c' then lit ci t' (Some c') s' k else None
      | "" => None
      end
  end.

Definition one {A : Type} (f : ascii -> bool) (s : string) (k : kont A)
  : option A :=
  match s with
  | String c s' => if f c then k (Some c) s' else None
  | "" => None
  end.

Definition dec (hi : option nat) : option nat := option_map pred hi.

(** The quantifier ([RepeatMatcher]): [lo] mandatory rounds, then optional
    ones; an optional round that consumes nothing is rejected.  [fuel]
    bounds the rounds and [lo + length s] of them always suffice. *)
Fixpoint rep {A : Type}
  (m : option ascii -> string -> kont A -> option A)
  (greedy : bool) (fuel lo : nat) (hi : option nat)
  (p : option ascii) (s : string) (k : kont A) : option A :=
  match fuel with
  | O => None
  | S fuel' =>
      match hi with
      | Some O => k p s
      | _ =>
          let d : kont A := fun p' s' =>
            if (lo =? 0) && (String.length s' =? String.length s) then None
            else rep m greedy fuel' (pred lo) (dec hi) p' s' k in
          if negb (lo =? 0) then m p s d
          else if greedy
               then match m p s d with Some a => Some a | None => k p s end
               else match k p s with Some a => Some a | None => m p s d end
      end
  end.

Definition is_word_opt (c : option ascii) : bool :=
  match c with Some a => is_word a | None => false end.

Fixpoint run {A : Type} (ci : bool) (r : regex) (p : option ascii)
  (s : string) (k : kont A) {struct r} : option A :=
  match r with
  | Str t => lit ci t p s k
  | Any => one (fun c => negb (is_line_terminator c)) s k
  | Set_ neg items => one (fun c => xorb neg (in_set ci items c)) s k
  | Seq r1 r2 => run ci r1 p s (fun p' s' => run ci r2 p' s' k)
  | Alt r1 r2 =>
      match run ci r1 p s k with
      | Some a => Some a
      | None => run ci r2 p s k
      end
  | Rep g lo hi r' =>
      rep (fun p' s' k' => run ci r' p' s' k') g
          (S (lo + String.length s)) lo hi p s k
  | Grp r' => run ci r' p s k
  | NotAhead r' =>
      match run ci r' p s (fun _ _ => Some tt) with
      | Some _ => None
      | None => k p s
      end
  | WordB =>
      if xorb (is_word_opt p) (is_word_opt (head_char s)) then k p s else None
  end.

(** A match anchored at the current position: the input left after it. *)
Definition match_here (ci : bool) (r : regex) (p : option ascii) (s : string)
  : option string :=
  run ci r p s (fun _ s' => Some s').

(** The leftmost match: the text before it, the match, the text after. *)
Fixpoint search (ci : bool) (r : regex) (p : option ascii) (s : string)
  : option (string * string * string) :=
  match match_here ci r p s with
  | Some rest => Some ("", take (String.length s - String.length rest) s, rest)
  | None =>
      match s with
      | "" => None
      | String c s' =>
          match search ci r (Some c) s' with
          | Some (b, m, rest) => Some (String c b, m, rest)
          | None => None
          end
      end
  end.

(** [regex.test(s)] on a regex whose [lastIndex] is 0: every [test] in the
    sources runs on a literal evaluated for that call. *)
Definition test (ci : bool) (r : regex) (s : string) : bool :=
  match search ci r None s with Some _ => true | None => false end.

(** The successive matches of a [g] regex. *)
Fixpoint match_all_from (ci : bool) (r : regex) (fuel : nat)
  (p : option ascii) (s : string) : list string :=
  match fuel with
  | O => []
  | S fuel' =>
      match search ci r p s with
      | None => []
      | Some (_, m, rest) =>
          match m with
          | "" =>
              m :: match rest with
                   | "" => []
                   | String c rest' => match_all_from ci r fuel' (Some c) rest'
                   end
          | _ => m :: match_all_from ci r fuel' (last_char m) rest
          end
      end
  end.

(** [s.match(regex)] with the [g] flag: [null] ([None]) when nothing
    matches, the array of matched texts otherwise. *)
Definition str_match (ci : bool) (r : regex) (s : string)
  : option (list string) :=
  match match_all_from ci r (S (String.length s)) None s with
  | [] => None
  | l => Some l
  end.

(** [s.replace(regex, f)] without the [g] flag: the leftmost match is
    replaced by what [f] returns for it. *)
Definition replace_first (ci : bool) (r : regex) (f : string -> string)
  (s : string) : string :=
  match search ci r None s with
  | Some (b, m, rest) => b ++ f m ++ rest
  | None => s
  end.

(** Shorthands for writing the literals down. *)
Definition Cls (i : citem) : regex := Set_ false [i].
Definition Star (r : regex) : regex := Rep true 0 None r.
Definition Plus (r : regex) : regex := Rep true 1 None r.
Definition Opt (r : regex) : regex := Rep true 0 (Some 1) r.
Definition LazyStar (r : regex) : regex := Rep false 0 None r.
Definition AtLeast (n : nat) (r : regex) : regex := Rep true n None r.
Definition Between (n m : nat) (r : regex) : regex := Rep true n (Some m) r.

Declare Scope regex_scope.
Delimit Scope regex_scope with re.
Bind Scope regex_scope with regex.
Infix ";;" := Seq (at level 61, right associativity) : regex_scope.
Infix "<|>" := Alt (at level 62, right associativity) : regex_scope.

End Regex.

Import Regex.

(* ================================================================== *)
(** * PatternValidator *)
(* ================================================================== *)

Module PatternValidator.

Open Scope regex_scope.

Inductive severity : Type := CRITICAL | HIGH | MEDIUM | LOW.

Definition severity_eqb (a b : severity) : bool :=
  match a, b with
  | CRITICAL, CRITICAL | HIGH, HIGH | MEDIUM, MEDIUM | LOW, LOW => true
  | _, _ => false
  end.

(** [this.options] once the constructor has filled in the defaults. *)
Record options : Type := {
  enableSecurityChecks : bool;
  enablePerformanceChecks : bool;
  enableQualityChecks : bool;
  strictMode : bool
}.

Definition default_options : options :=
  {| enableSecurityChecks := true;
     enablePerformanceChecks := true;
     enableQualityChecks := true;
     strictMode := false |}.

(** An entry of the rule catalogue; [message] and [suggestion] are present
    only in the categories that carry them. *)
Record pattern : Type := {
  name : string;
  regex_ : regex;
  ignore_case : bool;          (* the [i] flag; every rule has [g] *)
  message : string;
  suggestion : string
}.

Definition rule (n : string) (ci : bool) (r : regex) : pattern :=
  {| name := n; regex_ := r; ignore_case := ci; message := ""; suggestion := "" |}.

(** ** The literals of [_compilePatterns] *)

Definition quote : regex := Set_ false [CChar dquote; CChar "'"].
Definition not_quote : regex := Set_ true [CChar dquote; CChar "'"].
Definition ws : regex := Star (Cls CSpace).                  (* \s* *)
Definition assign : regex := Set_ false [CChar "="; CChar ":"].
Definition sep_opt : regex := Opt (Set_ false [CChar "_"; CChar "-"]).
Definition lazy_any : regex := LazyStar Any.                  (* .*? *)

Definition secrets : list pattern :=
  [ rule "password" true
      (Grp (Str "password" <|> Str "pwd") ;; ws ;; assign ;; ws ;;
       quote ;; AtLeast 4 not_quote ;; quote);
    rule "api_key" true
      (Grp ((Str "api" ;; sep_opt ;; Str "key") <|> Str "apikey") ;; ws ;;
       assign ;; ws ;; quote ;; AtLeast 10 not_quote ;; quote);
    rule "secret" true
      (Grp (Str "secret" <|> Str "token") ;; ws ;; assign ;; ws ;;
       quote ;; AtLeast 8 not_quote ;; quote);
    rule "auth_token" true
      (Grp (Str "auth" ;; sep_opt ;; Str "token") ;; ws ;; assign ;; ws ;;
       quote ;; AtLeast 10 not_quote ;; quote);
    rule "private_key" true
      (Grp (Str "private" ;; sep_opt ;; Str "key") ;; ws ;; assign ;; ws ;;
       quote ;; AtLeast 20 not_quote ;; quote);
    rule "connection_string" true
      (Grp ((Str "connection" ;; sep_opt ;; Str "string") <|>
            (Str "database" ;; sep_opt ;; Str "url")) ;; ws ;; assign ;; ws ;;
       quote ;; AtLeast 15 not_quote ;; quote) ].

Definition sqlInjection : list pattern :=
  [ rule "string_concat" true
      (Grp (Str "query" <|> Str "sql") ;; ws ;;
       Set_ false [CChar "+"; CChar "="] ;; ws ;;
       quote ;; lazy_any ;; quote ;; ws ;; Str "+");
    rule "template_literal" true
      (Grp (Str "SELECT" <|> Str "INSERT" <|> Str "UPDATE" <|> Str "DELETE") ;;
       lazy_any ;; Str "${" ;; lazy_any ;; Str "}");
    rule "interpolation" true
      (Grp (Str "query" <|> Str "execute") ;; ws ;; Str "(" ;; ws ;;
       quote ;; lazy_any ;; Str "${" ;; lazy_any ;; Str "}" ;; lazy_any ;;
       quote) ].

Definition xss : list pattern :=
  [ {| name := "innerHTML"; ignore_case := false; message := "";
       regex_ := Str ".innerHTML" ;; ws ;; Str "=";
       suggestion := "Use textContent or DOM methods" |};
    {| name := "document.write"; ignore_case := false; message := "";
       regex_ := Str "document.write" ;; ws ;; Str "(";
       suggestion := "Use DOM manipulation" |};
    {| name := "eval"; ignore_case := false; message := "";
       regex_ := WordB ;; Str "eval" ;; ws ;; Str "(";
       suggestion := "Avoid eval entirely" |};
    {| name := "dangerouslySetInnerHTML"; ignore_case := false; message := "";
       regex_ := Str "dangerouslySetInnerHTML";
       suggestion := "Sanitize HTML first" |} ].

Definition commandInjection : list pattern :=
  [ rule "exec_concat" true
      (Str "exec" ;; ws ;; Str "(" ;; ws ;; quote ;; lazy_any ;; Str "${" ;;
       lazy_any ;; Str "}");
    rule "spawn_concat" true
      (Str "spawn" ;; ws ;; Str "(" ;; ws ;; quote ;; lazy_any ;; Str "+");
    rule "shell_interpolation" true
      (Str "child_process" ;; lazy_any ;; Str "${") ].

Definition hashMap : list pattern :=
  [ rule "std_hashmap" false (Str "std::collections::HashMap");
    rule "std_hashset" false (Str "std::collections::HashSet");
    rule "hashmap_new" false
      (Str "HashMap" ;; ws ;; Str "::" ;; ws ;; Str "new" ;; ws ;; Str "(");
    rule "hashmap_generic" false (Str "HashMap" ;; ws ;; Str "<") ].

Definition not_char (c : ascii) : regex := Set_ true [CChar c].

(** The source text of this message holds the two code units 194 and 178
    between [n] and the closing parenthesis. *)
Definition nested_loops_message : string :=
  "Nested loops detected - O(n"
  ++ String (ascii_of_nat 194) (String (ascii_of_nat 178) "")
  ++ ") complexity".

Definition ident_start : list citem :=
  [CRange "a" "z"; CRange "A" "Z"; CChar "_"; CChar "$"].
Definition ident_part : list citem :=
  [CRange "a" "z"; CRange "A" "Z"; CRange "0" "9"; CChar "_"; CChar "$"].

Definition performance : list pattern :=
  [ {| name := "nested_loops"; ignore_case := false;
       regex_ := Str "for" ;; ws ;; Str "(" ;; Star (not_char ")") ;; Str ")" ;;
                 ws ;; Str "{" ;; Star (not_char "}") ;; Str "for" ;; ws ;;
                 Str "(" ;; Star (not_char ")") ;; Str ")";
       message := nested_loops_message;
       suggestion := "Consider using Map/Set for lookups" |};
    {| name := "json_deep_clone"; ignore_case := false;
       regex_ := Str "JSON.parse" ;; ws ;; Str "(" ;; ws ;; Str "JSON.stringify";
       message := "JSON.parse(JSON.stringify()) is slow for deep cloning";
       suggestion := "Use structuredClone() or a proper deep clone library" |};
    {| name := "spread_in_loop"; ignore_case := false;
       regex_ := Str "..." ;; Set_ false ident_start ;;
                 Star (Set_ false ident_part) ;; ws ;; Str ")";
       message := "Spread operator in potential loop";
       suggestion := "Pre-allocate arrays for better performance" |} ].

(** [code.match(pattern.regex)]. *)
Definition matches_of (p : pattern) (code : string) : option (list string) :=
  str_match (ignore_case p) (regex_ p) code.

(** ** Violations *)

Record violation : Type := {
  v_type : string;
  v_pattern : option string;
  v_severity : severity;
  v_message : string;
  v_matches : option (list string);
  v_suggestion : string
}.

(** [_maskSecret]: the first quoted literal of at least four characters is
    rewritten.  The regex is a quote, a group of four or more characters
    that are not quotes, and a quote; group 1 is therefore the match without
    its first and its last character. *)
Definition mask_regex : regex := quote ;; Grp (AtLeast 4 not_quote) ;; quote.

Definition mask_group1 (m : string) : string :=
  take (String.length m - 2) (drop 1 m).

Definition mask_literal (m : string) : string :=
  let value := mask_group1 m in
  if String.length value <=? 4 then m
  else DQ ++ take 2 value
       ++ repeat_string "*" (Nat.min (String.length value - 4) 20)
       ++ slice_last 2 value ++ DQ.

Definition _maskSecret (secret : string) : string :=
  replace_first false mask_regex mask_literal secret.

(** The loop shared by the six [_check...] methods: one violation per rule
    that matches, in catalogue order. *)
Fixpoint check (mk : pattern -> list string -> violation)
  (rules : list pattern) (code : string) : list violation :=
  match rules with
  | [] => []
  | p :: rules' =>
      match matches_of p code with
      | Some ms => mk p ms :: check mk rules' code
      | None => check mk rules' code
      end
  end.

Definition _checkSecrets : string -> list violation :=
  check (fun p ms =>
    {| v_type := "hardcoded_secret";
       v_pattern := Some (name p);
       v_severity := CRITICAL;
       v_message := "Hardcoded " ++ name p ++ " detected";
       v_matches := Some (map _maskSecret ms);
       v_suggestion := "Use environment variables: process.env.SECRET_NAME" |})
    secrets.

Definition _checkSQLInjection : string -> list violation :=
  check (fun p ms =>
    {| v_type := "sql_injection";
       v_pattern := None;
       v_severity := CRITICAL;
       v_message := "SQL injection vulnerability: string concatenation in query";
       v_matches := Some (firstn 3 ms);
       v_suggestion :=
         "Use parameterized queries: db.query(" ++ DQ
         ++ "SELECT * FROM users WHERE id = ?" ++ DQ ++ ", [id])" |})
    sqlInjection.

Definition _checkXSS : string -> list violation :=
  check (fun p _ =>
    {| v_type := "xss_vulnerability";
       v_pattern := None;
       v_severity := CRITICAL;
       v_message := "XSS vulnerability: " ++ name p;
       v_matches := None;
       v_suggestion := suggestion p |})
    xss.

Definition _checkCommandInjection : string -> list violation :=
  check (fun _ _ =>
    {| v_type := "command_injection";
       v_pattern := None;
       v_severity := CRITICAL;
       v_message := "Command injection vulnerability detected";
       v_matches := None;
       v_suggestion := "Use parameterized command execution or input sanitization" |})
    commandInjection.

Definition _checkHashMapViolations : string -> list violation :=
  check (fun _ ms =>
    {| v_type := "hashmap_performance";
       v_pattern := None;
       v_severity := HIGH;
       v_message := "HashMap causes 40% performance regression vs FxHashMap";
       v_matches := Some (firstn 5 ms);
       v_suggestion := "Replace std::collections::HashMap with rustc_hash::FxHashMap" |})
    hashMap.

Definition _checkPerformanceAntiPatterns : string -> list violation :=
  check (fun p _ =>
    {| v_type := "performance_antipattern";
       v_pattern := Some (name p);
       v_severity := MEDIUM;
       v_message := message p;
       v_matches := None;
       v_suggestion := suggestion p |})
    performance.

(** ** [validatePre] *)

(** The object [validatePre] returns.  The fail-open branch builds it
    without the two counts.  No branch gives it a [performanceCompliant]
    property. *)
Record pre_result : Type := {
  passed : bool;
  violations : list violation;
  criticalCount : option nat;
  totalCount : option nat;
  responseTime : Q
}.

Definition is_critical (v : violation) : bool :=
  severity_eqb (v_severity v) CRITICAL.

(** [t0] and [t1] are the two readings of [performance.now()].  The
    counters of [this.metrics] are left out: they feed [getMetrics] only. *)
Definition validatePre (o : options) (code : value) (t0 t1 : Q) : pre_result :=
  match code with
  | JStr (String _ _ as text) =>
      let security :=
        if enableSecurityChecks o
        then (_checkSecrets text ++ _checkSQLInjection text
              ++ _checkXSS text ++ _checkCommandInjection text)%list
        else [] in
      let perf :=
        if enablePerformanceChecks o
        then (_checkHashMapViolations text
              ++ _checkPerformanceAntiPatterns text)%list
        else [] in
      let violations := (security ++ perf)%list in
      let criticalViolations := filter is_critical violations in
      {| passed := if strictMode o
                   then Nat.eqb (List.length violations) 0
                   else Nat.eqb (List.length criticalViolations) 0;
         violations := violations;
         criticalCount := Some (List.length criticalViolations);
         totalCount := Some (List.length violations);
         responseTime := (t1 - t0)%Q |}
  | _ =>
      (* [!code || typeof code !== 'string'] *)
      {| passed := true; violations := []; criticalCount := None;
         totalCount := None; responseTime := (t1 - t0)%Q |}
  end.

(** ** [validatePost] *)

Record issue : Type := {
  i_type : string;
  i_severity : severity;
  i_message : string;
  i_matches : option (list string);
  i_suggestion : string
}.

Record post_result : Type := {
  post_passed : bool;
  qualityScore : Z;
  issues : list issue
}.

(** [_extractCode] of this class. *)
Definition _extractCode (result : value) : value :=
  match result with
  | JStr _ => result
  | _ =>
      if truthy (get result "code") then get result "code"
      else if truthy (get result "content") then get result "content"
      else if truthy (get (get result "data") "code")
           then get (get result "data") "code"
      else JNull
  end.

Definition try_catch_re : regex :=
  Str "try" ;; ws ;; Str "{" ;; LazyStar (Set_ false [CSpace; CNotSpace]) ;;
  Str "}" ;; ws ;; Str "catch".
Definition promise_catch_re : regex := Str ".catch" ;; ws ;; Str "(".
Definition async_re : regex :=
  (Str "async" ;; Plus (Cls CSpace) ;; Str "function")
  <|> (Str "async" ;; ws ;; Str "(").
Definition await_re : regex := Str "await" ;; Plus (Cls CSpace).

Record error_handling : Type := {
  hasProperHandling : bool;
  eh_message : string
}.

Definition _checkErrorHandling (code : string) : error_handling :=
  let hasTryCatch := test false try_catch_re code in
  let hasPromiseCatch := test false promise_catch_re code in
  let hasAsyncAwait := test false async_re code in
  let hasAwait := test false await_re code in
  let needsErrorHandling := hasAsyncAwait || hasAwait in
  let hasProperHandling :=
    hasTryCatch || hasPromiseCatch || negb needsErrorHandling in
  {| hasProperHandling := hasProperHandling;
     eh_message := if needsErrorHandling && negb hasProperHandling
                   then "Async code without proper error handling"
                   else "Error handling present" |}.

Definition digits (n m : nat) : regex := Between n m (Cls CDigit).

Definition hardcoded_patterns : list regex :=
  [ (* IP addresses *)
    quote ;; digits 1 3 ;; Str "." ;; digits 1 3 ;; Str "." ;; digits 1 3 ;;
    Str "." ;; digits 1 3 ;; quote;
    (* external URLs *)
    quote ;; Grp (Str "http" <|> Str "https") ;; Str "://" ;;
    NotAhead (Str "localhost") ;; Plus not_quote ;; quote;
    (* port numbers *)
    Str ":" ;; ws ;; quote ;; digits 4 5 ;; quote ].

Record hardcoded : Type := {
  found : bool;
  hc_matches : list string;
  hc_message : string
}.

Definition _checkHardcodedValues (code : string) : hardcoded :=
  let matches :=
    flat_map (fun r => match str_match false r code with
                       | Some l => l
                       | None => []
                       end) hardcoded_patterns in
  let n := List.length matches in
  {| found := 0 <? n;
     hc_matches := matches;
     hc_message := if 0 <? n
                   then "Found " ++ decimal n ++ " hardcoded value(s)"
                   else "No hardcoded values found" |}.

Record memory_leaks : Type := {
  potential : bool;
  ml_message : string
}.

Definition _checkMemoryLeaks (code : string) : memory_leaks :=
  let hasSetInterval := test false (Str "setInterval" ;; ws ;; Str "(") code in
  let hasClearInterval := test false (Str "clearInterval") code in
  let hasAddEventListener :=
    test false (Str "addEventListener" ;; ws ;; Str "(") code in
  let hasRemoveEventListener := test false (Str "removeEventListener") code in
  let potentialLeak :=
    (hasSetInterval && negb hasClearInterval)
    || (hasAddEventListener && negb hasRemoveEventListener) in
  {| potential := potentialLeak;
     ml_message :=
       if potentialLeak
       then "Potential memory leak: interval or event listener without cleanup"
       else "No obvious memory leaks detected" |}.

(** The local variables [issues] and [qualityScore] that the three checks
    update in turn. *)
Definition post_state : Type := (list issue * Z)%type.

Definition check_error_handling (code : string) (st : post_state) : post_state :=
  let '(issues, qualityScore) := st in
  let errorHandling := _checkErrorHandling code in
  if negb (hasProperHandling errorHandling)
  then ((issues ++ [ {| i_type := "missing_error_handling";
                        i_severity := MEDIUM;
                        i_message := eh_message errorHandling;
                        i_matches := None;
                        i_suggestion :=
                          "Add try-catch blocks or .catch() for promises" |} ])%list,
        (qualityScore - 15)%Z)
  else st.

Definition check_hardcoded (code : string) (st : post_state) : post_state :=
  let '(issues, qualityScore) := st in
  let hc := _checkHardcodedValues code in
  if found hc
  then ((issues ++ [ {| i_type := "hardcoded_values";
                        i_severity := LOW;
                        i_message := hc_message hc;
                        i_matches := Some (hc_matches hc);
                        i_suggestion :=
                          "Move hardcoded values to configuration" |} ])%list,
        (qualityScore - 5)%Z)
  else st.

Definition check_memory_leaks (code : string) (st : post_state) : post_state :=
  let '(issues, qualityScore) := st in
  let memoryLeaks := _checkMemoryLeaks code in
  if potential memoryLeaks
  then ((issues ++ [ {| i_type := "potential_memory_leak";
                        i_severity := HIGH;
                        i_message := ml_message memoryLeaks;
                        i_matches := None;
                        i_suggestion :=
                          "Ensure proper cleanup of intervals and event listeners" |} ])%list,
        (qualityScore - 20)%Z)
  else st.

Definition post_result_of (st : post_state) : post_result :=
  let '(issues, qualityScore) := st in
  {| post_passed := (70 <=? qualityScore)%Z;
     qualityScore := Z.max 0 qualityScore;
     issues := issues |}.

(** A truthy [code] that is not a string passes through
    [_checkErrorHandling] ([test] converts its argument) and then makes
    [code.match] a call of [undefined]. *)
Definition validatePost (o : options) (result : value) : outcome post_result :=
  let init : post_state := ([], 100%Z) in
  let code := _extractCode result in
  if truthy code && enableQualityChecks o
  then match code with
       | JStr text =>
           Returns (post_result_of
                      (check_memory_leaks text
                         (check_hardcoded text
                            (check_error_handling text init))))
       | _ => Raises TypeError
       end
  else Returns (post_result_of init).

End PatternValidator.

(* ================================================================== *)
(** * TruthScoring *)
(* ================================================================== *)

Module TruthScoring.

Import PatternValidator.
Import PrimFloat.
Open Scope float_scope.

(** [this.options] once the constructor has filled in the defaults. *)
Record options : Type := {
  threshold : float;
  warningThreshold : float;
  criticalThreshold : float;
  autoRollback : bool
}.

Definition default_options : options :=
  {| threshold := 0.95; warningThreshold := 0.85; criticalThreshold := 0.75;
     autoRollback := true |}.

Record components : Type := {
  security : float;
  quality : float;
  performance_ : float
}.

Inductive status : Type := excellent | good | warning | critical.

Record score : Type := {
  overallScore : float;
  passed : bool;
  score_threshold : float;
  score_components : components;
  score_status : status;
  score_violations : list violation;
  score_issues : list issue
}.

(** What [calculateScore] resolves to: the score, or the object of its
    [catch] branch, [{overallScore: 0, passed: false, error}]. *)
Inductive score_result : Type :=
| Scored (r : score)
| ScoreFailed (e : error).

Record metrics : Type := {
  totalScores : nat;
  passedCount : nat;
  failedCount : nat;
  averageScore : float;
  rollbackCount : nat
}.

Record state : Type := {
  opts : options;
  scoreHistory : list (score * Q);      (* a score and its [timestamp] *)
  metrics_ : metrics
}.

Definition new (o : options) : state :=
  {| opts := o; scoreHistory := [];
     metrics_ := {| totalScores := 0; passedCount := 0; failedCount := 0;
                    averageScore := 0; rollbackCount := 0 |} |}.

Definition count_severity (s : severity) (vs : list violation) : nat :=
  List.length (filter (fun v => severity_eqb (v_severity v) s) vs).

Definition _calculateSecurityScore (preResult : pre_result) : float :=
  if PatternValidator.passed preResult
     && Nat.eqb (List.length (violations preResult)) 0
  then 1
  else
    let criticalCount := count_severity CRITICAL (violations preResult) in
    let highCount := count_severity HIGH (violations preResult) in
    let mediumCount := count_severity MEDIUM (violations preResult) in
    let score := 1 in
    let score := score - Double.of_nat criticalCount * 0.3 in
    let score := score - Double.of_nat highCount * 0.15 in
    let score := score - Double.of_nat mediumCount * 0.05 in
    Double.Math_max 0 score.

Definition _getScoreStatus (o : options) (s : float) : status :=
  if 0.95 <=? s then excellent
  else if warningThreshold o <=? s then good
  else if criticalThreshold o <=? s then warning
  else critical.

(** [slice(-n)]. *)
Definition last_n {A : Type} (n : nat) (l : list A) : list A :=
  skipn (List.length l - n) l.

Definition _trackScore (st : state) (result : score) (now : Q) : state :=
  let m := metrics_ st in
  let total := S (totalScores m) in
  let m' :=
    {| totalScores := total;
       passedCount := if passed result then S (passedCount m) else passedCount m;
       failedCount := if passed result then failedCount m else S (failedCount m);
       averageScore :=
         (averageScore m * (Double.of_nat total - 1) + overallScore result)
         / Double.of_nat total;
       rollbackCount := rollbackCount m |} in
  let history := (scoreHistory st ++ [(result, now)])%list in
  {| opts := opts st;
     scoreHistory := if (1000 <? List.length history)%nat
                     then last_n 1000 history else history;
     metrics_ := m' |}.

(** [preResult.performanceCompliant]: the object built by
    [PatternValidator.validatePre] has no property of that name, so the
    read yields [undefined]. *)
Definition performanceCompliant (preResult : pre_result) : value := JUndefined.

(** [calculateScore(code)].  [t0], [t1] are the clock readings taken inside
    [validatePre], [now] the one of [_trackScore].  The validator is the
    one the constructor builds, with default options.  [passed] and the
    status come from the sum as it stands; what is reported is rounded to
    three decimals. *)
Definition calculateScore (st : state) (code : value) (t0 t1 now : Q)
  : score_result * state :=
  let preResult := validatePre PatternValidator.default_options code t0 t1 in
  match validatePost PatternValidator.default_options (JObj [("code", code)]) with
  | Raises e => (ScoreFailed e, st)
  | Returns postResult =>
      let securityScore := _calculateSecurityScore preResult in
      let qualityScore := Double.of_Z (qualityScore postResult) / 100 in
      let performanceScore :=
        if truthy (performanceCompliant preResult) then 1.0 else 0.8 in
      let overallScore :=
        securityScore * 0.5 + qualityScore * 0.3 + performanceScore * 0.2 in
      let result :=
        {| overallScore := Double.round3 overallScore;
           passed := threshold (opts st) <=? overallScore;
           score_threshold := threshold (opts st);
           score_components :=
             {| security := Double.round3 securityScore;
                quality := Double.round3 qualityScore;
                performance_ := Double.round3 performanceScore |};
           score_status := _getScoreStatus (opts st) overallScore;
           score_violations := violations preResult;
           score_issues := issues postResult |} in
      (Scored result, _trackScore st result now)
  end.

(** ** [verify] *)

Record checks : Type := {
  codeCorrectness : bool;
  checks_security : bool;
  checks_performance : bool;
  checks_quality : bool
}.

(** The object [verify] resolves to: the score, with [verified], [checks]
    and the threshold the call used in the place of the one of the score. *)
Record verification : Type := {
  v_score : score;
  verified : bool;
  v_threshold : float;
  v_checks : checks
}.

(** What [verify] and [_performRollback] emit; [rollbackPerformed] carries
    the score and the threshold of the verification. *)
Inductive event : Type :=
| verificationPassed (r : verification)
| verificationFailed (r : verification)
| rollbackPerformed (score threshold : float)
| rollbackFailed (e : error).

Section Verify.

(** The state of whatever the rollback acts on. *)
Variable W : Type.

(** [options.rollbackFn]: an [async] function of the caller; it resolves
    to a value nobody reads ([None]) or throws.  A truthy value that is no
    function is called all the same, and that call throws a [TypeError]. *)
Definition rollback_fn : Type := W -> option thrown * W.

Record verify_options : Type := {
  vo_threshold : option float;
  vo_rollbackFn : option rollback_fn
}.

(** [_performRollback].  Its [catch] clause reads [error.message]: when
    the rollback function threw [undefined] or [null] that read throws, no
    event is emitted and the call rejects. *)
Definition _performRollback (rollbackFn : rollback_fn) (result : verification)
  (st : state) (w : W) : outcome unit * state * W * list event :=
  let '(thrown, w') := rollbackFn w in
  match thrown with
  | None =>
      let m := metrics_ st in
      (Returns tt,
       {| opts := opts st; scoreHistory := scoreHistory st;
          metrics_ := {| totalScores := totalScores m;
                         passedCount := passedCount m;
                         failedCount := failedCount m;
                         averageScore := averageScore m;
                         rollbackCount := S (rollbackCount m) |} |},
       w',
       [rollbackPerformed (overallScore (v_score result)) (v_threshold result)])
  | Some (ThrownError e) => (Returns tt, st, w', [rollbackFailed e])
  | Some ThrownNullish => (Raises TypeError, st, w', [])
  end.

(** What a call of [verify] leaves behind. *)
Record verify_run : Type := {
  vr_resolved : outcome verification;
  vr_state : state;
  vr_world : W;
  vr_events : list event
}.

(** [verify(code, options)].  The error object of [calculateScore] has no
    [components], and reading [score.components.security] throws.  A
    rollback that rejects makes [verify] reject. *)
Definition verify (st : state) (code : value) (o : verify_options)
  (t0 t1 now : Q) (w : W) : verify_run :=
  let threshold := Double.or_else (vo_threshold o) (threshold (opts st)) in
  match calculateScore st code t0 t1 now with
  | (ScoreFailed _, st') =>
      {| vr_resolved := Raises TypeError; vr_state := st'; vr_world := w;
         vr_events := [] |}
  | (Scored score, st') =>
      let result :=
        {| v_score := score;
           verified := threshold <=? overallScore score;
           v_threshold := threshold;
           v_checks :=
             {| codeCorrectness := 0.9 <=? security (score_components score);
                checks_security :=
                  Nat.eqb (List.length
                             (filter is_critical (score_violations score))) 0;
                checks_performance :=
                  0.8 <=? performance_ (score_components score);
                checks_quality :=
                  0.7 <=? quality (score_components score) |} |} in
      if verified result
      then {| vr_resolved := Returns result; vr_state := st'; vr_world := w;
              vr_events := [verificationPassed result] |}
      else
        match (if autoRollback (opts st) then vo_rollbackFn o else None) with
        | Some rollbackFn =>
            let '(settled, st'', w', emitted) :=
              _performRollback rollbackFn result st' w in
            {| vr_resolved := match settled with
                              | Returns _ => Returns result
                              | Raises e => Raises e
                              end;
               vr_state := st''; vr_world := w';
               vr_events := verificationFailed result :: emitted |}
        | None =>
            {| vr_resolved := Returns result; vr_state := st'; vr_world := w;
               vr_events := [verificationFailed result] |}
        end
  end.

End Verify.

End TruthScoring.

(* ================================================================== *)
(** * ValidationHooks *)
(* ================================================================== *)

Module ValidationHooks.

Import PatternValidator.
Open Scope Q_scope.

Definition priority : Type := severity.

Record hook_metrics : Type := {
  executions : nat;
  totalTime : Q
}.

(** A registry entry; [H] is the type of its handler. *)
Record hook (H : Type) : Type := {
  id : string;
  handler : H;
  hook_priority : priority;
  enabled : bool;
  metrics : hook_metrics
}.
Arguments id {H} h.
Arguments handler {H} h.
Arguments hook_priority {H} h.
Arguments enabled {H} h.
Arguments metrics {H} h.

(** Handlers are [async] functions of the caller.  A pre-hook returns any
    value or throws.  A post-hook throws or returns what its contract says:
    nothing ([None], for [undefined] or [null]) or an object with a [valid]
    property and, when [issues] is present, an array in it. *)
Record post_verdict : Type := {
  pv_valid : value;
  pv_issues : option (list value)
}.

Definition pre_handler : Type :=
  string -> value -> value -> supplied value.         (* toolName, params, context *)
Definition post_handler : Type :=
  string -> value -> value -> value -> supplied (option post_verdict).

(** What was passed as [handler] to a [register...] call. *)
Inductive handler_arg (H : Type) : Type :=
| Function (h : H)
| NotFunction (v : value).
Arguments Function {H} h.
Arguments NotFunction {H} v.

Record register_options : Type := {
  opt_priority : option priority;
  opt_enabled : option bool
}.

Definition no_options : register_options :=
  {| opt_priority := None; opt_enabled := None |}.

Inductive phase : Type := preToolUse | postToolUse.

Record intervention : Type := {
  hookId : string;
  reason : value;
  iv_severity : value;
  iv_suggestion : value
}.

Record pre_results : Type := {
  allowed : bool;
  interventions : list intervention;
  pre_toolName : string;
  pre_responseTime : Q
}.

Record post_validations : Type := {
  valid : bool;
  post_issues : list value;
  post_toolName : string;
  post_responseTime : Q
}.

Inductive event : Type :=
| hookError (ph : phase) (e : error)
| performanceViolation (ph : phase) (actual target : Q)
| preToolUseComplete (r : pre_results)
| postToolUseComplete (v : post_validations)
| hookRegistered (ph : phase) (hook_id : string)
| hookStateChanged (ph : phase) (hook_id : string) (on : bool).

Record options : Type := {
  preToolUseThreshold : Q;
  postToolUseThreshold : Q;
  strictMode : bool
}.

Definition default_options : options :=
  {| preToolUseThreshold := 1.0; postToolUseThreshold := 5.0;
     strictMode := false |}.

Record vh_metrics : Type := {
  preToolUseExecutions : nat;
  postToolUseExecutions : nat;
  preToolUseBlocked : nat;
  postToolUseBlocked : nat;
  averagePreTime : Q;
  averagePostTime : Q;
  performanceViolations : nat
}.

(** The two registries are [Map]s: insertion order is kept, and setting an
    existing key replaces the entry where it stands. *)
Definition registry (H : Type) : Type := list (string * hook H).

Record state : Type := {
  opts : options;
  hooks_pre : registry pre_handler;
  hooks_post : registry post_handler;
  vmetrics : vh_metrics;
  events : list event;        (* what [emit] was called with, oldest first *)
  tick : nat                  (* readings of [performance.now()] taken *)
}.

(** An instance with no hook registered
    ([new ValidationHooks({enabledHooks: []})]). *)
Definition empty (o : options) : state :=
  {| opts := o; hooks_pre := []; hooks_post := [];
     vmetrics := {| preToolUseExecutions := 0; postToolUseExecutions := 0;
                    preToolUseBlocked := 0; postToolUseBlocked := 0;
                    averagePreTime := 0; averagePostTime := 0;
                    performanceViolations := 0 |};
     events := []; tick := 0 |}.

Definition emit (e : event) (st : state) : state :=
  {| opts := opts st; hooks_pre := hooks_pre st; hooks_post := hooks_post st;
     vmetrics := vmetrics st; events := (events st ++ [e])%list;
     tick := tick st |}.

(** [Map.prototype.set]. *)
Fixpoint map_set {H : Type} (k : string) (h : hook H) (m : registry H)
  : registry H :=
  match m with
  | [] => [(k, h)]
  | (k', h') :: m' =>
      if String.eqb k' k then (k, h) :: m' else (k', h') :: map_set k h m'
  end.

Definition new_hook {H : Type} (i : string) (h : H) (o : register_options)
  : hook H :=
  {| id := i;
     handler := h;
     hook_priority := match opt_priority o with Some p => p | None => MEDIUM end;
     enabled := match opt_enabled o with Some b => b | None => true end;
     metrics := {| executions := 0; totalTime := 0 |} |}.

Definition registerPreToolUse (i : string) (h : handler_arg pre_handler)
  (o : register_options) (st : state) : outcome state :=
  match h with
  | NotFunction _ =>
      Raises (Error ("PreToolUse hook '" ++ i ++ "' must be a function"))
  | Function f =>
      Returns
        (emit (hookRegistered preToolUse i)
           {| opts := opts st;
              hooks_pre := map_set i (new_hook i f o) (hooks_pre st);
              hooks_post := hooks_post st;
              vmetrics := vmetrics st; events := events st; tick := tick st |})
  end.

Definition registerPostToolUse (i : string) (h : handler_arg post_handler)
  (o : register_options) (st : state) : outcome state :=
  match h with
  | NotFunction _ =>
      Raises (Error ("PostToolUse hook '" ++ i ++ "' must be a function"))
  | Function f =>
      Returns
        (emit (hookRegistered postToolUse i)
           {| opts := opts st;
              hooks_pre := hooks_pre st;
              hooks_post := map_set i (new_hook i f o) (hooks_post st);
              vmetrics := vmetrics st; events := events st; tick := tick st |})
  end.

Definition set_enabled {H : Type} (on : bool) (h : hook H) : hook H :=
  {| id := id h; handler := handler h; hook_priority := hook_priority h;
     enabled := on; metrics := metrics h |}.

Definition has_key {H : Type} (i : string) (m : registry H) : bool :=
  existsb (fun kh => String.eqb (fst kh) i) m.

Definition switch {H : Type} (i : string) (on : bool) (m : registry H)
  : registry H :=
  map (fun kh => if String.eqb (fst kh) i
                 then (fst kh, set_enabled on (snd kh)) else kh) m.

(** [setHookEnabled(phase, id, enabled)], for the two phases that exist. *)
Definition setHookEnabled (ph : phase) (i : string) (on : bool) (st : state)
  : state :=
  match ph with
  | preToolUse =>
      if has_key i (hooks_pre st)
      then emit (hookStateChanged ph i on)
             {| opts := opts st; hooks_pre := switch i on (hooks_pre st);
                hooks_post := hooks_post st; vmetrics := vmetrics st;
                events := events st; tick := tick st |}
      else st
  | postToolUse =>
      if has_key i (hooks_post st)
      then emit (hookStateChanged ph i on)
             {| opts := opts st; hooks_pre := hooks_pre st;
                hooks_post := switch i on (hooks_post st);
                vmetrics := vmetrics st; events := events st; tick := tick st |}
      else st
  end.

(** [priorityOrder[p] || 2]: the 0 of [CRITICAL] is falsy and becomes 2. *)
Definition priority_rank (p : priority) : nat :=
  let priorityOrder := match p with
                       | CRITICAL => 0 | HIGH => 1 | MEDIUM => 2 | LOW => 3
                       end%nat in
  if Nat.eqb priorityOrder 0 then 2%nat else priorityOrder.

(** [Array.prototype.sort] is stable: an element goes behind those that do
    not rank above it. *)
Fixpoint insert_by {A : Type} (rank : A -> nat) (x : A) (l : list A) : list A :=
  match l with
  | [] => [x]
  | y :: l' =>
      if (rank y <=? rank x)%nat then y :: insert_by rank x l'
      else x :: y :: l'
  end.

Definition stable_sort {A : Type} (rank : A -> nat) (l : list A) : list A :=
  fold_left (fun acc x => insert_by rank x acc) l [].

Definition _getSortedHooks {H : Type} (m : registry H) : list (hook H) :=
  stable_sort (fun h => priority_rank (hook_priority h)) (map snd m).

(** [hook.metrics.executions++; hook.metrics.totalTime += hookTime], on the
    entry the registry shares with the sorted array. *)
Definition bump {H : Type} (i : string) (hookTime : Q) (m : registry H)
  : registry H :=
  map (fun kh =>
         if String.eqb (fst kh) i
         then (fst kh,
               {| id := id (snd kh); handler := handler (snd kh);
                  hook_priority := hook_priority (snd kh);
                  enabled := enabled (snd kh);
                  metrics :=
                    {| executions := S (executions (metrics (snd kh)));
                       totalTime := totalTime (metrics (snd kh)) + hookTime |} |})
         else kh) m.

Section Pipeline.

(** [now n] is what the [n]-th call of [performance.now()] returns. *)
Variable now : nat -> Q.

(** What the body of the [for] loop has changed so far. *)
Record pre_loop : Type := {
  pl_hooks : registry pre_handler;
  pl_allowed : bool;
  pl_interventions : list intervention;
  pl_blocked : nat;
  pl_tick : nat
}.

Definition or_default (v d : value) : value := if truthy v then v else d.

(** The [for] loop of [executePreToolUse]; [Some t] when a handler threw
    [t], which leaves the loop for the [catch] clause. *)
Fixpoint pre_loop_run (strict : bool) (toolName : string) (params context : value)
  (hooks : list (hook pre_handler)) (l : pre_loop) : pre_loop * option thrown :=
  match hooks with
  | [] => (l, None)
  | h :: rest =>
      if negb (enabled h) then pre_loop_run strict toolName params context rest l
      else
        let hookStart := now (pl_tick l) in
        match handler h toolName params context with
        | Throws t =>
            ({| pl_hooks := pl_hooks l; pl_allowed := pl_allowed l;
                pl_interventions := pl_interventions l;
                pl_blocked := pl_blocked l; pl_tick := S (pl_tick l) |},
             Some t)
        | Gives result =>
            let hookTime := now (S (pl_tick l)) - hookStart in
            let hooks' := bump (id h) hookTime (pl_hooks l) in
            if truthy result && negb (truthy (get result "allowed"))
            then
              let l' :=
                {| pl_hooks := hooks';
                   pl_allowed := false;
                   pl_interventions :=
                     (pl_interventions l ++
                      [ {| hookId := id h;
                           reason := get result "reason";
                           iv_severity :=
                             or_default (get result "severity") (JStr "HIGH");
                           iv_suggestion := get result "suggestion" |} ])%list;
                   pl_blocked := S (pl_blocked l);
                   pl_tick := S (S (pl_tick l)) |} in
              if strict then (l', None)
              else pre_loop_run strict toolName params context rest l'
            else
              pre_loop_run strict toolName params context rest
                {| pl_hooks := hooks'; pl_allowed := pl_allowed l;
                   pl_interventions := pl_interventions l;
                   pl_blocked := pl_blocked l;
                   pl_tick := S (S (pl_tick l)) |}
        end
  end.

Definition update_average (avg : Q) (count : nat) (newTime : Q) : Q :=
  (avg * inject_Z (Z.of_nat count - 1) + newTime) / inject_Z (Z.of_nat count).

Definition Qgt_bool (a b : Q) : bool := negb (Qle_bool a b).

(** [executePreToolUse].  The [catch] clause reads [error.message] for the
    [hookError] event: after a handler that threw [undefined] or [null] the
    read throws, and the call rejects with that [TypeError] where it
    stands, the counters of the hooks already updated and nothing
    emitted. *)
Definition executePreToolUse (toolName : string) (params context : value)
  (st : state) : outcome pre_results * state :=
  let startTime := now (tick st) in
  let executions := S (preToolUseExecutions (vmetrics st)) in
  let '(l, thrown) :=
    pre_loop_run (strictMode (opts st)) toolName params context
      (_getSortedHooks (hooks_pre st))
      {| pl_hooks := hooks_pre st; pl_allowed := true; pl_interventions := [];
         pl_blocked := preToolUseBlocked (vmetrics st);
         pl_tick := S (tick st) |} in
  let m := vmetrics st in
  match thrown with
  | Some ThrownNullish =>
      (Raises TypeError,
       {| opts := opts st;
          hooks_pre := pl_hooks l;
          hooks_post := hooks_post st;
          vmetrics :=
            {| preToolUseExecutions := executions;
               postToolUseExecutions := postToolUseExecutions m;
               preToolUseBlocked := pl_blocked l;
               postToolUseBlocked := postToolUseBlocked m;
               averagePreTime := averagePreTime m;
               averagePostTime := averagePostTime m;
               performanceViolations := performanceViolations m |};
          events := events st;
          tick := pl_tick l |})
  | _ =>
      let caught := match thrown with
                    | Some (ThrownError e) => [hookError preToolUse e]
                    | _ => []
                    end in
      let responseTime := now (pl_tick l) - startTime in
      let results :=
        {| allowed := pl_allowed l; interventions := pl_interventions l;
           pre_toolName := toolName; pre_responseTime := responseTime |} in
      let over := Qgt_bool responseTime (preToolUseThreshold (opts st)) in
      (Returns results,
       {| opts := opts st;
          hooks_pre := pl_hooks l;
          hooks_post := hooks_post st;
          vmetrics :=
            {| preToolUseExecutions := executions;
               postToolUseExecutions := postToolUseExecutions m;
               preToolUseBlocked := pl_blocked l;
               postToolUseBlocked := postToolUseBlocked m;
               averagePreTime :=
                 update_average (averagePreTime m) executions responseTime;
               averagePostTime := averagePostTime m;
               performanceViolations :=
                 if over then S (performanceViolations m)
                 else performanceViolations m |};
          events :=
            (events st ++ caught
             ++ (if over
                 then [performanceViolation preToolUse responseTime
                         (preToolUseThreshold (opts st))]
                 else [])
             ++ [preToolUseComplete results])%list;
          tick := S (pl_tick l) |})
  end.

(** What the body of the [for] loop of [executePostToolUse] has changed so
    far. *)
Record post_loop : Type := {
  ql_hooks : registry post_handler;
  ql_valid : bool;
  ql_issues : list value;
  ql_blocked : nat;
  ql_tick : nat
}.

(** [hookResult.valid === false]. *)
Definition is_false (v : value) : bool :=
  match v with JBool false => true | _ => false end.

Fixpoint post_loop_run (toolName : string) (params result context : value)
  (hooks : list (hook post_handler)) (l : post_loop) : post_loop * option thrown :=
  match hooks with
  | [] => (l, None)
  | h :: rest =>
      if negb (enabled h) then post_loop_run toolName params result context rest l
      else
        let hookStart := now (ql_tick l) in
        match handler h toolName params result context with
        | Throws t =>
            ({| ql_hooks := ql_hooks l; ql_valid := ql_valid l;
                ql_issues := ql_issues l; ql_blocked := ql_blocked l;
                ql_tick := S (ql_tick l) |},
             Some t)
        | Gives hookResult =>
            let hookTime := now (S (ql_tick l)) - hookStart in
            let hooks' := bump (id h) hookTime (ql_hooks l) in
            post_loop_run toolName params result context rest
              match hookResult with
              | None =>
                  {| ql_hooks := hooks'; ql_valid := ql_valid l;
                     ql_issues := ql_issues l; ql_blocked := ql_blocked l;
                     ql_tick := S (S (ql_tick l)) |}
              | Some r =>
                  {| ql_hooks := hooks';
                     ql_valid := if is_false (pv_valid r) then false
                                 else ql_valid l;
                     ql_issues :=
                       match pv_issues r with
                       | Some new => (ql_issues l ++ new)%list
                       | None => ql_issues l
                       end;
                     ql_blocked := if is_false (pv_valid r)
                                   then S (ql_blocked l) else ql_blocked l;
                     ql_tick := S (S (ql_tick l)) |}
              end
        end
  end.

(** [executePostToolUse], with the same [catch] clause. *)
Definition executePostToolUse (toolName : string) (params result context : value)
  (st : state) : outcome post_validations * state :=
  let startTime := now (tick st) in
  let executions := S (postToolUseExecutions (vmetrics st)) in
  let '(l, thrown) :=
    post_loop_run toolName params result context
      (_getSortedHooks (hooks_post st))
      {| ql_hooks := hooks_post st; ql_valid := true; ql_issues := [];
         ql_blocked := postToolUseBlocked (vmetrics st);
         ql_tick := S (tick st) |} in
  let m := vmetrics st in
  match thrown with
  | Some ThrownNullish =>
      (Raises TypeError,
       {| opts := opts st;
          hooks_pre := hooks_pre st;
          hooks_post := ql_hooks l;
          vmetrics :=
            {| preToolUseExecutions := preToolUseExecutions m;
               postToolUseExecutions := executions;
               preToolUseBlocked := preToolUseBlocked m;
               postToolUseBlocked := ql_blocked l;
               averagePreTime := averagePreTime m;
               averagePostTime := averagePostTime m;
               performanceViolations := performanceViolations m |};
          events := events st;
          tick := ql_tick l |})
  | _ =>
      let caught := match thrown with
                    | Some (ThrownError e) => [hookError postToolUse e]
                    | _ => []
                    end in
      let responseTime := now (ql_tick l) - startTime in
      let validations :=
        {| valid := ql_valid l; post_issues := ql_issues l;
           post_toolName := toolName; post_responseTime := responseTime |} in
      let over := Qgt_bool responseTime (postToolUseThreshold (opts st)) in
      (Returns validations,
       {| opts := opts st;
          hooks_pre := hooks_pre st;
          hooks_post := ql_hooks l;
          vmetrics :=
            {| preToolUseExecutions := preToolUseExecutions m;
               postToolUseExecutions := executions;
               preToolUseBlocked := preToolUseBlocked m;
               postToolUseBlocked := ql_blocked l;
               averagePreTime := averagePreTime m;
               averagePostTime :=
                 update_average (averagePostTime m) executions responseTime;
               performanceViolations :=
                 if over then S (performanceViolations m)
                 else performanceViolations m |};
          events :=
            (events st ++ caught
             ++ (if over
                 then [performanceViolation postToolUse responseTime
                         (postToolUseThreshold (opts st))]
                 else [])
             ++ [postToolUseComplete validations])%list;
          tick := S (ql_tick l) |})
  end.

End Pipeline.

(** ** The hooks the constructor registers *)

(** [_extractCode] of this class. *)
Definition _extractCode (data : value) : value :=
  if negb (truthy data) then JNull
  else match data with
       | JStr _ => data
       | _ =>
           if truthy (get data "new_string") then get data "new_string"
           else if truthy (get data "content") then get data "content"
           else if truthy (get data "code") then get data "code"
           else if truthy (get data "command") then get data "command"
           else JNull
       end.

(** The validator of the instance,
    [new PatternValidator({strictMode: this.options.strictMode})]. *)
Definition validator_options (strict : bool) : PatternValidator.options :=
  {| enableSecurityChecks := true; enablePerformanceChecks := true;
     enableQualityChecks := true; PatternValidator.strictMode := strict |}.

Definition allow : value := JObj [("allowed", JBool true)].

Definition deny (reason severity suggestion : string) : value :=
  JObj [ ("allowed", JBool false); ("reason", JStr reason);
         ("severity", JStr severity); ("suggestion", JStr suggestion) ].

(** The handler of [security-validation].  The two clock readings of
    [validatePre] reach [responseTime] only, which the handler does not
    read. *)
Definition security_validation (strict : bool) : pre_handler :=
  fun toolName params _ =>
    if negb (mem_string toolName ["Write"; "Edit"; "Bash"]) then Gives allow
    else
      let code := _extractCode params in
      if negb (truthy code) then Gives allow
      else
        let result := validatePre (validator_options strict) code 0 0 in
        if negb (PatternValidator.passed result)
        then match filter is_critical (violations result) with
             | first :: _ =>
                 Gives (deny (v_message first) "CRITICAL" (v_suggestion first))
             | [] => Gives allow
             end
        else Gives allow.

Definition severity_name (s : severity) : string :=
  match s with
  | CRITICAL => "CRITICAL" | HIGH => "HIGH" | MEDIUM => "MEDIUM" | LOW => "LOW"
  end.

(** An issue of [validatePost] as the object it is. *)
Definition issue_value (i : PatternValidator.issue) : value :=
  JObj ([ ("type", JStr (i_type i));
          ("severity", JStr (severity_name (i_severity i)));
          ("message", JStr (i_message i)) ]
        ++ match i_matches i with
           | Some ms => [("matches", JArr (map JStr ms))]
           | None => []
           end
        ++ [ ("suggestion", JStr (i_suggestion i)) ])%list.

(** The handler of [quality-validation]. *)
Definition quality_validation (strict : bool) : post_handler :=
  fun toolName params result _ =>
    let code := if truthy (_extractCode result) then _extractCode result
                else _extractCode params in
    if negb (truthy code)
    then Gives (Some {| pv_valid := JBool true; pv_issues := Some [] |})
    else match validatePost (validator_options strict) (JObj [("code", code)]) with
         | Raises e => Throws (ThrownError e)
         | Returns validation =>
             Gives (Some {| pv_valid := JBool (post_passed validation);
                            pv_issues :=
                              Some (map issue_value (issues validation)) |})
         end.

Section Defaults.

(** [ToString], which [RegExp.prototype.test] applies to an argument that
    is no string; on an object it runs the [toString] the object has, code
    of the caller, and throws what that throws. *)
Variable ToString : value -> supplied string.

(** The handler of [performance-validation]. *)
Definition performance_validation : pre_handler :=
  fun toolName params _ =>
    if negb (mem_string toolName ["Write"; "Edit"]) then Gives allow
    else
      let code := _extractCode params in
      if negb (truthy code) then Gives allow
      else
        match (match code with JStr s => Gives s | _ => ToString code end) with
        | Throws t => Throws t
        | Gives text =>
            if test false (Str "std::collections::HashMap") text
            then Gives (deny "HashMap causes 40% performance regression" "HIGH"
                             "Use rustc_hash::FxHashMap instead")
            else Gives allow
        end.

Definition with_priority (p : priority) : register_options :=
  {| opt_priority := Some p; opt_enabled := None |}.

Definition or_same (st : state) (r : outcome state) : state :=
  match r with Returns st' => st' | Raises _ => st end.

(** [_registerDefaultHooks], on [this.options.enabledHooks]. *)
Definition _registerDefaultHooks (enabledHooks : list string) (st : state)
  : state :=
  let strict := strictMode (opts st) in
  let st1 :=
    if mem_string "security" enabledHooks
    then or_same st (registerPreToolUse "security-validation"
                       (Function (security_validation strict))
                       (with_priority CRITICAL) st)
    else st in
  let st2 :=
    if mem_string "performance" enabledHooks
    then or_same st1 (registerPreToolUse "performance-validation"
                        (Function performance_validation)
                        (with_priority HIGH) st1)
    else st1 in
  if mem_string "quality" enabledHooks
  then or_same st2 (registerPostToolUse "quality-validation"
                      (Function (quality_validation strict))
                      (with_priority MEDIUM) st2)
  else st2.

(** The instance the constructor leaves, from the options as it fills
    them in. *)
Definition new (o : options) (enabledHooks : list string) : state :=
  _registerDefaultHooks enabledHooks (empty o).

Definition default_hooks : list string := ["security"; "performance"; "quality"].

End Defaults.

End ValidationHooks.

(* ================================================================== *)
(** * SPARCIntegration *)
(* ================================================================== *)

Module SPARCIntegration.

Open Scope Q_scope.

Record phase_config : Type := {
  name : string;
  requiredOutputs : list string;
  qualityGate : Q
}.

(** [this.phases]; [Object.keys] lists the keys in this order. *)
Definition phases : list (string * phase_config) :=
  [ ("specification",
     {| name := "Specification";
        requiredOutputs := ["requirements"; "constraints"; "success_criteria"];
        qualityGate := 0.85 |});
    ("pseudocode",
     {| name := "Pseudocode";
        requiredOutputs := ["algorithm_design"; "data_structures"];
        qualityGate := 0.85 |});
    ("architecture",
     {| name := "Architecture";
        requiredOutputs := ["system_design"; "interfaces"; "schemas"];
        qualityGate := 0.90 |});
    ("refinement",
     {| name := "Refinement (TDD)";
        requiredOutputs := ["tests"; "implementation"; "coverage"];
        qualityGate := 0.95 |});
    ("completion",
     {| name := "Completion";
        requiredOutputs := ["integration"; "documentation"];
        qualityGate := 0.90 |}) ].

(** An issue as [validatePhase] and a custom validator build it; a property
    that is absent is [None]. *)
Record issue : Type := {
  i_type : option string;
  i_severity : option string;
  i_message : option string
}.

Record remediation_step : Type := {
  rs_issue : option string;
  rs_remediation : string;
  rs_priority : string
}.

Record phase_result : Type := {
  r_phase : string;
  r_passed : bool;
  r_score : Q;
  r_qualityGate : Q;
  r_issues : list issue;
  r_nextPhase : option (option string);   (* absent, or [null] / a phase *)
  r_nextSteps : option (option (list string));
  r_remediation : option (list remediation_step)
}.

(** What [validatePhase] resolves to. *)
Inductive reply : Type :=
| UnknownPhase (error : string)          (* [{valid: false, error}] *)
| Validated (r : phase_result).

Record workflow : Type := {
  wf_id : string;
  task : string;
  startTime : nat;
  currentPhase : option string;          (* [null] after the last phase *)
  completedPhases : list string;
  phaseResults : list (string * phase_result);
  wf_options : value
}.

Inductive event : Type :=
| workflowStarted (w : workflow)
| phaseCompleted (ph : string) (r : phase_result)
| phaseFailed (ph : string) (r : phase_result).

Record options : Type := {
  enableValidation : bool;
  qualityThreshold : Q
}.

Definition default_options : options :=
  {| enableValidation := true; qualityThreshold := 0.9 |}.

Record state : Type := {
  opts : options;
  currentWorkflow : option workflow;
  workflowHistory : list workflow;
  events : list event
}.

Definition new (o : options) : state :=
  {| opts := o; currentWorkflow := None; workflowHistory := []; events := [] |}.

Definition emit (e : event) (st : state) : state :=
  {| opts := opts st; currentWorkflow := currentWorkflow st;
     workflowHistory := workflowHistory st;
     events := (events st ++ [e])%list |}.

Definition _getPhaseGuidance (phase : string) : list string :=
  match assoc phase
    [ ("specification",
       [ "Define clear requirements with acceptance criteria";
         "Identify constraints and non-functional requirements";
         "Create user stories or use cases";
         "Define success metrics" ]);
      ("pseudocode",
       [ "Design algorithms at high level";
         "Define data structures needed";
         "Plan module interactions";
         "Consider edge cases" ]);
      ("architecture",
       [ "Design system components and boundaries";
         "Define API contracts and interfaces";
         "Plan database schemas";
         "Consider scalability and security" ]);
      ("refinement",
       [ "Write failing tests first (RED)";
         "Implement minimum code to pass (GREEN)";
         "Refactor for quality (REFACTOR)";
         "Target 90%+ test coverage" ]);
      ("completion",
       [ "Integrate all components";
         "Run full test suite";
         "Complete documentation";
         "Prepare deployment" ]) ]
  with
  | Some g => g
  | None => []
  end.

(** [startWorkflow]; [now] is the reading of [Date.now()]. *)
Definition startWorkflow (taskDescription : string) (o : value) (now : nat)
  (st : state) : state :=
  let w := {| wf_id := "sparc_" ++ decimal now;
              task := taskDescription;
              startTime := now;
              currentPhase := Some "specification";
              completedPhases := [];
              phaseResults := [];
              wf_options := o |} in
  emit (workflowStarted w)
    {| opts := opts st; currentWorkflow := Some w;
       workflowHistory := workflowHistory st; events := events st |}.

(** [phases.indexOf(x)], [None] for -1. *)
Fixpoint index_of (x : string) (l : list string) : option nat :=
  match l with
  | [] => None
  | y :: l' => if String.eqb y x then Some 0%nat
               else option_map S (index_of x l')
  end.

Definition _getNextPhase (current : string) : option string :=
  let keys := map fst phases in
  match index_of current keys with
  | Some i => if (S i <? List.length keys)%nat then nth_error keys (S i) else None
  | None => nth_error keys 0      (* -1 < length - 1, so [phases[0]] *)
  end.

Definition show (o : option string) : string :=
  match o with Some s => s | None => "undefined" end.

Definition _getRemediationSteps (issues : list issue) : list remediation_step :=
  map (fun i =>
         {| rs_issue := i_message i;
            rs_remediation := "Fix " ++ show (i_type i) ++ " issue before proceeding";
            rs_priority := match i_severity i with
                           | Some "HIGH" => "immediate"
                           | _ => "recommended"
                           end |}) issues.

(** A custom validator: it throws, or resolves to [null]/[undefined]
    ([None]) or to an object whose [issues], when present, is an array. *)
Definition validator : Type := value -> outcome (option (option (list issue))).

Section Runtime.

(** The two conversions of the language that [_validatePhaseSpecific]
    applies to [outputs.coverage]: [ToNumber] ([None] for [NaN]) in the
    comparison with 90, [ToString] in the message. *)
Variable ToNumber : value -> option Q.
Variable ToString : value -> string.

(** [v < 90]. *)
Definition below_90 (v : value) : bool :=
  match v with
  | JNum q => negb (Qle_bool 90 q)
  | _ => match ToNumber v with
         | Some q => negb (Qle_bool 90 q)
         | None => false
         end
  end.

Definition _validatePhaseSpecific (phase : string) (outputs : value)
  : list issue * Q :=
  if String.eqb phase "specification" then
    if negb (length_truthy (get outputs "requirements"))
    then ([ {| i_type := Some "incomplete"; i_severity := None;
               i_message := Some "No requirements defined" |} ], 0.1)
    else ([], 0)
  else if String.eqb phase "architecture" then
    if negb (truthy (get outputs "interfaces"))
    then ([ {| i_type := Some "incomplete"; i_severity := None;
               i_message := Some "No interface definitions" |} ], 0.15)
    else ([], 0)
  else if String.eqb phase "refinement" then
    if truthy (get outputs "coverage") && below_90 (get outputs "coverage")
    then ([ {| i_type := Some "coverage"; i_severity := None;
               i_message := Some ("Test coverage "
                                  ++ ToString (get outputs "coverage")
                                  ++ "% below 90% target") |} ], 0.2)
    else ([], 0)
  else ([], 0).

(** The loop over [phaseConfig.requiredOutputs]. *)
Fixpoint check_required (required : list string) (outputs : value)
  (issues : list issue) (score : Q) : list issue * Q :=
  match required with
  | [] => (issues, score)
  | r :: rest =>
      if negb (truthy (get outputs r))
      then check_required rest outputs
             (issues ++ [ {| i_type := Some "missing_output";
                             i_severity := Some "HIGH";
                             i_message :=
                               Some ("Missing required output: " ++ r)%string |} ])%list
             (score - 0.2)
      else check_required rest outputs issues score
  end.

Definition Qnat (n : nat) : Q := inject_Z (Z.of_nat n).

(** The workflow update of a passed phase, made only on the workflow whose
    current phase is the validated one. *)
Definition advance (phase : string) (result : phase_result)
  (nextPhase : option string) (cw : option workflow) : option workflow :=
  match cw with
  | Some w =>
      match currentPhase w with
      | Some cur =>
          if String.eqb cur phase
          then Some {| wf_id := wf_id w; task := task w; startTime := startTime w;
                       currentPhase := nextPhase;
                       completedPhases := (completedPhases w ++ [phase])%list;
                       phaseResults := (phase, result) :: phaseResults w;
                       wf_options := wf_options w |}
          else cw
      | None => cw
      end
  | None => None
  end.

(** [validatePhase(phase, outputs, validator)].  [outputs] that is [null]
    or [undefined] makes the first [outputs[required]] throw; a phase name
    that [this.phases] only inherits gives a [phaseConfig] without
    [requiredOutputs], and iterating [undefined] throws. *)
Definition validatePhase (phase : string) (outputs : value)
  (v : option validator) (st : state) : outcome reply * state :=
  match assoc phase phases with
  | None =>
      if mem_string phase Object_prototype_keys then (Raises TypeError, st)
      else (Returns (UnknownPhase ("Unknown phase: " ++ phase)), st)
  | Some phaseConfig =>
      match outputs with
      | JUndefined | JNull => (Raises TypeError, st)
      | _ =>
          let '(issues, score) :=
            check_required (requiredOutputs phaseConfig) outputs [] 1 in
          let validated :=
            match v with
            | Some f =>
                if enableValidation (opts st)
                then match f outputs with
                     | Raises e => Raises e
                     | Returns None => Raises TypeError
                     | Returns (Some (Some vi)) =>
                         Returns ((issues ++ vi)%list,
                                  score - Qnat (List.length vi) * 0.1)
                     | Returns (Some None) => Returns (issues, score)
                     end
                else Returns (issues, score)
            | None => Returns (issues, score)
            end in
          match validated with
          | Raises e => (Raises e, st)
          | Returns (issues, score) =>
              let '(specific, deduction) := _validatePhaseSpecific phase outputs in
              let issues := (issues ++ specific)%list in
              let score := Qmax 0 (score - deduction) in
              let passed := Qle_bool (qualityGate phaseConfig) score in
              let result :=
                {| r_phase := phase; r_passed := passed;
                   r_score := round3 score;
                   r_qualityGate := qualityGate phaseConfig;
                   r_issues := issues;
                   r_nextPhase := None; r_nextSteps := None;
                   r_remediation := None |} in
              if passed then
                let nextPhase := _getNextPhase phase in
                let result :=
                  {| r_phase := phase; r_passed := passed;
                     r_score := r_score result;
                     r_qualityGate := r_qualityGate result;
                     r_issues := issues;
                     r_nextPhase := Some nextPhase;
                     r_nextSteps := Some (option_map _getPhaseGuidance nextPhase);
                     r_remediation := None |} in
                (Returns (Validated result),
                 emit (phaseCompleted phase result)
                   {| opts := opts st;
                      currentWorkflow := advance phase result nextPhase
                                           (currentWorkflow st);
                      workflowHistory := workflowHistory st;
                      events := events st |})
              else
                let result :=
                  {| r_phase := phase; r_passed := passed;
                     r_score := r_score result;
                     r_qualityGate := r_qualityGate result;
                     r_issues := issues;
                     r_nextPhase := None; r_nextSteps := None;
                     r_remediation := Some (_getRemediationSteps issues) |} in
                (Returns (Validated result), emit (phaseFailed phase result) st)
          end
      end
  end.

End Runtime.

(** ** [completeWorkflow] *)

(** [_calculateFinalStatus], on the current workflow. *)
Definition _calculateFinalStatus (w : workflow) : string :=
  let phaseCount := List.length phases in
  let completedCount := List.length (completedPhases w) in
  if Nat.eqb completedCount phaseCount then "completed"
  else if Qle_bool (Qnat phaseCount * 0.8) (Qnat completedCount)
       then "nearly_complete"
  else if Qle_bool (Qnat phaseCount * 0.5) (Qnat completedCount)
       then "in_progress"
  else "early_stage".

(** The object of a completed workflow; [duration] is kept in
    milliseconds, the object prints it in seconds. *)
Record completion : Type := {
  c_workflowId : string;
  c_task : string;
  c_duration : Z;
  c_completedPhases : list string;
  c_finalStatus : string
}.

Inductive complete_reply : Type :=
| NoActiveWorkflow            (* [{success: false, error: 'No active workflow'}] *)
| Completed (c : completion).

(** [completeWorkflow()]; [now] is the reading of [Date.now()].  The two
    time stamps written into the archived workflow are left out, and so is
    the event, which carries the resolved object. *)
Definition completeWorkflow (now : nat) (st : state) : complete_reply * state :=
  match currentWorkflow st with
  | None => (NoActiveWorkflow, st)
  | Some w =>
      (Completed {| c_workflowId := wf_id w;
                    c_task := task w;
                    c_duration := (Z.of_nat now - Z.of_nat (startTime w))%Z;
                    c_completedPhases := completedPhases w;
                    c_finalStatus := _calculateFinalStatus w |},
       {| opts := opts st; currentWorkflow := None;
          workflowHistory := (workflowHistory st ++ [w])%list;
          events := events st |})
  end.

End SPARCIntegration.

(* ================================================================== *)
(** * ClaudeFlowAdapter *)
(* ================================================================== *)

Module ClaudeFlowAdapter.

Open Scope Z_scope.

(** What a pre-validation function resolves to, when it is an object:
    [passed] read for its truth value, and the array of [violations]
    (empty when absent). *)
Record pre_verdict : Type := {
  pre_passed : bool;
  pre_violations : list value
}.

Record issue : Type := {
  message : string;
  suggestion : option string
}.

(** What a post-validation function resolves to, when it is an object;
    [issues] is [None] when the property holds no array. *)
Record post_verdict : Type := {
  post_passed : bool;
  post_issues : option (list issue)
}.

(** The result of one attempt: the value the executor produced and, once
    [result.qualityIssues = postResult.issues] has run, the issues stored
    in it. *)
Record attempt_result : Type := {
  produced : value;
  qualityIssues : option (list issue)
}.

(** What [orchestrate] resolves to. *)
Inductive result : Type :=
| Blocked (reason : value)
    (* [{success: false, blocked: true, reason, responseTime}] *)
| Failed (e : error)
    (* [{success: false, error: error.message, responseTime}] *)
| Finished (lastResult : option attempt_result) (attempts maxRetries : Z)
    (finalStatus : string).
    (* [{...lastResult, attempts, maxRetries, finalStatus, responseTime}] *)

(** The [finalStatus] property of the resolved object, [None] when the
    object has none. *)
Definition finalStatus_of (r : result) : option string :=
  match r with
  | Finished _ _ _ s => Some s
  | Blocked _ | Failed _ => None
  end.

(** The [attempts] property, likewise. *)
Definition attempts_of (r : result) : option Z :=
  match r with
  | Finished _ a _ _ => Some a
  | Blocked _ | Failed _ => None
  end.

Record metrics : Type := {
  tasksOrchestrated : nat;
  agentsSpawned : nat;
  totalValidations : nat;
  blockedOperations : nat
}.

Record adapter : Type := {
  connected : bool;
  metrics_ : metrics
}.

Definition new : adapter :=
  {| connected := false;
     metrics_ := {| tasksOrchestrated := 0; agentsSpawned := 0;
                    totalValidations := 0; blockedOperations := 0 |} |}.

(** The calls [orchestrate] makes into supplied code, in the order made. *)
Inductive call : Type :=
| PreValidation (task : string)
| Execute (args : list string) (threw : option error)
| PostValidation (r : value).

Definition is_execute (c : call) : bool :=
  match c with Execute _ _ => true | _ => false end.

Definition executions (log : list call) : nat :=
  List.length (filter is_execute log).

Definition newline : string := String "010"%char "".

Definition marker : string := "[QUALITY FEEDBACK - PLEASE FIX]:".

Definition issue_line (i : issue) : string :=
  "- " ++ message i ++ " ("
  ++ match suggestion i with
     | Some "" | None => "Fix this"
     | Some s => s
     end
  ++ ")".

Definition feedback (issues : list issue) : string :=
  let issuesText := join newline (map issue_line issues) in
  newline ++ newline ++ marker ++ newline
  ++ "The previous attempt had the following issues:" ++ newline
  ++ issuesText ++ newline ++ newline
  ++ "Please correct these issues in the next attempt.".

(** The task text of the next attempt. *)
Definition with_feedback (currentTask : string) (issues : list issue) : string :=
  if includes marker currentTask
  then before_first marker currentTask ++ feedback issues
  else currentTask ++ feedback issues.

(** Only an object can take a new property; the assignment throws on a
    primitive, the module being strict code. *)
Definition is_object (v : value) : bool :=
  match v with JObj _ | JArr _ => true | _ => false end.

Section Orchestrate.

(** The state of whatever the supplied functions and the external process
    act on. *)
Variable W : Type.

(** The validation functions of the caller, by what they settle to:
    [Raises e] is the throw of an error object [e]. *)
Definition pre_fn : Type := string -> W -> outcome (option pre_verdict) * W.
Definition post_fn : Type := value -> W -> outcome (option post_verdict) * W.

(** The external executor: [_runCommand] on the argument list followed by
    [_parseOutput], that is the parsed output, or the error the process
    ended with. *)
Variable execute : list string -> W -> outcome value * W.

(** The options of a call.  [maxRetries] is a number that the loop counter
    reaches by steps of one: an integer below 2^53 in size.  [Infinity]
    and the numbers from 2^53 on, where [attempts++] leaves [attempts] as
    it is and the loop need not end, are outside this type's reading, as
    are fractions. *)
Record orchestrate_options : Type := {
  strategy : option string;
  priority : option string;
  maxAgents : option nat;
  preValidation : option pre_fn;
  postValidation : option post_fn;
  maxRetries : option Z
}.

Definition no_options : orchestrate_options :=
  {| strategy := None; priority := None; maxAgents := None;
     preValidation := None; postValidation := None; maxRetries := None |}.

Record config : Type := {
  c_strategy : string;
  c_priority : string;
  c_maxAgents : nat;
  c_preValidation : option pre_fn;
  c_postValidation : option post_fn;
  c_maxRetries : Z
}.

(** [x || d] on a string, a count, a number of retries. *)
Definition string_or (x : option string) (d : string) : string :=
  match x with Some "" | None => d | Some s => s end.
Definition nat_or (x : option nat) (d : nat) : nat :=
  match x with Some O | None => d | Some n => n end.
Definition Z_or (x : option Z) (d : Z) : Z :=
  match x with Some 0 | None => d | Some n => n end.

Definition config_of (o : orchestrate_options) : config :=
  {| c_strategy := string_or (strategy o) "adaptive";
     c_priority := string_or (priority o) "medium";
     c_maxAgents := nat_or (maxAgents o) 5;
     c_preValidation := preValidation o;
     c_postValidation := postValidation o;
     c_maxRetries := Z_or (maxRetries o) 3 |}.

(** The variables the loop carries along, with the world and the calls
    made so far. *)
Record loop_state : Type := {
  currentTask : string;
  attempts : Z;
  lastResult : option attempt_result;
  validations : nat;
  world : W;
  log : list call
}.

(** How the loop is left: by the [return] of the [catch] clause, or at its
    end with the value of [success]. *)
Inductive loop_exit : Type :=
| Caught (e : error) (s : loop_state)
| Left (success : bool) (s : loop_state).

Definition task_args (c : config) (task : string) : list string :=
  [ "mcp"; "task_orchestrate"; "--task"; task; "--strategy"; c_strategy c;
    "--priority"; c_priority c; "--max-agents"; decimal (c_maxAgents c) ].

Definition standalone_result (c : config) (task : string) : value :=
  JObj [ ("success", JBool true); ("task", JStr task);
         ("strategy", JStr (c_strategy c)); ("mode", JStr "standalone");
         ("message", JStr "Task logged (claude-flow not connected)") ].

(** The first half of the loop body: the executor is called when the
    adapter is connected, and the inert result stands in for it otherwise.
    The value is what was produced or raised, the world and the calls
    after it. *)
Definition attempt (c : config) (is_connected : bool) (s : loop_state)
  : outcome value * W * list call :=
  if is_connected
  then let args := task_args c (currentTask s) in
       let '(r, w) := execute args (world s) in
       (r, w,
        (log s ++ [Execute args match r with
                                | Raises e => Some e
                                | Returns _ => None
                                end])%list)
  else (Returns (standalone_result c (currentTask s)), world s, log s).

(** The second half, from [lastResult = result] on: the post-validation
    and what follows from it.  [n] is [attempts] after the increment, [w1]
    and [log1] the world and the calls after the executor; [continue] is
    the rest of the loop, entered at its condition. *)
Definition judge (c : config) (continue : loop_state -> option loop_exit)
  (s : loop_state) (n : Z) (result : value) (w1 : W) (log1 : list call)
  : option loop_exit :=
  let fresh := Some {| produced := result; qualityIssues := None |} in
  match c_postValidation c with
  | None =>
      (* no validation configured *)
      Some (Left true {| currentTask := currentTask s; attempts := n;
                         lastResult := fresh; validations := validations s;
                         world := w1; log := log1 |})
  | Some post =>
      let '(verdict, w2) := post result w1 in
      let log2 := (log1 ++ [PostValidation result])%list in
      let at_validation (last : option attempt_result) (task : string) :=
        {| currentTask := task; attempts := n; lastResult := last;
           validations := S (validations s); world := w2; log := log2 |} in
      match verdict with
      | Raises e => Some (Caught e (at_validation fresh (currentTask s)))
      | Returns (Some {| post_passed := false; post_issues := issues |}) =>
          (* [result.qualityIssues = postResult.issues] *)
          if negb (is_object result)
          then Some (Caught TypeError (at_validation fresh (currentTask s)))
          else
            let marked := Some {| produced := result;
                                  qualityIssues := issues |} in
            if n <=? c_maxRetries c then
              match issues with
              | None =>
                  (* [postResult.issues.map] on what is no array *)
                  Some (Caught TypeError (at_validation marked (currentTask s)))
              | Some l =>
                  continue (at_validation marked
                              (with_feedback (currentTask s) l))
              end
            else continue (at_validation marked (currentTask s))
      | Returns _ =>
          (* validation passed *)
          Some (Left true (at_validation fresh (currentTask s)))
      end
  end.

(** The [while] loop.  [fuel] bounds the rounds; [None] means it ran out. *)
Fixpoint loop (fuel : nat) (c : config) (is_connected : bool) (s : loop_state)
  : option loop_exit :=
  if attempts s <=? c_maxRetries c then
    match fuel with
    | O => None
    | S fuel' =>
        let n := attempts s + 1 in
        let '(executed, w1, log1) := attempt c is_connected s in
        match executed with
        | Raises e =>
            Some (Caught e {| currentTask := currentTask s; attempts := n;
                              lastResult := lastResult s;
                              validations := validations s;
                              world := w1; log := log1 |})
        | Returns result =>
            judge c (loop fuel' c is_connected) s n result w1 log1
        end
    end
  else Some (Left false s).

(** [violations?.[0]?.message || 'Pre-validation failed']. *)
Definition block_reason (v : pre_verdict) : value :=
  match pre_violations v with
  | first :: _ =>
      if truthy (get first "message") then get first "message"
      else JStr "Pre-validation failed"
  | [] => JStr "Pre-validation failed"
  end.

(** What a call of [orchestrate] leaves behind. *)
Record run : Type := {
  resolved : outcome result;
  after : adapter;
  world_after : W;
  calls : list call
}.

Definition with_metrics (a : adapter) (validations blocked : nat) : adapter :=
  {| connected := connected a;
     metrics_ := {| tasksOrchestrated := S (tasksOrchestrated (metrics_ a));
                    agentsSpawned := agentsSpawned (metrics_ a);
                    totalValidations := totalValidations (metrics_ a) + validations;
                    blockedOperations := blockedOperations (metrics_ a) + blocked |} |}.

(** [orchestrate(task, options)].  [None] would mean that the loop ran out
    of fuel.  The readings of the clock, [responseTime] and the running
    average of the task time are left out. *)
Definition orchestrate (a : adapter) (task : string) (o : orchestrate_options)
  (w : W) : option run :=
  let c := config_of o in
  let enter (done : nat) (w0 : W) (log0 : list call) : option run :=
    match loop (Z.to_nat (c_maxRetries c + 1)) c (connected a)
            {| currentTask := task; attempts := 0; lastResult := None;
               validations := done; world := w0; log := log0 |} with
    | None => None
    | Some (Caught e s) =>
        Some {| resolved := Returns (Failed e);
                after := with_metrics a (validations s) 0;
                world_after := world s; calls := log s |}
    | Some (Left success s) =>
        Some {| resolved :=
                  Returns (Finished (lastResult s) (attempts s) (c_maxRetries c)
                             (if success then "success"
                              else "max_retries_exceeded"));
                after := with_metrics a (validations s) 0;
                world_after := world s; calls := log s |}
    end in
  match c_preValidation c with
  | None => enter 0%nat w []
  | Some pre =>
      let '(preResult, w') := pre task w in
      match preResult with
      | Raises e =>
          Some {| resolved := Raises e; after := with_metrics a 1 0;
                  world_after := w'; calls := [PreValidation task] |}
      | Returns (Some ({| pre_passed := false |} as v)) =>
          Some {| resolved := Returns (Blocked (block_reason v));
                  after := with_metrics a 1 1;
                  world_after := w'; calls := [PreValidation task] |}
      | Returns _ => enter 1%nat w' [PreValidation task]
      end
  end.

End Orchestrate.

End ClaudeFlowAdapter.

(* ================================================================== *)
(** * JLMACFES, the facade *)
(* ================================================================== *)

(** The class of src/hooks/HookAutomation.js (second part) that the
    package exports: its validation methods wrap those of the
    [PatternValidator], and its [orchestrate] hands them to the adapter as
    the two validation functions. *)

Module JLMACFES.

Import PatternValidator.
Open Scope Q_scope.

(** [this.options] once the constructor has filled in the defaults, as far
    as the methods below read it; [validation] is what the
    [PatternValidator] makes of the same object. *)
Record options : Type := {
  performanceThreshold : Q;
  maxRetries : Z;
  validation : PatternValidator.options
}.

Record metrics : Type := {
  validationsRun : nat;
  violationsBlocked : nat;
  averageResponseTime : Q
}.

Record state : Type := {
  opts : options;
  metrics_ : metrics;
  tick : nat                  (* readings of [performance.now()] taken *)
}.

Definition new (o : options) : state :=
  {| opts := o;
     metrics_ := {| validationsRun := 0; violationsBlocked := 0;
                    averageResponseTime := 0 |};
     tick := 0 |}.

(** [{...result, responseTime, performanceCompliant}]. *)
Record pre_reply : Type := {
  pre_result_ : pre_result;
  pre_responseTime : Q;
  pre_performanceCompliant : bool
}.

(** What [validatePost] resolves to: the result of the validator with the
    two properties more, or the object of the [catch] clause,
    [{passed: false, error, responseTime}]. *)
Inductive post_reply : Type :=
| PostChecked (r : post_result) (responseTime : Q) (performanceCompliant : bool)
| PostError (e : error) (responseTime : Q).

(** A violation as the object it is. *)
Definition violation_value (v : violation) : value :=
  JObj ([ ("type", JStr (v_type v)) ]
        ++ match v_pattern v with
           | Some p => [("pattern", JStr p)]
           | None => []
           end
        ++ [ ("severity", JStr (ValidationHooks.severity_name (v_severity v)));
             ("message", JStr (v_message v)) ]
        ++ match v_matches v with
           | Some ms => [("matches", JArr (map JStr ms))]
           | None => []
           end
        ++ [ ("suggestion", JStr (v_suggestion v)) ])%list.

Section Facade.

(** [now n] is what the [n]-th call of [performance.now()] returns. *)
Variable now : nat -> Q.

Definition Qlt_bool (a b : Q) : bool := negb (Qle_bool b a).

Definition _updateAverageResponseTime (m : metrics) (newTime : Q) : Q :=
  (averageResponseTime m * inject_Z (Z.of_nat (validationsRun m) - 1) + newTime)
  / inject_Z (Z.of_nat (validationsRun m)).

(** [validatePre(code)]: the validator reads the clock twice between the
    two readings of this method. *)
Definition validatePre (code : value) (st : state) : pre_reply * state :=
  let startTime := now (tick st) in
  let result :=
    PatternValidator.validatePre (validation (opts st)) code
      (now (S (tick st))) (now (S (S (tick st)))) in
  let responseTime := now (S (S (S (tick st)))) - startTime in
  let m := metrics_ st in
  let counted :=
    {| validationsRun := S (validationsRun m);
       violationsBlocked :=
         if passed result then violationsBlocked m
         else (violationsBlocked m + List.length (violations result))%nat;
       averageResponseTime := averageResponseTime m |} in
  ({| pre_result_ := result;
      pre_responseTime := responseTime;
      pre_performanceCompliant :=
        Qlt_bool responseTime (performanceThreshold (opts st)) |},
   {| opts := opts st;
      metrics_ := {| validationsRun := validationsRun counted;
                     violationsBlocked := violationsBlocked counted;
                     averageResponseTime :=
                       _updateAverageResponseTime counted responseTime |};
      tick := S (S (S (S (tick st)))) |}).

(** [validatePost(result)]: a validator that throws has read the clock
    once, one that returns twice. *)
Definition validatePost (result : value) (st : state) : post_reply * state :=
  let startTime := now (tick st) in
  let m := metrics_ st in
  let counted :=
    {| validationsRun := S (validationsRun m);
       violationsBlocked := violationsBlocked m;
       averageResponseTime := averageResponseTime m |} in
  match PatternValidator.validatePost (validation (opts st)) result with
  | Returns validation =>
      let responseTime := now (S (S (S (tick st)))) - startTime in
      (PostChecked validation responseTime (Qlt_bool responseTime 5.0),
       {| opts := opts st;
          metrics_ := {| validationsRun := validationsRun counted;
                         violationsBlocked := violationsBlocked counted;
                         averageResponseTime :=
                           _updateAverageResponseTime counted responseTime |};
          tick := S (S (S (S (tick st)))) |})
  | Raises e =>
      (PostError e (now (S (S (tick st))) - startTime),
       {| opts := opts st; metrics_ := counted; tick := S (S (S (tick st))) |})
  end.

(** The world of an orchestration: the facade and whatever the external
    process acts on. *)
Variable E : Type.
Variable execute : list string -> E -> outcome value * E.

Definition world : Type := (state * E)%type.

Definition execute_in (args : list string) (w : world) : outcome value * world :=
  let '(r, e) := execute args (snd w) in (r, (fst w, e)).

(** [(code) => this.validatePre(code)], read as the adapter reads it. *)
Definition preValidation : ClaudeFlowAdapter.pre_fn world :=
  fun task w =>
    let '(reply, st) := validatePre (JStr task) (fst w) in
    (Returns (Some {| ClaudeFlowAdapter.pre_passed := passed (pre_result_ reply);
                      ClaudeFlowAdapter.pre_violations :=
                        map violation_value (violations (pre_result_ reply)) |}),
     (st, snd w)).

Definition issue_of (i : PatternValidator.issue) : ClaudeFlowAdapter.issue :=
  {| ClaudeFlowAdapter.message := i_message i;
     ClaudeFlowAdapter.suggestion := Some (i_suggestion i) |}.

(** [(result) => this.validatePost(result)], likewise; the object of the
    [catch] clause has no [issues]. *)
Definition postValidation : ClaudeFlowAdapter.post_fn world :=
  fun result w =>
    let '(reply, st) := validatePost result (fst w) in
    (Returns (Some match reply with
                   | PostChecked r _ _ =>
                       {| ClaudeFlowAdapter.post_passed := post_passed r;
                          ClaudeFlowAdapter.post_issues :=
                            Some (map issue_of (issues r)) |}
                   | PostError _ _ =>
                       {| ClaudeFlowAdapter.post_passed := false;
                          ClaudeFlowAdapter.post_issues := None |}
                   end),
     (st, snd w)).

(** The options of a call, as far as the adapter reads them. *)
Record call_options : Type := {
  strategy : option string;
  priority : option string;
  maxAgents : option nat
}.

(** The options [orchestrate] hands to the adapter: those of the call,
    with [maxRetries] and the two validation functions overridden. *)
Definition adapter_options (o : call_options) (st : state)
  : ClaudeFlowAdapter.orchestrate_options world :=
  {| ClaudeFlowAdapter.strategy := strategy o;
     ClaudeFlowAdapter.priority := priority o;
     ClaudeFlowAdapter.maxAgents := maxAgents o;
     ClaudeFlowAdapter.preValidation := Some preValidation;
     ClaudeFlowAdapter.postValidation := Some postValidation;
     ClaudeFlowAdapter.maxRetries := Some (maxRetries (opts st)) |}.

(** [orchestrate(task, options)]; [adapter] is [this._adapter], [None]
    when the integration is off. *)
Definition orchestrate (adapter : option ClaudeFlowAdapter.adapter)
  (task : string) (o : call_options) (w : world)
  : outcome (option (ClaudeFlowAdapter.run world)) :=
  match adapter with
  | None => Raises (Error "Claude-flow integration not enabled")
  | Some a =>
      Returns (ClaudeFlowAdapter.orchestrate execute_in a task
                 (adapter_options o (fst w)) w)
  end.

End Facade.

End JLMACFES.

(* ================================================================== *)
(** * PerformanceMonitor: the tracking of operations *)
(* ================================================================== *)

(** The first class of src/core/PerformanceMonitor.js, as far as it tracks
    operations.  Of the periodic sampler only what it does to the state
    below is kept: it bounds the history of errors.  The memory and
    throughput histories, and the [Date.now()] time stamps stored beside
    the durations, are left out. *)

Module PerformanceMonitor.

Open Scope Q_scope.

(** [this.options], as far as the tracking reads it; [responseTime] is
    [alertThresholds.responseTime]. *)
Record options : Type := {
  historySize : nat;
  responseTime : Q
}.

Record operation : Type := {
  op_id : string;
  op_type : string;
  op_startTime : Q
}.

Record timing : Type := {
  t_operationId : string;
  t_type : string;
  t_duration : Q;
  t_success : bool
}.

Record failure : Type := {
  f_operationId : string;
  f_type : string;
  f_metadata : value
}.

Record stats : Type := {
  totalOperations : nat;
  successfulOperations : nat;
  failedOperations : nat
}.

Inductive event : Type :=
| slowOperation (operationId : string) (duration threshold : Q)
| operationComplete (t : timing)
| reset_done.

(** [activeOperations] is a [Map]: insertion order is kept, and a key
    set again keeps its place. *)
Record state : Type := {
  opts : options;
  activeOperations : list (string * operation);
  stats_ : stats;
  operationTimings : list timing;
  errors : list failure;               (* [history.errors] *)
  events : list event
}.

Definition new (o : options) : state :=
  {| opts := o; activeOperations := [];
     stats_ := {| totalOperations := 0; successfulOperations := 0;
                  failedOperations := 0 |};
     operationTimings := []; errors := []; events := [] |}.

(** [Map.prototype.set] and [Map.prototype.delete]. *)
Fixpoint set_key {V : Type} (k : string) (v : V) (m : list (string * V))
  : list (string * V) :=
  match m with
  | [] => [(k, v)]
  | (k', v') :: m' =>
      if String.eqb k' k then (k, v) :: m' else (k', v') :: set_key k v m'
  end.

Definition delete_key {V : Type} (k : string) (m : list (string * V))
  : list (string * V) :=
  filter (fun kv => negb (String.eqb (fst kv) k)) m.

(** [l.slice(-n)]: the last [n] elements, and all of them for [n = 0],
    since [-0] is [0]. *)
Definition slice_from_end {A : Type} (n : nat) (l : list A) : list A :=
  if Nat.eqb n 0 then l else skipn (List.length l - n) l.

(** [startOperation(operationId, type)]; [now] is the reading of
    [performance.now()]. *)
Definition startOperation (operationId type : string) (now : Q) (st : state)
  : state :=
  {| opts := opts st;
     activeOperations :=
       set_key operationId
         {| op_id := operationId; op_type := type; op_startTime := now |}
         (activeOperations st);
     stats_ := stats_ st; operationTimings := operationTimings st;
     errors := errors st; events := events st |}.

(** What [endOperation] returns: [null] for an operation that is not
    tracked, the timing result otherwise. *)
Inductive end_reply : Type :=
| NotTracked
| Ended (operationId : string) (duration : Q) (success : bool).

Definition Qgt_bool (a b : Q) : bool := negb (Qle_bool a b).

(** [endOperation(operationId, success, metadata)]. *)
Definition endOperation (operationId : string) (success : bool)
  (metadata : value) (now : Q) (st : state) : end_reply * state :=
  match assoc operationId (activeOperations st) with
  | None => (NotTracked, st)
  | Some operation =>
      let duration := now - op_startTime operation in
      let s := stats_ st in
      let timing :=
        {| t_operationId := operationId; t_type := op_type operation;
           t_duration := duration; t_success := success |} in
      let timings := (operationTimings st ++ [timing])%list in
      (Ended operationId duration success,
       {| opts := opts st;
          activeOperations := delete_key operationId (activeOperations st);
          stats_ :=
            {| totalOperations := S (totalOperations s);
               successfulOperations :=
                 if success then S (successfulOperations s)
                 else successfulOperations s;
               failedOperations :=
                 if success then failedOperations s
                 else S (failedOperations s) |};
          operationTimings :=
            if (historySize (opts st) <? List.length timings)%nat
            then slice_from_end (historySize (opts st)) timings
            else timings;
          errors :=
            if success then errors st
            else (errors st ++ [ {| f_operationId := operationId;
                                    f_type := op_type operation;
                                    f_metadata := metadata |} ])%list;
          events :=
            (events st
             ++ (if Qgt_bool duration (responseTime (opts st))
                 then [slowOperation operationId duration
                         (responseTime (opts st))]
                 else [])
             ++ [operationComplete timing])%list |})
  end.

(** [_collectSample()], which the sampling timer calls. *)
Definition _collectSample (st : state) : state :=
  {| opts := opts st; activeOperations := activeOperations st;
     stats_ := stats_ st; operationTimings := operationTimings st;
     errors := if (historySize (opts st) <? List.length (errors st))%nat
               then slice_from_end (historySize (opts st)) (errors st)
               else errors st;
     events := events st |}.

(** [reset()]. *)
Definition reset (st : state) : state :=
  {| opts := opts st; activeOperations := [];
     stats_ := {| totalOperations := 0; successfulOperations := 0;
                  failedOperations := 0 |};
     operationTimings := []; errors := [];
     events := (events st ++ [reset_done])%list |}.

End PerformanceMonitor.

(* ================================================================== *)
(** * EnhancementCore: capacity and the circuit breaker *)
(* ================================================================== *)

(** The third class of src/core/PerformanceMonitor.js.  Its timers are
    callbacks the runtime fires later: the time-out of an operation calls
    [failOperation], the recovery timer calls [_resetCircuitBreaker].  They
    are modelled as calls that may come at any moment; the state keeps the
    number of recovery timers that are set.  The health check and the
    shutdown are left out. *)

Module EnhancementCore.

Open Scope Q_scope.

(** [this.config], as far as the code below reads it. *)
Record config : Type := {
  maxConcurrentOps : nat;
  circuitBreakerThreshold : Q
}.

Record health : Type := {
  totalOperations : nat;
  successfulOperations : nat;
  failedOperations : nat;
  lastOperationTime : option Q;
  circuitBreakerOpen : bool
}.

(** The two feature flags the code reads. *)
Record features : Type := {
  circuitBreaker : bool;
  autoRecovery : bool
}.

Inductive op_state : Type := running | completed | failed.

Record operation : Type := {
  op_id : string;
  op_type : string;
  op_startTime : Q;
  op_state_ : op_state;
  op_duration : option Q;
  op_outcome : value                   (* [result] or [error], once ended *)
}.

Inductive event : Type :=
| operationStarted (operationId type : string)
| operationCompleted (operationId : string) (duration : Q)
| operationFailed (operationId : string) (error : value)
| circuitBreakerOpened (failedOperations totalOperations : nat)
| circuitBreakerReset.

Record state : Type := {
  config_ : config;
  health_ : health;
  features_ : features;
  activeOperations : list (string * operation);
  operationHistory : list operation;
  recoveryTimers : nat;
  events : list event
}.

Definition new (c : config) : state :=
  {| config_ := c;
     health_ := {| totalOperations := 0; successfulOperations := 0;
                   failedOperations := 0; lastOperationTime := None;
                   circuitBreakerOpen := false |};
     features_ := {| circuitBreaker := true; autoRecovery := true |};
     activeOperations := []; operationHistory := [];
     recoveryTimers := 0; events := [] |}.

Definition Qnat (n : nat) : Q := inject_Z (Z.of_nat n).

(** [startOperation(operationType, metadata)]; [operationId] is what
    [_generateId()] returns, [now] the reading of [performance.now()]. *)
Definition startOperation (operationType operationId : string) (now : Q)
  (st : state) : outcome string * state :=
  if circuitBreakerOpen (health_ st)
  then (Raises (Error "Circuit breaker open - system protecting against cascading failures"),
        st)
  else if (maxConcurrentOps (config_ st) <=? List.length (activeOperations st))%nat
  then (Raises (Error ("Max concurrent operations ("
                       ++ decimal (maxConcurrentOps (config_ st)) ++ ") reached")),
        st)
  else
    let h := health_ st in
    (Returns operationId,
     {| config_ := config_ st;
        health_ := {| totalOperations := S (totalOperations h);
                      successfulOperations := successfulOperations h;
                      failedOperations := failedOperations h;
                      lastOperationTime := lastOperationTime h;
                      circuitBreakerOpen := circuitBreakerOpen h |};
        features_ := features_ st;
        activeOperations :=
          PerformanceMonitor.set_key operationId
            {| op_id := operationId; op_type := operationType;
               op_startTime := now; op_state_ := running;
               op_duration := None; op_outcome := JUndefined |}
            (activeOperations st);
        operationHistory := operationHistory st;
        recoveryTimers := recoveryTimers st;
        events := (events st ++ [operationStarted operationId operationType])%list |}).

(** [_archiveOperation]. *)
Definition _archiveOperation (ended : operation) (history : list operation)
  : list operation :=
  let history := (history ++ [ended])%list in
  if (100 <? List.length history)%nat
  then skipn (List.length history - 100) history
  else history.

(** [_resetCircuitBreaker]. *)
Definition _resetCircuitBreaker (st : state) : state :=
  {| config_ := config_ st;
     health_ := {| totalOperations := 0; successfulOperations := 0;
                   failedOperations := 0;
                   lastOperationTime := lastOperationTime (health_ st);
                   circuitBreakerOpen := false |};
     features_ := features_ st;
     activeOperations := activeOperations st;
     operationHistory := operationHistory st;
     recoveryTimers := recoveryTimers st;
     events := (events st ++ [circuitBreakerReset])%list |}.

(** [completeOperation(operationId, result)]; an operation that is not
    active leaves everything as it is. *)
Definition completeOperation (operationId : string) (result : value) (now : Q)
  (st : state) : state :=
  match assoc operationId (activeOperations st) with
  | None => st
  | Some operation =>
      let duration := now - op_startTime operation in
      let ended :=
        {| op_id := op_id operation; op_type := op_type operation;
           op_startTime := op_startTime operation; op_state_ := completed;
           op_duration := Some duration; op_outcome := result |} in
      let h := health_ st in
      let st1 :=
        {| config_ := config_ st;
           health_ := {| totalOperations := totalOperations h;
                         successfulOperations := S (successfulOperations h);
                         failedOperations := failedOperations h;
                         lastOperationTime := Some duration;
                         circuitBreakerOpen := circuitBreakerOpen h |};
           features_ := features_ st;
           activeOperations :=
             PerformanceMonitor.delete_key operationId (activeOperations st);
           operationHistory := _archiveOperation ended (operationHistory st);
           recoveryTimers := recoveryTimers st;
           events := events st |} in
      let st2 := if circuitBreakerOpen h then _resetCircuitBreaker st1 else st1 in
      {| config_ := config_ st2; health_ := health_ st2;
         features_ := features_ st2;
         activeOperations := activeOperations st2;
         operationHistory := operationHistory st2;
         recoveryTimers := recoveryTimers st2;
         events := (events st2 ++ [operationCompleted operationId duration])%list |}
  end.

(** [failureRate > threshold && totalOperations >= 5]. *)
Definition trips (c : config) (h : health) : bool :=
  let failureRate :=
    if (0 <? totalOperations h)%nat
    then Qnat (failedOperations h) / Qnat (totalOperations h)
    else 0 in
  negb (Qle_bool failureRate (circuitBreakerThreshold c))
  && (5 <=? totalOperations h)%nat.

(** [_checkCircuitBreaker] and [_openCircuitBreaker]. *)
Definition _checkCircuitBreaker (st : state) : state :=
  if circuitBreaker (features_ st) && trips (config_ st) (health_ st)
     && negb (circuitBreakerOpen (health_ st))
  then
    let h := health_ st in
    {| config_ := config_ st;
       health_ := {| totalOperations := totalOperations h;
                     successfulOperations := successfulOperations h;
                     failedOperations := failedOperations h;
                     lastOperationTime := lastOperationTime h;
                     circuitBreakerOpen := true |};
       features_ := features_ st;
       activeOperations := activeOperations st;
       operationHistory := operationHistory st;
       recoveryTimers := if autoRecovery (features_ st)
                         then S (recoveryTimers st) else recoveryTimers st;
       events := (events st ++ [circuitBreakerOpened (failedOperations h)
                                  (totalOperations h)])%list |}
  else st.

(** [failOperation(operationId, error)]; the time-out of an operation
    calls it with the error ['Operation timeout']. *)
Definition failOperation (operationId : string) (error : value) (now : Q)
  (st : state) : state :=
  match assoc operationId (activeOperations st) with
  | None => st
  | Some operation =>
      let duration := now - op_startTime operation in
      let ended :=
        {| op_id := op_id operation; op_type := op_type operation;
           op_startTime := op_startTime operation; op_state_ := failed;
           op_duration := Some duration; op_outcome := error |} in
      let h := health_ st in
      let st1 :=
        _checkCircuitBreaker
          {| config_ := config_ st;
             health_ := {| totalOperations := totalOperations h;
                           successfulOperations := successfulOperations h;
                           failedOperations := S (failedOperations h);
                           lastOperationTime := lastOperationTime h;
                           circuitBreakerOpen := circuitBreakerOpen h |};
             features_ := features_ st;
             activeOperations :=
               PerformanceMonitor.delete_key operationId (activeOperations st);
             operationHistory := _archiveOperation ended (operationHistory st);
             recoveryTimers := recoveryTimers st;
             events := events st |} in
      {| config_ := config_ st1; health_ := health_ st1;
         features_ := features_ st1;
         activeOperations := activeOperations st1;
         operationHistory := operationHistory st1;
         recoveryTimers := recoveryTimers st1;
         events := (events st1 ++ [operationFailed operationId error])%list |}
  end.

(** A recovery timer fires. *)
Definition recoveryTimer (st : state) : state :=
  match recoveryTimers st with
  | O => st
  | S n =>
      _resetCircuitBreaker
        {| config_ := config_ st; health_ := health_ st;
           features_ := features_ st;
           activeOperations := activeOperations st;
           operationHistory := operationHistory st;
           recoveryTimers := n; events := events st |}
  end.

(** [setFeature(feature, enabled)] for the two flags the code reads; the
    event it emits is left out. *)
Definition setFeature (feature : string) (enabled : bool) (st : state) : state :=
  let f := features_ st in
  {| config_ := config_ st; health_ := health_ st;
     features_ :=
       {| circuitBreaker := if String.eqb feature "circuitBreaker" then enabled
                            else circuitBreaker f;
          autoRecovery := if String.eqb feature "autoRecovery" then enabled
                          else autoRecovery f |};
     activeOperations := activeOperations st;
     operationHistory := operationHistory st;
     recoveryTimers := recoveryTimers st; events := events st |}.

End EnhancementCore.

(* ================================================================== *)
(** * Properties *)
(* ================================================================== *)

(** ** Truth scoring *)

Module TruthScoringFacts.

Import PatternValidator TruthScoring.
Import PrimFloat.
Open Scope float_scope.

(** The performance component never takes its upper value: whatever the
    validator measured, the read of [performanceCompliant] is falsy. *)
Lemma performance_component_is_0_8 (st : state) (code : value) (t0 t1 now : Q)
  (r : score) :
  fst (calculateScore st code t0 t1 now) = Scored r ->
  performance_ (score_components r) = 0.8.
Proof.
  unfold calculateScore.
  destruct (validatePost PatternValidator.default_options _); [|discriminate].
  cbn [fst]. intros [= <-]. reflexivity.
Qed.

(** The composite of [calculateScore] is the weighted sum with the
    performance component at 0.8, rounded to three decimals. *)
Lemma composite_score (st : state) (text : string) (t0 t1 now : Q)
  (post : post_result) :
  validatePost PatternValidator.default_options (JObj [("code", JStr text)])
    = Returns post ->
  exists r,
    fst (calculateScore st (JStr text) t0 t1 now) = Scored r /\
    overallScore r =
      Double.round3
        (_calculateSecurityScore
           (validatePre PatternValidator.default_options (JStr text) t0 t1) * 0.5
         + Double.of_Z (qualityScore post) / 100 * 0.3
         + 0.8 * 0.2).
Proof.
  intros H. unfold calculateScore. rewrite H. eexists. split; reflexivity.
Qed.

Lemma no_violation_passes (o : PatternValidator.options) (code : value)
  (t0 t1 : Q) :
  violations (validatePre o code t0 t1) = [] ->
  PatternValidator.passed (validatePre o code t0 t1) = true.
Proof.
  destruct code as [| | | |[|c text]| |]; try reflexivity.
  cbn [validatePre violations PatternValidator.passed]. intros ->.
  destruct (PatternValidator.strictMode o); reflexivity.
Qed.

(** On any text in which the validator finds nothing, the score is 0.96
    whatever the latency of the pre-validation call was. *)
Lemma clean_text_scores_0_96 (st : state) (text : string) (t0 t1 now : Q)
  (post : post_result) :
  violations (validatePre PatternValidator.default_options (JStr text) t0 t1) = [] ->
  validatePost PatternValidator.default_options (JObj [("code", JStr text)])
    = Returns post ->
  qualityScore post = 100%Z ->
  exists r,
    fst (calculateScore st (JStr text) t0 t1 now) = Scored r /\
    overallScore r = 0.96 /\ score_status r = excellent.
Proof.
  intros Hv Hp Hq. unfold calculateScore. rewrite Hp.
  eexists. split; [reflexivity|]. cbn [overallScore score_status].
  assert (Sec : _calculateSecurityScore
                  (validatePre PatternValidator.default_options (JStr text) t0 t1)
                = 1).
  { unfold _calculateSecurityScore.
    rewrite (no_violation_passes _ _ _ _ Hv), Hv. reflexivity. }
  rewrite Sec, Hq. split; reflexivity.
Qed.

(** C1, at the failing input: text without any violation or quality issue
    scores 0.96, not 1.0, whatever the two clock readings of the
    pre-validation call are; the status is [excellent]. *)
Theorem clean_code_scores_0_96 (t0 t1 now : Q) :
  exists r,
    fst (calculateScore (new TruthScoring.default_options)
           (JStr "const x = 1;") t0 t1 now) = Scored r /\
    score_violations r = [] /\ score_issues r = [] /\
    quality (score_components r) = 1 /\
    performance_ (score_components r) = 0.8 /\
    overallScore r = 0.96 /\
    overallScore r <> 1 /\
    score_status r = excellent.
Proof.
  eexists. split; [vm_compute; reflexivity|].
  repeat split; try reflexivity.
  intros H. apply (f_equal (fun x => x =? 1)) in H. vm_compute in H.
  discriminate.
Qed.

End TruthScoringFacts.

(** ** Post-validation *)

Module PostValidationFacts.

Import PatternValidator.
Open Scope Z_scope.

(** The three conditions of the quality checks, as the specification words
    them.  They are written out here from the patterns they stand for, not
    taken from the tables of the validator: the theorems below show that
    the validator decides exactly these. *)

Definition spaces : regex := Star (Cls CSpace).                        (* \s* *)
Definition some_spaces : regex := Plus (Cls CSpace).                   (* \s+ *)
(** Either quote character, and any character that is none. *)
Definition a_quote : regex := Set_ false [CChar dquote; CChar "'"].
Definition no_quote : regex := Set_ true [CChar dquote; CChar "'"].
Definition decimals (n m : nat) : regex := Between n m (Cls CDigit).   (* \d{n,m} *)

(** Asynchronous code: [async function], [async (] or an [await]. *)
Definition uses_async (code : string) : bool :=
  test false ((Str "async" ;; some_spaces ;; Str "function")
              <|> (Str "async" ;; spaces ;; Str "(")) code
  || test false (Str "await" ;; some_spaces) code.

(** Error handling: a [try { ... } catch], or a [.catch(]. *)
Definition handles_errors (code : string) : bool :=
  test false (Str "try" ;; spaces ;; Str "{" ;;
              LazyStar (Set_ false [CSpace; CNotSpace]) ;;
              Str "}" ;; spaces ;; Str "catch") code
  || test false (Str ".catch" ;; spaces ;; Str "(") code.

(** Code using [async]/[await] with neither a [try]/[catch] nor a
    [.catch(]. *)
Definition async_without_handling (code : string) : bool :=
  uses_async code && negb (handles_errors code).

(** A quoted IP address. *)
Definition ip_literal (code : string) : bool :=
  test false (a_quote ;; decimals 1 3 ;; Str "." ;; decimals 1 3 ;; Str "." ;;
              decimals 1 3 ;; Str "." ;; decimals 1 3 ;; a_quote) code.

(** A quoted URL, [http] or [https], that does not start at [localhost]. *)
Definition external_url (code : string) : bool :=
  test false (a_quote ;; Grp (Str "http" <|> Str "https") ;; Str "://" ;;
              NotAhead (Str "localhost") ;; Plus no_quote ;; a_quote) code.

(** A quoted port number, of four or five digits, behind a colon. *)
Definition port_literal (code : string) : bool :=
  test false (Str ":" ;; spaces ;; a_quote ;; decimals 4 5 ;; a_quote) code.

(** Some hardcoded literal: an IP address, a URL that is not on localhost,
    a port number. *)
Definition hardcoded_literal (code : string) : bool :=
  ip_literal code || external_url code || port_literal code.

(** A registration without its deregistration: [setInterval(] without any
    [clearInterval], or [addEventListener(] without any
    [removeEventListener]. *)
Definition leak_pattern (code : string) : bool :=
  (test false (Str "setInterval" ;; spaces ;; Str "(") code
   && negb (includes "clearInterval" code))
  || (test false (Str "addEventListener" ;; spaces ;; Str "(") code
      && negb (includes "removeEventListener" code)).

Definition deduction (b : bool) (points : Z) : Z := if b then points else 0.

(** The score the specification describes: 100 less the fixed amounts. *)
Definition specified_score (code : string) : Z :=
  100 - deduction (async_without_handling code) 15
      - deduction (hardcoded_literal code) 5
      - deduction (leak_pattern code) 20.

(** *** A literal is found where the text includes it *)

Lemma lit_prefix (t : string) (p : option ascii) (s : string) :
  match lit false t p s (fun _ s' => Some s') with
  | Some _ => prefix t s = true
  | None => prefix t s = false
  end.
Proof.
  revert p s. induction t as [|c t IH]; intros p s; cbn [lit].
  - destruct s; reflexivity.
  - destruct s as [|c' s]; [reflexivity|]. cbn [prefix char_eq].
    destruct (Ascii.eqb_spec c c') as [->|N].
    + destruct (ascii_dec c' c') as [_|N]; [|contradiction]. apply IH.
    + destruct (ascii_dec c c') as [E|_]; [contradiction|reflexivity].
Qed.

Lemma test_literal (t s : string) : test false (Str t) s = includes t s.
Proof.
  unfold test.
  assert (G : forall p, match search false (Str t) p s with
                        | Some _ => true
                        | None => false
                        end = includes t s); [|apply G].
  induction s as [|c s IH]; intros p.
  - cbn [search includes match_here run].
    pose proof (lit_prefix t p "") as L.
    destruct (lit false t p "" _); rewrite L; reflexivity.
  - cbn [search includes match_here run].
    pose proof (lit_prefix t p (String c s)) as L.
    destruct (lit false t p (String c s) _); rewrite L; [reflexivity|].
    cbn [orb]. rewrite <- (IH (Some c)).
    destruct (search false (Str t) (Some c) s) as [[[? ?] ?]|]; reflexivity.
Qed.

(** *** [match] finds something where [test] does *)

Lemma str_match_some (ci : bool) (r : regex) (s : string) (l : list string) :
  str_match ci r s = Some l -> l <> [].
Proof.
  unfold str_match. destruct (match_all_from _ _ _ _ _); [discriminate|].
  intros [= <-]. discriminate.
Qed.

Lemma str_match_test (ci : bool) (r : regex) (s : string) :
  match str_match ci r s with Some _ => true | None => false end
  = test ci r s.
Proof.
  unfold str_match, test. cbn [match_all_from].
  destruct (search ci r None s) as [[[b m] rest]|]; [|reflexivity].
  destruct m; reflexivity.
Qed.

(** *** The validator decides the three conditions *)

Lemma found_iff_literal (code : string) :
  found (_checkHardcodedValues code) = hardcoded_literal code.
Proof.
  unfold hardcoded_literal, ip_literal, external_url, port_literal.
  rewrite <- !str_match_test.
  unfold _checkHardcodedValues, hardcoded_patterns. cbn [found flat_map].
  rewrite !length_app.
  change (quote ;; digits 1 3 ;; Str "." ;; digits 1 3 ;; Str "." ;;
          digits 1 3 ;; Str "." ;; digits 1 3 ;; quote)%re
    with (a_quote ;; decimals 1 3 ;; Str "." ;; decimals 1 3 ;; Str "." ;;
          decimals 1 3 ;; Str "." ;; decimals 1 3 ;; a_quote)%re.
  change (quote ;; Grp (Str "http" <|> Str "https") ;; Str "://" ;;
          NotAhead (Str "localhost") ;; Plus not_quote ;; quote)%re
    with (a_quote ;; Grp (Str "http" <|> Str "https") ;; Str "://" ;;
          NotAhead (Str "localhost") ;; Plus no_quote ;; a_quote)%re.
  change (Str ":" ;; ws ;; quote ;; digits 4 5 ;; quote)%re
    with (Str ":" ;; spaces ;; a_quote ;; decimals 4 5 ;; a_quote)%re.
  repeat match goal with
         | |- context [str_match false ?r code] =>
             let E := fresh "E" in
             destruct (str_match false r code) as [[|? ?]|] eqn:E;
             [apply str_match_some in E; contradiction| |]
         end; reflexivity.
Qed.

Lemma handling_iff (code : string) :
  negb (hasProperHandling (_checkErrorHandling code)) = async_without_handling code.
Proof.
  unfold _checkErrorHandling, async_without_handling, uses_async, handles_errors.
  cbn [hasProperHandling].
  change try_catch_re
    with (Str "try" ;; spaces ;; Str "{" ;;
          LazyStar (Set_ false [CSpace; CNotSpace]) ;;
          Str "}" ;; spaces ;; Str "catch")%re.
  change promise_catch_re with (Str ".catch" ;; spaces ;; Str "(")%re.
  change async_re
    with ((Str "async" ;; some_spaces ;; Str "function")
          <|> (Str "async" ;; spaces ;; Str "("))%re.
  change await_re with (Str "await" ;; some_spaces)%re.
  repeat match goal with
         | |- context [test false ?r code] => destruct (test false r code)
         end; reflexivity.
Qed.

Lemma leak_iff (code : string) :
  potential (_checkMemoryLeaks code) = leak_pattern code.
Proof.
  unfold leak_pattern. rewrite <- !test_literal. reflexivity.
Qed.

(** The score after the three checks, and how many issues they left. *)
Lemma checks_score (code : string) :
  let st := check_memory_leaks code
              (check_hardcoded code (check_error_handling code ([], 100))) in
  snd st = specified_score code /\
  List.length (fst st) =
    ((if async_without_handling code then 1 else 0)
     + (if hardcoded_literal code then 1 else 0)
     + (if leak_pattern code then 1 else 0))%nat.
Proof.
  unfold specified_score, check_memory_leaks, check_hardcoded,
    check_error_handling.
  rewrite handling_iff.
  destruct (async_without_handling code); cbn [negb];
    rewrite found_iff_literal; destruct (hardcoded_literal code);
    rewrite leak_iff; destruct (leak_pattern code); split; reflexivity.
Qed.

Lemma specified_score_range (code : string) :
  60 <= specified_score code <= 100.
Proof.
  unfold specified_score, deduction.
  destruct (async_without_handling code), (hardcoded_literal code),
    (leak_pattern code); lia.
Qed.

(** C9: on an input from which a code string is extracted, [validatePost]
    returns a quality score that starts at 100 and loses exactly 15 for
    async code without error handling, 5 for hardcoded literals and 20 for
    a leak pattern; the score returned is not negative, and [passed] holds
    exactly when it is at least 70. *)
Theorem validatePost_quality_score (o : options) (result : value) (text : string) :
  enableQualityChecks o = true ->
  _extractCode result = JStr text ->
  exists r,
    validatePost o result = Returns r /\
    qualityScore r =
      100 - (if async_without_handling text then 15 else 0)
          - (if hardcoded_literal text then 5 else 0)
          - (if leak_pattern text then 20 else 0) /\
    0 <= qualityScore r /\
    (post_passed r = true <-> 70 <= qualityScore r) /\
    List.length (issues r) =
      ((if async_without_handling text then 1 else 0)
       + (if hardcoded_literal text then 1 else 0)
       + (if leak_pattern text then 1 else 0))%nat.
Proof.
  intros Ho He. unfold validatePost. rewrite He, Ho, andb_true_r.
  destruct (checks_score text) as [Hs Hl]. cbv zeta in Hs, Hl.
  pose proof (specified_score_range text) as R.
  change (100 - (if async_without_handling text then 15 else 0)
              - (if hardcoded_literal text then 5 else 0)
              - (if leak_pattern text then 20 else 0))
    with (specified_score text).
  destruct (truthy (JStr text)) eqn:T.
  - eexists. split; [reflexivity|].
    unfold post_result_of.
    destruct (check_memory_leaks text _) as [iss q]. cbn [fst snd] in Hs, Hl.
    cbn [qualityScore post_passed issues]. subst q.
    rewrite Z.max_r by lia. rewrite Z.leb_le. repeat split; auto; lia.
  - (* the empty string: no check runs, and none would find anything *)
    assert (text = "") as ->.
    { cbn in T. destruct text; [reflexivity|discriminate]. }
    eexists. split; [reflexivity|]. vm_compute. repeat split; congruence.
Qed.

(** *** The theorem at concrete code *)

(** [await] without any handling; the same code inside a [try]/[catch]. *)
Definition unhandled_await : string :=
  "async function load() { const r = await fetch(url); return r; }".
Definition handled_await : string :=
  "async function load() { try { return await fetch(url); } catch (e) { return null; } }".

(** An address, a URL and a port written into the code. *)
Definition fixed_address : string := "const host = '192.168.1.10';".
Definition fixed_url : string := "const api = 'https://api.example.com/v1';".
Definition local_url : string := "const api = 'http://localhost:3000/v1';".
Definition fixed_port : string := "const options = { port: '8080' };".

(** A timer that is never cleared, and one that is. *)
Definition lost_timer : string := "setInterval(poll, 1000)".
Definition kept_timer : string :=
  "const t = setInterval(poll, 1000); clearInterval(t);".

(** The three defects together. *)
Definition careless : string :=
  "async function poll() { await fetch('http://10.0.0.7/status'); } setInterval(poll, 1000);".

Definition as_result (code : string) : value := JObj [("code", JStr code)].

(** What [validatePost] returns for [code], by the theorem. *)
Definition scores (code : string) (score : Z) (pass : bool) (found : nat) : Prop :=
  exists r,
    validatePost default_options (as_result code) = Returns r /\
    qualityScore r = score /\ post_passed r = pass /\
    List.length (issues r) = found.

Lemma validatePost_quality_score_witness :
  scores unhandled_await 85 true 1 /\
  scores handled_await 100 true 0 /\
  scores fixed_address 95 true 1 /\
  scores fixed_url 95 true 1 /\
  scores local_url 100 true 0 /\
  scores fixed_port 95 true 1 /\
  scores lost_timer 80 true 1 /\
  scores kept_timer 100 true 0 /\
  scores careless 60 false 3.
Proof.
  assert (At : forall code score pass found,
            _extractCode (as_result code) = JStr code ->
            100 - (if async_without_handling code then 15 else 0)
                - (if hardcoded_literal code then 5 else 0)
                - (if leak_pattern code then 20 else 0) = score ->
            (70 <=? score) = pass ->
            ((if async_without_handling code then 1 else 0)
             + (if hardcoded_literal code then 1 else 0)
             + (if leak_pattern code then 1 else 0))%nat = found ->
            scores code score pass found).
  { intros code score pass found Hc Hs Hp Hf.
    destruct (@validatePost_quality_score default_options (as_result code)
                code eq_refl Hc)
      as (r & E & Q & _ & P & L).
    exists r. rewrite Hs in Q. rewrite Hf in L.
    repeat split; [exact E | exact Q | | exact L].
    rewrite <- Hp, <- Q. destruct (post_passed r).
    - symmetry. apply Z.leb_le. apply P. reflexivity.
    - symmetry. apply Z.leb_gt. apply Z.nle_gt. intros G.
      apply P in G. discriminate. }
  repeat split; apply At; vm_compute; reflexivity.
Defined.

End PostValidationFacts.

(** ** The phase state machine *)

Module PhaseFacts.

Import SPARCIntegration.
Open Scope Q_scope.

Lemma assoc_In {V : Type} (k : string) (l : list (string * V)) (v : V) :
  assoc k l = Some v -> In (k, v) l.
Proof.
  induction l as [|[k' v'] l IH]; [discriminate|]. cbn [assoc].
  destruct (String.eqb_spec k' k) as [->|_].
  - intros [= ->]. left. reflexivity.
  - intros H. right. auto.
Qed.

(** The three-decimal rounding leaves a multiple of 1/1000 as it is. *)
Lemma Qfloor_half (z : Z) : Qfloor (inject_Z z + (1 # 2)) = z.
Proof.
  assert (L : (z <= Qfloor (inject_Z z + (1 # 2)))%Z).
  { rewrite <- (Qfloor_Z z) at 1. apply Qfloor_resp_le.
    rewrite <- (Qplus_0_r (inject_Z z)) at 1.
    apply Qplus_le_r. discriminate. }
  assert (U : (Qfloor (inject_Z z + (1 # 2)) < z + 1)%Z).
  { rewrite Zlt_Qlt. eapply Qle_lt_trans; [apply Qfloor_le|].
    rewrite inject_Z_plus. apply Qplus_lt_r. reflexivity. }
  lia.
Qed.

(** Every gate of the table is a whole number of thousandths. *)
Lemma gate_thousandths (phase : string) (cfg : phase_config) :
  assoc phase phases = Some cfg ->
  exists g : Z, qualityGate cfg == inject_Z g / 1000.
Proof.
  intros H. apply assoc_In in H. unfold phases in H. cbn [In] in H.
  repeat (destruct H as [[= _ <-] | H];
          [first [ now exists 850%Z | now exists 900%Z | now exists 950%Z ]|]).
  contradiction.
Qed.

Lemma Qle_bool_true (a b : Q) : Qle_bool a b = true <-> a <= b.
Proof. apply Qle_bool_iff. Qed.

Lemma Qle_bool_false (a b : Q) : Qle_bool a b = false <-> b < a.
Proof.
  split; intros H.
  - apply Qnot_le_lt. intros L. apply Qle_bool_iff in L. congruence.
  - destruct (Qle_bool a b) eqn:E; [|reflexivity].
    apply Qle_bool_iff in E. exfalso. exact (Qlt_not_le _ _ H E).
Qed.

(** Rounding to three decimals does not take a score below a gate that it
    has reached. *)
Lemma round3_above_gate (g : Z) (x : Q) :
  inject_Z g / 1000 <= x -> inject_Z g / 1000 <= round3 x.
Proof.
  intros H. unfold round3, Math_round.
  apply Qmult_le_compat_r with (z := / 1000); [|discriminate].
  rewrite <- Zle_Qle.
  rewrite <- (Qfloor_half g).
  apply Qfloor_resp_le. apply Qplus_le_l.
  apply Qmult_le_compat_r with (z := 1000) in H; [|discriminate].
  revert H. field_simplify (inject_Z g / 1000 * 1000). intros H. exact H.
Qed.

(** The gates of the table, and the order of the phases. *)
Lemma quality_gates :
  map (fun p => (fst p, qualityGate (snd p))) phases =
  [ ("specification", 0.85); ("pseudocode", 0.85); ("architecture", 0.90);
    ("refinement", 0.95); ("completion", 0.90) ].
Proof. reflexivity. Qed.

Lemma phase_sequence :
  map (fun p => (fst p, _getNextPhase (fst p))) phases =
  [ ("specification", Some "pseudocode"); ("pseudocode", Some "architecture");
    ("architecture", Some "refinement"); ("refinement", Some "completion");
    ("completion", None) ].
Proof. reflexivity. Qed.

Section Runtime.

Variable ToNumber : value -> option Q.
Variable ToString : value -> string.

Local Abbreviation validatePhase := (validatePhase ToNumber ToString).

(** How a call that resolves to a result relates to the state before. *)
Lemma validatePhase_result (phase : string) (outputs : value)
  (v : option validator) (st st' : state) (r : phase_result) :
  validatePhase phase outputs v st = (Returns (Validated r), st') ->
  exists cfg score,
    assoc phase phases = Some cfg /\
    r_phase r = phase /\
    r_qualityGate r = qualityGate cfg /\
    r_score r = round3 score /\
    r_passed r = Qle_bool (qualityGate cfg) score /\
    (r_passed r = true ->
       r_nextPhase r = Some (_getNextPhase phase) /\
       r_remediation r = None /\
       currentWorkflow st' =
         advance phase r (_getNextPhase phase) (currentWorkflow st)) /\
    (r_passed r = false ->
       r_nextPhase r = None /\
       r_remediation r = Some (_getRemediationSteps (r_issues r)) /\
       currentWorkflow st' = currentWorkflow st).
Proof.
  unfold SPARCIntegration.validatePhase.
  destruct (assoc phase phases) as [cfg|] eqn:Ha.
  2:{ destruct (mem_string phase Object_prototype_keys); discriminate. }
  destruct (check_required (requiredOutputs cfg) outputs [] 1) as [i0 s0].
  destruct (_validatePhaseSpecific ToNumber ToString phase outputs) as [sp d].
  set (validated := match v with Some _ => _ | None => _ end).
  intros H. exists cfg.
  destruct outputs; try discriminate H;
    (destruct validated as [[i1 s1]|e]; [|discriminate H]);
    exists (Qmax 0 (s1 - d));
    (destruct (Qle_bool (qualityGate cfg) (Qmax 0 (s1 - d))) eqn:G;
     injection H as <- <-; cbn; rewrite ?G;
     repeat split; try reflexivity; try discriminate).
Qed.

Lemma advance_other (phase : string) (r : phase_result) (next : option string)
  (cw : option workflow) :
  (forall w, cw = Some w -> currentPhase w <> Some phase) ->
  advance phase r next cw = cw.
Proof.
  intros H. destruct cw as [w|]; [|reflexivity]. cbn.
  destruct (currentPhase w) as [cur|] eqn:E; [|reflexivity].
  destruct (String.eqb_spec cur phase) as [->|_]; [|reflexivity].
  exfalso. exact (H w eq_refl E).
Qed.

(** A call that does not resolve to a result leaves the whole state as it
    was. *)
Lemma validatePhase_no_result (phase : string) (outputs : value)
  (v : option validator) (st st' : state) (res : outcome reply) :
  validatePhase phase outputs v st = (res, st') ->
  (forall r, res <> Returns (Validated r)) ->
  st' = st.
Proof.
  intros V N. revert V. unfold SPARCIntegration.validatePhase.
  destruct (assoc phase phases) as [cfg|].
  - destruct (check_required _ _ _ _), (_validatePhaseSpecific _ _ _ _).
    destruct outputs; try (intros [= <- <-]; reflexivity);
      match goal with
      | |- context [match ?x with Returns _ => _ | Raises _ => _ end] =>
          destruct x as [[? ?]|?]
      end;
      try (intros [= <- <-]; reflexivity);
      destruct (Qle_bool _ _); intros [= <- _]; exfalso; eapply N; reflexivity.
  - destruct (mem_string _ _); intros [= <- <-]; reflexivity.
Qed.

(** Whatever the call does, it leaves the workflow alone unless it resolves
    to a passed result. *)
Lemma validatePhase_workflow (phase : string) (outputs : value)
  (v : option validator) (st : state) :
  currentWorkflow (snd (validatePhase phase outputs v st)) = currentWorkflow st
  \/ exists r, fst (validatePhase phase outputs v st) = Returns (Validated r)
               /\ r_passed r = true.
Proof.
  destruct (validatePhase phase outputs v st) as [res st'] eqn:E. cbn [fst snd].
  assert (D : (exists r, res = Returns (Validated r))
              \/ forall r, res <> Returns (Validated r)).
  { destruct res as [[err|r]|e]; [right; discriminate | left; eauto
                                 | right; discriminate]. }
  destruct D as [[r ->]|N].
  - destruct (r_passed r) eqn:P.
    + right. exists r. auto.
    + left. apply validatePhase_result in E.
      destruct E as (cfg & score & _ & _ & _ & _ & _ & _ & F).
      apply F. exact P.
  - left. rewrite (validatePhase_no_result _ _ _ _ E N). reflexivity.
Qed.

(** C10: a call for a phase that is not the current phase of the active
    workflow, or made while no workflow is active, leaves the workflow
    (current phase, completed phases, phase results) as it was, even when
    the validation passes. *)
Theorem validatePhase_other_phase_frame (phase : string) (outputs : value)
  (v : option validator) (st : state) :
  (forall w, currentWorkflow st = Some w -> currentPhase w <> Some phase) ->
  currentWorkflow (snd (validatePhase phase outputs v st)) = currentWorkflow st.
Proof.
  intros H.
  destruct (validatePhase_workflow phase outputs v st) as [E|(r & E & P)];
    [exact E|].
  destruct (validatePhase phase outputs v st) as [res st'] eqn:V.
  cbn [fst snd] in *. subst res.
  apply validatePhase_result in V.
  destruct V as (cfg & score & _ & _ & _ & _ & _ & T & _).
  destruct (T P) as (_ & _ & ->). apply advance_other. exact H.
Qed.

(** The issues of the required outputs only grow, and the score falls
    only with them. *)
Lemma check_required_extends (required : list string) (outputs : value) :
  forall issues score,
    exists extra,
      fst (check_required required outputs issues score) = (issues ++ extra)%list /\
      (extra = [] -> snd (check_required required outputs issues score) = score).
Proof.
  induction required as [|x required IH]; intros issues score; cbn [check_required].
  - exists []. rewrite app_nil_r. auto.
  - destruct (negb (truthy (get outputs x))).
    + destruct (IH (issues ++ [ {| i_type := Some "missing_output";
                                   i_severity := Some "HIGH";
                                   i_message :=
                                     Some ("Missing required output: " ++ x)%string |} ])%list
                  (score - 0.2))
        as (extra & E & _).
      eexists. rewrite E, <- app_assoc. split; [reflexivity|]. discriminate.
    + apply IH.
Qed.

Lemma validatePhaseSpecific_clean (phase : string) (outputs : value) :
  fst (_validatePhaseSpecific ToNumber ToString phase outputs) = [] ->
  snd (_validatePhaseSpecific ToNumber ToString phase outputs) = 0.
Proof.
  unfold _validatePhaseSpecific.
  repeat match goal with
         | |- context [if ?b then _ else _] => destruct b
         end; cbn [fst snd]; try reflexivity; discriminate.
Qed.

(** A result that lists no issue has passed: the score falls only where
    an issue is listed, and every gate is under 1. *)
Lemma clean_result_passes (phase : string) (outputs : value)
  (v : option validator) (st st' : state) (r : phase_result) :
  validatePhase phase outputs v st = (Returns (Validated r), st') ->
  r_issues r = [] -> r_passed r = true.
Proof.
  unfold SPARCIntegration.validatePhase.
  destruct (assoc phase phases) as [cfg|] eqn:Ha.
  2:{ destruct (mem_string phase Object_prototype_keys); discriminate. }
  assert (Gate : forall x, x == 1 -> Qle_bool (qualityGate cfg) (Qmax 0 x) = true).
  { intros x Ex. apply assoc_In in Ha. unfold phases in Ha. cbn [In] in Ha.
    assert (M : Qmax 0 x == 1).
    { unfold Qmax. destruct (Qle_bool 0 x) eqn:L; [exact Ex|].
      exfalso. rewrite Ex in L. discriminate. }
    apply Qle_bool_iff. rewrite M.
    repeat (destruct Ha as [[= _ <-] | Ha]; [discriminate|]).
    contradiction. }
  destruct (check_required_extends (requiredOutputs cfg) outputs [] 1)
    as (extra & Ei & Es).
  pose proof (validatePhaseSpecific_clean phase outputs) as Sp.
  destruct (check_required (requiredOutputs cfg) outputs [] 1) as [i0 s0].
  destruct (_validatePhaseSpecific ToNumber ToString phase outputs) as [sp d].
  cbn [fst snd app] in Ei, Es, Sp. subst i0.
  intros H Hr.
  assert (K : exists i1 s1,
             (i1 = [] -> s1 == 1) /\ r_issues r = (i1 ++ sp)%list /\
             r_passed r = Qle_bool (qualityGate cfg) (Qmax 0 (s1 - d))).
  { destruct outputs; try discriminate H;
      (destruct v as [f|];
       [ destruct (enableValidation (opts st));
         [ match type of H with
           | context [f ?o] => destruct (f o) as [[[vi|]|]|e]
           end; try discriminate H | ] | ]);
      match type of H with
      | context [Qle_bool ?g (Qmax 0 (?s1 - d))] =>
          destruct (Qle_bool g (Qmax 0 (s1 - d))) eqn:G
      end;
      injection H as <- <-; cbn [r_issues r_passed];
      eexists _, _; (split; [|split; [reflexivity|symmetry; exact G]]);
      intros E;
      try (apply app_eq_nil in E; destruct E as [E ->]);
      rewrite (Es E); reflexivity. }
  destruct K as (i1 & s1 & Hs & Hi & Hp).
  rewrite Hr in Hi. symmetry in Hi. apply app_eq_nil in Hi.
  destruct Hi as [Hi ->]. rewrite (Sp eq_refl) in Hp.
  rewrite Hp. apply Gate. rewrite (Hs Hi). reflexivity.
Qed.

(** What a remediation step says about an issue: the message of the
    issue, the instruction to fix an issue of that type, and how pressing
    that is by the severity. *)
Definition remedies (i : issue) (step : remediation_step) : Prop :=
  rs_issue step = i_message i /\
  rs_remediation step =
    "Fix " ++ match i_type i with Some t => t | None => "undefined" end
           ++ " issue before proceeding" /\
  rs_priority step = match i_severity i with
                     | Some "HIGH" => "immediate"
                     | _ => "recommended"
                     end.

Lemma remediation_steps (issues : list issue) :
  Forall2 remedies issues (_getRemediationSteps issues).
Proof.
  induction issues as [|i issues IH]; constructor; [|exact IH].
  repeat split.
Qed.

(** C8: with a workflow active, a call that resolves to a result whose
    score is below the gate of the phase leaves the workflow as it was, and
    the result carries remediation guidance: at least one step, and one for
    each issue listed, in their order; the current phase changes only when
    the phase passed its gate, and then from the validated phase to the one
    that follows it in the table. *)
Theorem validatePhase_gate (phase : string) (outputs : value)
  (v : option validator) (st st' : state) (w : workflow) (r : phase_result) :
  currentWorkflow st = Some w ->
  validatePhase phase outputs v st = (Returns (Validated r), st') ->
  exists cfg w',
    assoc phase phases = Some cfg /\
    r_qualityGate r = qualityGate cfg /\
    In (phase, r_qualityGate r)
       [ ("specification", 0.85); ("pseudocode", 0.85); ("architecture", 0.90);
         ("refinement", 0.95); ("completion", 0.90) ] /\
    currentWorkflow st' = Some w' /\
    (r_score r < r_qualityGate r ->
       r_passed r = false /\ w' = w /\
       exists steps,
         r_remediation r = Some steps /\ steps <> [] /\
         Forall2 remedies (r_issues r) steps) /\
    (currentPhase w' <> currentPhase w ->
       r_passed r = true /\ r_qualityGate r <= r_score r /\
       currentPhase w = Some phase /\
       currentPhase w' = _getNextPhase phase).
Proof.
  intros Hw V. pose proof (clean_result_passes _ _ _ _ V) as Clean.
  apply validatePhase_result in V.
  destruct V as (cfg & score & Ha & _ & Hg & Hs & Hp & T & F).
  destruct (gate_thousandths _ Ha) as [g Eg].
  assert (Above : r_passed r = true -> r_qualityGate r <= r_score r).
  { intros P. rewrite Hp in P. apply Qle_bool_true in P.
    rewrite Hg, Hs, Eg. apply round3_above_gate. rewrite <- Eg. exact P. }
  assert (Gate : In (phase, r_qualityGate r)
                   [ ("specification", 0.85); ("pseudocode", 0.85);
                     ("architecture", 0.90); ("refinement", 0.95);
                     ("completion", 0.90) ]).
  { rewrite Hg, <- quality_gates.
    exact (in_map (fun p => (fst p, qualityGate (snd p))) phases (phase, cfg)
             (assoc_In _ _ Ha)). }
  assert (NotBelow : r_passed r = true -> ~ r_score r < r_qualityGate r).
  { intros P L. exact (Qlt_not_le _ _ L (Above P)). }
  exists cfg.
  destruct (r_passed r) eqn:P.
  - destruct (T eq_refl) as (_ & _ & Hc). rewrite Hw in Hc. cbn in Hc.
    assert (K : exists w', currentWorkflow st' = Some w' /\
                  (currentPhase w' <> currentPhase w ->
                   currentPhase w = Some phase /\
                   currentPhase w' = _getNextPhase phase)).
    { destruct (currentPhase w) as [cur|] eqn:Ec.
      - destruct (String.eqb_spec cur phase) as [->|N].
        + eexists. split; [exact Hc|]. cbn. auto.
        + exists w. split; [exact Hc|]. rewrite Ec. congruence.
      - exists w. split; [exact Hc|]. rewrite Ec. congruence. }
    destruct K as (w' & Hw' & Hch). exists w'.
    split; [exact Ha|]. split; [exact Hg|]. split; [exact Gate|].
    split; [exact Hw'|]. split.
    + intros L. exfalso. exact (NotBelow eq_refl L).
    + intros C. destruct (Hch C). auto.
  - destruct (F eq_refl) as (_ & Hr & Hc). rewrite Hw in Hc.
    exists w.
    split; [exact Ha|]. split; [exact Hg|]. split; [exact Gate|].
    split; [exact Hc|]. split.
    + intros _. split; [reflexivity|]. split; [reflexivity|].
      exists (_getRemediationSteps (r_issues r)).
      split; [exact Hr|]. split; [|apply remediation_steps].
      intros E. destruct (r_issues r) as [|i issues] eqn:Ei.
      * discriminate (Clean eq_refl).
      * discriminate E.
    + congruence.
Qed.

End Runtime.

(** *** The theorems at concrete calls *)

(** The calls below validate the first two phases, whose checks convert
    no value: any pair of conversions serves. *)
Definition no_number (v : value) : option Q := None.
Definition no_text (v : value) : string := "".

(** A workflow that has just been started: its current phase is
    [specification]. *)
Definition started : state :=
  startWorkflow "Build a REST API" JUndefined 0 (new default_options).

Definition started_workflow : workflow :=
  {| wf_id := "sparc_0"; task := "Build a REST API"; startTime := 0;
     currentPhase := Some "specification"; completedPhases := [];
     phaseResults := []; wf_options := JUndefined |}.

(** Outputs of the specification phase with [success_criteria] missing:
    the score is 0.8, under the gate of 0.85. *)
Definition incomplete_specification : value :=
  JObj [ ("requirements", JArr [JStr "list users"]);
         ("constraints", JStr "latency under 100ms") ].

(** Complete outputs of the pseudocode phase. *)
Definition complete_pseudocode : value :=
  JObj [ ("algorithm_design", JStr "paginate by cursor");
         ("data_structures", JStr "a map from id to user") ].

Lemma validatePhase_gate_witness :
  currentWorkflow started = Some started_workflow /\
  match validatePhase no_number no_text "specification"
          incomplete_specification None started with
  | (Returns (Validated r), st') =>
      r_score r == 0.8 /\ r_qualityGate r == 0.85 /\
      currentWorkflow st' = Some started_workflow /\
      r_remediation r =
        Some [ {| rs_issue := Some "Missing required output: success_criteria";
                  rs_remediation := "Fix missing_output issue before proceeding";
                  rs_priority := "immediate" |} ]
  | _ => False
  end.
Proof.
  split; [reflexivity|].
  destruct (validatePhase no_number no_text "specification"
              incomplete_specification None started)
    as [[[err|r]|e] st'] eqn:V; try (vm_compute in V; discriminate).
  destruct (@validatePhase_gate no_number no_text "specification"
              incomplete_specification None started st' started_workflow r
              eq_refl V)
    as (cfg & w' & _ & _ & _ & Hw & Below & _).
  assert (S : r_score r == 0.8 /\ r_qualityGate r == 0.85 /\
              r_issues r =
                [ {| i_type := Some "missing_output"; i_severity := Some "HIGH";
                     i_message :=
                       Some "Missing required output: success_criteria" |} ]).
  { vm_compute in V. injection V as <- _. repeat split; reflexivity. }
  destruct S as (S & G & I). split; [exact S|]. split; [exact G|].
  assert (L : r_score r < r_qualityGate r) by (rewrite S, G; reflexivity).
  destruct (Below L) as (_ & -> & steps & R & _ & F).
  split; [exact Hw|]. rewrite R, I in *. clear - F.
  inversion F as [|i step issues rest (Hi & Hr & Hp) F']; subst.
  inversion F'; subst. destruct step as [a b c]. cbn in Hi, Hr, Hp.
  subst. reflexivity.
Defined.

Lemma validatePhase_other_phase_frame_witness :
  (exists r, fst (validatePhase no_number no_text "pseudocode"
                    complete_pseudocode None started) = Returns (Validated r)
             /\ r_passed r = true) /\
  currentWorkflow (snd (validatePhase no_number no_text "pseudocode"
                          complete_pseudocode None started))
    = Some started_workflow.
Proof.
  split.
  - eexists. split; vm_compute; reflexivity.
  - apply (@validatePhase_other_phase_frame no_number no_text "pseudocode"
             complete_pseudocode None started).
    intros w H. vm_compute in H. injection H as <-. discriminate.
Defined.

End PhaseFacts.

(** ** Configuration errors *)

Module ConfigurationFacts.

Import SPARCIntegration.

(** C5, as stated, fails: a phase name that the table does not know is
    answered with a result object, not with a rejection. *)
Lemma unknown_phase_is_not_rejected :
  fst (validatePhase PhaseFacts.no_number PhaseFacts.no_text "deployment"
         (JObj []) None (new default_options))
    = Returns (UnknownPhase "Unknown phase: deployment") /\
  ~ exists e, fst (validatePhase PhaseFacts.no_number PhaseFacts.no_text
                     "deployment" (JObj []) None (new default_options))
              = Raises e.
Proof.
  split; [reflexivity|]. intros [e H]. vm_compute in H. discriminate.
Qed.

(** C5, amended: registering a handler that is not a function throws at
    once, for either registry; [validatePhase] with a name that is neither
    a key of the phase table nor a property the table inherits resolves to
    [{valid: false, error}] and leaves the state as it was. *)
Theorem configuration_errors :
  (forall i v o st,
     ValidationHooks.registerPreToolUse i (ValidationHooks.NotFunction v) o st
     = Raises (Error ("PreToolUse hook '" ++ i ++ "' must be a function"))) /\
  (forall i v o st,
     ValidationHooks.registerPostToolUse i (ValidationHooks.NotFunction v) o st
     = Raises (Error ("PostToolUse hook '" ++ i ++ "' must be a function"))) /\
  (forall ToNumber ToString phase outputs v st,
     assoc phase phases = None ->
     mem_string phase Object_prototype_keys = false ->
     validatePhase ToNumber ToString phase outputs v st
     = (Returns (UnknownPhase ("Unknown phase: " ++ phase)), st)).
Proof.
  split; [reflexivity|]. split; [reflexivity|].
  intros ToNumber ToString phase outputs v st Ha Hp.
  unfold validatePhase. rewrite Ha, Hp. reflexivity.
Qed.

Lemma configuration_errors_witness :
  ValidationHooks.registerPreToolUse "audit"
    (ValidationHooks.NotFunction (JStr "not a function"))
    ValidationHooks.no_options
    (ValidationHooks.empty ValidationHooks.default_options)
  = Raises (Error "PreToolUse hook 'audit' must be a function") /\
  validatePhase PhaseFacts.no_number PhaseFacts.no_text "deployment"
    (JObj []) None PhaseFacts.started
  = (Returns (UnknownPhase "Unknown phase: deployment"), PhaseFacts.started).
Proof.
  destruct configuration_errors as (Pre & _ & Unknown).
  split.
  - apply Pre.
  - apply Unknown; reflexivity.
Defined.

(** A name the table inherits is neither: the call is rejected. *)
Lemma inherited_name_is_rejected :
  fst (validatePhase PhaseFacts.no_number PhaseFacts.no_text "constructor"
         (JObj []) None (new default_options)) = Raises TypeError.
Proof. reflexivity. Qed.

End ConfigurationFacts.

(** ** The retry orchestrator *)

Module OrchestratorFacts.

Import ClaudeFlowAdapter.
Open Scope Z_scope.

Section Loop.

Variable W : Type.
Variable execute : list string -> W -> outcome value * W.

Local Abbreviation attempt := (@attempt W execute).
Local Abbreviation loop := (@loop W execute).
Local Abbreviation orchestrate := (@orchestrate W execute).

Definition threw (r : outcome value) : option error :=
  match r with Raises e => Some e | Returns _ => None end.

(** The two ways an attempt goes. *)
Lemma attempt_cases (c : config W) (is_connected : bool) (s : loop_state W) :
  (is_connected = false /\
   attempt c is_connected s
   = (Returns (standalone_result c (currentTask s)), world s, log s))
  \/
  (is_connected = true /\
   exists r w1,
     execute (task_args c (currentTask s)) (world s) = (r, w1) /\
     attempt c is_connected s
     = (r, w1, (log s ++ [Execute (task_args c (currentTask s)) (threw r)])%list)).
Proof.
  unfold ClaudeFlowAdapter.attempt. destruct is_connected.
  - right. split; [reflexivity|].
    destruct (execute _ _) as [r w1]. exists r, w1. split; reflexivity.
  - left. split; reflexivity.
Qed.

(** What [judge] does: it leaves the loop ([None]) with the attempt
    counted and at most the validation call added, or it enters the rest
    of the loop in a state [s'] that it has marked with the issues. *)
Definition judged (n : Z) (result : value) (log1 : list call)
  (next : option (loop_state W)) (out : option (loop_exit W)) : Prop :=
  match next with
  | None =>
      exists x s',
        out = Some x /\
        (x = Left true s' \/ exists e, x = Caught e s') /\
        attempts s' = n /\
        (log s' = log1 \/ log s' = (log1 ++ [PostValidation result])%list)
  | Some s' =>
      is_object result = true /\
      attempts s' = n /\
      log s' = (log1 ++ [PostValidation result])%list /\
      exists l, lastResult s' = Some {| produced := result; qualityIssues := l |}
  end.

Lemma judge_spec (c : config W)
  (continue : loop_state W -> option (loop_exit W)) (s : loop_state W)
  (n : Z) (result : value) (w1 : W) (log1 : list call) :
  exists next,
    judged n result log1 next (judge c continue s n result w1 log1) /\
    match next with
    | Some s' => judge c continue s n result w1 log1 = continue s'
    | None => True
    end.
Proof.
  unfold judge. destruct (c_postValidation c) as [post|].
  2:{ exists None. split; [|exact I]. cbn. eauto 10. }
  destruct (post result w1) as [[[[[|] issues]|]|e] w2].
  - exists None. split; [|exact I]. cbn. eauto 10.
  - destruct (is_object result) eqn:O; cbn [negb].
    + destruct (n <=? c_maxRetries c).
      * destruct issues as [l|].
        -- eexists (Some _). split; [|reflexivity]. cbn. eauto 10.
        -- exists None. split; [|exact I]. cbn. eauto 10.
      * eexists (Some _). split; [|reflexivity]. cbn. eauto 10.
    + exists None. split; [|exact I]. cbn. eauto 10.
  - exists None. split; [|exact I]. cbn. eauto 10.
  - exists None. split; [|exact I]. cbn. eauto 10.
Qed.

(** *** Termination *)

(** The rounds still allowed bound the fuel the loop needs. *)
Lemma loop_total (c : config W) (is_connected : bool) (fuel : nat)
  (s : loop_state W) :
  c_maxRetries c + 1 - attempts s <= Z.of_nat fuel ->
  exists x, loop fuel c is_connected s = Some x.
Proof.
  revert s. induction fuel as [|fuel IH]; intros s Hf;
    cbn [ClaudeFlowAdapter.loop];
    (destruct (attempts s <=? c_maxRetries c) eqn:E; [|eauto]);
    apply Z.leb_le in E; [lia|].
  destruct (attempt c is_connected s) as [[[result|e] w1] log1]; [|eauto].
  destruct (judge_spec c (loop fuel c is_connected) s (attempts s + 1)
              result w1 log1) as ([s'|] & J & K).
  - rewrite K. destruct J as (_ & Ha & _). apply IH. lia.
  - destruct J as (x & _ & -> & _). eauto.
Qed.

(** [orchestrate] always settles: the fuel it gives the loop suffices. *)
Lemma orchestrate_total (a : adapter) (task : string)
  (o : orchestrate_options W) (w : W) :
  exists r, orchestrate a task o w = Some r.
Proof.
  unfold ClaudeFlowAdapter.orchestrate.
  assert (L : forall done w0 log0,
             exists x, loop (Z.to_nat (c_maxRetries (config_of o) + 1))
                         (config_of o) (connected a)
                         {| currentTask := task; attempts := 0;
                            lastResult := None; validations := done;
                            world := w0; log := log0 |} = Some x).
  { intros. apply loop_total. cbn [attempts]. lia. }
  destruct (c_preValidation (config_of o)) as [pre|].
  - destruct (pre task w) as [[[[[|] vs]|]|e] w']; eauto;
      destruct (L 1%nat w' [PreValidation task]) as [[e s|b s] ->]; eauto.
  - destruct (L 0%nat w []) as [[e s|b s] ->]; eauto.
Qed.

(** *** A failing pre-validation *)

(** C7, amended: when the supplied pre-validation function reports
    failure, it is the only call made (once, before any attempt), the
    executor is never invoked, no attempt is counted, and the call
    resolves to [{success: false, blocked: true, reason}], an object
    without [finalStatus] or [attempts]. *)
Theorem failing_pre_validation_blocks (a : adapter) (task : string)
  (o : orchestrate_options W) (w w' : W) (pre : pre_fn W) (v : pre_verdict) :
  preValidation o = Some pre ->
  pre task w = (Returns (Some v), w') ->
  pre_passed v = false ->
  exists r,
    orchestrate a task o w = Some r /\
    resolved r = Returns (Blocked (block_reason v)) /\
    calls r = [PreValidation task] /\
    executions (calls r) = 0%nat /\
    world_after r = w' /\
    blockedOperations (metrics_ (after r))
      = S (blockedOperations (metrics_ a)) /\
    (forall x, resolved r = Returns x ->
               finalStatus_of x = None /\ attempts_of x = None).
Proof.
  intros Hp He Hf. unfold ClaudeFlowAdapter.orchestrate.
  cbn [config_of c_preValidation]. rewrite Hp, He.
  destruct v as [passed vs]. cbn [pre_passed] in Hf. subst passed.
  eexists. split; [reflexivity|]. cbn.
  repeat split; try reflexivity; try lia.
  - injection H as <-. reflexivity.
  - injection H as <-. reflexivity.
Qed.

(** *** An executor that raises *)

(** No call of the executor in the log has raised. *)
Definition no_raise (l : list call) : Prop :=
  forall args e, ~ In (Execute args (Some e)) l.

Lemma no_raise_app (l : list call) (c : call) :
  no_raise l -> (forall args e, c <> Execute args (Some e)) ->
  no_raise (l ++ [c]).
Proof.
  intros Hl Hc args e Hin. apply in_app_or in Hin.
  destruct Hin as [Hin|[Hin|[]]];
    [exact (Hl _ _ Hin) | exact (Hc args e Hin)].
Qed.

(** How the loop is left, in terms of the raises of the executor: a raise
    is the last call made, and its error is what the loop is left with. *)
Definition raise_last (x : loop_exit W) : Prop :=
  match x with
  | Left _ s => no_raise (log s)
  | Caught e s =>
      no_raise (log s) \/
      exists before args,
        log s = (before ++ [Execute args (Some e)])%list /\ no_raise before
  end.

Lemma loop_raise_last (c : config W) (is_connected : bool) (fuel : nat)
  (s : loop_state W) (x : loop_exit W) :
  no_raise (log s) ->
  loop fuel c is_connected s = Some x ->
  raise_last x.
Proof.
  revert s. induction fuel as [|fuel IH]; intros s Hs;
    cbn [ClaudeFlowAdapter.loop];
    (destruct (attempts s <=? c_maxRetries c); [|intros [= <-]; exact Hs]);
    [discriminate|].
  assert (Judge : forall result w1 log1,
            no_raise log1 ->
            judge c (loop fuel c is_connected) s (attempts s + 1)
              result w1 log1 = Some x ->
            raise_last x).
  { intros result w1 log1 N1.
    destruct (judge_spec c (loop fuel c is_connected) s (attempts s + 1)
                result w1 log1) as ([s'|] & J & K).
    - rewrite K. destruct J as (_ & _ & Hl & _). apply IH. rewrite Hl.
      apply no_raise_app; [exact N1|discriminate].
    - destruct J as (x' & s' & -> & Hx & _ & Hl). intros [= <-].
      assert (N : no_raise (log s')).
      { destruct Hl as [->| ->]; [exact N1|].
        apply no_raise_app; [exact N1|discriminate]. }
      destruct Hx as [->|[e ->]]; cbn; auto. }
  destruct (attempt_cases c is_connected s) as [[_ ->]|(_ & r & w1 & Ex & ->)].
  - apply Judge. exact Hs.
  - destruct r as [result|e].
    + apply Judge. apply no_raise_app; [exact Hs|discriminate].
    + intros [= <-]. cbn. right. eauto.
Qed.

Lemma no_raise_split (before : list call) (args args' : list string)
  (e e' : error) :
  no_raise before ->
  In (Execute args' (Some e')) (before ++ [Execute args (Some e)]) ->
  args' = args /\ e' = e.
Proof.
  intros N Hin. apply in_app_or in Hin.
  destruct Hin as [Hin|[Hin|[]]]; [destruct (N _ _ Hin)|].
  injection Hin as -> ->. auto.
Qed.

(** C3, amended: when the executor raises on an attempt, the raise is
    caught and ends the orchestration there: the call resolves to
    [{success: false, error}] with the error raised, an object without
    [finalStatus] or [attempts]; the raising invocation is the last call
    made, so no further attempt follows, whatever [maxRetries] is. *)
Theorem executor_raise_ends_orchestration (a : adapter) (task : string)
  (o : orchestrate_options W) (w : W) (r : run W) (args : list string)
  (e : error) :
  orchestrate a task o w = Some r ->
  In (Execute args (Some e)) (calls r) ->
  resolved r = Returns (Failed e) /\
  (exists before,
      calls r = (before ++ [Execute args (Some e)])%list /\ no_raise before) /\
  (forall x, resolved r = Returns x ->
             finalStatus_of x = None /\ attempts_of x = None).
Proof.
  unfold ClaudeFlowAdapter.orchestrate.
  assert (L : forall done w0 log0 x,
             no_raise log0 ->
             loop (Z.to_nat (c_maxRetries (config_of o) + 1))
               (config_of o) (connected a)
               {| currentTask := task; attempts := 0; lastResult := None;
                  validations := done; world := w0; log := log0 |} = Some x ->
             raise_last x).
  { intros done w0 log0 x N. apply loop_raise_last. exact N. }
  assert (N0 : no_raise []) by (intros ? ? []).
  assert (N1 : no_raise [PreValidation task]).
  { intros ? ? [H|[]]. discriminate. }
  assert (Fin : forall done w0 log0,
            no_raise log0 ->
            match loop (Z.to_nat (c_maxRetries (config_of o) + 1))
                    (config_of o) (connected a)
                    {| currentTask := task; attempts := 0; lastResult := None;
                       validations := done; world := w0; log := log0 |} with
            | Some (Caught e0 s) =>
                Some {| resolved := Returns (Failed e0);
                        after := with_metrics a (validations s) 0;
                        world_after := world s; calls := log s |}
            | Some (Left success s) =>
                Some {| resolved :=
                          Returns (Finished (lastResult s) (attempts s)
                                     (c_maxRetries (config_of o))
                                     (if success then "success"
                                      else "max_retries_exceeded"));
                        after := with_metrics a (validations s) 0;
                        world_after := world s; calls := log s |}
            | None => None
            end = Some r ->
            In (Execute args (Some e)) (calls r) ->
            resolved r = Returns (Failed e) /\
            (exists before,
                calls r = (before ++ [Execute args (Some e)])%list
                /\ no_raise before) /\
            (forall x, resolved r = Returns x ->
                       finalStatus_of x = None /\ attempts_of x = None)).
  { intros done w0 log0 N.
    destruct (loop _ _ _ _) as [[e0 s|b s]|] eqn:E; [| |discriminate];
      pose proof (L _ _ _ _ N E) as R; cbn in R; intros [= <-]; cbn; intros Hin.
    - destruct R as [R|(before & args0 & El & Nb)]; [destruct (R _ _ Hin)|].
      rewrite El in Hin. destruct (@no_raise_split before args0 args e0 e Nb Hin) as [-> ->].
      split; [reflexivity|]. split; [eauto|].
      intros x [= <-]. auto.
    - destruct (R _ _ Hin). }
  destruct (c_preValidation (config_of o)) as [pre|].
  - destruct (pre task w) as [[[[[|] vs]|]|e0] w'].
    + apply Fin. exact N1.
    + intros [= <-]. cbn. intros Hin. destruct (N1 _ _ Hin).
    + apply Fin. exact N1.
    + intros [= <-]. cbn. intros Hin. destruct (N1 _ _ Hin).
  - apply Fin. exact N0.
Qed.

(** *** The retry bound *)

Lemma executions_app (l1 l2 : list call) :
  executions (l1 ++ l2) = (executions l1 + executions l2)%nat.
Proof. unfold executions. rewrite filter_app, length_app. reflexivity. Qed.

(** An executor that always produces an object. *)
Definition always_produces : Prop :=
  forall args w, exists v w',
    execute args w = (Returns v, w') /\ is_object v = true.

(** A post-validation function that always reports failure, with its
    list of issues. *)
Definition always_fails (post : post_fn W) : Prop :=
  forall v w, exists l w',
    post v w = (Returns (Some {| post_passed := false; post_issues := Some l |}), w').

(** With such an executor and such a validation, the loop runs every round
    it is allowed and is left at its condition. *)
Lemma loop_exhausts (c : config W) (post : post_fn W) (fuel : nat)
  (s : loop_state W) :
  always_produces -> always_fails post ->
  c_postValidation c = Some post ->
  fuel = Z.to_nat (c_maxRetries c + 1 - attempts s) ->
  exists s',
    loop fuel c true s = Some (Left false s') /\
    attempts s' = attempts s + Z.of_nat fuel /\
    executions (log s') = (executions (log s) + fuel)%nat /\
    (fuel = 0%nat -> s' = s) /\
    (fuel <> 0%nat ->
     exists last l, lastResult s' = Some last /\ qualityIssues last = Some l).
Proof.
  intros He Hp Hc. revert s.
  induction fuel as [|fuel IH]; intros s Hf; cbn [ClaudeFlowAdapter.loop].
  - assert (E : (attempts s <=? c_maxRetries c) = false)
      by (apply Z.leb_gt; lia).
    rewrite E. exists s. repeat split; try lia; congruence.
  - assert (E : (attempts s <=? c_maxRetries c) = true)
      by (apply Z.leb_le; lia).
    rewrite E. unfold ClaudeFlowAdapter.attempt.
    destruct (He (task_args c (currentTask s)) (world s))
      as (v & w1 & -> & Ho).
    unfold judge. rewrite Hc.
    destruct (Hp v w1) as (l & w2 & ->). rewrite Ho. cbn [negb].
    match goal with
    | |- exists s', (if ?b then loop _ _ _ ?s1 else loop _ _ _ ?s2) = _ /\ _ =>
        assert (K : exists sn,
                  (if b then loop fuel c true s1 else loop fuel c true s2)
                  = loop fuel c true sn /\
                  attempts sn = attempts s + 1 /\
                  log sn = ((log s ++ [Execute (task_args c (currentTask s)) None])
                            ++ [PostValidation v])%list /\
                  lastResult sn = Some {| produced := v; qualityIssues := Some l |})
          by (destruct b; eexists; (split; [reflexivity|]); cbn; auto)
    end.
    destruct K as (sn & -> & Ha & Hl & Hlast).
    destruct (IH sn) as (s' & El & Ha' & Hx & Hz & Hnz); [lia|].
    exists s'. split; [exact El|]. split; [lia|]. split.
    { rewrite Hx, Hl, !executions_app. cbn. lia. }
    split; [discriminate|]. intros _.
    destruct fuel as [|fuel'].
    + rewrite (Hz eq_refl), Hlast. eexists. eexists. split; reflexivity.
    + apply Hnz. discriminate.
Qed.

(** The bound on the retries, for the number of retries that the options
    resolve to: with an executor that always produces an object and a
    post-validation that always fails, a connected adapter makes that
    number of attempts plus one. *)
Lemma retry_bound (a : adapter) (task : string) (o : orchestrate_options W)
  (w : W) (post : post_fn W) :
  always_produces -> always_fails post ->
  connected a = true ->
  preValidation o = None ->
  postValidation o = Some post ->
  0 <= c_maxRetries (config_of o) ->
  exists r last,
    orchestrate a task o w = Some r /\
    resolved r =
      Returns (Finished (Some last)
                 (c_maxRetries (config_of o) + 1) (c_maxRetries (config_of o))
                 "max_retries_exceeded") /\
    executions (calls r) = Z.to_nat (c_maxRetries (config_of o) + 1).
Proof.
  intros He Hf Hconn Hpre Hpost Hm.
  unfold ClaudeFlowAdapter.orchestrate.
  cbn [config_of c_preValidation]. rewrite Hpre, Hconn.
  set (c := config_of o). fold c in Hm.
  destruct (@loop_exhausts c post (Z.to_nat (c_maxRetries c + 1))
              {| currentTask := task; attempts := 0; lastResult := None;
                 validations := 0; world := w; log := [] |} He Hf)
    as (s' & El & Ha & Hx & _ & Hnz).
  { unfold c. cbn [config_of c_postValidation]. exact Hpost. }
  { cbn [attempts]. f_equal. lia. }
  fold c. rewrite El.
  destruct Hnz as (last & l & Hl & _); [lia|].
  eexists. exists last. split; [reflexivity|]. cbn [resolved calls].
  split.
  - rewrite Hl, Ha. cbn [attempts]. rewrite Z2Nat.id by lia. reflexivity.
  - rewrite Hx. reflexivity.
Qed.

(** For a number of retries of at least one, the bound is the one asked
    for. *)
Lemma retry_bound_positive (a : adapter) (task : string)
  (o : orchestrate_options W) (w : W) (post : post_fn W) (N : Z) :
  always_produces -> always_fails post ->
  connected a = true ->
  preValidation o = None ->
  postValidation o = Some post ->
  maxRetries o = Some N -> 1 <= N ->
  exists r last,
    orchestrate a task o w = Some r /\
    resolved r = Returns (Finished (Some last) (N + 1) N "max_retries_exceeded") /\
    executions (calls r) = Z.to_nat (N + 1).
Proof.
  intros He Hf Hconn Hpre Hpost HN H1.
  assert (E : c_maxRetries (config_of o) = N).
  { cbn. rewrite HN. destruct N; try reflexivity; lia. }
  destruct (@retry_bound a task o w post He Hf Hconn Hpre Hpost)
    as (r & last & Er & Res & Ex); [lia|].
  rewrite E in Res, Ex. eauto.
Qed.

End Loop.

(** *** The theorems at concrete calls *)

(** An adapter that [connect] found claude-flow for. *)
Definition connected_adapter : adapter :=
  {| connected := true; metrics_ := metrics_ new |}.

(** The world of the examples is the number of times the executor has
    run. *)

(** An executor that answers each invocation with an object. *)
Definition answering (args : list string) (count : nat) : outcome value * nat :=
  (Returns (JObj [("result", JStr ("Result for attempt " ++ decimal (S count)))]),
   S count).

(** An executor whose process fails each time. *)
Definition crashing (args : list string) (count : nat) : outcome value * nat :=
  (Raises (Error "Command failed with code 1"), S count).

(** A post-validation that always reports the same issue. *)
Definition rejecting (r : value) (count : nat)
  : outcome (option post_verdict) * nat :=
  (Returns (Some {| post_passed := false;
                    post_issues :=
                      Some [ {| message := "Security vulnerability found";
                                suggestion := Some "Use hashing" |} ] |}),
   count).

(** A pre-validation that reports one violation. *)
Definition vetoing (task : string) (count : nat)
  : outcome (option pre_verdict) * nat :=
  (Returns (Some {| pre_passed := false;
                    pre_violations :=
                      [ JObj [ ("type", JStr "hardcoded_secret");
                               ("message", JStr "Hardcoded password detected") ] ] |}),
   count).

Definition retries (n : Z) : orchestrate_options nat :=
  {| strategy := None; priority := None; maxAgents := None;
     preValidation := None; postValidation := None; maxRetries := Some n |}.

Definition retries_rejecting (n : Z) : orchestrate_options nat :=
  {| strategy := None; priority := None; maxAgents := None;
     preValidation := None; postValidation := Some rejecting;
     maxRetries := Some n |}.

Definition vetoed : orchestrate_options nat :=
  {| strategy := None; priority := None; maxAgents := None;
     preValidation := Some vetoing; postValidation := None;
     maxRetries := Some 3 |}.

(** C7, as stated, fails: the object a blocked call resolves to carries no
    [finalStatus], so none equal to ["blocked"]. *)
Lemma blocked_result_has_no_finalStatus :
  exists r,
    orchestrate answering connected_adapter "Store the password" vetoed 0%nat
      = Some r /\
    resolved r = Returns (Blocked (JStr "Hardcoded password detected")) /\
    (forall x, resolved r = Returns x -> finalStatus_of x <> Some "blocked").
Proof.
  eexists. split; [reflexivity|]. split; [reflexivity|].
  intros x [= <-]. discriminate.
Qed.

Lemma failing_pre_validation_blocks_witness :
  exists r,
    orchestrate answering connected_adapter "Store the password" vetoed 0%nat
      = Some r /\
    resolved r = Returns (Blocked (JStr "Hardcoded password detected")) /\
    calls r = [PreValidation "Store the password"] /\
    world_after r = 0%nat.
Proof.
  destruct (@failing_pre_validation_blocks nat answering connected_adapter
              "Store the password" vetoed 0%nat 0%nat vetoing
              {| pre_passed := false;
                 pre_violations :=
                   [ JObj [ ("type", JStr "hardcoded_secret");
                            ("message", JStr "Hardcoded password detected") ] ] |}
              eq_refl eq_refl eq_refl)
    as (r & E & R & C & _ & Wd & _).
  exists r. repeat split; assumption.
Defined.

(** C3, as stated, fails: with three retries allowed, an executor that
    raises is invoked once, and the call resolves to the error. *)
Lemma executor_raise_is_not_retried :
  exists r,
    orchestrate crashing connected_adapter "Build a REST API" (retries 3) 0%nat
      = Some r /\
    resolved r = Returns (Failed (Error "Command failed with code 1")) /\
    executions (calls r) = 1%nat /\
    world_after r = 1%nat.
Proof. eexists. repeat split; reflexivity. Qed.

Lemma executor_raise_ends_orchestration_witness :
  exists r,
    orchestrate crashing connected_adapter "Build a REST API" (retries 3) 0%nat
      = Some r /\
    resolved r = Returns (Failed (Error "Command failed with code 1")) /\
    exists before,
      calls r = (before ++ [Execute
                   [ "mcp"; "task_orchestrate"; "--task"; "Build a REST API";
                     "--strategy"; "adaptive"; "--priority"; "medium";
                     "--max-agents"; "5" ]
                   (Some (Error "Command failed with code 1"))])%list.
Proof.
  destruct (orchestrate_total crashing connected_adapter "Build a REST API"
              (retries 3) 0%nat) as [r E].
  exists r. split; [exact E|].
  destruct (@executor_raise_ends_orchestration nat crashing connected_adapter
              "Build a REST API" (retries 3) 0%nat r
              [ "mcp"; "task_orchestrate"; "--task"; "Build a REST API";
                "--strategy"; "adaptive"; "--priority"; "medium";
                "--max-agents"; "5" ]
              (Error "Command failed with code 1") E)
    as (R & (before & C & _) & _).
  - vm_compute in E. injection E as <-. cbn. auto.
  - split; [exact R|]. exists before. exact C.
Defined.

(** C4, at the failing input: asked for no retry ([maxRetries: 0]), with a
    post-validation that always fails, the executor is invoked four times
    and the result carries [attempts = 4] and [maxRetries = 3]; the claim
    gives one invocation and [attempts = 1]. *)
Theorem zero_retries_runs_four_attempts :
  exists r last,
    orchestrate answering connected_adapter "Build a REST API"
      (retries_rejecting 0) 0%nat = Some r /\
    resolved r = Returns (Finished (Some last) 4 3 "max_retries_exceeded") /\
    executions (calls r) = 4%nat /\
    world_after r = 4%nat.
Proof.
  eexists. eexists. split; [vm_compute; reflexivity|].
  repeat split; reflexivity.
Qed.

(** The bound holds from one retry on, for instance with two. *)
Lemma two_retries_run_three_attempts :
  exists r last,
    orchestrate answering connected_adapter "Build a REST API"
      (retries_rejecting 2) 0%nat = Some r /\
    resolved r = Returns (Finished (Some last) 3 2 "max_retries_exceeded") /\
    executions (calls r) = 3%nat.
Proof.
  apply (@retry_bound_positive nat answering connected_adapter
           "Build a REST API" (retries_rejecting 2) 0%nat rejecting 2).
  - intros args w. eexists. eexists. split; reflexivity.
  - intros v w. eexists. eexists. reflexivity.
  - reflexivity.
  - reflexivity.
  - reflexivity.
  - reflexivity.
  - lia.
Defined.

End OrchestratorFacts.

(** ** The hook pipeline *)

Module HookFacts.

Import PatternValidator ValidationHooks.

Section Pipeline.

Variable now : nat -> Q.

Local Abbreviation pre_loop_run := (pre_loop_run now).
Local Abbreviation post_loop_run := (post_loop_run now).
Local Abbreviation executePreToolUse := (executePreToolUse now).
Local Abbreviation executePostToolUse := (executePostToolUse now).

(** The loop state a pipeline run starts from. *)
Definition pre_start (st : state) : pre_loop :=
  {| pl_hooks := hooks_pre st; pl_allowed := true; pl_interventions := [];
     pl_blocked := preToolUseBlocked (vmetrics st); pl_tick := S (tick st) |}.

Definition post_start (st : state) : post_loop :=
  {| ql_hooks := hooks_post st; ql_valid := true; ql_issues := [];
     ql_blocked := postToolUseBlocked (vmetrics st); ql_tick := S (tick st) |}.

(** The loop over a list of hooks in two parts: the second part runs only
    if the first neither threw nor, in strict mode, met a veto. *)
Lemma pre_loop_run_app (strict : bool) (toolName : string)
  (params context : value) (first second : list (hook pre_handler))
  (l : pre_loop) :
  (strict = true -> pl_allowed l = true) ->
  pre_loop_run strict toolName params context (first ++ second) l =
  let '(l1, thrown) := pre_loop_run strict toolName params context first l in
  match thrown with
  | Some t => (l1, Some t)
  | None =>
      if strict && negb (pl_allowed l1) then (l1, None)
      else pre_loop_run strict toolName params context second l1
  end.
Proof.
  revert l. induction first as [|h first IH]; intros l Hl.
  - cbn [app ValidationHooks.pre_loop_run].
    destruct strict; [rewrite Hl by reflexivity|]; reflexivity.
  - cbn [app ValidationHooks.pre_loop_run].
    destruct (enabled h); cbn [negb]; [|apply IH; exact Hl].
    destruct (handler h toolName params context) as [result|t]; [|reflexivity].
    destruct (truthy result && negb (truthy (get result "allowed"))).
    + destruct strict; [reflexivity|]. apply IH. discriminate.
    + apply IH. exact Hl.
Qed.

Lemma post_loop_run_app (toolName : string) (params result context : value)
  (first second : list (hook post_handler)) (l : post_loop) :
  post_loop_run toolName params result context (first ++ second) l =
  let '(l1, thrown) := post_loop_run toolName params result context first l in
  match thrown with
  | Some t => (l1, Some t)
  | None => post_loop_run toolName params result context second l1
  end.
Proof.
  revert l. induction first as [|h first IH]; intros l; [reflexivity|].
  cbn [app ValidationHooks.post_loop_run].
  destruct (enabled h); cbn [negb]; [|apply IH].
  destruct (handler h toolName params result context) as [r|t]; [|reflexivity].
  apply IH.
Qed.

(** C2, amended: an error object thrown by a handler is caught and
    reported as a [hookError] event, the hook records no veto and the run
    returns its results; but the throw ends the loop: the hooks sorted
    behind the throwing one are not executed in that run, and the results
    and the registry are those of the hooks before it.  [before] are the
    hooks sorted before the throwing hook [h], which the loop has come
    through ([l1] is its state then) without a throw and, in strict mode,
    without a veto.  When what the handler threw is [undefined] or [null],
    the run does not return: the call rejects with the [TypeError] of the
    [catch] clause, and no event is emitted. *)
Theorem handler_raise_ends_run :
  (forall (toolName : string) (params context : value) (st : state)
          (before rest : list (hook pre_handler)) (h : hook pre_handler)
          (t : thrown) (l1 : pre_loop),
     _getSortedHooks (hooks_pre st) = (before ++ h :: rest)%list ->
     enabled h = true ->
     handler h toolName params context = Throws t ->
     pre_loop_run (strictMode (opts st)) toolName params context before
       (pre_start st) = (l1, None) ->
     (strictMode (opts st) = true -> pl_allowed l1 = true) ->
     let (resolved, st') := executePreToolUse toolName params context st in
     hooks_pre st' = pl_hooks l1 /\
     preToolUseBlocked (vmetrics st') = pl_blocked l1 /\
     match t with
     | ThrownError e =>
         exists results,
           resolved = Returns results /\
           allowed results = pl_allowed l1 /\
           interventions results = pl_interventions l1 /\
           In (hookError preToolUse e) (events st')
     | ThrownNullish =>
         resolved = Raises TypeError /\ events st' = events st
     end) /\
  (forall (toolName : string) (params result context : value) (st : state)
          (before rest : list (hook post_handler)) (h : hook post_handler)
          (t : thrown) (l1 : post_loop),
     _getSortedHooks (hooks_post st) = (before ++ h :: rest)%list ->
     enabled h = true ->
     handler h toolName params result context = Throws t ->
     post_loop_run toolName params result context before (post_start st)
       = (l1, None) ->
     let (resolved, st') :=
       executePostToolUse toolName params result context st in
     hooks_post st' = ql_hooks l1 /\
     postToolUseBlocked (vmetrics st') = ql_blocked l1 /\
     match t with
     | ThrownError e =>
         exists validations,
           resolved = Returns validations /\
           valid validations = ql_valid l1 /\
           post_issues validations = ql_issues l1 /\
           In (hookError postToolUse e) (events st')
     | ThrownNullish =>
         resolved = Raises TypeError /\ events st' = events st
     end).
Proof.
  split.
  - intros toolName params context st before rest h t l1 Hs He Hr Hb Hstrict.
    unfold ValidationHooks.executePreToolUse. fold (pre_start st).
    rewrite Hs, pre_loop_run_app by (intros _; reflexivity).
    rewrite Hb.
    assert (B : strictMode (opts st) && negb (pl_allowed l1) = false).
    { destruct (strictMode (opts st)); [|reflexivity].
      rewrite Hstrict by reflexivity. reflexivity. }
    rewrite B. cbn [ValidationHooks.pre_loop_run]. rewrite He, Hr.
    cbn [negb]. destruct t as [e|]; cbn.
    + split; [reflexivity|]. split; [reflexivity|].
      eexists. repeat split. apply in_or_app. right. left. reflexivity.
    + repeat split.
  - intros toolName params result context st before rest h t l1 Hs He Hr Hb.
    unfold ValidationHooks.executePostToolUse. fold (post_start st).
    rewrite Hs, post_loop_run_app, Hb.
    cbn [ValidationHooks.post_loop_run]. rewrite He, Hr.
    cbn [negb]. destruct t as [e|]; cbn.
    + split; [reflexivity|]. split; [reflexivity|].
      eexists. repeat split. apply in_or_app. right. left. reflexivity.
    + repeat split.
Qed.

End Pipeline.

(** *** The theorem at a concrete registry *)

(** A clock that does not advance: no run exceeds its latency budget. *)
Definition instant (n : nat) : Q := 0.

(** A pre-hook with a defect, and one that vetoes every call. *)
Definition faulty : pre_handler :=
  fun _ _ _ =>
    Throws (ThrownError (Error "Cannot read properties of undefined")).
Definition guard : pre_handler :=
  fun _ _ _ => Gives (JObj [ ("allowed", JBool false);
                             ("reason", JStr "writes are frozen") ]).

(** A post-hook with a defect, and one that rejects every result. *)
Definition faulty_post : post_handler :=
  fun _ _ _ _ =>
    Throws (ThrownError (Error "Cannot read properties of undefined")).
Definition checker : post_handler :=
  fun _ _ _ _ => Gives (Some {| pv_valid := JBool false;
                                pv_issues := Some [JStr "lint failed"] |}).

(** A pre-hook that rejects without a reason ([Promise.reject()]). *)
Definition silent_reject : pre_handler := fun _ _ _ => Throws ThrownNullish.

Definition register_pre (i : string) (f : pre_handler) (st : state) : state :=
  match registerPreToolUse i (Function f) no_options st with
  | Returns st' => st'
  | Raises _ => st
  end.

Definition register_post (i : string) (f : post_handler) (st : state) : state :=
  match registerPostToolUse i (Function f) no_options st with
  | Returns st' => st'
  | Raises _ => st
  end.

(** Two hooks in each registry, of the same priority, the faulty one
    registered first. *)
Definition pipeline : state :=
  register_post "checker" checker
    (register_post "faulty" faulty_post
       (register_pre "guard" guard
          (register_pre "faulty" faulty (empty default_options)))).

(** The one hook that rejects without a reason. *)
Definition rejecting : state :=
  register_pre "silent" silent_reject (empty default_options).

Definition executions_of {H : Type} (i : string) (m : registry H) : option nat :=
  option_map (fun h => executions (metrics h)) (assoc i m).

(** C2, as stated, fails: the enabled hook behind the throwing one is not
    executed.  Its veto, which a run without the faulty hook records, is
    missing from the result, and its execution count stays at 0; likewise
    for the post-hooks.  And a hook that rejects without a reason is not
    caught to any effect: the call rejects, no [hookError] is emitted. *)
Lemma hook_behind_a_raise_is_skipped :
  (let (resolved, st') :=
     executePreToolUse instant "Write" (JObj []) (JObj []) pipeline in
   (exists results,
      resolved = Returns results /\
      allowed results = true /\ interventions results = []) /\
   executions_of "guard" (hooks_pre st') = Some 0%nat /\
   In (hookError preToolUse (Error "Cannot read properties of undefined"))
      (events st')) /\
  (exists results,
     fst (executePreToolUse instant "Write" (JObj []) (JObj [])
            (register_pre "guard" guard (empty default_options)))
       = Returns results /\
     allowed results = false) /\
  (let (resolved, st') :=
     executePostToolUse instant "Write" (JObj []) (JObj []) (JObj []) pipeline in
   (exists validations,
      resolved = Returns validations /\
      valid validations = true /\ post_issues validations = []) /\
   executions_of "checker" (hooks_post st') = Some 0%nat /\
   In (hookError postToolUse (Error "Cannot read properties of undefined"))
      (events st')) /\
  (let (resolved, st') :=
     executePreToolUse instant "Write" (JObj []) (JObj []) rejecting in
   resolved = Raises TypeError /\ events st' = events rejecting).
Proof.
  split; [|split; [|split]].
  - vm_compute. split; [eexists; repeat split|]. split; [reflexivity|].
    right. right. right. right. left. reflexivity.
  - eexists. split; reflexivity.
  - vm_compute. split; [eexists; repeat split|]. split; [reflexivity|].
    right. right. right. right. left. reflexivity.
  - vm_compute. split; reflexivity.
Qed.

Lemma handler_raise_ends_run_witness :
  (let (resolved, st') :=
     executePreToolUse instant "Write" (JObj []) (JObj []) pipeline in
   hooks_pre st' = hooks_pre pipeline /\
   exists results,
     resolved = Returns results /\
     allowed results = true /\ interventions results = [] /\
     In (hookError preToolUse (Error "Cannot read properties of undefined"))
        (events st')) /\
  (let (resolved, st') :=
     executePostToolUse instant "Write" (JObj []) (JObj []) (JObj []) pipeline in
   hooks_post st' = hooks_post pipeline /\
   exists validations,
     resolved = Returns validations /\
     valid validations = true /\ post_issues validations = [] /\
     In (hookError postToolUse (Error "Cannot read properties of undefined"))
        (events st')) /\
  (let (resolved, st') :=
     executePreToolUse instant "Write" (JObj []) (JObj []) rejecting in
   resolved = Raises TypeError /\ events st' = events rejecting).
Proof.
  destruct (handler_raise_ends_run instant) as [Pre Post].
  split; [|split].
  - pose proof (Pre "Write" (JObj []) (JObj []) pipeline []
                  [new_hook "guard" guard no_options]
                  (new_hook "faulty" faulty no_options)
                  (ThrownError (Error "Cannot read properties of undefined"))
                  (pre_start pipeline)
                  eq_refl eq_refl eq_refl eq_refl (fun _ => eq_refl)) as P.
    destruct (executePreToolUse instant "Write" (JObj []) (JObj []) pipeline)
      as [resolved st'].
    destruct P as (Hh & _ & results & R & A & I & Ev).
    split; [exact Hh|]. exists results. auto.
  - pose proof (Post "Write" (JObj []) (JObj []) (JObj []) pipeline []
                  [new_hook "checker" checker no_options]
                  (new_hook "faulty" faulty_post no_options)
                  (ThrownError (Error "Cannot read properties of undefined"))
                  (post_start pipeline)
                  eq_refl eq_refl eq_refl eq_refl) as P.
    destruct (executePostToolUse instant "Write" (JObj []) (JObj []) (JObj [])
                pipeline) as [resolved st'].
    destruct P as (Hh & _ & validations & R & A & I & Ev).
    split; [exact Hh|]. exists validations. auto.
  - pose proof (Pre "Write" (JObj []) (JObj []) rejecting [] []
                  (new_hook "silent" silent_reject no_options)
                  ThrownNullish (pre_start rejecting)
                  eq_refl eq_refl eq_refl eq_refl (fun _ => eq_refl)) as P.
    destruct (executePreToolUse instant "Write" (JObj []) (JObj []) rejecting)
      as [resolved st'].
    destruct P as (_ & _ & R & Ev). auto.
Defined.

End HookFacts.

(** ** Regular expressions: what a match can be *)

Module RegexFacts.

Import Regex.

(** *** Strings *)

Lemma append_nil_r (s : string) : s ++ "" = s.
Proof. induction s as [|c s IH]; cbn; [|rewrite IH]; reflexivity. Qed.

Lemma append_assoc (a b c : string) : (a ++ b) ++ c = a ++ b ++ c.
Proof. induction a as [|x a IH]; cbn; [|rewrite IH]; reflexivity. Qed.

Lemma length_append (a b : string) :
  String.length (a ++ b) = String.length a + String.length b.
Proof. induction a as [|x a IH]; cbn; [|rewrite IH]; reflexivity. Qed.

Lemma take_append (a b : string) : take (String.length a) (a ++ b) = a.
Proof. induction a as [|x a IH]; cbn; [destruct b|rewrite IH]; reflexivity. Qed.

Lemma drop_append (a b : string) : drop (String.length a) (a ++ b) = b.
Proof. induction a as [|x a IH]; cbn; [destruct b|rewrite IH]; reflexivity. Qed.

(** *** The language of a regex, from above *)

Section Language.

Variable ci : bool.

(** The texts [lit] accepts for a literal. *)
Fixpoint lit_of (t s : string) : Prop :=
  match t, s with
  | "", "" => True
  | String c t', String c' s' => char_eq ci c c' = true /\ lit_of t' s'
  | _, _ => False
  end.

(** [n] rounds meet the minimum of a quantifier (a maximum under the
    minimum, which no literal has, ends the rounds at the maximum). *)
Definition enough (lo : nat) (hi : option nat) (n : nat) : Prop :=
  lo <= n \/ exists h, hi = Some h /\ h < lo.

(** A set that contains every text the regex can match: the maximum of a
    quantifier, the lookahead and the word boundary put no condition. *)
Fixpoint lang (r : regex) (s : string) {struct r} : Prop :=
  match r with
  | Str t => lit_of t s
  | Any => exists c, s = String c ""
  | Set_ neg items =>
      exists c, s = String c "" /\ xorb neg (in_set ci items c) = true
  | Seq r1 r2 => exists s1 s2, s = s1 ++ s2 /\ lang r1 s1 /\ lang r2 s2
  | Alt r1 r2 => lang r1 s \/ lang r2 s
  | Rep _ lo hi r' =>
      exists pieces,
        s = String.concat "" pieces /\ enough lo hi (List.length pieces) /\
        Forall (lang r') pieces
  | Grp r' => lang r' s
  | NotAhead _ | WordB => s = ""
  end.

(** A matcher is sound for a set of texts when whatever it hands to its
    continuation is the input less a text of the set. *)
Definition sound {A : Type}
  (m : option ascii -> string -> kont A -> option A) (P : string -> Prop)
  : Prop :=
  forall p s k a,
    m p s k = Some a ->
    exists s1 s2 p', s = s1 ++ s2 /\ P s1 /\ k p' s2 = Some a.

Lemma lit_sound {A : Type} (t : string) : sound (@lit A ci t) (lit_of t).
Proof.
  induction t as [|c t IH]; intros p s k a H; cbn [lit] in H.
  - exists "", s, p. cbn. auto.
  - destruct s as [|c' s]; [discriminate|].
    destruct (char_eq ci c c') eqn:E; [|discriminate].
    destruct (IH _ _ _ _ H) as (s1 & s2 & p' & -> & L & K).
    exists (String c' s1), s2, p'. cbn. auto.
Qed.

Lemma one_sound {A : Type} (f : ascii -> bool) (s : string) (k : kont A)
  (a : A) :
  one f s k = Some a ->
  exists c s2, s = String c s2 /\ f c = true /\ k (Some c) s2 = Some a.
Proof.
  destruct s as [|c s]; [discriminate|]. cbn.
  destruct (f c) eqn:E; [|discriminate]. eauto.
Qed.

Lemma concat_cons (x : string) (l : list string) :
  String.concat "" (x :: l) = x ++ String.concat "" l.
Proof.
  destruct l as [|y l]; cbn; [rewrite append_nil_r|]; reflexivity.
Qed.

Lemma rep_sound {A : Type}
  (m : option ascii -> string -> kont A -> option A) (P : string -> Prop)
  (greedy : bool) :
  sound m P ->
  forall fuel lo hi p s k a,
    rep m greedy fuel lo hi p s k = Some a ->
    exists pieces s2 p',
      s = String.concat "" pieces ++ s2 /\
      enough lo hi (List.length pieces) /\ Forall P pieces /\
      k p' s2 = Some a.
Proof.
  intros Hm. induction fuel as [|fuel IH]; intros lo hi p s k a H;
    [discriminate|].
  cbn [rep] in H.
  assert (Stop : enough lo hi 0 -> k p s = Some a ->
                 exists pieces s2 p',
                   s = String.concat "" pieces ++ s2 /\
                   enough lo hi (List.length pieces) /\ Forall P pieces /\
                   k p' s2 = Some a).
  { intros E K. exists [], s, p. cbn. auto. }
  assert (Round :
            m p s (fun p' s' =>
                     if (lo =? 0) && (String.length s' =? String.length s)
                     then None
                     else rep m greedy fuel (pred lo) (dec hi) p' s' k)
            = Some a ->
            exists pieces s2 p',
              s = String.concat "" pieces ++ s2 /\
              enough lo hi (List.length pieces) /\ Forall P pieces /\
              k p' s2 = Some a).
  { intros R. apply Hm in R. destruct R as (s1 & s2 & p' & -> & P1 & K).
    destruct ((lo =? 0) && _); [discriminate|].
    apply IH in K. destruct K as (pieces & s3 & p'' & -> & E & F & K').
    exists (s1 :: pieces), s3, p''.
    rewrite concat_cons, append_assoc.
    repeat split; auto. cbn [List.length].
    destruct E as [E|(h & Eh & Lh)]; [left; lia|].
    destruct hi as [h'|]; [|discriminate]. cbn in Eh. injection Eh as <-.
    right. exists h'. split; [reflexivity|]. lia. }
  destruct hi as [[|h]|].
  - apply Stop; [|exact H].
    destruct lo; [left; lia|right; exists 0; split; [reflexivity|lia]].
  - destruct (lo =? 0) eqn:E0; cbn [negb] in H; [|exact (Round H)].
    apply Nat.eqb_eq in E0. subst lo.
    destruct greedy.
    + destruct (m p s _) eqn:R; [injection H as ->; exact (Round eq_refl)|].
      apply Stop; [left; lia|exact H].
    + destruct (k p s) eqn:K; [injection H as ->|exact (Round H)].
      apply Stop; [left; lia|reflexivity].
  - destruct (lo =? 0) eqn:E0; cbn [negb] in H; [|exact (Round H)].
    apply Nat.eqb_eq in E0. subst lo.
    destruct greedy.
    + destruct (m p s _) eqn:R; [injection H as ->; exact (Round eq_refl)|].
      apply Stop; [left; lia|exact H].
    + destruct (k p s) eqn:K; [injection H as ->|exact (Round H)].
      apply Stop; [left; lia|reflexivity].
Qed.

(** The matcher hands its continuation the input less a text of the
    language. *)
Lemma run_sound (r : regex) : forall A : Type, sound (@run A ci r) (lang r).
Proof.
  induction r as [t| |neg items|r1 IH1 r2 IH2|r1 IH1 r2 IH2|g lo hi r IH
                 |r IH|r IH|]; intros A p s k a H; cbn [run] in H.
  - apply lit_sound in H. exact H.
  - apply one_sound in H. destruct H as (c & s2 & -> & _ & K).
    exists (String c ""), s2, (Some c). cbn. eauto.
  - apply one_sound in H. destruct H as (c & s2 & -> & F & K).
    exists (String c ""), s2, (Some c). cbn. eauto.
  - apply IH1 in H. destruct H as (s1 & s2 & p' & -> & L1 & K).
    apply IH2 in K. destruct K as (s3 & s4 & p'' & -> & L2 & K').
    exists (s1 ++ s3), s4, p''. rewrite append_assoc. cbn. eauto 10.
  - destruct (run ci r1 p s k) eqn:R1.
    + injection H as ->.
      apply IH1 in R1. destruct R1 as (s1 & s2 & p' & -> & L1 & K).
      exists s1, s2, p'. cbn. auto.
    + apply IH2 in H. destruct H as (s1 & s2 & p' & -> & L2 & K).
      exists s1, s2, p'. cbn. auto.
  - eapply rep_sound in H; [|exact (IH A)].
    destruct H as (pieces & s2 & p' & -> & E & F & K).
    exists (String.concat "" pieces), s2, p'. cbn. eauto 10.
  - apply IH in H. destruct H as (s1 & s2 & p' & -> & L1 & K).
    exists s1, s2, p'. cbn. auto.
  - destruct (run ci r p s _); [discriminate|].
    exists "", s, p. cbn. auto.
  - destruct (xorb _ _); [|discriminate].
    exists "", s, p. cbn. auto.
Qed.

Lemma match_here_sound (r : regex) (p : option ascii) (s rest : string) :
  match_here ci r p s = Some rest ->
  exists m, s = m ++ rest /\ lang r m /\
            take (String.length s - String.length rest) s = m.
Proof.
  intros H. apply run_sound in H.
  destruct H as (s1 & s2 & p' & -> & L & [= ->]).
  exists s1. repeat split; auto.
  rewrite length_append, Nat.add_sub. apply take_append.
Qed.

Lemma search_unfold (r : regex) (p : option ascii) (s : string) :
  search ci r p s =
  match match_here ci r p s with
  | Some rest => Some ("", take (String.length s - String.length rest) s, rest)
  | None =>
      match s with
      | "" => None
      | String c s' =>
          match search ci r (Some c) s' with
          | Some (b, m, rest) => Some (String c b, m, rest)
          | None => None
          end
      end
  end.
Proof. destruct s; reflexivity. Qed.

Lemma search_sound (r : regex) (s : string) :
  forall p b m rest,
    search ci r p s = Some (b, m, rest) ->
    s = b ++ m ++ rest /\ lang r m.
Proof.
  assert (Hit : forall p s rest' b m rest,
            match_here ci r p s = Some rest' ->
            Some ("", take (String.length s - String.length rest') s, rest')
            = Some (b, m, rest) ->
            s = b ++ m ++ rest /\ lang r m).
  { intros p s0 rest' b m rest E H.
    apply match_here_sound in E. destruct E as (m0 & Es & L & T).
    rewrite T in H. injection H as <- <- <-. auto. }
  induction s as [|c s IH]; intros p b m rest H; rewrite search_unfold in H.
  - destruct (match_here ci r p "") as [rest'|] eqn:E; [|discriminate].
    exact (Hit _ _ _ _ _ _ E H).
  - destruct (match_here ci r p (String c s)) as [rest'|] eqn:E.
    + exact (Hit _ _ _ _ _ _ E H).
    + destruct (search ci r (Some c) s) as [[[b' m'] rest']|] eqn:S;
        [|discriminate].
      injection H as <- <- <-.
      apply IH in S. destruct S as [-> L]. auto.
Qed.

(** Every text that [s.match(r)] returns is in the language of [r]. *)
Lemma match_all_sound (r : regex) (fuel : nat) :
  forall p s, Forall (lang r) (match_all_from ci r fuel p s).
Proof.
  induction fuel as [|fuel IH]; intros p s; cbn [match_all_from]; [constructor|].
  destruct (search ci r p s) as [[[b m] rest]|] eqn:S; [|constructor].
  apply search_sound in S. destruct S as [_ L].
  destruct m as [|c m].
  - constructor; [exact L|]. destruct rest; [constructor|apply IH].
  - constructor; [exact L|apply IH].
Qed.

Lemma str_match_sound (r : regex) (s : string) (ms : list string) :
  str_match ci r s = Some ms -> ms <> [] /\ Forall (lang r) ms.
Proof.
  unfold str_match.
  pose proof (match_all_sound r (S (String.length s)) None s) as F.
  destruct (match_all_from _ _ _ _ _); [discriminate|].
  intros [= <-]. split; [discriminate|exact F].
Qed.

(** *** Texts without a quote character *)

Definition is_quote (c : ascii) : bool :=
  Ascii.eqb c dquote || Ascii.eqb c "'".

Fixpoint quote_free (s : string) : bool :=
  match s with
  | "" => true
  | String c s' => negb (is_quote c) && quote_free s'
  end.

Lemma quote_free_append (a b : string) :
  quote_free (a ++ b) = quote_free a && quote_free b.
Proof.
  induction a as [|x a IH]; cbn; [reflexivity|].
  rewrite IH, andb_assoc. reflexivity.
Qed.

Lemma all_chars_complete (c : ascii) : In c all_chars.
Proof.
  unfold all_chars. rewrite <- (ascii_nat_embedding c).
  apply in_map, in_seq. pose proof (nat_ascii_bounded c). lia.
Qed.

Lemma forallb_all_chars (f : ascii -> bool) (c : ascii) :
  forallb f all_chars = true -> f c = true.
Proof.
  intros H. rewrite forallb_forall in H. apply H, all_chars_complete.
Qed.

(** A character the regex node [accepts] is not a quote. *)
Definition never_quote (accepts : ascii -> bool) : bool :=
  forallb (fun c => negb (accepts c) || negb (is_quote c)) all_chars.

Lemma never_quote_spec (accepts : ascii -> bool) (c : ascii) :
  never_quote accepts = true -> accepts c = true -> is_quote c = false.
Proof.
  intros H Hc. apply (forallb_all_chars _ c) in H. cbv beta in H.
  rewrite Hc in H. cbn in H. destruct (is_quote c); [discriminate|reflexivity].
Qed.

Fixpoint lit_quote_free (t : string) : bool :=
  match t with
  | "" => true
  | String c t' => never_quote (char_eq ci c) && lit_quote_free t'
  end.

(** A check on the syntax that no text of the language holds a quote. *)
Fixpoint quote_free_regex (r : regex) : bool :=
  match r with
  | Str t => lit_quote_free t
  | Any => false
  | Set_ neg items => never_quote (fun c => xorb neg (in_set ci items c))
  | Seq r1 r2 | Alt r1 r2 => quote_free_regex r1 && quote_free_regex r2
  | Rep _ _ _ r' | Grp r' => quote_free_regex r'
  | NotAhead _ | WordB => true
  end.

Lemma lit_quote_free_spec (t : string) :
  lit_quote_free t = true -> forall s, lit_of t s -> quote_free s = true.
Proof.
  induction t as [|c t IH]; intros H [|c' s] L; cbn in L; try contradiction;
    [reflexivity|].
  cbn in H. apply andb_true_iff in H. destruct H as [Hc Ht].
  destruct L as [E L]. cbn.
  rewrite (never_quote_spec _ _ Hc E), (IH Ht _ L). reflexivity.
Qed.

Lemma quote_free_concat (pieces : list string) :
  Forall (fun x => quote_free x = true) pieces ->
  quote_free (String.concat "" pieces) = true.
Proof.
  induction 1 as [|x l Hx _ IH]; [reflexivity|].
  rewrite concat_cons, quote_free_append, Hx, IH. reflexivity.
Qed.

Lemma quote_free_regex_spec (r : regex) :
  quote_free_regex r = true -> forall s, lang r s -> quote_free s = true.
Proof.
  induction r as [t| |neg items|r1 IH1 r2 IH2|r1 IH1 r2 IH2|g lo hi r IH
                 |r IH|r IH|]; cbn [quote_free_regex lang]; intros H s L.
  - exact (lit_quote_free_spec _ H _ L).
  - discriminate.
  - destruct L as (c & -> & Hc). cbn.
    rewrite (never_quote_spec _ _ H Hc). reflexivity.
  - apply andb_true_iff in H. destruct H as [H1 H2].
    destruct L as (s1 & s2 & -> & L1 & L2).
    rewrite quote_free_append, (IH1 H1 _ L1), (IH2 H2 _ L2). reflexivity.
  - apply andb_true_iff in H. destruct H as [H1 H2].
    destruct L as [L|L]; auto.
  - destruct L as (pieces & -> & _ & F). apply quote_free_concat.
    revert F. apply Forall_impl. intros x. apply IH. exact H.
  - auto.
  - subst s. reflexivity.
  - subst s. reflexivity.
Qed.

End Language.

(** The two bracket expressions of the quotes, under either flag. *)
Lemma in_quote_set (ci : bool) (c : ascii) :
  in_set ci [CChar dquote; CChar "'"] c = is_quote c.
Proof.
  destruct ci; destruct c as [[] [] [] [] [] [] [] []]; vm_compute; reflexivity.
Qed.

End RegexFacts.

(** ** Regular expressions: the fuel of the matcher is enough *)

Module RegexFuelFacts.

Import Regex RegexFacts.

Section Fuel.

Variable ci : bool.

(** A matcher looks at its continuation only on inputs that are no longer
    than its own. *)
Definition local {A : Type}
  (m : option ascii -> string -> kont A -> option A) : Prop :=
  forall p s k1 k2,
    (forall p' s', String.length s' <= String.length s -> k1 p' s' = k2 p' s') ->
    m p s k1 = m p s k2.

Lemma lit_local {A : Type} (t : string) : local (@lit A ci t).
Proof.
  induction t as [|c t IH]; intros p s k1 k2 H; cbn [lit].
  - apply H. lia.
  - destruct s as [|c' s]; [reflexivity|].
    destruct (char_eq ci c c'); [|reflexivity].
    apply IH. intros p' s' L. apply H. cbn. lia.
Qed.

Lemma one_local {A : Type} (f : ascii -> bool) :
  local (fun (_ : option ascii) s (k : kont A) => one f s k).
Proof.
  intros p [|c s] k1 k2 H; cbn [one]; [reflexivity|].
  destruct (f c); [|reflexivity]. apply H. cbn. lia.
Qed.

(** Fuel above the rounds that can be made does not change the result of
    the quantifier, nor does a continuation that agrees on the shorter
    inputs. *)
Lemma rep_stable {A : Type}
  (m : option ascii -> string -> kont A -> option A) (greedy : bool) :
  local m ->
  forall f1 f2 lo hi p s k1 k2,
    lo + String.length s < f1 -> lo + String.length s < f2 ->
    (forall p' s', String.length s' <= String.length s -> k1 p' s' = k2 p' s') ->
    rep m greedy f1 lo hi p s k1 = rep m greedy f2 lo hi p s k2.
Proof.
  intros Hm. induction f1 as [|f1 IH]; intros f2 lo hi p s k1 k2 H1 H2 Hk;
    [lia|].
  destruct f2 as [|f2]; [lia|]. cbn [rep].
  assert (K : k1 p s = k2 p s) by (apply Hk; lia).
  assert (R : m p s (fun p' s' =>
                       if (lo =? 0) && (String.length s' =? String.length s)
                       then None
                       else rep m greedy f1 (pred lo) (dec hi) p' s' k1)
              = m p s (fun p' s' =>
                         if (lo =? 0) && (String.length s' =? String.length s)
                         then None
                         else rep m greedy f2 (pred lo) (dec hi) p' s' k2)).
  { apply Hm. intros p' s' L.
    destruct (lo =? 0) eqn:E0; cbn [andb].
    - apply Nat.eqb_eq in E0. subst lo.
      destruct (String.length s' =? String.length s) eqn:El; [reflexivity|].
      apply Nat.eqb_neq in El.
      apply IH; cbn; try lia. intros p'' s'' L'. apply Hk. lia.
    - apply Nat.eqb_neq in E0.
      apply IH; try lia. intros p'' s'' L'. apply Hk. lia. }
  rewrite K, R. reflexivity.
Qed.

Lemma run_local (r : regex) : forall A : Type, local (@run A ci r).
Proof.
  induction r as [t| |neg items|r1 IH1 r2 IH2|r1 IH1 r2 IH2|g lo hi r IH
                 |r IH|r IH|]; intros A p s k1 k2 H; cbn [run].
  - apply lit_local. exact H.
  - apply (one_local (A := A) _ p). exact H.
  - apply (one_local (A := A) _ p). exact H.
  - apply IH1. intros p' s' L. apply IH2. intros p'' s'' L'. apply H. lia.
  - rewrite (IH1 A p s k1 k2 H), (IH2 A p s k1 k2 H). reflexivity.
  - apply rep_stable; try lia; [|exact H].
    intros p' s' k k' Hk. apply IH. exact Hk.
  - apply IH. exact H.
  - rewrite (H p s) by lia. reflexivity.
  - rewrite (H p s) by lia. reflexivity.
Qed.

(** The fuel [run] gives the quantifier is enough: more fuel changes
    nothing. *)
Lemma rep_fuel_enough {A : Type} (r : regex) (greedy : bool) (fuel lo : nat)
  (hi : option nat) (p : option ascii) (s : string) (k : kont A) :
  lo + String.length s < fuel ->
  rep (fun p' s' k' => run ci r p' s' k') greedy fuel lo hi p s k =
  rep (fun p' s' k' => run ci r p' s' k') greedy (S (lo + String.length s))
    lo hi p s k.
Proof.
  intros H. apply rep_stable; try lia; [|reflexivity].
  intros p' s' k1 k2 Hk. apply run_local. exact Hk.
Qed.

Lemma search_rest (r : regex) (s : string) (p : option ascii)
  (b m rest : string) :
  search ci r p s = Some (b, m, rest) ->
  String.length s = String.length b + String.length m + String.length rest.
Proof.
  intros H. apply search_sound in H. destruct H as [-> _].
  rewrite !length_append. lia.
Qed.

(** Likewise for the fuel of [s.match(r)]: the matches left to find are
    fewer than the characters left to read, plus one. *)
Lemma match_all_fuel_enough (r : regex) :
  forall f1 f2 p s,
    String.length s < f1 -> String.length s < f2 ->
    match_all_from ci r f1 p s = match_all_from ci r f2 p s.
Proof.
  induction f1 as [|f1 IH]; intros f2 p s H1 H2; [lia|].
  destruct f2 as [|f2]; [lia|]. cbn [match_all_from].
  destruct (search ci r p s) as [[[b m] rest]|] eqn:S; [|reflexivity].
  apply search_rest in S.
  destruct m as [|c m].
  - f_equal. destruct rest as [|c rest]; [reflexivity|].
    cbn in S. apply IH; lia.
  - f_equal. cbn in S. apply IH; lia.
Qed.

End Fuel.

End RegexFuelFacts.

(** ** Secrets: detection and masking *)

Module SecretFacts.

Import Regex RegexFacts PatternValidator.

(** The form of a match of a secret rule: text without quotes, then a
    quoted literal of at least [n] characters that are not quotes. *)
Definition shaped (n : nat) (m : string) : Prop :=
  exists pre q1 value q2,
    m = pre ++ String q1 (value ++ String q2 "") /\
    is_quote q1 = true /\ is_quote q2 = true /\
    quote_free pre = true /\ quote_free value = true /\
    n <= String.length value.

Lemma lang_quote (ci : bool) (s : string) :
  lang ci quote s -> exists q, s = String q "" /\ is_quote q = true.
Proof.
  intros (c & -> & H). rewrite in_quote_set in H. exists c. auto.
Qed.

Lemma lang_not_quotes (ci : bool) (pieces : list string) :
  Forall (lang ci not_quote) pieces ->
  quote_free (String.concat "" pieces) = true /\
  String.length (String.concat "" pieces) = List.length pieces.
Proof.
  induction 1 as [|x l Hx _ [IHq IHl]]; [split; reflexivity|].
  destruct Hx as (c & -> & Hc). rewrite in_quote_set in Hc.
  rewrite concat_cons. cbn. rewrite IHq, IHl.
  destruct (is_quote c); [discriminate|]. split; reflexivity.
Qed.

(** A regex made of four parts that match no quote, then a quoted literal
    of at least [n] characters, matches texts of that form only. *)
Lemma secret_form_shaped (ci g : bool) (a b c d : regex) (n : nat) (m : string) :
  quote_free_regex ci a = true -> quote_free_regex ci b = true ->
  quote_free_regex ci c = true -> quote_free_regex ci d = true ->
  lang ci (Seq a (Seq b (Seq c (Seq d (Seq quote
             (Seq (Rep g n None not_quote) quote)))))) m ->
  shaped n m.
Proof.
  intros Ha Hb Hc Hd L. cbn [lang] in L.
  destruct L as (sa & ? & -> & La & sb & ? & -> & Lb & sc & ? & -> & Lc
                 & sd & ? & -> & Ld & sq1 & ? & -> & Lq1 & sv & sq2 & -> & Lv
                 & Lq2).
  fold (lang ci quote sq1) in Lq1. fold (lang ci quote sq2) in Lq2.
  apply lang_quote in Lq1, Lq2.
  destruct Lq1 as (q1 & -> & Q1). destruct Lq2 as (q2 & -> & Q2).
  destruct Lv as (pieces & -> & E & F).
  fold (lang ci not_quote) in F.
  destruct (lang_not_quotes F) as [Vq Vl].
  exists (sa ++ sb ++ sc ++ sd), q1, (String.concat "" pieces), q2.
  repeat split; auto.
  - rewrite !append_assoc. reflexivity.
  - rewrite !quote_free_append.
    rewrite (@quote_free_regex_spec ci a Ha sa La),
      (@quote_free_regex_spec ci b Hb sb Lb),
      (@quote_free_regex_spec ci c Hc sc Lc),
      (@quote_free_regex_spec ci d Hd sd Ld).
    reflexivity.
  - rewrite Vl. destruct E as [E|(h & Eh & _)]; [exact E|discriminate].
Qed.

(** Every rule of the catalogue of secrets has that form, with a literal
    of four characters at least. *)
Definition secret_rule (p : pattern) : Prop :=
  ignore_case p = true /\
  exists a b c d n,
    regex_ p = Seq a (Seq b (Seq c (Seq d (Seq quote
                 (Seq (Rep true n None not_quote) quote))))) /\
    quote_free_regex true a = true /\ quote_free_regex true b = true /\
    quote_free_regex true c = true /\ quote_free_regex true d = true /\
    4 <= n.

Lemma ws_quote_free : quote_free_regex true ws = true.
Proof. vm_compute. reflexivity. Qed.

Lemma assign_quote_free : quote_free_regex true assign = true.
Proof. vm_compute. reflexivity. Qed.

Lemma sep_opt_quote_free : quote_free_regex true sep_opt = true.
Proof. vm_compute. reflexivity. Qed.

Ltac exists_parts :=
  do 5 eexists; split; [reflexivity|];
  split; [cbn [quote_free_regex]; rewrite ?sep_opt_quote_free;
          vm_compute; reflexivity|];
  split; [exact ws_quote_free|];
  split; [exact assign_quote_free|];
  split; [exact ws_quote_free|];
  cbn; lia.

Lemma secrets_are_secret_rules : Forall secret_rule secrets.
Proof.
  unfold secrets.
  repeat (constructor;
          [ split; [reflexivity|];
            exists_parts |]).
  constructor.
Qed.

Lemma shaped_weaken (n n' : nat) (m : string) :
  n' <= n -> shaped n m -> shaped n' m.
Proof.
  intros Hn (pre & q1 & v & q2 & E & Q1 & Q2 & P & V & L).
  exists pre, q1, v, q2. repeat split; auto. lia.
Qed.

Lemma secret_matches_shaped (p : pattern) (text : string) (ms : list string) :
  In p secrets -> matches_of p text = Some ms -> ms <> [] /\ Forall (shaped 4) ms.
Proof.
  intros Hp Hm.
  pose proof secrets_are_secret_rules as R. rewrite Forall_forall in R.
  destruct (R p Hp) as (Hci & a & b & c & d & n & Er & Ha & Hb & Hc & Hd & Hn).
  unfold matches_of in Hm. rewrite Hci, Er in Hm.
  apply str_match_sound in Hm. destruct Hm as [Ne F]. split; [exact Ne|].
  revert F. apply Forall_impl. intros m L.
  apply shaped_weaken with (n := n); [exact Hn|].
  exact (@secret_form_shaped true true a b c d n m Ha Hb Hc Hd L).
Qed.

(** *** What [_maskSecret] does to a match of that form *)

Lemma take_all (s : string) : take (String.length s) s = s.
Proof. induction s as [|c s IH]; cbn; [|rewrite IH]; reflexivity. Qed.

(** The mask regex does not match where the text starts with a character
    that is no quote. *)
Lemma mask_here_miss (p : option ascii) (c : ascii) (s : string) :
  is_quote c = false -> match_here false mask_regex p (String c s) = None.
Proof.
  intros H. unfold match_here, mask_regex, quote. cbn [run one].
  rewrite in_quote_set, H. reflexivity.
Qed.

Definition last_or (p : option ascii) (s : string) : option ascii :=
  match last_char s with Some c => Some c | None => p end.

Lemma last_char_cons (s : string) :
  forall c, exists x, last_char (String c s) = Some x.
Proof.
  induction s as [|a s IH]; intros c; [exists c; reflexivity|].
  destruct (IH a) as [x E]. exists x. exact E.
Qed.

Lemma last_or_cons (p : option ascii) (c : ascii) (s : string) :
  last_or p (String c s) = last_or (Some c) s.
Proof.
  destruct s as [|a s]; [reflexivity|]. unfold last_or.
  change (last_char (String c (String a s))) with (last_char (String a s)).
  destruct (last_char_cons s a) as [x ->]. reflexivity.
Qed.

(** The greedy quantifier over the characters that are no quotes takes all
    of them when what follows accepts the rest. *)
Lemma rep_not_quote_span {A : Type} (value rest : string) (k : kont A) (a : A) :
  forall fuel lo p,
    quote_free value = true ->
    match rest with "" => True | String c _ => is_quote c = true end ->
    lo <= String.length value ->
    String.length value < fuel ->
    k (last_or p value) rest = Some a ->
    rep (fun p' s' k' => run false not_quote p' s' k') true fuel lo None p
      (value ++ rest) k = Some a.
Proof.
  induction value as [|c value IH]; intros fuel lo p Hq Hr Hlo Hf Hk;
    (destruct fuel as [|fuel]; [cbn in Hf; lia|]); cbn [rep].
  - cbn in Hlo. assert (lo = 0) as -> by lia. cbn [Nat.eqb negb append].
    assert (M : run false not_quote p rest
                  (fun p' s' =>
                     if true && (String.length s' =? String.length rest)
                     then None
                     else rep (fun p0 s0 k' => run false not_quote p0 s0 k')
                            true fuel (pred 0) (dec None) p' s' k) = None).
    { unfold not_quote. destruct rest as [|c rest]; cbn [run one];
        [reflexivity|].
      rewrite in_quote_set, Hr. reflexivity. }
    rewrite M. exact Hk.
  - cbn in Hq. apply andb_true_iff in Hq. destruct Hq as [Hc Hq].
    apply negb_true_iff in Hc. cbn in Hlo, Hf.
    rewrite last_or_cons in Hk.
    assert (R : rep (fun p' s' k' => run false not_quote p' s' k') true fuel
                  (pred lo) None (Some c) (value ++ rest) k = Some a).
    { apply IH; auto; lia. }
    assert (M : run false not_quote p (String c value ++ rest)
                  (fun p' s' =>
                     if (lo =? 0)
                        && (String.length s' =? String.length (String c value ++ rest))
                     then None
                     else rep (fun p0 s0 k' => run false not_quote p0 s0 k')
                            true fuel (pred lo) (dec None) p' s' k) = Some a).
    { unfold not_quote. cbn [run one append]. rewrite in_quote_set, Hc.
      cbn [xorb]. cbn [String.length].
      assert (E : (String.length (value ++ rest)
                   =? S (String.length (value ++ rest))) = false)
        by (apply Nat.eqb_neq; lia).
      rewrite E, andb_false_r. exact R. }
    destruct (lo =? 0); cbn [negb]; rewrite M; reflexivity.
Qed.

(** At a quoted literal of four characters or more the mask regex matches
    the literal, to its closing quote. *)
Lemma mask_here_hit (p : option ascii) (q1 q2 : ascii) (value : string) :
  is_quote q1 = true -> is_quote q2 = true ->
  quote_free value = true -> 4 <= String.length value ->
  match_here false mask_regex p (String q1 (value ++ String q2 "")) = Some "".
Proof.
  intros Q1 Q2 Hv Hl. unfold match_here, mask_regex.
  cbn [run]. unfold quote at 1. cbn [run one].
  rewrite in_quote_set, Q1. cbn [xorb].
  unfold AtLeast. cbn [run].
  apply rep_not_quote_span; auto.
  - rewrite length_append. cbn. lia.
  - unfold quote. cbn [run one]. rewrite in_quote_set, Q2. reflexivity.
Qed.

Lemma search_skip (pre s : string) :
  quote_free pre = true ->
  forall p,
    search false mask_regex p (pre ++ s) =
    match search false mask_regex (last_or p pre) s with
    | Some (b, m, rest) => Some (pre ++ b, m, rest)
    | None => None
    end.
Proof.
  induction pre as [|c pre IH]; intros Hq p.
  - cbn [append]. unfold last_or. cbn.
    destruct (search false mask_regex p s) as [[[b m] rest]|]; reflexivity.
  - cbn in Hq. apply andb_true_iff in Hq. destruct Hq as [Hc Hq].
    apply negb_true_iff in Hc.
    cbn [append]. rewrite search_unfold, mask_here_miss by exact Hc.
    rewrite IH by exact Hq. rewrite last_or_cons.
    destruct (search false mask_regex (last_or (Some c) pre) s)
      as [[[b m] rest]|]; reflexivity.
Qed.

(** The two outer characters kept by the mask and the asterisks between
    them, in double quotes. *)
Definition redaction (value : string) : string :=
  DQ ++ take 2 value
     ++ repeat_string "*" (Nat.min (String.length value - 4) 20)
     ++ slice_last 2 value ++ DQ.

Lemma maskSecret_shaped (pre value : string) (q1 q2 : ascii) :
  is_quote q1 = true -> is_quote q2 = true ->
  quote_free pre = true -> quote_free value = true ->
  4 <= String.length value ->
  _maskSecret (pre ++ String q1 (value ++ String q2 "")) =
  pre ++ (if String.length value <=? 4
          then String q1 (value ++ String q2 "")
          else redaction value).
Proof.
  intros Q1 Q2 Hp Hv Hl. unfold _maskSecret, replace_first.
  rewrite search_skip by exact Hp.
  rewrite search_unfold, mask_here_hit by assumption.
  cbn [String.length]. rewrite Nat.sub_0_r.
  change (S (String.length (value ++ String q2 "")))
    with (String.length (String q1 (value ++ String q2 ""))).
  rewrite take_all.
  rewrite (append_nil_r (mask_literal (String q1 (value ++ String q2 "")))).
  rewrite (append_nil_r pre). f_equal.
  unfold mask_literal, mask_group1. cbn [String.length drop].
  rewrite length_append. cbn [String.length].
  replace (S (String.length value + 1) - 2) with (String.length value) by lia.
  rewrite take_append. reflexivity.
Qed.

(** *** [validatePre] on a text with a secret *)

Lemma check_In (mk : pattern -> list string -> violation)
  (rules : list pattern) (code : string) (v : violation) :
  In v (check mk rules code) <->
  exists p ms, In p rules /\ matches_of p code = Some ms /\ v = mk p ms.
Proof.
  induction rules as [|p rules IH]; cbn [check].
  - split; [intros []|intros (p & ms & [] & _)].
  - destruct (matches_of p code) as [ms|] eqn:E.
    + cbn [In]. rewrite IH. split.
      * intros [<-|(p' & ms' & Hp & Hm & ->)]; [exists p, ms|exists p', ms'];
          cbn; auto.
      * intros (p' & ms' & [<-|Hp] & Hm & ->).
        -- left. congruence.
        -- right. eauto.
    + rewrite IH. split.
      * intros (p' & ms' & Hp & Hm & ->). exists p', ms'. cbn. auto.
      * intros (p' & ms' & [<-|Hp] & Hm & ->); [congruence|eauto].
Qed.

(** A violation of type [hardcoded_secret] comes from [_checkSecrets]. *)
Lemma hardcoded_secret_origin (o : options) (text : string) (c : ascii)
  (t0 t1 : Q) (v : violation) :
  In v (violations (validatePre o (JStr (String c text)) t0 t1)) ->
  v_type v = "hardcoded_secret" ->
  In v (_checkSecrets (String c text)).
Proof.
  cbn [validatePre violations]. intros Hin Ht.
  assert (Other : forall mk rules,
            (forall p ms, v_type (mk p ms) <> "hardcoded_secret") ->
            ~ In v (check mk rules (String c text))).
  { intros mk rules Hmk H. apply check_In in H.
    destruct H as (p & ms & _ & _ & ->). exact (Hmk _ _ Ht). }
  repeat (apply in_app_or in Hin; destruct Hin as [Hin|Hin]);
    destruct (enableSecurityChecks o), (enablePerformanceChecks o);
    try contradiction;
    repeat (apply in_app_or in Hin; destruct Hin as [Hin|Hin]);
    try exact Hin;
    exfalso; revert Hin; apply Other; intros p ms; cbn; discriminate.
Qed.

Lemma no_secret_in_empty (p : pattern) :
  In p secrets -> matches_of p "" = None.
Proof.
  unfold secrets. cbn [In].
  intros H. repeat (destruct H as [<-|H]; [vm_compute; reflexivity|]).
  contradiction.
Qed.

(** C6, amended: on a text in which a rule of the catalogue of secrets
    matches, [validatePre] fails with a [CRITICAL] violation of type
    [hardcoded_secret]; the [matches] of every such violation are the
    matched texts after [_maskSecret], and each matched text is made of
    text without quotes and a quoted literal of four characters or more,
    of which the mask keeps the first two and the last two characters and
    replaces the others by as many asterisks, twenty at most; a literal of
    exactly four characters is returned as it is. *)
Theorem secrets_reported_and_masked (o : options) (text : string) (t0 t1 : Q) :
  enableSecurityChecks o = true ->
  (exists p, In p secrets /\ matches_of p text <> None) ->
  passed (validatePre o (JStr text) t0 t1) = false /\
  (exists v, In v (violations (validatePre o (JStr text) t0 t1)) /\
             v_type v = "hardcoded_secret" /\ v_severity v = CRITICAL) /\
  (forall v,
     In v (violations (validatePre o (JStr text) t0 t1)) ->
     v_type v = "hardcoded_secret" ->
     exists p originals,
       In p secrets /\ matches_of p text = Some originals /\
       v_matches v = Some (map _maskSecret originals) /\
       Forall (fun m =>
                 exists pre q1 value q2,
                   m = pre ++ String q1 (value ++ String q2 "") /\
                   is_quote q1 = true /\ is_quote q2 = true /\
                   quote_free pre = true /\ quote_free value = true /\
                   4 <= String.length value /\
                   _maskSecret m =
                     pre ++ (if String.length value <=? 4
                             then String q1 (value ++ String q2 "")
                             else redaction value))
              originals).
Proof.
  intros Ho (p & Hp & Hm).
  destruct text as [|c text].
  { rewrite (no_secret_in_empty Hp) in Hm. contradiction. }
  destruct (matches_of p (String c text)) as [ms|] eqn:Em; [clear Hm|contradiction].
  set (found_v := {| v_type := "hardcoded_secret";
                     v_pattern := Some (name p);
                     v_severity := CRITICAL;
                     v_message := "Hardcoded " ++ name p ++ " detected";
                     v_matches := Some (map _maskSecret ms);
                     v_suggestion :=
                       "Use environment variables: process.env.SECRET_NAME" |}).
  assert (Hs : In found_v (_checkSecrets (String c text))).
  { unfold _checkSecrets. apply check_In. exists p, ms. auto. }
  assert (Hv : In found_v
                 (violations (validatePre o (JStr (String c text)) t0 t1))).
  { cbn [validatePre violations]. rewrite Ho.
    apply in_or_app. left. apply in_or_app. left. exact Hs. }
  split; [|split].
  - cbn [validatePre passed violations] in Hv |- *.
    match type of Hv with In _ ?l => set (vs := l) in * end.
    assert (Hc : In found_v (filter is_critical vs)).
    { apply filter_In. split; [exact Hv|reflexivity]. }
    destruct (strictMode o).
    + destruct vs; [destruct Hv|reflexivity].
    + destruct (filter is_critical vs); [destruct Hc|reflexivity].
  - exists found_v. auto.
  - intros v Hin Ht.
    apply hardcoded_secret_origin in Hin; [|exact Ht].
    unfold _checkSecrets in Hin. apply check_In in Hin.
    destruct Hin as (p' & ms' & Hp' & Hm' & ->).
    exists p', ms'. repeat split; auto.
    destruct (secret_matches_shaped _ Hp' Hm') as [_ F].
    revert F. apply Forall_impl.
    intros m (pre & q1 & value & q2 & -> & Q1 & Q2 & Pq & Vq & Vl).
    exists pre, q1, value, q2. repeat split; auto.
    apply maskSecret_shaped; assumption.
Qed.

(** *** The theorem at concrete texts *)

Definition quoted (s : string) : string := DQ ++ s ++ DQ.

(** An assignment of a sixteen-character password, and one of a
    four-character password. *)
Definition long_password : string := "password = " ++ quoted "super_secret_123".
Definition short_password : string := "password = " ++ quoted "abcd".

(** C6, as stated, fails: a password of four characters is reported with
    its literal intact in [matches]. *)
Lemma short_secret_is_not_redacted :
  violations (validatePre default_options (JStr short_password) 0 0) =
  [ {| v_type := "hardcoded_secret";
       v_pattern := Some "password";
       v_severity := CRITICAL;
       v_message := "Hardcoded password detected";
       v_matches := Some [short_password];
       v_suggestion := "Use environment variables: process.env.SECRET_NAME" |} ].
Proof. vm_compute. reflexivity. Qed.

Lemma secrets_reported_and_masked_witness :
  passed (validatePre default_options (JStr long_password) 0 0) = false /\
  exists v,
    In v (violations (validatePre default_options (JStr long_password) 0 0)) /\
    v_type v = "hardcoded_secret" /\ v_severity v = CRITICAL.
Proof.
  destruct (@secrets_reported_and_masked default_options long_password 0 0
              eq_refl) as (P & E & _).
  - eexists. split; [left; reflexivity|]. vm_compute. discriminate.
  - split; assumption.
Defined.

(** What the mask leaves of the long password. *)
Lemma long_password_masked :
  map v_matches
    (violations (validatePre default_options (JStr long_password) 0 0)) =
  [ Some ["password = " ++ quoted "su************23"] ].
Proof. vm_compute. reflexivity. Qed.

End SecretFacts.

(** ** The verdict of the pre-validation *)

Module ValidatorFacts.

Import Regex RegexFacts PatternValidator.

(** Some rule of a catalogue matches the text. *)
Definition hit (rules : list pattern) (code : string) : bool :=
  existsb (fun p => match matches_of p code with
                    | Some _ => true
                    | None => false
                    end) rules.

(** The four catalogues behind [enableSecurityChecks], the two behind
    [enablePerformanceChecks]. *)
Definition security_rules : list pattern :=
  (secrets ++ sqlInjection ++ xss ++ commandInjection)%list.
Definition performance_rules : list pattern := (hashMap ++ performance)%list.

Lemma check_nil (mk : pattern -> list string -> violation)
  (rules : list pattern) (code : string) :
  Nat.eqb (List.length (check mk rules code)) 0 = negb (hit rules code).
Proof.
  induction rules as [|p rules IH]; cbn [check hit existsb]; [reflexivity|].
  destruct (matches_of p code); [reflexivity|]. exact IH.
Qed.

Lemma check_bound (mk : pattern -> list string -> violation)
  (rules : list pattern) (code : string) :
  List.length (check mk rules code) <= List.length rules.
Proof.
  induction rules as [|p rules IH]; cbn [check List.length]; [lia|].
  destruct (matches_of p code); cbn [List.length]; lia.
Qed.

Lemma check_Forall (P : violation -> Prop)
  (mk : pattern -> list string -> violation) (rules : list pattern)
  (code : string) :
  (forall p ms, P (mk p ms)) -> Forall P (check mk rules code).
Proof.
  intros H. induction rules as [|p rules IH]; cbn [check]; [constructor|].
  destruct (matches_of p code); [constructor; [apply H | exact IH] | exact IH].
Qed.

Lemma filter_all {A : Type} (f : A -> bool) (l : list A) :
  Forall (fun x => f x = true) l -> filter f l = l.
Proof.
  induction 1 as [|x l Hx _ IH]; cbn [filter]; [reflexivity|].
  rewrite Hx, IH. reflexivity.
Qed.

Lemma filter_none {A : Type} (f : A -> bool) (l : list A) :
  Forall (fun x => f x = false) l -> filter f l = [].
Proof.
  induction 1 as [|x l Hx _ IH]; cbn [filter]; [reflexivity|].
  rewrite Hx. exact IH.
Qed.

Lemma length_zero_app {A : Type} (a b : list A) :
  Nat.eqb (List.length (a ++ b)) 0 =
  Nat.eqb (List.length a) 0 && Nat.eqb (List.length b) 0.
Proof. destruct a; reflexivity. Qed.

(** What the security checks find is all critical, what the performance
    checks find never is. *)
Definition security_findings (text : string) : list violation :=
  (_checkSecrets text ++ _checkSQLInjection text
   ++ _checkXSS text ++ _checkCommandInjection text)%list.

Definition performance_findings (text : string) : list violation :=
  (_checkHashMapViolations text ++ _checkPerformanceAntiPatterns text)%list.

Lemma security_findings_critical (text : string) :
  Forall (fun v => is_critical v = true) (security_findings text).
Proof.
  unfold security_findings.
  repeat (apply Forall_app; split); apply check_Forall; reflexivity.
Qed.

Lemma performance_findings_minor (text : string) :
  Forall (fun v => is_critical v = false) (performance_findings text).
Proof.
  unfold performance_findings.
  repeat (apply Forall_app; split); apply check_Forall; reflexivity.
Qed.

Lemma security_findings_none (text : string) :
  Nat.eqb (List.length (security_findings text)) 0
  = negb (hit security_rules text).
Proof.
  unfold security_findings, security_rules, hit.
  rewrite !length_zero_app, !existsb_app, !negb_orb.
  unfold _checkSecrets, _checkSQLInjection, _checkXSS, _checkCommandInjection.
  rewrite !check_nil. reflexivity.
Qed.

Lemma performance_findings_none (text : string) :
  Nat.eqb (List.length (performance_findings text)) 0
  = negb (hit performance_rules text).
Proof.
  unfold performance_findings, performance_rules, hit.
  rewrite !length_zero_app, !existsb_app, !negb_orb.
  unfold _checkHashMapViolations, _checkPerformanceAntiPatterns.
  rewrite !check_nil. reflexivity.
Qed.

Lemma validatePre_violations (o : options) (c : ascii) (text : string)
  (t0 t1 : Q) :
  violations (validatePre o (JStr (String c text)) t0 t1) =
  ((if enableSecurityChecks o then security_findings (String c text) else [])
   ++ (if enablePerformanceChecks o
       then performance_findings (String c text) else []))%list.
Proof. reflexivity. Qed.

Lemma validatePre_passed (o : options) (c : ascii) (text : string)
  (t0 t1 : Q) :
  passed (validatePre o (JStr (String c text)) t0 t1) =
  let vs := violations (validatePre o (JStr (String c text)) t0 t1) in
  if strictMode o then Nat.eqb (List.length vs) 0
  else Nat.eqb (List.length (filter is_critical vs)) 0.
Proof. reflexivity. Qed.

(** The verdict on a text that is not empty, from the rules that match
    it. *)
Lemma validatePre_passed_by_rules (o : options) (c : ascii) (text : string)
  (t0 t1 : Q) :
  passed (validatePre o (JStr (String c text)) t0 t1) =
  negb (enableSecurityChecks o && hit security_rules (String c text))
  && negb (strictMode o && enablePerformanceChecks o
           && hit performance_rules (String c text)).
Proof.
  rewrite validatePre_passed, validatePre_violations. cbv zeta.
  set (code := String c text).
  destruct (strictMode o).
  - rewrite length_zero_app.
    destruct (enableSecurityChecks o), (enablePerformanceChecks o);
      cbn [List.length Nat.eqb andb negb];
      rewrite ?security_findings_none, ?performance_findings_none;
      rewrite ?andb_true_r; reflexivity.
  - rewrite filter_app.
    assert (P : filter is_critical
                  (if enablePerformanceChecks o
                   then performance_findings code else []) = []).
    { destruct (enablePerformanceChecks o); [|reflexivity].
      apply filter_none, performance_findings_minor. }
    rewrite P, app_nil_r.
    destruct (enableSecurityChecks o); cbn [andb negb filter List.length Nat.eqb];
      [|reflexivity].
    rewrite (filter_all _ (security_findings_critical code)).
    rewrite security_findings_none, andb_true_r. reflexivity.
Qed.

(** X1. The verdict of [validatePre], from the rules that match the
    code: a match of any security rule fails it; a match of a performance
    rule fails it in strict mode only; what is no string, or the empty
    one, passes. *)
Theorem validatePre_verdict (o : options) (code : value) (t0 t1 : Q) :
  passed (validatePre o code t0 t1) =
  match code with
  | JStr (String c text) =>
      negb (enableSecurityChecks o && hit security_rules (String c text))
      && negb (strictMode o && enablePerformanceChecks o
               && hit performance_rules (String c text))
  | _ => true
  end.
Proof.
  destruct code as [| |b|q|s|l|props]; try reflexivity.
  destruct s as [|c text]; [reflexivity|].
  apply validatePre_passed_by_rules.
Qed.

(** The severity that goes with each category of violation. *)
Definition graded (v : violation) : Prop :=
  (v_severity v = CRITICAL /\
   In (v_type v) [ "hardcoded_secret"; "sql_injection"; "xss_vulnerability";
                   "command_injection" ])
  \/ (v_severity v = HIGH /\ v_type v = "hashmap_performance")
  \/ (v_severity v = MEDIUM /\ v_type v = "performance_antipattern").

(** A text that a security rule matches has a critical violation. *)
Lemma security_hit_is_critical (o : options) (c : ascii)
  (text : string) (t0 t1 : Q) :
  enableSecurityChecks o = true ->
  hit security_rules (String c text) = true ->
  exists first rest,
    filter is_critical (violations (validatePre o (JStr (String c text)) t0 t1))
    = first :: rest /\
    In first (security_findings (String c text)) /\
    passed (validatePre o (JStr (String c text)) t0 t1) = false.
Proof.
  intros S H.
  rewrite validatePre_passed, validatePre_violations. cbv zeta. rewrite S.
  rewrite filter_app, (filter_all _ (security_findings_critical _)).
  pose proof (security_findings_none (String c text)) as N. rewrite H in N.
  destruct (security_findings (String c text)) as [|first rest] eqn:F;
    [discriminate N|].
  exists first, (rest ++ filter is_critical
                          (if enablePerformanceChecks o
                           then performance_findings (String c text) else []))%list.
  split; [reflexivity|]. split; [left; reflexivity|].
  destruct (strictMode o); reflexivity.
Qed.

Ltac bound_checks :=
  repeat match goal with
         | |- context [List.length (check ?mk ?rules ?c)] =>
             let H := fresh "B" in
             let n := fresh "n" in
             pose proof (check_bound mk rules c) as H;
             remember (List.length (check mk rules c)) as n;
             match goal with E : n = _ |- _ => clear E end;
             cbn in H
         end.

Lemma security_findings_bound (text : string) :
  List.length (security_findings text) <= 16.
Proof.
  unfold security_findings. rewrite !length_app.
  unfold _checkSecrets, _checkSQLInjection, _checkXSS, _checkCommandInjection.
  bound_checks. lia.
Qed.

Lemma performance_findings_bound (text : string) :
  List.length (performance_findings text) <= 7.
Proof.
  unfold performance_findings. rewrite !length_app.
  unfold _checkHashMapViolations, _checkPerformanceAntiPatterns.
  bound_checks. lia.
Qed.

Lemma security_findings_graded (text : string) :
  Forall graded (security_findings text).
Proof.
  unfold security_findings.
  repeat (apply Forall_app; split); apply check_Forall; intros p ms;
    left; cbn; intuition.
Qed.

Lemma performance_findings_graded (text : string) :
  Forall graded (performance_findings text).
Proof.
  unfold performance_findings.
  apply Forall_app; split; apply check_Forall; intros p ms;
    [right; left | right; right]; cbn; intuition.
Qed.

(** X2. Each violation of [validatePre] has the severity of its category,
    and a rule is reported once: at most 23 violations, at most 16 of them
    critical, none of low severity. *)
Theorem violations_graded (o : options) (code : value) (t0 t1 : Q) :
  let r := validatePre o code t0 t1 in
  Forall graded (violations r) /\
  List.length (violations r) <= 23 /\
  List.length (filter is_critical (violations r)) <= 16.
Proof.
  cbv zeta.
  assert (Empty : forall r, violations r = [] ->
            Forall graded (violations r) /\
            List.length (violations r) <= 23 /\
            List.length (filter is_critical (violations r)) <= 16).
  { intros r ->. cbn. repeat split; [constructor | lia | lia]. }
  destruct code as [| |b|q|s|l|props]; try (apply Empty; reflexivity).
  destruct s as [|c text]; [apply Empty; reflexivity|].
  rewrite validatePre_violations. set (code := String c text).
  pose proof (security_findings_graded code) as S1.
  pose proof (performance_findings_graded code) as P1.
  pose proof (security_findings_bound code) as S2.
  pose proof (performance_findings_bound code) as P2.
  assert (P3 : filter is_critical (performance_findings code) = []).
  { apply filter_none, performance_findings_minor. }
  pose proof (filter_all _ (security_findings_critical code)) as S3.
  destruct (enableSecurityChecks o), (enablePerformanceChecks o);
    rewrite ?filter_app, ?length_app, ?P3, ?S3, ?app_nil_r;
    cbn [filter List.length app];
    (split; [|split]); try lia; try assumption;
    try (apply Forall_app; split; assumption); try constructor.
Qed.

End ValidatorFacts.

(** ** Masking a match twice *)

Module MaskFacts.

Import Regex RegexFacts PatternValidator SecretFacts.

Lemma quote_free_take (n : nat) (s : string) :
  quote_free s = true -> quote_free (take n s) = true.
Proof.
  revert n. induction s as [|c s IH]; intros [|n] H; try reflexivity.
  cbn [take quote_free] in *. apply andb_true_iff in H as [H1 H2].
  rewrite H1. cbn. apply IH, H2.
Qed.

Lemma quote_free_drop (n : nat) (s : string) :
  quote_free s = true -> quote_free (drop n s) = true.
Proof.
  revert n. induction s as [|c s IH]; intros [|n] H; try exact H.
  cbn [drop]. cbn [quote_free] in H. apply andb_true_iff in H as [_ H2].
  apply IH, H2.
Qed.

Lemma quote_free_stars (n : nat) : quote_free (repeat_string "*" n) = true.
Proof. induction n as [|n IH]; [reflexivity|]. cbn. exact IH. Qed.

Lemma length_stars (n : nat) : String.length (repeat_string "*" n) = n.
Proof. induction n as [|n IH]; [reflexivity|]. cbn. now rewrite IH. Qed.

Lemma length_take (n : nat) (s : string) :
  String.length (take n s) = Nat.min n (String.length s).
Proof.
  revert n. induction s as [|c s IH]; intros [|n]; try reflexivity.
  cbn [take String.length]. rewrite IH. reflexivity.
Qed.

Lemma length_drop (n : nat) (s : string) :
  String.length (drop n s) = String.length s - n.
Proof.
  revert n. induction s as [|c s IH]; intros [|n]; try reflexivity.
  cbn [drop String.length]. rewrite IH. reflexivity.
Qed.

Lemma take_take_append (n : nat) (a b : string) :
  n <= String.length a -> take n (a ++ b) = take n a.
Proof.
  revert n. induction a as [|c a IH]; intros [|n] H; try reflexivity.
  - cbn in H. lia.
  - cbn [append take]. rewrite IH; [reflexivity | cbn in H; lia].
Qed.

Lemma drop_drop_append (n : nat) (a b : string) :
  drop (String.length a + n) (a ++ b) = drop n b.
Proof. induction a as [|c a IH]; [reflexivity | exact IH]. Qed.

Lemma drop_all (s : string) : drop (String.length s) s = "".
Proof. induction s as [|c s IH]; [reflexivity | exact IH]. Qed.

(** The text between the quotes of a redacted literal. *)
Definition redacted_value (value : string) : string :=
  take 2 value
  ++ repeat_string "*" (Nat.min (String.length value - 4) 20)
  ++ slice_last 2 value.

Lemma redaction_quoted (value : string) :
  redaction value = String dquote (redacted_value value ++ String dquote "").
Proof.
  unfold redaction, redacted_value, DQ. cbn [append].
  now rewrite !append_assoc.
Qed.

Lemma redacted_value_facts (value : string) :
  4 < String.length value ->
  quote_free value = true ->
  quote_free (redacted_value value) = true /\
  String.length (redacted_value value)
    = 4 + Nat.min (String.length value - 4) 20 /\
  redacted_value (redacted_value value) = redacted_value value.
Proof.
  intros L Q.
  assert (L2 : String.length (slice_last 2 value) = 2).
  { unfold slice_last. rewrite length_drop. lia. }
  assert (L1 : String.length (take 2 value) = 2).
  { rewrite length_take. lia. }
  assert (Len : String.length (redacted_value value)
                = 4 + Nat.min (String.length value - 4) 20).
  { unfold redacted_value. rewrite !length_append, length_stars, L1, L2. lia. }
  split; [|split]; [| exact Len |].
  - unfold redacted_value, slice_last.
    rewrite !quote_free_append, quote_free_take, quote_free_stars,
      quote_free_drop by assumption. reflexivity.
  - unfold redacted_value at 1. rewrite Len.
    replace (Nat.min (4 + Nat.min (String.length value - 4) 20 - 4) 20)
      with (Nat.min (String.length value - 4) 20) by lia.
    unfold redacted_value at 3. f_equal; [|f_equal].
    + unfold redacted_value. rewrite take_take_append by lia.
      rewrite <- L1 at 1. apply take_all.
    + unfold slice_last. rewrite Len.
      unfold redacted_value. rewrite <- append_assoc.
      replace (4 + Nat.min (String.length value - 4) 20 - 2)
        with (String.length
                (take 2 value
                 ++ repeat_string "*" (Nat.min (String.length value - 4) 20)) + 0).
      * rewrite drop_drop_append. reflexivity.
      * rewrite length_append, length_stars, L1. lia.
Qed.

(** X3. Masking is idempotent on the matches of the secret rules: a
    redacted match, masked again, stays as it is. *)
Theorem maskSecret_idempotent (m : string) :
  shaped 4 m -> _maskSecret (_maskSecret m) = _maskSecret m.
Proof.
  intros (pre & q1 & value & q2 & -> & Q1 & Q2 & Qp & Qv & L).
  rewrite (maskSecret_shaped pre value q1 q2 Q1 Q2 Qp Qv L).
  destruct (String.length value <=? 4) eqn:Short.
  - rewrite (maskSecret_shaped pre value q1 q2 Q1 Q2 Qp Qv L), Short.
    reflexivity.
  - apply Nat.leb_gt in Short.
    destruct (redacted_value_facts value Short Qv) as (Qr & Lr & Ir).
    rewrite redaction_quoted.
    assert (Qd : is_quote dquote = true) by reflexivity.
    rewrite (maskSecret_shaped pre (redacted_value value) dquote dquote
               Qd Qd Qp Qr) by lia.
    replace (String.length (redacted_value value) <=? 4) with false
      by (symmetry; apply Nat.leb_gt; lia).
    rewrite redaction_quoted, Ir. reflexivity.
Qed.

Lemma maskSecret_idempotent_witness :
  shaped 4 long_password /\
  _maskSecret (_maskSecret long_password) = _maskSecret long_password /\
  _maskSecret long_password = "password = " ++ quoted "su************23".
Proof.
  assert (S : shaped 4 long_password).
  { exists "password = ", dquote, "super_secret_123", dquote.
    repeat split; cbn; lia. }
  split; [exact S|]. split; [exact (maskSecret_idempotent S)|].
  vm_compute. reflexivity.
Defined.

End MaskFacts.

(** ** The verdict of the post-validation *)

Module PostVerdictFacts.

Import PatternValidator PostValidationFacts.
Open Scope Z_scope.

(** The verdict on a result whose code is a string. *)
Lemma validatePost_on_text (o : options) (result : value) (text : string) :
  _extractCode result = JStr text ->
  exists r,
    validatePost o result = Returns r /\
    post_passed r =
      negb (enableQualityChecks o
            && async_without_handling text && leak_pattern text).
Proof.
  intros E. unfold validatePost. rewrite E.
  destruct (enableQualityChecks o); rewrite ?andb_false_r; cbn [andb negb];
    [|eexists; split; reflexivity].
  destruct (truthy (JStr text)) eqn:T; cbn [andb].
  - eexists. split; [reflexivity|].
    destruct (checks_score text) as [Sc _]. cbv zeta in Sc.
    destruct (check_memory_leaks text _) as [found_issues qs]. cbn [snd] in Sc.
    cbn [post_result_of post_passed]. rewrite Sc. unfold specified_score, deduction.
    destruct (async_without_handling text), (hardcoded_literal text),
      (leak_pattern text); reflexivity.
  - eexists. split; [reflexivity|].
    destruct text; [reflexivity | discriminate T].
Qed.

(** X4. What [validatePost] resolves to, by the code it extracts: on a
    string the result fails exactly when async code without error handling
    and a leak pattern come together; on a truthy value of another type the
    call raises, provided the quality checks are on; otherwise the result
    is the untouched one. *)
Theorem validatePost_verdict (o : options) (result : value) :
  match _extractCode result with
  | JStr text =>
      exists r,
        validatePost o result = Returns r /\
        post_passed r =
          negb (enableQualityChecks o
                && async_without_handling text && leak_pattern text)
  | code =>
      if truthy code && enableQualityChecks o
      then validatePost o result = Raises TypeError
      else validatePost o result =
           Returns {| post_passed := true; qualityScore := 100; issues := [] |}
  end.
Proof.
  destruct (_extractCode result) as [| |b|q|text|l|props] eqn:E;
    try (unfold validatePost; rewrite E;
         try (destruct (truthy _ && enableQualityChecks o)); reflexivity).
  apply validatePost_on_text, E.
Qed.

End PostVerdictFacts.

(** ** Doubles: the order *)

Module DoubleFacts.

Import PrimFloat FloatOps SpecFloat FloatAxioms.
Open Scope float_scope.






Lemma same (x y : float) : Leibniz.eqb x y = true -> x = y.
Proof. apply Leibniz.eqb_spec. Qed.

End DoubleFacts.

(** ** The scores there are *)

Module ScoreFacts.

Import PatternValidator TruthScoring TruthScoringFacts ValidatorFacts.
Import PrimFloat.
Open Scope float_scope.

Definition is_string (v : value) : bool :=
  match v with JStr _ => true | _ => false end.

(** *** Counting by severity *)

Lemma count_severity_app (s : severity) (a b : list violation) :
  count_severity s (a ++ b) = (count_severity s a + count_severity s b)%nat.
Proof. unfold count_severity. rewrite filter_app, length_app. reflexivity. Qed.

Lemma count_critical_only (l : list violation) :
  Forall (fun v => is_critical v = true) l ->
  count_severity CRITICAL l = List.length l /\
  count_severity HIGH l = 0%nat /\ count_severity MEDIUM l = 0%nat.
Proof.
  unfold count_severity.
  induction 1 as [|v l Hv _ (C & H & M)]; [repeat split|].
  unfold is_critical in Hv. cbn [filter].
  destruct (v_severity v); try discriminate Hv.
  cbn [severity_eqb List.length]. rewrite C, H, M. repeat split.
Qed.

Lemma count_minor_only (l : list violation) :
  Forall graded l -> Forall (fun v => is_critical v = false) l ->
  count_severity CRITICAL l = 0%nat /\
  (count_severity HIGH l + count_severity MEDIUM l)%nat = List.length l.
Proof.
  unfold count_severity.
  induction 1 as [|v l Gv _ IH]; intros F; [repeat split|].
  inversion F as [|? ? Hv F']; subst. destruct (IH F') as (C & S).
  unfold is_critical in Hv. cbn [filter].
  destruct Gv as [[E _]|[[E _]|[E _]]]; rewrite E in *; try discriminate Hv;
    cbn [severity_eqb List.length]; rewrite C; split; try reflexivity; lia.
Qed.

(** The violations of the validator the scorer builds: at most 16
    critical ones, at most 7 of the two lesser severities, and none of any
    other. *)
Lemma violation_counts (code : value) (t0 t1 : Q) :
  let vs := violations (validatePre PatternValidator.default_options code t0 t1) in
  (count_severity CRITICAL vs <= 16)%nat /\
  (count_severity HIGH vs + count_severity MEDIUM vs <= 7)%nat /\
  (count_severity CRITICAL vs + count_severity HIGH vs
   + count_severity MEDIUM vs)%nat = List.length vs.
Proof.
  cbv zeta. destruct code as [| | | |[|c text]| |]; try (cbn; lia).
  rewrite validatePre_violations.
  cbn [enableSecurityChecks enablePerformanceChecks
       PatternValidator.default_options].
  rewrite !count_severity_app, length_app.
  destruct (count_critical_only (security_findings_critical (String c text)))
    as (C & H & M).
  destruct (count_minor_only (performance_findings_graded (String c text))
              (performance_findings_minor (String c text))) as (C' & S).
  pose proof (security_findings_bound (String c text)).
  pose proof (performance_findings_bound (String c text)).
  lia.
Qed.

(** *** Quality *)

(** The quality scores there are: 100 less 15, 5 and 20, each taken or
    not. *)
Definition quality_scores : list Z := [100; 95; 85; 80; 75; 65; 60]%Z.

(** The quality score of any code is one of them, and is 100 where no
    issue is listed. *)
Lemma quality_score_range (code : value) (post : post_result) :
  validatePost PatternValidator.default_options (JObj [("code", code)])
    = Returns post ->
  In (qualityScore post) quality_scores /\
  (qualityScore post = 100%Z <-> issues post = []).
Proof.
  unfold validatePost.
  destruct (JS.truthy _ && _).
  - destruct (_extractCode _) as [| |b|q|text|l|props]; try discriminate.
    intros [= <-].
    destruct (PostValidationFacts.checks_score text) as [Sc Len].
    cbv zeta in Sc, Len.
    destruct (check_memory_leaks text _) as [found_issues qs].
    cbn [fst snd] in Sc, Len.
    cbn [post_result_of qualityScore issues]. rewrite Sc.
    pose proof (PostValidationFacts.specified_score_range text) as R.
    rewrite Z.max_r by lia.
    unfold PostValidationFacts.specified_score, PostValidationFacts.deduction
      in *. unfold quality_scores.
    destruct (PostValidationFacts.async_without_handling text),
      (PostValidationFacts.hardcoded_literal text),
      (PostValidationFacts.leak_pattern text);
      (split; [cbn; tauto|]);
      (split; intros E; [try lia | try (rewrite E in Len; discriminate Len)]);
      destruct found_issues; try reflexivity; discriminate Len.
  - intros [= <-]. cbn. split; [tauto|]. split; reflexivity.
Qed.

(** *** The scores, from the counts *)

(** The security score for [c] critical violations, [h] of severity HIGH
    and [m] of severity MEDIUM; the share of quality for a quality score
    of [q]; the sum the scorer forms. *)
Definition security_at (c h m : nat) : float :=
  Double.Math_max 0
    (1 - Double.of_nat c * 0.3 - Double.of_nat h * 0.15 - Double.of_nat m * 0.05).

Definition quality_at (q : Z) : float := Double.of_Z q / 100.

Definition sum_at (c h m : nat) (q : Z) : float :=
  security_at c h m * 0.5 + quality_at q * 0.3 + 0.8 * 0.2.

Lemma calculateSecurityScore_at (preResult : pre_result) :
  _calculateSecurityScore preResult =
  security_at (count_severity CRITICAL (violations preResult))
              (count_severity HIGH (violations preResult))
              (count_severity MEDIUM (violations preResult)).
Proof.
  unfold _calculateSecurityScore.
  destruct (PatternValidator.passed preResult && _) eqn:Clean; [|reflexivity].
  apply andb_true_iff in Clean as [_ L].
  destruct (violations preResult); [reflexivity | discriminate L].
Qed.

(** What a score is made of. *)
Lemma score_anatomy (st : state) (code : value) (t0 t1 now : Q) (r : score) :
  fst (calculateScore st code t0 t1 now) = Scored r ->
  exists (c h m : nat) (q : Z),
    (c <= 16)%nat /\ (h <= 7)%nat /\ (m <= 7)%nat /\ In q quality_scores /\
    c = count_severity CRITICAL (score_violations r) /\
    (c + h + m)%nat = List.length (score_violations r) /\
    (q = 100%Z <-> score_issues r = []) /\
    overallScore r = Double.round3 (sum_at c h m q) /\
    passed r = (threshold (opts st) <=? sum_at c h m q) /\
    security (score_components r) = Double.round3 (security_at c h m) /\
    quality (score_components r) = Double.round3 (quality_at q) /\
    performance_ (score_components r) = 0.8.
Proof.
  unfold calculateScore.
  destruct (validatePost _ _) as [post|e] eqn:P; [|discriminate].
  cbn [fst]. intros [= <-].
  destruct (violation_counts code t0 t1) as (C & HM & Len). cbv zeta in *.
  destruct (quality_score_range _ P) as (Hq & Iq).
  set (vs := violations (validatePre PatternValidator.default_options code t0 t1))
    in *.
  exists (count_severity CRITICAL vs), (count_severity HIGH vs),
    (count_severity MEDIUM vs), (qualityScore post).
  cbn [overallScore score_components security quality performance_ passed
       score_violations score_issues].
  rewrite calculateSecurityScore_at. fold vs.
  repeat split; try lia; try reflexivity; try exact Hq; apply Iq.
Qed.

(** *** Every score there can be, evaluated *)

(** A property of the counts and the quality score holds over the whole
    range of them. *)
Definition everywhere (P : nat -> nat -> nat -> Z -> bool) : bool :=
  forallb (fun c =>
    forallb (fun h =>
      forallb (fun m =>
        forallb (P c h m) quality_scores)
        (seq 0 8))
      (seq 0 8))
    (seq 0 17).

Lemma everywhere_spec (P : nat -> nat -> nat -> Z -> bool) :
  everywhere P = true ->
  forall c h m q,
    (c <= 16)%nat -> (h <= 7)%nat -> (m <= 7)%nat -> In q quality_scores ->
    P c h m q = true.
Proof.
  unfold everywhere. intros E c h m q Hc Hh Hm Hq.
  rewrite forallb_forall in E. specialize (E c). rewrite in_seq in E.
  specialize (E ltac:(lia)).
  rewrite forallb_forall in E. specialize (E h). rewrite in_seq in E.
  specialize (E ltac:(lia)).
  rewrite forallb_forall in E. specialize (E m). rewrite in_seq in E.
  specialize (E ltac:(lia)).
  rewrite forallb_forall in E. exact (E q Hq).
Qed.

(** The exact score in thousandths: 25 for a twentieth of security, 3 for
    a hundredth of quality, 160 for the performance share. *)
Definition twentieths (c h m : nat) : Z :=
  Z.max 0 (20 - 6 * Z.of_nat c - 3 * Z.of_nat h - Z.of_nat m).

Definition thousandths (c h m : nat) (q : Z) : Z :=
  25 * twentieths c h m + 3 * q + 160.

(** What is checked of each score: its bounds; that the three reported
    numbers are the exact ones, no rounding error showing; that at the
    default threshold of 0.95 nothing passes but the score without any
    deduction, by the sum as by the rounded score; and that a critical
    violation keeps the score at 0.81 or under. *)
Definition as_expected (c h m : nat) (q : Z) : bool :=
  let reported := Double.round3 (sum_at c h m q) in
  let spotless := (c =? 0)%nat && (h =? 0)%nat && (m =? 0)%nat && (q =? 100)%Z in
  (0.34 <=? reported) && (reported <=? 0.96)
  && Leibniz.eqb reported (Double.of_Z (thousandths c h m q) / 1000)
  && Leibniz.eqb (Double.round3 (security_at c h m))
       (Double.of_Z (50 * twentieths c h m) / 1000)
  && Leibniz.eqb (Double.round3 (quality_at q)) (Double.of_Z (10 * q) / 1000)
  && Bool.eqb (0.95 <=? sum_at c h m q) spotless
  && Bool.eqb (0.95 <=? reported) spotless
  && ((c =? 0)%nat || (reported <=? 0.81)).

Lemma scores_as_expected : everywhere as_expected = true.
Proof. vm_compute. reflexivity. Qed.

Lemma score_as_expected (c h m : nat) (q : Z) :
  (c <= 16)%nat -> (h <= 7)%nat -> (m <= 7)%nat -> In q quality_scores ->
  let reported := Double.round3 (sum_at c h m q) in
  let spotless := (c =? 0)%nat && (h =? 0)%nat && (m =? 0)%nat && (q =? 100)%Z in
  (0.34 <=? reported) = true /\ (reported <=? 0.96) = true /\
  reported = Double.of_Z (thousandths c h m q) / 1000 /\
  Double.round3 (security_at c h m)
    = Double.of_Z (50 * twentieths c h m) / 1000 /\
  Double.round3 (quality_at q) = Double.of_Z (10 * q) / 1000 /\
  (0.95 <=? sum_at c h m q) = spotless /\
  (0.95 <=? reported) = spotless /\
  ((0 < c)%nat -> (reported <=? 0.81) = true).
Proof.
  intros Hc Hh Hm Hq. cbv zeta.
  pose proof (@everywhere_spec as_expected scores_as_expected c h m q
                Hc Hh Hm Hq) as E.
  unfold as_expected in E. cbv zeta in E.
  repeat (apply andb_true_iff in E; destruct E as [E ?]).
  repeat split; auto using DoubleFacts.same, eqb_prop.
  intros Pc. destruct (c =? 0)%nat eqn:Z0.
  - apply Nat.eqb_eq in Z0. lia.
  - assumption.
Qed.

(** The two ways a call of [calculateScore] goes. *)
Lemma calculateScore_cases (st : state) (code : value) (t0 t1 now : Q) :
  if JS.truthy code && negb (is_string code)
  then calculateScore st code t0 t1 now = (ScoreFailed TypeError, st)
  else exists r,
         calculateScore st code t0 t1 now = (Scored r, _trackScore st r now) /\
         totalScores (metrics_ (snd (calculateScore st code t0 t1 now)))
           = S (totalScores (metrics_ st)).
Proof.
  unfold calculateScore.
  assert (E : _extractCode (JObj [("code", code)])
              = if JS.truthy code then code else JNull).
  { cbn. destruct (JS.truthy code); reflexivity. }
  unfold validatePost. rewrite E.
  cbn [enableQualityChecks PatternValidator.default_options].
  rewrite andb_true_r.
  destruct code as [| |b|q|text|l|props]; unfold JS.truthy;
    cbn [is_string negb andb].
  - eexists; split; reflexivity.
  - eexists; split; reflexivity.
  - destruct b; [reflexivity | eexists; split; reflexivity].
  - destruct (negb (Qeq_bool q 0)) eqn:T; cbv beta iota; rewrite ?T;
      [reflexivity | eexists; split; reflexivity].
  - rewrite andb_false_r.
    destruct (negb (text =? "")%string) eqn:T; cbv beta iota; rewrite ?T;
      eexists; split; reflexivity.
  - reflexivity.
  - reflexivity.
Qed.

(** A score without a violation of the three severities has none. *)
Lemma spotless_iff (st : state) (code : value) (t0 t1 now : Q) (r : score)
  (c h m : nat) (q : Z) :
  (c + h + m)%nat = List.length (score_violations r) ->
  (q = 100%Z <-> score_issues r = []) ->
  (c =? 0)%nat && (h =? 0)%nat && (m =? 0)%nat && (q =? 100)%Z = true
  <-> score_violations r = [] /\ score_issues r = [].
Proof.
  intros Len Iq. rewrite !andb_true_iff, !Nat.eqb_eq, Z.eqb_eq. split.
  - intros [[[-> ->] ->] Q]. split; [|apply Iq, Q].
    destruct (score_violations r); [reflexivity | discriminate Len].
  - intros [V I]. rewrite V in Len. cbn in Len.
    repeat split; try lia. apply Iq, I.
Qed.

(** X5. A score that is computed is between 0.34 and 0.96, and what is
    reported shows no rounding error: the three components and the overall
    score are whole thousandths, the overall score exactly the weighted sum
    of the components (a half, three tenths and a fifth).  At the default
    threshold of 0.95 a score has passed exactly when the validator found
    nothing at all.  No score is computed for a truthy value that is no
    string: the call resolves to its error object. *)
Theorem score_bounds (st : state) (code : value) (t0 t1 now : Q) :
  match fst (calculateScore st code t0 t1 now) with
  | ScoreFailed _ => JS.truthy code && negb (is_string code) = true
  | Scored r =>
      (0.34 <=? overallScore r) = true /\ (overallScore r <=? 0.96) = true /\
      (exists ks kq ko : Z,
         security (score_components r) = Double.of_Z ks / 1000 /\
         quality (score_components r) = Double.of_Z kq / 1000 /\
         performance_ (score_components r) = Double.of_Z 800 / 1000 /\
         overallScore r = Double.of_Z ko / 1000 /\
         (1000 * ko = 500 * ks + 300 * kq + 200 * 800)%Z) /\
      (threshold (opts st) = 0.95 ->
       (passed r = true <-> score_violations r = [] /\ score_issues r = []))
  end.
Proof.
  pose proof (calculateScore_cases st code t0 t1 now) as C.
  destruct (fst (calculateScore st code t0 t1 now)) as [r|e] eqn:F.
  - destruct (score_anatomy _ _ _ _ _ F)
      as (c & h & m & q & Hc & Hh & Hm & Hq & _ & Len & Iq & O & P & S & Q & Pf).
    destruct (score_as_expected Hc Hh Hm Hq)
      as (Lo & Hi & Eo & Es & Eq & Pass & _ & _).
    cbv zeta in *. rewrite O, S, Q, Pf.
    split; [exact Lo|]. split; [exact Hi|]. split.
    + exists (50 * twentieths c h m)%Z, (10 * q)%Z, (thousandths c h m q).
      repeat split; auto. unfold thousandths. lia.
    + intros T. rewrite P, T, Pass. apply (spotless_iff st code t0 t1 now); auto.
  - destruct (JS.truthy code && negb (is_string code)); [reflexivity|].
    destruct C as (r & C & _). rewrite C in F. discriminate F.
Qed.

(** The theorem at a call of [eval], which scores 0.81 and fails, and at a
    line without a fault, which scores 0.96 and passes. *)
Lemma score_bounds_witness :
  (exists r,
     fst (calculateScore (new TruthScoring.default_options)
            (JStr "eval(input)") 0 0 0) = Scored r /\
     overallScore r = 0.81 /\ passed r = false /\
     (0.34 <=? overallScore r) = true) /\
  (exists r,
     fst (calculateScore (new TruthScoring.default_options)
            (JStr "const x = 1;") 0 0 0) = Scored r /\
     overallScore r = 0.96 /\ passed r = true).
Proof.
  split.
  - pose proof (score_bounds (new TruthScoring.default_options)
                  (JStr "eval(input)") 0 0 0) as B.
    destruct (fst (calculateScore _ _ _ _ _)) as [r|e] eqn:F;
      [|vm_compute in F; discriminate F].
    exists r. split; [reflexivity|].
    destruct B as (Lo & _ & _ & Pass).
    assert (V : overallScore r = 0.81 /\ score_violations r <> []).
    { vm_compute in F. injection F as <-. split; [reflexivity|discriminate]. }
    destruct V as [O V]. repeat split; [exact O | | exact Lo].
    destruct (passed r); [|reflexivity].
    destruct (proj1 (Pass eq_refl) eq_refl) as [N _]. contradiction.
  - pose proof (score_bounds (new TruthScoring.default_options)
                  (JStr "const x = 1;") 0 0 0) as B.
    destruct (fst (calculateScore _ _ _ _ _)) as [r|e] eqn:F;
      [|vm_compute in F; discriminate F].
    exists r. split; [reflexivity|].
    destruct B as (_ & _ & _ & Pass).
    assert (V : overallScore r = 0.96 /\ score_violations r = []
                /\ score_issues r = []).
    { vm_compute in F. injection F as <-. repeat split. }
    destruct V as (O & V & I). split; [exact O|].
    apply (Pass eq_refl). auto.
Defined.

End ScoreFacts.

(** ** Verification and rollback *)

Module VerifyFacts.

Import PatternValidator TruthScoring TruthScoringFacts ValidatorFacts ScoreFacts.
Import PrimFloat.
Open Scope float_scope.

(** The counters agree with each other and with the bounded history. *)
Definition tracked (st : state) : Prop :=
  totalScores (metrics_ st)
    = (passedCount (metrics_ st) + failedCount (metrics_ st))%nat /\
  List.length (scoreHistory st) = Nat.min (totalScores (metrics_ st)) 1000.

Lemma last_n_length {A : Type} (n : nat) (l : list A) :
  List.length (last_n n l) = Nat.min n (List.length l).
Proof. unfold last_n. rewrite length_skipn. lia. Qed.

Lemma trackScore_tracked (st : state) (r : score) (now : Q) :
  tracked st -> tracked (_trackScore st r now).
Proof.
  intros [T H]. unfold tracked, _trackScore.
  cbn [metrics_ scoreHistory totalScores passedCount failedCount].
  split.
  - destruct (passed r); lia.
  - destruct (1000 <? _)%nat eqn:L.
    + apply Nat.ltb_lt in L. rewrite last_n_length.
      rewrite length_app in *. cbn [List.length] in *. lia.
    + apply Nat.ltb_ge in L.
      rewrite length_app in *. cbn [List.length] in *. lia.
Qed.

Lemma calculateScore_tracked (st : state) (code : value) (t0 t1 now : Q) :
  tracked st -> tracked (snd (calculateScore st code t0 t1 now)).
Proof.
  intros T. unfold calculateScore.
  destruct (validatePost _ _); [|exact T].
  cbn [snd]. apply trackScore_tracked, T.
Qed.

(** What [_performRollback] leaves of the state: the same, but for the
    count of rollbacks. *)
Lemma performRollback_state (W : Type) (f : rollback_fn W)
  (v : verification) (st : state) (w : W) :
  let '(_, st', _, _) := _performRollback f v st w in
  opts st' = opts st /\ scoreHistory st' = scoreHistory st /\
  totalScores (metrics_ st') = totalScores (metrics_ st) /\
  passedCount (metrics_ st') = passedCount (metrics_ st) /\
  failedCount (metrics_ st') = failedCount (metrics_ st).
Proof.
  unfold _performRollback. destruct (f w) as [[[e|]|] w']; repeat split.
Qed.

(** X6. The counters of a scorer stay consistent: the scores counted are
    the passed and the failed ones, and the history holds the last 1000 of
    them at most.  Neither [calculateScore] nor [verify] breaks this. *)
Theorem history_bounded :
  (forall o, tracked (new o)) /\
  (forall st code t0 t1 now,
     tracked st -> tracked (snd (calculateScore st code t0 t1 now))) /\
  (forall (W : Type) st code (o : verify_options W) t0 t1 now w,
     tracked st -> tracked (vr_state (verify st code o t0 t1 now w))).
Proof.
  split; [|split].
  - intros o. split; reflexivity.
  - intros. now apply calculateScore_tracked.
  - intros W st code o t0 t1 now w T. unfold verify.
    pose proof (calculateScore_tracked code t0 t1 now T) as T'.
    destruct (calculateScore st code t0 t1 now) as [[r|e] st']; cbn [snd] in T';
      [|exact T'].
    cbv zeta. destruct (verified _); [exact T'|].
    destruct (if autoRollback (opts st) then vo_rollbackFn o else None)
      as [f|]; [|exact T'].
    match goal with
    | |- context [_performRollback f ?v st' w] =>
        pose proof (performRollback_state f v st' w) as K;
        destruct (_performRollback f v st' w) as [[[settled st''] w'] ev]
    end.
    cbn [vr_state]. destruct K as (_ & Kh & Kt & Kp & Kf).
    destruct T' as [A B]. split; [rewrite Kt, Kp, Kf | rewrite Kh, Kt]; assumption.
Qed.

Lemma history_bounded_witness :
  tracked (new TruthScoring.default_options) /\
  tracked (snd (calculateScore (new TruthScoring.default_options)
                  (JStr "eval(input)") 0 0 0)) /\
  totalScores (metrics_ (snd (calculateScore (new TruthScoring.default_options)
                                (JStr "eval(input)") 0 0 0))) = 1%nat.
Proof.
  split; [exact (proj1 history_bounded TruthScoring.default_options)|].
  split.
  - apply (proj1 (proj2 history_bounded)).
    exact (proj1 history_bounded TruthScoring.default_options).
  - vm_compute. reflexivity.
Defined.



(** A rollback that restores a counter, one that fails, and one that
    rejects without a reason. *)
Definition restoring : rollback_fn nat := fun n => (None, 0%nat).
Definition failing : rollback_fn nat :=
  fun n => (Some (ThrownError (Error "git reset failed")), n).
Definition rejecting : rollback_fn nat := fun n => (Some ThrownNullish, n).


(** X8. A truthy value that is no string can be neither scored nor
    verified: [calculateScore] resolves to its error object and records
    nothing; [verify] rejects with a [TypeError], emits no event and runs
    no rollback.  Every other value is scored, and [verify] resolves to
    that score, but for one case: the score is below the threshold, a
    rollback runs and throws [undefined] or [null]; then [verify] rejects
    with a [TypeError]. *)
Theorem unscorable_values (W : Type) (st : state) (code : value)
  (o : verify_options W) (t0 t1 now : Q) (w : W) :
  if JS.truthy code && negb (is_string code)
  then calculateScore st code t0 t1 now = (ScoreFailed TypeError, st) /\
       verify st code o t0 t1 now w =
         {| vr_resolved := Raises TypeError; vr_state := st; vr_world := w;
            vr_events := [] |}
  else exists r,
         fst (calculateScore st code t0 t1 now) = Scored r /\
         totalScores (metrics_ (snd (calculateScore st code t0 t1 now)))
           = S (totalScores (metrics_ st)) /\
         match vr_resolved (verify st code o t0 t1 now w) with
         | Returns v => v_score v = r
         | Raises e =>
             e = TypeError /\
             (Double.or_else (vo_threshold o) (threshold (opts st))
                <=? overallScore r) = false /\
             autoRollback (opts st) = true /\
             exists f, vo_rollbackFn o = Some f /\
                       fst (f w) = Some ThrownNullish
         end.
Proof.
  pose proof (calculateScore_cases st code t0 t1 now) as C.
  destruct (JS.truthy code && negb (is_string code)).
  - split; [exact C|]. unfold verify. rewrite C. reflexivity.
  - destruct C as (r & C & T). exists r.
    unfold verify. rewrite C in *. cbn [fst snd] in *. cbv zeta.
    split; [reflexivity|]. split; [exact T|].
    cbn [verified].
    destruct (_ <=? overallScore r) eqn:L; [reflexivity|].
    destruct (autoRollback (opts st)) eqn:A; [|reflexivity].
    destruct (vo_rollbackFn o) as [f|] eqn:F; [|reflexivity].
    unfold _performRollback.
    destruct (f w) as [[[e|]|] w'] eqn:R; cbn [vr_resolved];
      try reflexivity.
    repeat split. exists f. split; [reflexivity|]. rewrite R. reflexivity.
Qed.

(** X9. At the default threshold 0.95, a call of [verify] that names no
    threshold of its own agrees with the score it wraps: [verified], which
    compares the rounded score, equals [passed], which compared the score
    before rounding; and both hold exactly of code with no violation and
    no quality issue. *)
Theorem verified_agrees_with_passed (W : Type) (st : state) (code : value)
  (o : verify_options W) (t0 t1 now : Q) (w : W) (v : verification) :
  threshold (opts st) = 0.95 ->
  vo_threshold o = None ->
  vr_resolved (verify st code o t0 t1 now w) = Returns v ->
  verified v = passed (v_score v) /\
  (verified v = true <->
   score_violations (v_score v) = [] /\ score_issues (v_score v) = []) /\
  fst (calculateScore st code t0 t1 now) = Scored (v_score v).
Proof.
  intros D N. unfold verify. rewrite N. cbn [Double.or_else].
  destruct (calculateScore st code t0 t1 now) as [[r|e] st'] eqn:C;
    [|discriminate].
  pose proof (f_equal fst C) as C1. cbn [fst] in C1.
  destruct (score_anatomy _ _ _ _ _ C1)
    as (k & h & m & q & Hk & Hh & Hm & Hq & _ & Len & Iq & O & P & _).
  destruct (score_as_expected Hk Hh Hm Hq) as (_ & _ & _ & _ & _ & S1 & S2 & _).
  cbv zeta in S1, S2. rewrite <- O in S2. rewrite D in *. rewrite <- P in S1.
  pose proof (@spotless_iff st code t0 t1 now r k h m q Len Iq) as Sp.
  assert (R : forall v' : verification,
            verified v' = (0.95 <=? overallScore r) -> v_score v' = r ->
            verified v' = passed (v_score v') /\
            (verified v' = true <->
             score_violations (v_score v') = [] /\ score_issues (v_score v') = []) /\
            Scored r = Scored (v_score v')).
  { intros v' E1 E2. rewrite E2, E1, S2, S1.
    split; [reflexivity|]. split; [exact Sp | reflexivity]. }
  cbv zeta. cbn [verified].
  destruct (0.95 <=? overallScore r) eqn:L.
  - intros [= <-]. apply R; [cbn [verified]; congruence | reflexivity].
  - destruct (if autoRollback (opts st) then vo_rollbackFn o else None) as [f|].
    + destruct (_performRollback _ _ _ _) as [[[settled st''] w'] ev].
      destruct settled; [|discriminate].
      intros [= <-]. apply R; [cbn [verified]; congruence | reflexivity].
    + intros [= <-]. apply R; [cbn [verified]; congruence | reflexivity].
Qed.

Lemma verified_agrees_with_passed_witness :
  exists v,
    vr_resolved (verify (new TruthScoring.default_options) (JStr "const x = 1;")
                   {| vo_threshold := None; vo_rollbackFn := Some restoring |}
                   0 0 0 7%nat) = Returns v /\
    verified v = true /\ passed (v_score v) = true.
Proof.
  eexists. split; [vm_compute; reflexivity|].
  split; [vm_compute; reflexivity|].
  refine (eq_trans (eq_sym (proj1 (@verified_agrees_with_passed nat
            (new TruthScoring.default_options) (JStr "const x = 1;")
            {| vo_threshold := None; vo_rollbackFn := Some restoring |}
            0 0 0 7%nat _ eq_refl eq_refl _))) _).
  - vm_compute. reflexivity.
  - vm_compute. reflexivity.
Defined.

(** At other thresholds the two can differ.  One HIGH and one MEDIUM
    violation and two quality issues make 0.7999999999999999 before
    rounding and 0.8 after: at the threshold 0.8 the score has not passed
    and the verification has. *)
Definition lenient : options :=
  {| threshold := 0.8; warningThreshold := 0.85; criticalThreshold := 0.75;
     autoRollback := true |}.

Definition borderline : value :=
  JStr "let m: HashMap<u8, u8>; JSON.parse(JSON.stringify(m)); setInterval(f, 10)".

Lemma verified_differs_from_passed :
  exists v,
    vr_resolved (verify (new lenient) borderline
                   {| vo_threshold := None; vo_rollbackFn := Some restoring |}
                   0 0 0 7%nat) = Returns v /\
    overallScore (v_score v) = 0.8 /\
    verified v = true /\ passed (v_score v) = false.
Proof.
  eexists. split; [vm_compute; reflexivity|].
  repeat split; vm_compute; reflexivity.
Qed.

End VerifyFacts.

(** ** The hook registry and the order of a run *)

Module RegistryFacts.

Import PatternValidator ValidationHooks.
Open Scope nat_scope.

Section Registry.

Variable H : Type.

Lemma map_set_lookup (k : string) (h : hook H) (m : registry H) :
  assoc k (map_set k h m) = Some h.
Proof.
  induction m as [|[k' h'] m IH]; cbn [map_set assoc].
  - now rewrite String.eqb_refl.
  - destruct (String.eqb k' k) eqn:E; cbn [assoc].
    + now rewrite String.eqb_refl.
    + rewrite E. exact IH.
Qed.

Lemma map_set_other (k j : string) (h : hook H) (m : registry H) :
  j <> k -> assoc j (map_set k h m) = assoc j m.
Proof.
  intros N.
  assert (F : String.eqb k j = false) by (apply String.eqb_neq; congruence).
  induction m as [|[k' h'] m IH]; cbn [map_set assoc].
  - now rewrite F.
  - destruct (String.eqb k' k) eqn:E; cbn [assoc].
    + apply String.eqb_eq in E. subst k'. now rewrite F.
    + rewrite IH. reflexivity.
Qed.

Lemma map_set_keys (k : string) (h : hook H) (m : registry H) :
  map fst (map_set k h m) =
  if has_key k m then map fst m else (map fst m ++ [k])%list.
Proof.
  unfold has_key.
  induction m as [|[k' h'] m IH]; cbn [map_set map fst existsb app]; [reflexivity|].
  destruct (String.eqb k' k) eqn:E; cbn [map fst orb].
  - apply String.eqb_eq in E. now subst k'.
  - rewrite IH. destruct (existsb _ m); reflexivity.
Qed.

End Registry.

(** X10. Registration is a map update: the hook registered under an
    identifier is the one found under it, with fresh counters; every other
    entry stays; an identifier registered again keeps its place in the
    order of insertion; and the other registry is untouched. *)
Theorem register_then_lookup :
  (forall i f o st,
     exists st',
       registerPreToolUse i (Function f) o st = Returns st' /\
       assoc i (hooks_pre st') = Some (new_hook i f o) /\
       (forall j, j <> i -> assoc j (hooks_pre st') = assoc j (hooks_pre st)) /\
       map fst (hooks_pre st') =
         (if has_key i (hooks_pre st) then map fst (hooks_pre st)
          else (map fst (hooks_pre st) ++ [i])%list) /\
       hooks_post st' = hooks_post st) /\
  (forall i f o st,
     exists st',
       registerPostToolUse i (Function f) o st = Returns st' /\
       assoc i (hooks_post st') = Some (new_hook i f o) /\
       (forall j, j <> i -> assoc j (hooks_post st') = assoc j (hooks_post st)) /\
       map fst (hooks_post st') =
         (if has_key i (hooks_post st) then map fst (hooks_post st)
          else (map fst (hooks_post st) ++ [i])%list) /\
       hooks_pre st' = hooks_pre st).
Proof.
  split; intros i f o st; eexists; (split; [reflexivity|]);
    cbn [emit hooks_pre hooks_post];
    (split; [apply map_set_lookup|]);
    (split; [intros j N; now apply map_set_other|]);
    (split; [apply map_set_keys | reflexivity]).
Qed.

(** *** The order of a run *)

Section Sorting.

Variable A : Type.
Variable rank : A -> nat.

Definition ordered (l : list A) : Prop :=
  StronglySorted (fun a b => rank a <= rank b) l.

Local Abbreviation insert := (insert_by rank).
Local Abbreviation sort_into :=
  (fold_left (fun acc x => insert_by rank x acc)).

Lemma insert_perm (x : A) (l : list A) : Permutation (insert x l) (x :: l).
Proof.
  induction l as [|y l IH]; cbn [insert_by]; [reflexivity|].
  destruct (rank y <=? rank x); [|reflexivity].
  rewrite IH. apply perm_swap.
Qed.

Lemma sort_into_perm (l acc : list A) :
  Permutation (sort_into l acc) (acc ++ l).
Proof.
  revert acc. induction l as [|x l IH]; intros acc; cbn [fold_left].
  - now rewrite app_nil_r.
  - rewrite IH, insert_perm. apply Permutation_middle.
Qed.

Lemma insert_ordered (x : A) (l : list A) : ordered l -> ordered (insert x l).
Proof.
  unfold ordered. induction 1 as [|y l S IH F]; cbn [insert_by].
  - repeat constructor.
  - destruct (rank y <=? rank x) eqn:E.
    + apply Nat.leb_le in E. constructor; [exact IH|].
      rewrite (insert_perm x l). constructor; assumption.
    + apply Nat.leb_gt in E. constructor; [constructor; assumption|].
      constructor; [lia|]. eapply Forall_impl; [|exact F].
      cbv beta. intros b. lia.
Qed.

Lemma sort_into_ordered (l acc : list A) :
  ordered acc -> ordered (sort_into l acc).
Proof.
  revert acc. induction l as [|x l IH]; intros acc O; cbn [fold_left];
    [exact O | apply IH, insert_ordered, O].
Qed.

Lemma insert_above (x : A) (l : list A) :
  Forall (fun b => rank x < rank b) l -> insert x l = x :: l.
Proof.
  destruct 1 as [|y l Hy _]; cbn [insert_by]; [reflexivity|].
  replace (rank y <=? rank x) with false; [reflexivity|].
  symmetry. apply Nat.leb_gt. exact Hy.
Qed.

Lemma insert_filter (p : A -> bool) (x : A) (l : list A) :
  ordered l ->
  filter p (insert x l) =
  if p x then insert x (filter p l) else filter p l.
Proof.
  unfold ordered. induction 1 as [|y l S IH F].
  - cbn [insert_by filter]. destruct (p x); reflexivity.
  - cbn [insert_by]. destruct (rank y <=? rank x) eqn:E.
    + cbn [filter]. rewrite IH.
      destruct (p y), (p x); cbn [insert_by]; rewrite ?E; reflexivity.
    + change (filter p (x :: y :: l))
        with (if p x then x :: filter p (y :: l) else filter p (y :: l)).
      destruct (p x); [|reflexivity].
      apply Nat.leb_gt in E. symmetry. apply insert_above.
      assert (G : Forall (fun b => rank x < rank b) (y :: l)).
      { constructor; [exact E|]. eapply Forall_impl; [|exact F].
        cbv beta. intros b. lia. }
      apply Forall_forall. intros b Hb. apply filter_In in Hb as [Hb _].
      rewrite Forall_forall in G. apply G, Hb.
Qed.

Lemma filter_ordered (p : A -> bool) (l : list A) :
  ordered l -> ordered (filter p l).
Proof.
  unfold ordered. induction 1 as [|y l S IH F]; cbn [filter]; [constructor|].
  destruct (p y); [|exact IH].
  constructor; [exact IH|].
  apply Forall_forall. intros b Hb. apply filter_In in Hb as [Hb _].
  rewrite Forall_forall in F. apply F, Hb.
Qed.

Lemma sort_into_filter (p : A -> bool) (l acc : list A) :
  ordered acc ->
  filter p (sort_into l acc) = sort_into (filter p l) (filter p acc).
Proof.
  revert acc. induction l as [|x l IH]; intros acc O; cbn [fold_left filter];
    [reflexivity|].
  rewrite IH by (apply insert_ordered, O).
  rewrite insert_filter by exact O.
  destruct (p x); reflexivity.
Qed.

Lemma stable_sort_filter (p : A -> bool) (l : list A) :
  filter p (stable_sort rank l) = stable_sort rank (filter p l).
Proof. unfold stable_sort. apply (sort_into_filter p l). constructor. Qed.

Lemma insert_last (k : nat) (x : A) (l : list A) :
  rank x = k -> Forall (fun b => rank b = k) l -> insert x l = (l ++ [x])%list.
Proof.
  intros X. induction 1 as [|y l Hy _ IH]; cbn [insert_by app]; [reflexivity|].
  replace (rank y <=? rank x) with true; [now rewrite IH|].
  symmetry. apply Nat.leb_le. lia.
Qed.

Lemma sort_into_level (k : nat) (l acc : list A) :
  Forall (fun b => rank b = k) l -> Forall (fun b => rank b = k) acc ->
  sort_into l acc = (acc ++ l)%list.
Proof.
  intros L. revert acc. induction L as [|x l Hx _ IH]; intros acc Ha;
    cbn [fold_left]; [now rewrite app_nil_r|].
  rewrite (insert_last Hx Ha).
  rewrite IH; [now rewrite <- app_assoc|].
  apply Forall_app. split; [exact Ha | repeat constructor; exact Hx].
Qed.

(** A sort is stable when the elements of one rank keep their order. *)
Lemma stable_sort_level (k : nat) (l : list A) :
  filter (fun a => rank a =? k) (stable_sort rank l)
  = filter (fun a => rank a =? k) l.
Proof.
  rewrite stable_sort_filter. unfold stable_sort.
  apply (@sort_into_level k); [|constructor].
  apply Forall_forall. intros b Hb. apply filter_In in Hb as [_ Hb].
  apply Nat.eqb_eq, Hb.
Qed.

End Sorting.

Definition rank_of {H : Type} (h : hook H) : nat :=
  priority_rank (hook_priority h).

(** X11. The order in which the hooks of a registry run: every hook
    once, by rank, the hooks of one rank in the order of registration.
    [CRITICAL] has the rank of [MEDIUM], behind [HIGH]. *)
Theorem sorted_hooks_order (H : Type) (m : registry H) :
  Permutation (_getSortedHooks m) (map snd m) /\
  StronglySorted (fun a b => rank_of a <= rank_of b) (_getSortedHooks m) /\
  (forall k,
     filter (fun h => rank_of h =? k) (_getSortedHooks m)
     = filter (fun h => rank_of h =? k) (map snd m)) /\
  map priority_rank [HIGH; CRITICAL; MEDIUM; LOW] = [1; 2; 2; 3].
Proof.
  unfold _getSortedHooks. fold (@rank_of H).
  split; [|split; [|split]].
  - unfold stable_sort. apply (@sort_into_perm _ rank_of (map snd m) []).
  - unfold stable_sort. apply (@sort_into_ordered _ rank_of (map snd m)). constructor.
  - intros k. apply stable_sort_level.
  - reflexivity.
Qed.

(** *** What a run depends on *)

(** The part of the loop state that reaches the result of a run. *)
Definition verdict (l : pre_loop) : bool * list intervention * nat :=
  (pl_allowed l, pl_interventions l, pl_blocked l).

Lemma filter_map_snd {H : Type} (m : registry H) :
  map snd (filter (fun kh => enabled (snd kh)) m)
  = filter (fun h => enabled h) (map snd m).
Proof.
  induction m as [|[k h] m IH]; cbn [filter map snd]; [reflexivity|].
  destruct (enabled h); cbn [map snd]; now rewrite IH.
Qed.

(** Two runs of the loop, under two clocks and from two loop states of the
    same verdict, one over a list of hooks and one over the enabled hooks
    of that list, end with the same verdict and the same error. *)
Lemma pre_loop_run_verdict (now1 now2 : nat -> Q) (strict : bool)
  (toolName : string) (params context : value)
  (hooks : list (hook pre_handler)) :
  forall l1 l2,
    verdict l1 = verdict l2 ->
    verdict (fst (pre_loop_run now1 strict toolName params context hooks l1))
    = verdict (fst (pre_loop_run now2 strict toolName params context
                      (filter (fun h => enabled h) hooks) l2)) /\
    snd (pre_loop_run now1 strict toolName params context hooks l1)
    = snd (pre_loop_run now2 strict toolName params context
             (filter (fun h => enabled h) hooks) l2).
Proof.
  induction hooks as [|h hooks IH]; intros l1 l2 V; cbn [filter pre_loop_run].
  - split; [exact V | reflexivity].
  - destruct (enabled h) eqn:E; cbn [negb pre_loop_run]; [rewrite E|];
      cbn [negb]; [|apply IH, V].
    unfold verdict in V. injection V as V1 V2 V3.
    destruct (handler h toolName params context) as [result|t].
    + destruct (truthy result && negb (truthy (get result "allowed"))).
      * destruct strict.
        -- cbn [fst snd]. unfold verdict. cbn. rewrite V2, V3. split; reflexivity.
        -- apply IH. unfold verdict. cbn. rewrite V2, V3. reflexivity.
      * apply IH. unfold verdict. cbn. rewrite V1, V2, V3. reflexivity.
    + cbn [fst snd]. unfold verdict. cbn. rewrite V1, V2, V3. split; reflexivity.
Qed.

Lemma filter_idempotent {A : Type} (p : A -> bool) (l : list A) :
  filter p (filter p l) = filter p l.
Proof.
  induction l as [|x l IH]; cbn [filter]; [reflexivity|].
  destruct (p x) eqn:E; cbn [filter]; rewrite ?E, IH; reflexivity.
Qed.

(** What a caller sees of a run: how the call settles, with the verdict
    and the interventions of the result, and the count of blocked calls. *)
Definition settled (r : outcome pre_results)
  : outcome (bool * list intervention) :=
  match r with
  | Returns results => Returns (allowed results, interventions results)
  | Raises e => Raises e
  end.

Definition seen (run : outcome pre_results * state)
  : outcome (bool * list intervention) * nat :=
  (settled (fst run), preToolUseBlocked (vmetrics (snd run))).

(** The same of the loop: a handler that threw [undefined] or [null] makes
    the call reject with a [TypeError]. *)
Definition loop_seen (lt : pre_loop * option thrown)
  : outcome (bool * list intervention) * nat :=
  (match snd lt with
   | Some ThrownNullish => Raises TypeError
   | _ => Returns (pl_allowed (fst lt), pl_interventions (fst lt))
   end,
   pl_blocked (fst lt)).

(** The result and the counter of a run, from the loop. *)
Lemma executePreToolUse_verdict (now : nat -> Q) (toolName : string)
  (params context : value) (st : state) :
  seen (executePreToolUse now toolName params context st)
  = loop_seen (pre_loop_run now (strictMode (opts st)) toolName params context
                 (_getSortedHooks (hooks_pre st)) (HookFacts.pre_start st)).
Proof.
  unfold executePreToolUse.
  change {| pl_hooks := hooks_pre st; pl_allowed := true; pl_interventions := [];
            pl_blocked := preToolUseBlocked (vmetrics st);
            pl_tick := S (tick st) |} with (HookFacts.pre_start st).
  destruct (pre_loop_run _ _ _ _ _ _ _) as [l [[e|]|]]; reflexivity.
Qed.

(** The instance without the hooks that are switched off. *)
Definition without_disabled (st : state) : state :=
  {| opts := opts st;
     hooks_pre := filter (fun kh => enabled (snd kh)) (hooks_pre st);
     hooks_post := hooks_post st;
     vmetrics := vmetrics st; events := events st; tick := tick st |}.

(** X12. A run depends on the enabled hooks alone, and not on the
    clock: under any two clocks, an instance and the instance without the
    hooks that are switched off settle alike, both resolving with the same
    verdict and the same interventions or both rejecting with the same
    error, and count the same number of blocked calls. *)
Theorem run_depends_on_enabled_hooks (now1 now2 : nat -> Q) (toolName : string)
  (params context : value) (st : state) :
  let run := executePreToolUse now1 toolName params context st in
  let run' := executePreToolUse now2 toolName params context (without_disabled st) in
  settled (fst run) = settled (fst run') /\
  preToolUseBlocked (vmetrics (snd run)) = preToolUseBlocked (vmetrics (snd run')).
Proof.
  cbv zeta.
  pose proof (executePreToolUse_verdict now1 toolName params context st) as R.
  pose proof (executePreToolUse_verdict now2 toolName params context
                (without_disabled st)) as R'.
  assert (E : loop_seen (pre_loop_run now1 (strictMode (opts st)) toolName
                           params context (_getSortedHooks (hooks_pre st))
                           (HookFacts.pre_start st))
              = loop_seen (pre_loop_run now2 (strictMode (opts (without_disabled st)))
                             toolName params context
                             (_getSortedHooks (hooks_pre (without_disabled st)))
                             (HookFacts.pre_start (without_disabled st)))).
  { cbn [without_disabled opts hooks_pre]. unfold _getSortedHooks.
    rewrite filter_map_snd, <- stable_sort_filter.
    set (sorted := stable_sort _ (map snd (hooks_pre st))).
    destruct (@pre_loop_run_verdict now1 now2 (strictMode (opts st)) toolName params
                context sorted (HookFacts.pre_start st)
                (HookFacts.pre_start st) eq_refl) as [V1 T1].
    destruct (@pre_loop_run_verdict now2 now2 (strictMode (opts st)) toolName params
                context (filter (fun h => enabled h) sorted)
                (HookFacts.pre_start (without_disabled st))
                (HookFacts.pre_start st) eq_refl) as [V2 T2].
    rewrite filter_idempotent in V2, T2.
    rewrite <- V2 in V1. rewrite <- T2 in T1.
    unfold verdict in V1. injection V1 as A1 A2 A3.
    unfold loop_seen. rewrite T1, A1, A2, A3. reflexivity. }
  rewrite <- R, <- R' in E. unfold seen in E. injection E as E1 E2.
  split; assumption.
Qed.

(** What the loop keeps true: the call is allowed as long as no
    intervention is recorded, each intervention is counted, and strict
    mode stops at the first. *)
Definition coherent (strict : bool) (blocked0 : nat) (l : pre_loop) : Prop :=
  (pl_allowed l = true <-> pl_interventions l = []) /\
  pl_blocked l = blocked0 + List.length (pl_interventions l) /\
  (strict = true -> List.length (pl_interventions l) <= 1).

Lemma pre_loop_run_coherent (now : nat -> Q) (strict : bool) (blocked0 : nat)
  (toolName : string) (params context : value)
  (hooks : list (hook pre_handler)) :
  forall l,
    coherent strict blocked0 l ->
    (strict = true -> pl_interventions l = []) ->
    coherent strict blocked0
      (fst (pre_loop_run now strict toolName params context hooks l)).
Proof.
  induction hooks as [|h hooks IH]; intros l C N; cbn [pre_loop_run];
    [exact C|].
  destruct (negb (enabled h)); [apply IH; assumption|].
  destruct C as (C1 & C2 & C3).
  destruct (handler h toolName params context) as [result|t];
    [|cbn [fst]; repeat split; cbn; try apply C1; assumption].
  destruct (truthy result && negb (truthy (get result "allowed"))).
  - assert (C' : coherent strict blocked0
                   {| pl_hooks := bump (id h)
                                    (now (S (pl_tick l)) - now (pl_tick l))%Q
                                    (pl_hooks l);
                      pl_allowed := false;
                      pl_interventions :=
                        (pl_interventions l ++
                         [ {| hookId := id h; reason := get result "reason";
                              iv_severity :=
                                or_default (get result "severity") (JStr "HIGH");
                              iv_suggestion := get result "suggestion" |} ])%list;
                      pl_blocked := S (pl_blocked l);
                      pl_tick := S (S (pl_tick l)) |}).
    { repeat split; cbn [pl_allowed pl_interventions pl_blocked].
      - discriminate.
      - intros X. destruct (pl_interventions l); discriminate X.
      - rewrite length_app. cbn [List.length]. lia.
      - intros S. rewrite (N S). cbn. lia. }
    destruct strict; [exact C'|].
    apply IH; [exact C' | discriminate].
  - apply IH; [|exact N]. repeat split; cbn; try apply C1; assumption.
Qed.

(** X13. The result of a run is coherent: the call is allowed exactly
    when no hook intervened, the count of blocked calls grows by the
    number of interventions, and in strict mode there is at most one.  A
    run that rejects, which it does with a [TypeError] alone, has counted
    the calls blocked until then, at most one in strict mode. *)
Theorem interventions_decide (now : nat -> Q) (toolName : string)
  (params context : value) (st : state) :
  let run := executePreToolUse now toolName params context st in
  let before := preToolUseBlocked (vmetrics st) in
  let after := preToolUseBlocked (vmetrics (snd run)) in
  match fst run with
  | Returns results =>
      (allowed results = true <-> interventions results = []) /\
      after = before + List.length (interventions results) /\
      (strictMode (opts st) = true -> List.length (interventions results) <= 1)
  | Raises e =>
      e = TypeError /\ before <= after /\
      (strictMode (opts st) = true -> after <= S before)
  end.
Proof.
  cbv zeta.
  pose proof (executePreToolUse_verdict now toolName params context st) as R.
  pose proof (@pre_loop_run_coherent now (strictMode (opts st))
                (preToolUseBlocked (vmetrics st)) toolName params context
                (_getSortedHooks (hooks_pre st)) (HookFacts.pre_start st)) as C.
  destruct C as (C1 & C2 & C3).
  - repeat split; cbn; lia.
  - reflexivity.
  - unfold seen, loop_seen in R.
    destruct (pre_loop_run _ _ _ _ _ _ _) as [l thrown]. cbn [fst snd] in *.
    destruct (executePreToolUse now toolName params context st) as [[results|e] st'].
    + cbn [fst snd settled] in *.
      destruct thrown as [[e|]|]; try discriminate R;
        injection R as R1 R2 R3; rewrite R1, R2, R3;
        repeat split; try apply C1; assumption.
    + cbn [fst snd settled] in *.
      destruct thrown as [[e'|]|]; try discriminate R.
      injection R as R1 R2. rewrite R1, R2, C2.
      split; [reflexivity|]. split; [lia|]. intros S. specialize (C3 S). lia.
Qed.

End RegistryFacts.

(** ** The hooks of the constructor *)

Module DefaultHookFacts.

Import PatternValidator ValidationHooks ValidatorFacts.
Open Scope nat_scope.

Section Defaults.

Variable ToString : value -> supplied string.
Variable now : nat -> Q.

Local Abbreviation new := (new ToString).
Local Abbreviation performance_validation := (performance_validation ToString).

Definition security_hook (strict : bool) : hook pre_handler :=
  new_hook "security-validation" (security_validation strict)
    (with_priority CRITICAL).

Definition performance_hook : hook pre_handler :=
  new_hook "performance-validation" performance_validation (with_priority HIGH).

Definition selected {A : Type} (b : bool) (x : A) : list A :=
  if b then [x] else [].

(** The registry of a fresh instance, and the order of a run over it: the
    performance hook, of priority [HIGH], goes first. *)
Lemma new_registry (o : ValidationHooks.options) (enabledHooks : list string) :
  hooks_pre (new o enabledHooks) =
    (selected (mem_string "security" enabledHooks)
       ("security-validation", security_hook (ValidationHooks.strictMode o))
     ++ selected (mem_string "performance" enabledHooks)
          ("performance-validation", performance_hook))%list /\
  _getSortedHooks (hooks_pre (new o enabledHooks)) =
    (selected (mem_string "performance" enabledHooks) performance_hook
     ++ selected (mem_string "security" enabledHooks)
          (security_hook (ValidationHooks.strictMode o)))%list /\
  opts (new o enabledHooks) = o /\
  preToolUseBlocked (vmetrics (new o enabledHooks)) = 0.
Proof.
  unfold ValidationHooks.new, _registerDefaultHooks.
  destruct (mem_string "security" enabledHooks),
    (mem_string "performance" enabledHooks),
    (mem_string "quality" enabledHooks); repeat split; reflexivity.
Qed.

Definition modifying (toolName : string) : bool :=
  mem_string toolName ["Write"; "Edit"; "Bash"].

Lemma security_validation_allows_reading (strict : bool) (toolName : string)
  (params context : value) :
  modifying toolName = false ->
  security_validation strict toolName params context = Gives allow /\
  performance_validation toolName params context = Gives allow.
Proof.
  unfold modifying, mem_string. cbn [existsb]. intros M.
  apply orb_false_iff in M as [M1 M]. apply orb_false_iff in M as [M2 M].
  unfold security_validation, ValidationHooks.performance_validation, mem_string.
  cbn [existsb]. rewrite M1, M2, M. split; reflexivity.
Qed.

Lemma security_validation_denies (strict : bool) (toolName : string)
  (params context : value) (c : ascii) (text : string) :
  modifying toolName = true ->
  ValidationHooks._extractCode params = JStr (String c text) ->
  hit security_rules (String c text) = true ->
  exists first,
    In first (security_findings (String c text)) /\
    security_validation strict toolName params context
    = Gives (deny (v_message first) "CRITICAL" (v_suggestion first)).
Proof.
  intros M E H. unfold security_validation. fold (modifying toolName).
  rewrite M, E. cbn [negb truthy String.eqb].
  destruct (@security_hit_is_critical (validator_options strict) c text 0%Q 0%Q
              eq_refl H) as (first & rest & F & I & P).
  rewrite P, F. cbn [negb]. exists first. split; [exact I | reflexivity].
Qed.

Lemma performance_validation_cases (toolName : string) (params context : value)
  (c : ascii) (text : string) :
  ValidationHooks._extractCode params = JStr (String c text) ->
  performance_validation toolName params context =
  if mem_string toolName ["Write"; "Edit"]
     && test false (Str "std::collections::HashMap") (String c text)
  then Gives (deny "HashMap causes 40% performance regression" "HIGH"
                   "Use rustc_hash::FxHashMap instead")
  else Gives allow.
Proof.
  intros E. unfold ValidationHooks.performance_validation. rewrite E.
  destruct (mem_string toolName ["Write"; "Edit"]); cbn [negb andb truthy String.eqb];
    [|reflexivity].
  destruct (test false _ _); reflexivity.
Qed.

(** The intervention recorded for a veto of a default hook. *)
Definition default_intervention (i reason severity suggestion : string)
  : intervention :=
  {| hookId := i; reason := JStr reason; iv_severity := JStr severity;
     iv_suggestion := JStr suggestion |}.

Definition hashmap_intervention : intervention :=
  default_intervention "performance-validation"
    "HashMap causes 40% performance regression" "HIGH"
    "Use rustc_hash::FxHashMap instead".

(** One round of the loop, on an enabled hook whose handler returned. *)
Lemma pre_loop_run_step (strict : bool) (toolName : string)
  (params context : value) (h : hook pre_handler)
  (rest : list (hook pre_handler)) (l : pre_loop) (result : value) :
  enabled h = true ->
  handler h toolName params context = Gives result ->
  pre_loop_run now strict toolName params context (h :: rest) l =
  let hooks' := bump (id h) (now (S (pl_tick l)) - now (pl_tick l))%Q (pl_hooks l) in
  if truthy result && negb (truthy (get result "allowed"))
  then
    let l' :=
      {| pl_hooks := hooks'; pl_allowed := false;
         pl_interventions :=
           (pl_interventions l ++
            [ {| hookId := id h; reason := get result "reason";
                 iv_severity := or_default (get result "severity") (JStr "HIGH");
                 iv_suggestion := get result "suggestion" |} ])%list;
         pl_blocked := S (pl_blocked l); pl_tick := S (S (pl_tick l)) |} in
    if strict then (l', None)
    else pre_loop_run now strict toolName params context rest l'
  else
    pre_loop_run now strict toolName params context rest
      {| pl_hooks := hooks'; pl_allowed := pl_allowed l;
         pl_interventions := pl_interventions l;
         pl_blocked := pl_blocked l; pl_tick := S (S (pl_tick l)) |}.
Proof. intros E R. cbn [pre_loop_run]. rewrite E, R. reflexivity. Qed.

(** A run whose loop ends without a throw resolves, to what the loop
    found. *)
Lemma executePreToolUse_results (toolName : string) (params context : value)
  (st : state) :
  let run := pre_loop_run now (ValidationHooks.strictMode (opts st)) toolName
               params context (_getSortedHooks (hooks_pre st))
               (HookFacts.pre_start st) in
  snd run = None ->
  exists r,
    fst (executePreToolUse now toolName params context st) = Returns r /\
    allowed r = pl_allowed (fst run) /\
    interventions r = pl_interventions (fst run).
Proof.
  cbv zeta. unfold executePreToolUse.
  change {| pl_hooks := hooks_pre st; pl_allowed := true; pl_interventions := [];
            pl_blocked := preToolUseBlocked (vmetrics st);
            pl_tick := S (tick st) |} with (HookFacts.pre_start st).
  destruct (pre_loop_run _ _ _ _ _ _ _) as [l thrown]. cbn [fst snd].
  intros ->. eexists. split; [reflexivity|]. split; reflexivity.
Qed.

(** X14. A fresh instance with the security hook denies every call of a
    modifying tool whose code a security rule matches: the run resolves,
    with [allowed] false; outside strict mode the intervention of the
    security hook is among those recorded, with the message of a security
    violation as its reason. *)
Theorem default_hooks_block_critical_code (o : ValidationHooks.options)
  (enabledHooks : list string) (toolName : string) (params context : value)
  (c : ascii) (text : string) :
  mem_string "security" enabledHooks = true ->
  modifying toolName = true ->
  ValidationHooks._extractCode params = JStr (String c text) ->
  hit security_rules (String c text) = true ->
  exists r,
    fst (executePreToolUse now toolName params context (new o enabledHooks))
    = Returns r /\
    allowed r = false /\
    (ValidationHooks.strictMode o = false ->
     exists first,
       In first (security_findings (String c text)) /\
       In (default_intervention "security-validation" (v_message first)
             "CRITICAL" (v_suggestion first))
          (interventions r)).
Proof.
  intros Sel M E H.
  pose proof (executePreToolUse_results toolName params context
                (new o enabledHooks)) as Res.
  cbv zeta in Res.
  enough (G : snd (pre_loop_run now
                     (ValidationHooks.strictMode (opts (new o enabledHooks)))
                     toolName params context
                     (_getSortedHooks (hooks_pre (new o enabledHooks)))
                     (HookFacts.pre_start (new o enabledHooks))) = None /\
              pl_allowed (fst (pre_loop_run now
                     (ValidationHooks.strictMode (opts (new o enabledHooks)))
                     toolName params context
                     (_getSortedHooks (hooks_pre (new o enabledHooks)))
                     (HookFacts.pre_start (new o enabledHooks)))) = false /\
              (ValidationHooks.strictMode o = false ->
               exists first,
                 In first (security_findings (String c text)) /\
                 In (default_intervention "security-validation" (v_message first)
                       "CRITICAL" (v_suggestion first))
                    (pl_interventions (fst (pre_loop_run now
                     (ValidationHooks.strictMode (opts (new o enabledHooks)))
                     toolName params context
                     (_getSortedHooks (hooks_pre (new o enabledHooks)))
                     (HookFacts.pre_start (new o enabledHooks))))))).
  { destruct G as (N & A & I). destruct (Res N) as (r & R & Ra & Ri).
    exists r. rewrite Ra, Ri. split; [exact R|]. split; [exact A | exact I]. }
  clear Res.
  destruct (new_registry o enabledHooks) as (_ & Sorted & O & _).
  rewrite Sorted, O, Sel. clear Sorted.
  destruct (@security_validation_denies (ValidationHooks.strictMode o) toolName
              params context c text M E H) as (first & F & D).
  pose proof (@performance_validation_cases toolName params context c text E) as P.
  assert (Sec : forall l,
            pre_loop_run now (ValidationHooks.strictMode o) toolName params context
              [security_hook (ValidationHooks.strictMode o)] l
            = (fst (pre_loop_run now (ValidationHooks.strictMode o) toolName
                      params context
                      [security_hook (ValidationHooks.strictMode o)] l), None) /\
            pl_allowed (fst (pre_loop_run now (ValidationHooks.strictMode o)
                               toolName params context
                               [security_hook (ValidationHooks.strictMode o)] l))
            = false /\
            In (default_intervention "security-validation" (v_message first)
                  "CRITICAL" (v_suggestion first))
               (pl_interventions
                  (fst (pre_loop_run now (ValidationHooks.strictMode o) toolName
                          params context
                          [security_hook (ValidationHooks.strictMode o)] l)))).
  { intros l.
    rewrite (@pre_loop_run_step (ValidationHooks.strictMode o) toolName params
               context (security_hook (ValidationHooks.strictMode o)) [] l
               _ eq_refl D).
    cbv zeta. cbn [deny truthy get assoc String.eqb Ascii.eqb Bool.eqb negb andb].
    destruct (ValidationHooks.strictMode o); cbn [pre_loop_run fst pl_allowed
      pl_interventions]; (split; [reflexivity|]); (split; [reflexivity|]);
      apply in_or_app; right; left; reflexivity. }
  assert (Done : forall l,
            snd (pre_loop_run now (ValidationHooks.strictMode o)
                   toolName params context
                   [security_hook (ValidationHooks.strictMode o)] l) = None /\
            pl_allowed (fst (pre_loop_run now (ValidationHooks.strictMode o)
                               toolName params context
                               [security_hook (ValidationHooks.strictMode o)] l))
            = false /\
            (ValidationHooks.strictMode o = false ->
             exists first0,
               In first0 (security_findings (String c text)) /\
               In (default_intervention "security-validation" (v_message first0)
                     "CRITICAL" (v_suggestion first0))
                  (pl_interventions
                     (fst (pre_loop_run now (ValidationHooks.strictMode o)
                             toolName params context
                             [security_hook (ValidationHooks.strictMode o)] l))))).
  { intros l. destruct (Sec l) as (N & A & I).
    split; [rewrite N; reflexivity|].
    split; [exact A|]. intros _. exists first. split; [exact F | exact I]. }
  destruct (mem_string "performance" enabledHooks); cbn [selected app];
    [|apply Done].
  destruct (mem_string toolName ["Write"; "Edit"]
            && test false (Str "std::collections::HashMap") (String c text));
    rewrite (@pre_loop_run_step (ValidationHooks.strictMode o) toolName params
               context performance_hook
               [security_hook (ValidationHooks.strictMode o)]
               (HookFacts.pre_start (new o enabledHooks)) _ eq_refl P);
    cbv zeta.
  - cbn [deny truthy get assoc String.eqb Ascii.eqb Bool.eqb negb andb].
    destruct (ValidationHooks.strictMode o) eqn:Strict; [|apply Done].
    cbn [fst snd pl_allowed].
    split; [reflexivity|]. split; [reflexivity | discriminate].
  - cbn [allow truthy get assoc String.eqb Ascii.eqb Bool.eqb negb andb].
    apply Done.
Qed.

(** X15. The default hooks leave the tools that modify nothing alone:
    whatever its parameters, a call of a tool other than [Write], [Edit]
    and [Bash] is allowed by a fresh instance, without intervention. *)
Theorem default_hooks_allow_reading (o : ValidationHooks.options)
  (enabledHooks : list string) (toolName : string) (params context : value) :
  modifying toolName = false ->
  exists r,
    fst (executePreToolUse now toolName params context (new o enabledHooks))
    = Returns r /\
    allowed r = true /\ interventions r = [].
Proof.
  intros M.
  pose proof (executePreToolUse_results toolName params context
                (new o enabledHooks)) as Res.
  cbv zeta in Res.
  enough (G : pre_loop_run now
                (ValidationHooks.strictMode (opts (new o enabledHooks)))
                toolName params context
                (_getSortedHooks (hooks_pre (new o enabledHooks)))
                (HookFacts.pre_start (new o enabledHooks))
              = (fst (pre_loop_run now
                (ValidationHooks.strictMode (opts (new o enabledHooks)))
                toolName params context
                (_getSortedHooks (hooks_pre (new o enabledHooks)))
                (HookFacts.pre_start (new o enabledHooks))), None) /\
              pl_allowed (fst (pre_loop_run now
                (ValidationHooks.strictMode (opts (new o enabledHooks)))
                toolName params context
                (_getSortedHooks (hooks_pre (new o enabledHooks)))
                (HookFacts.pre_start (new o enabledHooks)))) = true /\
              pl_interventions (fst (pre_loop_run now
                (ValidationHooks.strictMode (opts (new o enabledHooks)))
                toolName params context
                (_getSortedHooks (hooks_pre (new o enabledHooks)))
                (HookFacts.pre_start (new o enabledHooks)))) = []).
  { destruct G as (N & A & I).
    destruct Res as (r & R & Ra & Ri); [rewrite N; reflexivity|].
    exists r. rewrite Ra, Ri. split; [exact R|]. split; [exact A | exact I]. }
  clear Res.
  destruct (new_registry o enabledHooks) as (_ & Sorted & O & _).
  rewrite Sorted, O. clear Sorted.
  destruct (@security_validation_allows_reading (ValidationHooks.strictMode o)
              toolName params context M) as [Sv Pv].
  assert (Step : forall (h : hook pre_handler) rest l,
            enabled h = true ->
            handler h toolName params context = Gives allow ->
            pre_loop_run now (ValidationHooks.strictMode o) toolName params
              context (h :: rest) l
            = pre_loop_run now (ValidationHooks.strictMode o) toolName params
                context rest
                {| pl_hooks := bump (id h) (now (S (pl_tick l)) - now (pl_tick l))%Q
                                 (pl_hooks l);
                   pl_allowed := pl_allowed l;
                   pl_interventions := pl_interventions l;
                   pl_blocked := pl_blocked l; pl_tick := S (S (pl_tick l)) |}).
  { intros h rest l E R.
    rewrite (@pre_loop_run_step (ValidationHooks.strictMode o) toolName params
               context h rest l allow E R).
    reflexivity. }
  destruct (mem_string "performance" enabledHooks),
    (mem_string "security" enabledHooks); cbn [selected app];
    rewrite ?(Step performance_hook _ _ eq_refl Pv),
            ?(Step (security_hook (ValidationHooks.strictMode o)) _ _ eq_refl Sv);
    repeat split; reflexivity.
Qed.

(** X16. In strict mode the performance hook speaks first and last: a
    [Write] or an [Edit] of code that names [std::collections::HashMap] is
    denied with that one intervention of severity [HIGH], whatever else the
    code holds; a secret in it goes unreported. *)
Theorem strict_mode_reports_hashmap_only (o : ValidationHooks.options)
  (enabledHooks : list string) (toolName : string) (params context : value)
  (c : ascii) (text : string) :
  ValidationHooks.strictMode o = true ->
  mem_string "performance" enabledHooks = true ->
  mem_string toolName ["Write"; "Edit"] = true ->
  ValidationHooks._extractCode params = JStr (String c text) ->
  test false (Str "std::collections::HashMap") (String c text) = true ->
  exists r,
    fst (executePreToolUse now toolName params context (new o enabledHooks))
    = Returns r /\
    allowed r = false /\ interventions r = [hashmap_intervention].
Proof.
  intros Strict P M E T.
  pose proof (executePreToolUse_results toolName params context
                (new o enabledHooks)) as Res.
  cbv zeta in Res.
  destruct (new_registry o enabledHooks) as (_ & Sorted & O & _).
  rewrite Sorted, O, P, Strict in Res. clear Sorted. cbn [selected app] in Res.
  pose proof (@performance_validation_cases toolName params context c text E) as R.
  rewrite M, T in R. cbn [andb] in R.
  rewrite (@pre_loop_run_step true toolName params context performance_hook
             _ _ _ eq_refl R) in Res.
  destruct (Res eq_refl) as (r & Rr & Ra & Ri).
  exists r. split; [exact Rr|]. rewrite Ra, Ri. split; reflexivity.
Qed.

End Defaults.

(** *** The theorems at concrete calls *)

(** A conversion for the examples, whose code is a string each time. *)
Definition never_converted (v : value) : supplied string := Gives "".

Definition strict_options : ValidationHooks.options :=
  {| preToolUseThreshold := 1.0; postToolUseThreshold := 5.0;
     ValidationHooks.strictMode := true |}.

(** A file that holds a password and uses the standard hash map. *)
Definition leaky_rust : string :=
  "use std::collections::HashMap; let password = " ++ DQ ++ "hunter22" ++ DQ.

Definition write_of (content : string) : value := JObj [("content", JStr content)].

Lemma default_hooks_block_critical_code_witness :
  exists r,
    fst (executePreToolUse HookFacts.instant "Write"
           (write_of SecretFacts.long_password) (JObj [])
           (ValidationHooks.new never_converted ValidationHooks.default_options
              default_hooks)) = Returns r /\
    allowed r = false.
Proof.
  edestruct (@default_hooks_block_critical_code never_converted HookFacts.instant
               ValidationHooks.default_options default_hooks "Write"
               (write_of SecretFacts.long_password) (JObj [])
               "p" _ eq_refl eq_refl eq_refl)
    as (r & R & A & _).
  - vm_compute. reflexivity.
  - exists r. split; [exact R | exact A].
Defined.

Lemma default_hooks_allow_reading_witness :
  exists r,
    fst (executePreToolUse HookFacts.instant "Read"
           (write_of SecretFacts.long_password) (JObj [])
           (ValidationHooks.new never_converted ValidationHooks.default_options
              default_hooks)) = Returns r /\
    allowed r = true.
Proof.
  destruct (@default_hooks_allow_reading never_converted HookFacts.instant
              ValidationHooks.default_options default_hooks "Read"
              (write_of SecretFacts.long_password) (JObj []) eq_refl)
    as (r & R & A & _).
  exists r. split; [exact R | exact A].
Defined.

Lemma strict_mode_reports_hashmap_only_witness :
  hit security_rules leaky_rust = true /\
  exists r,
    fst (executePreToolUse HookFacts.instant "Write"
           (write_of leaky_rust) (JObj [])
           (ValidationHooks.new never_converted strict_options default_hooks))
    = Returns r /\
    interventions r = [hashmap_intervention].
Proof.
  split; [vm_compute; reflexivity|].
  edestruct (@strict_mode_reports_hashmap_only never_converted HookFacts.instant
               strict_options default_hooks "Write" (write_of leaky_rust)
               (JObj []) "u" _ eq_refl eq_refl eq_refl eq_refl)
    as (r & R & _ & I).
  - vm_compute. reflexivity.
  - exists r. split; [exact R | exact I].
Defined.

End DefaultHookFacts.

(** ** The course of a workflow *)

Module WorkflowFacts.

Import SPARCIntegration PhaseFacts.
Open Scope Q_scope.

(** The five phases in their order. *)
Definition sequence : list string := map fst phases.

(** A workflow is in order when the phases it has completed are the first
    [n] of the sequence and its current phase is the next one, none after
    the fifth. *)
Definition in_order (w : workflow) : Prop :=
  exists n, (n <= 5)%nat /\
            completedPhases w = firstn n sequence /\
            currentPhase w = nth_error sequence n.

Definition orderly (st : state) : Prop :=
  (forall w, currentWorkflow st = Some w -> in_order w) /\
  Forall in_order (workflowHistory st).

Lemma advance_in_order (phase : string) (r : phase_result) (cw : option workflow) :
  (forall w, cw = Some w -> in_order w) ->
  forall w', advance phase r (_getNextPhase phase) cw = Some w' -> in_order w'.
Proof.
  intros H w'. destruct cw as [w|]; [|discriminate].
  specialize (H w eq_refl). cbn [advance].
  destruct (currentPhase w) as [cur|] eqn:C; [|intros [= <-]; exact H].
  destruct (String.eqb cur phase) eqn:E; [|intros [= <-]; exact H].
  apply String.eqb_eq in E. subst cur. intros [= <-].
  destruct H as (n & Hn & Hc & Hp). rewrite C in Hp.
  exists (S n). cbn [completedPhases currentPhase]. rewrite Hc.
  do 6 (destruct n as [|n]; [cbn in Hp; try discriminate Hp; injection Hp as ->;
                             repeat split; try reflexivity; lia|]).
  lia.
Qed.

Section Runtime.

Variable ToNumber : value -> option Q.
Variable ToString : value -> string.

Local Abbreviation validatePhase := (validatePhase ToNumber ToString).

(** What a call of [validatePhase] can do to the state. *)
Lemma validatePhase_state (phase : string) (outputs : value)
  (v : option validator) (st : state) :
  workflowHistory (snd (validatePhase phase outputs v st)) = workflowHistory st /\
  opts (snd (validatePhase phase outputs v st)) = opts st /\
  (currentWorkflow (snd (validatePhase phase outputs v st)) = currentWorkflow st
   \/ exists r,
        currentWorkflow (snd (validatePhase phase outputs v st))
        = advance phase r (_getNextPhase phase) (currentWorkflow st)).
Proof.
  unfold SPARCIntegration.validatePhase.
  destruct (assoc phase phases) as [cfg|].
  2:{ destruct (mem_string phase Object_prototype_keys); cbn; auto. }
  destruct (check_required (requiredOutputs cfg) outputs [] 1) as [i0 s0].
  destruct (_validatePhaseSpecific ToNumber ToString phase outputs) as [sp d].
  set (validated := match v with Some _ => _ | None => _ end).
  destruct outputs; try (cbn; auto; fail);
    (destruct validated as [[i1 s1]|e]; [|cbn; auto]);
    (destruct (Qle_bool (qualityGate cfg) (Qmax 0 (s1 - d)));
     cbn; repeat split; eauto).
Qed.

(** The calls of the interface that change the state. *)
Inductive op : Type :=
| Start (taskDescription : string) (o : value) (now : nat)
| Validate (phase : string) (outputs : value) (v : option validator)
| Complete (now : nat).

Definition step (st : state) (c : op) : state :=
  match c with
  | Start t o now => startWorkflow t o now st
  | Validate phase outputs v => snd (validatePhase phase outputs v st)
  | Complete now => snd (completeWorkflow now st)
  end.

Lemma step_orderly (st : state) (c : op) : orderly st -> orderly (step st c).
Proof.
  intros [Hc Hh]. destruct c as [t o now|phase outputs v|now]; cbn [step].
  - split; [|exact Hh]. cbn. intros w [= <-]. exists 0%nat.
    split; [lia | split; reflexivity].
  - destruct (validatePhase_state phase outputs v st) as (E1 & _ & E2).
    split; [|rewrite E1; exact Hh].
    destruct E2 as [E2|[r E2]]; rewrite E2; [exact Hc|].
    apply advance_in_order, Hc.
  - unfold completeWorkflow.
    destruct (currentWorkflow st) as [w|] eqn:C; cbn [snd].
    + split; [discriminate|]. cbn [workflowHistory].
      apply Forall_app. split; [exact Hh|]. repeat constructor. apply Hc, eq_refl.
    + split; [|exact Hh]. intros w X. rewrite C in X. discriminate X.
Qed.

Lemma steps_orderly (ops : list op) (st : state) :
  orderly st -> orderly (fold_left step ops st).
Proof.
  revert st. induction ops as [|c ops IH]; intros st O; cbn [fold_left];
    [exact O | apply IH, step_orderly, O].
Qed.

Lemma final_status_in_order (w : workflow) :
  in_order w ->
  (_calculateFinalStatus w = "completed" <-> currentPhase w = None) /\
  (_calculateFinalStatus w = "completed" <-> completedPhases w = sequence).
Proof.
  intros (n & Hn & Hc & Hp). unfold _calculateFinalStatus. rewrite Hc, Hp.
  do 6 (destruct n as [|n];
        [cbn; repeat split; intros; try reflexivity; discriminate|]).
  lia.
Qed.

(** X17. Whatever calls are made on an instance, in whatever order, its
    workflows stay in order: the completed phases of the active workflow
    and of every archived one are an initial part of the five phases, in
    their sequence, and the current phase is the one that follows, none
    after the fifth.  Hence [completeWorkflow] reports the final status
    [completed] exactly when all five phases were passed. *)
Theorem workflows_stay_in_order (o : options) (ops : list op) :
  let st := fold_left step ops (new o) in
  Forall in_order (workflowHistory st) /\
  (forall w, currentWorkflow st = Some w ->
             in_order w /\ NoDup (completedPhases w)) /\
  (forall now c,
     fst (completeWorkflow now st) = Completed c ->
     (c_finalStatus c = "completed" <-> c_completedPhases c = sequence)).
Proof.
  cbv zeta.
  assert (O : orderly (fold_left step ops (new o))).
  { apply steps_orderly. split; [discriminate | constructor]. }
  destruct O as [Hc Hh]. split; [exact Hh|]. split.
  - intros w C. split; [apply Hc, C|].
    destruct (Hc w C) as (n & Hn & E & _). rewrite E.
    do 6 (destruct n as [|n];
          [cbn; repeat constructor; cbn; intuition discriminate|]).
    lia.
  - intros now c. unfold completeWorkflow.
    destruct (currentWorkflow _) as [w|] eqn:C; [|discriminate].
    cbn [fst]. intros [= <-]. cbn [c_finalStatus c_completedPhases].
    apply final_status_in_order, Hc, eq_refl.
Qed.

(** *** Outputs that are missing *)

Definition missing_output (required : string) : issue :=
  {| i_type := Some "missing_output"; i_severity := Some "HIGH";
     i_message := Some ("Missing required output: " ++ required)%string |}.

Lemma check_required_grows (required : list string) (outputs : value) :
  forall issues score,
    snd (check_required required outputs issues score) <= score /\
    (forall i, In i issues ->
               In i (fst (check_required required outputs issues score))).
Proof.
  induction required as [|r required IH]; intros issues score; cbn [check_required].
  - split; [apply Qle_refl | auto].
  - destruct (negb (truthy (get outputs r))).
    + destruct (IH (issues ++ [missing_output r])%list (score - 0.2)) as [L I].
      split.
      * eapply Qle_trans; [exact L|]. unfold Qle. cbn. lia.
      * intros i Hi. apply I, in_or_app. left. exact Hi.
    + apply IH.
Qed.

Lemma check_required_missing (required : list string) (outputs : value)
  (missing : string) :
  In missing required -> truthy (get outputs missing) = false ->
  forall issues score,
    snd (check_required required outputs issues score) <= score - 0.2 /\
    In (missing_output missing)
       (fst (check_required required outputs issues score)).
Proof.
  intros I T. induction required as [|r required IH]; [destruct I|].
  intros issues score. cbn [check_required].
  destruct I as [->|I].
  - rewrite T. cbn [negb].
    destruct (check_required_grows required outputs
                (issues ++ [missing_output missing])%list (score - 0.2)) as [L K].
    split; [exact L|]. apply K, in_or_app. right. left. reflexivity.
  - destruct (negb (truthy (get outputs r))).
    + destruct (IH I (issues ++ [missing_output r])%list (score - 0.2)) as [L K].
      split; [|exact K].
      eapply Qle_trans; [exact L|]. unfold Qle. cbn. lia.
    + apply IH, I.
Qed.

Lemma deduction_not_negative (phase : string) (outputs : value) :
  0 <= snd (_validatePhaseSpecific ToNumber ToString phase outputs).
Proof.
  unfold _validatePhaseSpecific.
  repeat match goal with
         | |- context [if ?b then _ else _] => destruct b
         end; cbn [snd]; unfold Qle; cbn; lia.
Qed.

Lemma gate_at_least_0_85 (phase : string) (cfg : phase_config) :
  assoc phase phases = Some cfg -> 0.85 <= qualityGate cfg.
Proof.
  intros H. apply assoc_In in H. cbn in H.
  repeat (destruct H as [[= <- <-]|H]; [unfold Qle; cbn; lia|]).
  destruct H.
Qed.

(** X18. A phase with a required output missing does not pass, whatever
    else the outputs hold and whatever the custom validator answers: the
    result, if the call resolves to one, has failed, lists the missing
    output as an issue of severity [HIGH], and the workflow stays where it
    is. *)
Theorem missing_output_fails (phase : string) (cfg : phase_config)
  (outputs : value) (v : option validator) (st : state) (missing : string) :
  assoc phase phases = Some cfg ->
  In missing (requiredOutputs cfg) ->
  truthy (get outputs missing) = false ->
  currentWorkflow (snd (validatePhase phase outputs v st)) = currentWorkflow st /\
  match fst (validatePhase phase outputs v st) with
  | Returns (Validated r) =>
      r_passed r = false /\ In (missing_output missing) (r_issues r) /\
      r_nextPhase r = None
  | Returns (UnknownPhase _) => False
  | Raises _ => True
  end.
Proof.
  intros A Hin T. unfold SPARCIntegration.validatePhase. rewrite A.
  pose proof (@check_required_missing (requiredOutputs cfg) outputs missing Hin T [] 1)
    as [L K].
  destruct (check_required (requiredOutputs cfg) outputs [] 1) as [i0 s0].
  cbn [fst snd] in L, K.
  pose proof (deduction_not_negative phase outputs) as D.
  destruct (_validatePhaseSpecific ToNumber ToString phase outputs) as [sp d].
  cbn [snd] in D.
  pose proof (@gate_at_least_0_85 phase cfg A) as G.
  set (validated := match v with Some _ => _ | None => _ end).
  assert (V : match validated with
              | Returns (i1, s1) => s1 <= 0.8 /\ In (missing_output missing) i1
              | Raises _ => True
              end).
  { subst validated.
    assert (Base : s0 <= 0.8 /\ In (missing_output missing) i0).
    { split; [|exact K]. eapply Qle_trans; [exact L|]. unfold Qle. cbn. lia. }
    destruct v as [f|]; [|exact Base].
    destruct (enableValidation (opts st)); [|exact Base].
    destruct (f outputs) as [[[vi|]|]|e]; try exact Logic.I; try exact Base.
    split; [|apply in_or_app; left; exact K].
    destruct Base as [B _]. eapply Qle_trans; [|exact B].
    unfold Qnat. generalize (Z.of_nat (List.length vi)) (Nat2Z.is_nonneg (List.length vi)).
    intros z Hz. unfold Qle. cbn [Qnum Qden Qminus Qplus Qopp Qmult inject_Z].
    nia. }
  destruct outputs; try (cbn; auto; fail);
    (destruct validated as [[i1 s1]|e]; [|cbn; auto]);
    destruct V as [V1 V2];
    (assert (F : Qle_bool (qualityGate cfg) (Qmax 0 (s1 - d)) = false);
     [ apply Qle_bool_false; unfold Qmax;
       destruct (Qle_bool 0 (s1 - d));
       [ eapply Qle_lt_trans;
         [ apply (Qplus_le_compat _ _ _ _ V1 (Qopp_le_compat _ _ D))
         | eapply Qlt_le_trans; [|exact G]; reflexivity ]
       | eapply Qlt_le_trans; [|exact G]; reflexivity ]
     | rewrite F; cbn; repeat split; try reflexivity;
       apply in_or_app; left; exact V2 ]).
Qed.

End Runtime.

(** The specification phase without its success criteria, as above. *)
Lemma missing_output_fails_witness :
  match fst (validatePhase no_number no_text "specification"
               incomplete_specification None started) with
  | Returns (Validated r) =>
      r_passed r = false /\
      In (missing_output "success_criteria") (r_issues r)
  | _ => False
  end.
Proof.
  pose proof (@missing_output_fails no_number no_text "specification"
                {| name := "Specification";
                   requiredOutputs := ["requirements"; "constraints";
                                       "success_criteria"];
                   qualityGate := 0.85 |}
                incomplete_specification None started "success_criteria"
                eq_refl (or_intror (or_intror (or_introl eq_refl))) eq_refl)
    as [_ H].
  destruct (fst (validatePhase no_number no_text "specification"
                   incomplete_specification None started)) as [[err|r]|e] eqn:E.
  - exact H.
  - destruct H as (P & I & _). split; assumption.
  - vm_compute in E. discriminate E.
Defined.

End WorkflowFacts.

(** ** A workflow carried through *)

Module CompletionFacts.

Import SPARCIntegration PhaseFacts WorkflowFacts.
Open Scope Q_scope.

Section Runtime.

Variable ToNumber : value -> option Q.
Variable ToString : value -> string.

Local Abbreviation validatePhase := (validatePhase ToNumber ToString).
Local Abbreviation step := (step ToNumber ToString).

(** Outputs that leave nothing to object to: every required output is
    there, and the check of the phase itself raises no issue. *)
Definition complete (phase : string) (outputs : value) : bool :=
  match assoc phase phases with
  | Some cfg =>
      forallb (fun r => truthy (get outputs r)) (requiredOutputs cfg)
      && match fst (_validatePhaseSpecific ToNumber ToString phase outputs) with
         | [] => true
         | _ :: _ => false
         end
  | None => false
  end.

Lemma check_required_all (required : list string) (outputs : value)
  (issues : list issue) (score : Q) :
  forallb (fun r => truthy (get outputs r)) required = true ->
  check_required required outputs issues score = (issues, score).
Proof.
  induction required as [|r required IH]; cbn [forallb check_required];
    [reflexivity|].
  intros H. apply andb_true_iff in H as [H1 H2]. rewrite H1. cbn [negb].
  apply IH, H2.
Qed.

Lemma no_specific_issue (phase : string) (outputs : value) :
  fst (_validatePhaseSpecific ToNumber ToString phase outputs) = [] ->
  _validatePhaseSpecific ToNumber ToString phase outputs = ([], 0).
Proof.
  unfold _validatePhaseSpecific.
  repeat match goal with
         | |- context [if ?b then _ else _] => destruct b
         end; cbn [fst]; intros E; try discriminate E; reflexivity.
Qed.

Lemma complete_is_object (phase : string) (outputs : value) :
  complete phase outputs = true -> exists props, outputs = JObj props.
Proof.
  unfold complete. destruct (assoc phase phases) as [cfg|] eqn:A; [|discriminate].
  intros H. apply andb_true_iff in H as [H _].
  assert (N : exists r rest, requiredOutputs cfg = r :: rest).
  { apply assoc_In in A. cbn in A.
    repeat (destruct A as [[= <- <-]|A]; [cbn; eauto|]). destruct A. }
  destruct N as (r & rest & N). rewrite N in H. cbn [forallb] in H.
  apply andb_true_iff in H as [H _].
  destruct outputs; try discriminate H. eauto.
Qed.

Lemma full_score_passes (phase : string) (cfg : phase_config) :
  assoc phase phases = Some cfg ->
  Qle_bool (qualityGate cfg) (Qmax 0 (1 - 0)) = true.
Proof.
  intros A. apply assoc_In in A. cbn in A.
  repeat (destruct A as [[= <- <-]|A]; [reflexivity|]). destruct A.
Qed.

Definition passed_result (phase : string) (cfg : phase_config) : phase_result :=
  {| r_phase := phase; r_passed := true;
     r_score := round3 (Qmax 0 (1 - 0));
     r_qualityGate := qualityGate cfg;
     r_issues := [];
     r_nextPhase := Some (_getNextPhase phase);
     r_nextSteps := Some (option_map _getPhaseGuidance (_getNextPhase phase));
     r_remediation := None |}.

Lemma complete_passes (phase : string) (cfg : phase_config) (outputs : value)
  (st : state) :
  assoc phase phases = Some cfg ->
  complete phase outputs = true ->
  validatePhase phase outputs None st =
  (Returns (Validated (passed_result phase cfg)),
   emit (phaseCompleted phase (passed_result phase cfg))
     {| opts := opts st;
        currentWorkflow := advance phase (passed_result phase cfg)
                             (_getNextPhase phase) (currentWorkflow st);
        workflowHistory := workflowHistory st; events := events st |}).
Proof.
  intros A C. destruct (@complete_is_object phase outputs C) as [props ->].
  unfold complete in C. rewrite A in C. apply andb_true_iff in C as [C1 C2].
  unfold SPARCIntegration.validatePhase. rewrite A.
  rewrite (@check_required_all (requiredOutputs cfg) (JObj props) [] 1 C1).
  rewrite (no_specific_issue phase (JObj props))
    by (destruct (fst (_validatePhaseSpecific _ _ _ _)); [reflexivity | discriminate]).
  cbn [app]. rewrite (@full_score_passes phase cfg A). reflexivity.
Qed.

(** X19. A phase whose outputs are complete passes with the full score:
    without a custom validator the call resolves to a result that has
    passed, scores 1, lists no issue and names the next phase; and the
    workflow whose current phase it is moves on to that phase. *)
Theorem complete_outputs_pass (phase : string) (outputs : value) (st : state)
  (w : workflow) :
  complete phase outputs = true ->
  currentWorkflow st = Some w ->
  currentPhase w = Some phase ->
  exists r w',
    fst (validatePhase phase outputs None st) = Returns (Validated r) /\
    r_passed r = true /\ r_score r == 1 /\ r_issues r = [] /\
    r_nextPhase r = Some (_getNextPhase phase) /\
    currentWorkflow (snd (validatePhase phase outputs None st)) = Some w' /\
    currentPhase w' = _getNextPhase phase /\
    completedPhases w' = (completedPhases w ++ [phase])%list /\
    task w' = task w /\ wf_id w' = wf_id w.
Proof.
  intros C W P.
  assert (A : exists cfg, assoc phase phases = Some cfg).
  { unfold complete in C. destruct (assoc phase phases) as [cfg|]; [eauto|discriminate]. }
  destruct A as [cfg A].
  rewrite (@complete_passes phase cfg outputs st A C). cbn [fst snd emit currentWorkflow].
  rewrite W. cbn [advance]. rewrite P, String.eqb_refl.
  eexists. eexists. repeat split; reflexivity.
Qed.

Lemma passing_step (phase : string) (outputs : value) (st : state)
  (w : workflow) :
  complete phase outputs = true ->
  currentWorkflow st = Some w ->
  currentPhase w = Some phase ->
  exists w',
    currentWorkflow (step st (Validate phase outputs None)) = Some w' /\
    currentPhase w' = _getNextPhase phase /\
    completedPhases w' = (completedPhases w ++ [phase])%list /\
    task w' = task w /\ wf_id w' = wf_id w /\ startTime w' = startTime w /\
    workflowHistory (step st (Validate phase outputs None)) = workflowHistory st.
Proof.
  intros C W P.
  assert (A : exists cfg, assoc phase phases = Some cfg).
  { unfold complete in C. destruct (assoc phase phases) as [cfg|]; [eauto|discriminate]. }
  destruct A as [cfg A]. cbn [WorkflowFacts.step].
  rewrite (@complete_passes phase cfg outputs st A C). cbn [fst snd emit currentWorkflow workflowHistory].
  rewrite W. cbn [advance]. rewrite P, String.eqb_refl.
  eexists. repeat split; reflexivity.
Qed.

(** X20. A workflow that is started and taken through the five phases in
    their order, each with complete outputs, is completed: after the fifth
    phase no current phase is left, and [completeWorkflow] archives the
    workflow with all five phases and the final status [completed]; a
    second [completeWorkflow] finds no active workflow. *)
Theorem workflow_runs_to_completion (taskDescription : string) (o : value)
  (now now' now'' : nat) (st : state) (o1 o2 o3 o4 o5 : value) :
  complete "specification" o1 = true ->
  complete "pseudocode" o2 = true ->
  complete "architecture" o3 = true ->
  complete "refinement" o4 = true ->
  complete "completion" o5 = true ->
  let st5 :=
    fold_left step
      [ Validate "specification" o1 None; Validate "pseudocode" o2 None;
        Validate "architecture" o3 None; Validate "refinement" o4 None;
        Validate "completion" o5 None ]
      (startWorkflow taskDescription o now st) in
  exists c w,
    fst (completeWorkflow now' st5) = Completed c /\
    c_task c = taskDescription /\
    c_completedPhases c = sequence /\
    c_finalStatus c = "completed" /\
    currentWorkflow st5 = Some w /\ currentPhase w = None /\
    workflowHistory (snd (completeWorkflow now' st5))
      = (workflowHistory st ++ [w])%list /\
    fst (completeWorkflow now'' (snd (completeWorkflow now' st5)))
      = NoActiveWorkflow.
Proof.
  intros C1 C2 C3 C4 C5. cbv zeta. cbn [fold_left].
  set (st0 := startWorkflow taskDescription o now st).
  assert (W0 : exists w0, currentWorkflow st0 = Some w0 /\
                          currentPhase w0 = Some "specification" /\
                          completedPhases w0 = [] /\ task w0 = taskDescription /\
                          workflowHistory st0 = workflowHistory st).
  { eexists. repeat split; reflexivity. }
  destruct W0 as (w0 & W0 & P0 & D0 & T0 & H0).
  destruct (@passing_step "specification" o1 st0 w0 C1 W0 P0) as (w1 & W1 & P1 & D1 & T1 & _ & _ & H1).
  set (st1 := step st0 _) in *.
  destruct (@passing_step "pseudocode" o2 st1 w1 C2 W1 P1) as (w2 & W2 & P2 & D2 & T2 & _ & _ & H2).
  set (st2 := step st1 _) in *.
  destruct (@passing_step "architecture" o3 st2 w2 C3 W2 P2) as (w3 & W3 & P3 & D3 & T3 & _ & _ & H3).
  set (st3 := step st2 _) in *.
  destruct (@passing_step "refinement" o4 st3 w3 C4 W3 P3) as (w4 & W4 & P4 & D4 & T4 & _ & _ & H4).
  set (st4 := step st3 _) in *.
  destruct (@passing_step "completion" o5 st4 w4 C5 W4 P4) as (w5 & W5 & P5 & D5 & T5 & _ & _ & H5).
  set (st5 := step st4 _) in *.
  assert (D : completedPhases w5 = sequence).
  { rewrite D5, D4, D3, D2, D1, D0. reflexivity. }
  assert (E : completeWorkflow now' st5 =
              (Completed {| c_workflowId := wf_id w5; c_task := task w5;
                            c_duration := (Z.of_nat now' - Z.of_nat (startTime w5))%Z;
                            c_completedPhases := completedPhases w5;
                            c_finalStatus := _calculateFinalStatus w5 |},
               {| opts := opts st5; currentWorkflow := None;
                  workflowHistory := (workflowHistory st5 ++ [w5])%list;
                  events := events st5 |})).
  { unfold completeWorkflow. rewrite W5. reflexivity. }
  rewrite E. cbn [fst snd].
  eexists. exists w5. split; [reflexivity|].
  cbn [c_task c_completedPhases c_finalStatus workflowHistory].
  split; [congruence|]. split; [exact D|].
  split; [unfold _calculateFinalStatus; rewrite D; reflexivity|].
  split; [exact W5|]. split; [exact P5|].
  split; [congruence | reflexivity].
Qed.

End Runtime.

(** *** The theorems at a concrete workflow *)

Definition outputs_of (required : list string) : value :=
  JObj (map (fun r => (r, JArr [JStr "done"])) required).

Definition specification_outputs : value :=
  outputs_of ["requirements"; "constraints"; "success_criteria"].
Definition pseudocode_outputs : value :=
  outputs_of ["algorithm_design"; "data_structures"].
Definition architecture_outputs : value :=
  outputs_of ["system_design"; "interfaces"; "schemas"].
Definition refinement_outputs : value :=
  JObj [ ("tests", JArr [JStr "done"]); ("implementation", JArr [JStr "done"]);
         ("coverage", JNum 95) ].
Definition completion_outputs : value :=
  outputs_of ["integration"; "documentation"].

Lemma complete_outputs_pass_witness :
  exists r,
    fst (validatePhase no_number no_text "specification" specification_outputs
           None started) = Returns (Validated r) /\
    r_passed r = true /\ r_nextPhase r = Some (Some "pseudocode").
Proof.
  destruct (@complete_outputs_pass no_number no_text "specification"
              specification_outputs started started_workflow
              eq_refl eq_refl eq_refl)
    as (r & w' & R & P & _ & _ & N & _).
  exists r. repeat split; assumption.
Defined.

Lemma workflow_runs_to_completion_witness :
  exists c,
    fst (completeWorkflow 60
           (fold_left (step no_number no_text)
              [ Validate "specification" specification_outputs None;
                Validate "pseudocode" pseudocode_outputs None;
                Validate "architecture" architecture_outputs None;
                Validate "refinement" refinement_outputs None;
                Validate "completion" completion_outputs None ]
              (startWorkflow "Build a REST API" JUndefined 0
                 (new default_options)))) = Completed c /\
    c_finalStatus c = "completed" /\
    c_completedPhases c = sequence.
Proof.
  destruct (@workflow_runs_to_completion no_number no_text "Build a REST API"
              JUndefined 0 60 61 (new default_options)
              specification_outputs pseudocode_outputs architecture_outputs
              refinement_outputs completion_outputs
              eq_refl eq_refl eq_refl eq_refl eq_refl)
    as (c & w & R & _ & D & F & _).
  exists c. repeat split; assumption.
Defined.

End CompletionFacts.

(** ** What an orchestration counts *)

Module RetryFacts.

Import ClaudeFlowAdapter OrchestratorFacts.
Open Scope Z_scope.

Definition is_validation (c : call) : bool :=
  match c with PreValidation _ | PostValidation _ => true | Execute _ _ => false end.

(** The validation calls among the calls of a run. *)
Definition validations_in (log : list call) : nat :=
  List.length (filter is_validation log).

Lemma validations_in_app (l1 l2 : list call) :
  validations_in (l1 ++ l2) = (validations_in l1 + validations_in l2)%nat.
Proof. unfold validations_in. now rewrite filter_app, length_app. Qed.

Section Loop.

Variable W : Type.
Variable execute : list string -> W -> outcome value * W.

Local Abbreviation attempt := (@attempt W execute).
Local Abbreviation loop := (@loop W execute).
Local Abbreviation orchestrate := (@orchestrate W execute).

Definition state_of (x : loop_exit W) : loop_state W :=
  match x with Caught _ s | Left _ s => s end.

(** How a state of the loop relates to an earlier one, [n] attempts and
    some calls before. *)
Definition counted (log1 : list call) (validations0 : nat) (n : Z)
  (s' : loop_state W) : Prop :=
  attempts s' = n /\
  executions (log s') = executions log1 /\
  (validations s' + validations_in log1
   = validations0 + validations_in (log s'))%nat.

Lemma judge_counts (c : config W)
  (continue : loop_state W -> option (loop_exit W)) (s : loop_state W)
  (n : Z) (result : value) (w1 : W) (log1 : list call) :
  (exists x, judge c continue s n result w1 log1 = Some x /\
             counted log1 (validations s) n (state_of x))
  \/ (exists s', judge c continue s n result w1 log1 = continue s' /\
                 counted log1 (validations s) n s').
Proof.
  assert (P : forall last task w2,
            counted log1 (validations s) n
              {| currentTask := task; attempts := n; lastResult := last;
                 validations := S (validations s); world := w2;
                 log := (log1 ++ [PostValidation result])%list |}).
  { intros. unfold counted. cbn [attempts log validations].
    rewrite executions_app, validations_in_app. cbn. repeat split; lia. }
  unfold judge. destruct (c_postValidation c) as [post|].
  2:{ left. eexists. split; [reflexivity|]. unfold counted. cbn. repeat split; lia. }
  destruct (post result w1) as [[[[[|] issues]|]|e] w2].
  - left. eexists. split; [reflexivity | apply P].
  - destruct (is_object result); cbn [negb].
    + destruct (n <=? c_maxRetries c).
      * destruct issues as [l|].
        -- right. eexists. split; [reflexivity | apply P].
        -- left. eexists. split; [reflexivity | apply P].
      * right. eexists. split; [reflexivity | apply P].
    + left. eexists. split; [reflexivity | apply P].
  - left. eexists. split; [reflexivity | apply P].
  - left. eexists. split; [reflexivity | apply P].
Qed.

(** What a run of the loop adds to the counts of its first state. *)
Definition advanced (c : config W) (is_connected : bool)
  (s s' : loop_state W) : Prop :=
  attempts s <= attempts s' <= Z.max (attempts s) (c_maxRetries c + 1) /\
  Z.of_nat (executions (log s'))
    = Z.of_nat (executions (log s))
      + (if is_connected then attempts s' - attempts s else 0) /\
  (validations s' + validations_in (log s)
   = validations s + validations_in (log s'))%nat.

Lemma loop_counts (c : config W) (is_connected : bool) (fuel : nat) :
  forall s x,
    loop fuel c is_connected s = Some x ->
    advanced c is_connected s (state_of x).
Proof.
  induction fuel as [|fuel IH]; intros s x; cbn [ClaudeFlowAdapter.loop];
    destruct (attempts s <=? c_maxRetries c) eqn:Le;
    try discriminate;
    try (intros [= <-]; unfold advanced; cbn [state_of];
         destruct is_connected; repeat split; lia).
  apply Z.leb_le in Le.
  assert (A : exists r w1 log1,
            attempt c is_connected s = (r, w1, log1) /\
            validations_in log1 = validations_in (log s) /\
            Z.of_nat (executions log1)
              = Z.of_nat (executions (log s)) + (if is_connected then 1 else 0)).
  { destruct (attempt_cases execute c is_connected s)
      as [[-> E]|[-> (r & w1 & _ & E)]]; rewrite E.
    - do 3 eexists. split; [reflexivity|]. split; lia.
    - do 3 eexists. split; [reflexivity|].
      rewrite validations_in_app, executions_app. cbn. split; lia. }
  destruct A as (r & w1 & log1 & A & V1 & E1). rewrite A.
  destruct r as [result|e].
  - destruct (judge_counts c (loop fuel c is_connected) s (attempts s + 1)
                result w1 log1) as [(y & J & C)|(s' & J & C)]; rewrite J.
    + intros [= <-]. destruct C as (C1 & C2 & C3).
      unfold advanced. rewrite C1, C2.
      destruct is_connected; repeat split; lia.
    + intros L. specialize (IH _ _ L). destruct C as (C1 & C2 & C3).
      destruct IH as (I1 & I2 & I3). unfold advanced.
      rewrite C1, C2 in *.
      destruct is_connected; repeat split; lia.
  - intros [= <-]. unfold advanced. cbn [state_of attempts log validations].
    destruct is_connected; repeat split; lia.
Qed.

(** X21. Let [limit] be the number of retries in effect: the
    [maxRetries] asked for, or 3 when none or 0 is asked for.  When
    [limit] is below 2^53 and the supplied functions and the executor
    settle, the orchestration ends, and the executor is invoked at most
    [limit + 1] times in it (four times, then, when no retry is asked
    for): never when the adapter is not connected, and, when it is, as
    often as the [attempts] of the resolved object say, which carries
    [limit] as its [maxRetries]. *)
Theorem executor_invocations_bounded (a : adapter) (task : string)
  (o : orchestrate_options W) (w : W) (limit : Z) :
  limit = match maxRetries o with Some 0 | None => 3 | Some n => n end ->
  limit < 2 ^ 53 ->
  exists r,
    orchestrate a task o w = Some r /\
    Z.of_nat (executions (calls r)) <= Z.max 0 (limit + 1) /\
    (connected a = false -> executions (calls r) = 0%nat) /\
    (forall x n,
       resolved r = Returns x -> attempts_of x = Some n ->
       0 <= n <= Z.max 0 (limit + 1) /\
       (connected a = true -> Z.of_nat (executions (calls r)) = n) /\
       exists last status, x = Finished last n limit status).
Proof.
  intros Limit Safe.
  assert (Lc : c_maxRetries (config_of o) = limit).
  { rewrite Limit. unfold config_of, Z_or. cbn [c_maxRetries].
    destruct (maxRetries o) as [[| |]|]; reflexivity. }
  clear Limit. revert Lc. generalize dependent limit. intros limit _ <-.
  destruct (orchestrate_total execute a task o w) as [r R].
  exists r. split; [exact R|]. revert R.
  unfold ClaudeFlowAdapter.orchestrate.
  set (c := config_of o).
  assert (Enter : forall done w0 log0 r0,
            executions log0 = 0%nat ->
            match loop (Z.to_nat (c_maxRetries c + 1)) c (connected a)
                    {| currentTask := task; attempts := 0; lastResult := None;
                       validations := done; world := w0; log := log0 |} with
            | None => None
            | Some (Caught e s) =>
                Some {| resolved := Returns (Failed e);
                        after := with_metrics a (validations s) 0;
                        world_after := world s; calls := log s |}
            | Some (Left success s) =>
                Some {| resolved :=
                          Returns (Finished (lastResult s) (attempts s)
                                     (c_maxRetries c)
                                     (if success then "success"
                                      else "max_retries_exceeded"));
                        after := with_metrics a (validations s) 0;
                        world_after := world s; calls := log s |}
            end = Some r0 ->
            Z.of_nat (executions (calls r0)) <= Z.max 0 (c_maxRetries c + 1) /\
            (connected a = false -> executions (calls r0) = 0%nat) /\
            (forall x n,
               resolved r0 = Returns x -> attempts_of x = Some n ->
               0 <= n <= Z.max 0 (c_maxRetries c + 1) /\
               (connected a = true -> Z.of_nat (executions (calls r0)) = n) /\
               exists last status, x = Finished last n (c_maxRetries c) status)).
  { intros done w0 log0 r0 E0.
    destruct (loop _ c (connected a) _) as [x|] eqn:L; [|discriminate].
    apply loop_counts in L. destruct L as (L1 & L2 & _).
    cbn [attempts log] in L1, L2. rewrite E0 in L2.
    destruct x as [e s|success s]; intros [= <-];
      cbn [calls resolved state_of] in *.
    - split; [destruct (connected a); lia|].
      split; [intros F; rewrite F in L2; lia|].
      intros x n [= <-]. discriminate.
    - split; [destruct (connected a); lia|].
      split; [intros F; rewrite F in L2; lia|].
      intros x n [= <-] [= <-].
      split; [lia|]. split; [intros T; rewrite T in L2; lia|].
      eexists. eexists. reflexivity. }
  destruct (c_preValidation c) as [pre|]; [|apply Enter; reflexivity].
  destruct (pre task w) as [[[[[|] vs]|]|e] w'];
    try (apply Enter; reflexivity);
    intros [= <-]; cbn [calls resolved]; (split; [cbn; lia|]);
    (split; [reflexivity|]); intros x n E; try discriminate E;
    injection E as <-; discriminate.
Qed.

(** X22. The adapter counts what it does: an orchestration adds one to
    [tasksOrchestrated] and to [totalValidations] the number of validation
    calls it made, before and after the attempts; [blockedOperations]
    grows by one exactly when the call is blocked. *)
Theorem validations_are_counted (a : adapter) (task : string)
  (o : orchestrate_options W) (w : W) :
  exists r,
    orchestrate a task o w = Some r /\
    tasksOrchestrated (metrics_ (after r)) = S (tasksOrchestrated (metrics_ a)) /\
    totalValidations (metrics_ (after r))
      = (totalValidations (metrics_ a) + validations_in (calls r))%nat /\
    blockedOperations (metrics_ (after r))
      = (blockedOperations (metrics_ a)
         + match resolved r with Returns (Blocked _) => 1 | _ => 0 end)%nat /\
    connected (after r) = connected a.
Proof.
  destruct (orchestrate_total execute a task o w) as [r R].
  exists r. split; [exact R|]. revert R.
  unfold ClaudeFlowAdapter.orchestrate.
  set (c := config_of o).
  assert (Enter : forall done w0 log0 r0,
            validations_in log0 = done ->
            match loop (Z.to_nat (c_maxRetries c + 1)) c (connected a)
                    {| currentTask := task; attempts := 0; lastResult := None;
                       validations := done; world := w0; log := log0 |} with
            | None => None
            | Some (Caught e s) =>
                Some {| resolved := Returns (Failed e);
                        after := with_metrics a (validations s) 0;
                        world_after := world s; calls := log s |}
            | Some (Left success s) =>
                Some {| resolved :=
                          Returns (Finished (lastResult s) (attempts s)
                                     (c_maxRetries c)
                                     (if success then "success"
                                      else "max_retries_exceeded"));
                        after := with_metrics a (validations s) 0;
                        world_after := world s; calls := log s |}
            end = Some r0 ->
            tasksOrchestrated (metrics_ (after r0))
              = S (tasksOrchestrated (metrics_ a)) /\
            totalValidations (metrics_ (after r0))
              = (totalValidations (metrics_ a) + validations_in (calls r0))%nat /\
            blockedOperations (metrics_ (after r0))
              = (blockedOperations (metrics_ a)
                 + match resolved r0 with Returns (Blocked _) => 1 | _ => 0 end)%nat /\
            connected (after r0) = connected a).
  { intros done w0 log0 r0 E0.
    destruct (loop _ c (connected a) _) as [x|] eqn:L; [|discriminate].
    apply loop_counts in L. destruct L as (_ & _ & L3).
    cbn [validations log] in L3.
    destruct x as [e s|success s]; intros [= <-];
      cbn [calls resolved after state_of with_metrics metrics_ tasksOrchestrated
           totalValidations blockedOperations connected] in *;
      repeat split; lia. }
  destruct (c_preValidation c) as [pre|]; [|apply Enter; reflexivity].
  destruct (pre task w) as [[[[[|] vs]|]|e] w'];
    try (apply Enter; reflexivity);
    intros [= <-]; cbn; repeat split; lia.
Qed.

(** X23. An attempt that the post-validation does not reject ends the
    orchestration with success after one invocation of the executor.  A
    post-validation that resolves to nothing ([undefined] or [null])
    rejects nothing. *)
Theorem accepted_attempt_succeeds (a : adapter) (task : string)
  (o : orchestrate_options W) (post : post_fn W) (w w1 w2 : W) (v : value)
  (verdict : option post_verdict) :
  connected a = true ->
  preValidation o = None ->
  postValidation o = Some post ->
  0 <= c_maxRetries (config_of o) ->
  execute (task_args (config_of o) task) w = (Returns v, w1) ->
  post v w1 = (Returns verdict, w2) ->
  match verdict with Some d => post_passed d = true | None => True end ->
  exists r,
    orchestrate a task o w = Some r /\
    resolved r =
      Returns (Finished (Some {| produced := v; qualityIssues := None |}) 1
                 (c_maxRetries (config_of o)) "success") /\
    calls r = [Execute (task_args (config_of o) task) None; PostValidation v] /\
    world_after r = w2.
Proof.
  intros C Pre Post M E V D.
  unfold ClaudeFlowAdapter.orchestrate.
  set (c := config_of o) in *.
  assert (Pc : c_preValidation c = None) by exact Pre.
  assert (Qc : c_postValidation c = Some post) by exact Post.
  rewrite Pc, C.
  destruct (Z.to_nat (c_maxRetries c + 1)) as [|fuel] eqn:F; [lia|].
  cbn [ClaudeFlowAdapter.loop attempts].
  replace (0 <=? c_maxRetries c) with true by (symmetry; apply Z.leb_le; exact M).
  unfold ClaudeFlowAdapter.attempt. cbn [currentTask world log]. rewrite E.
  unfold judge. rewrite Qc, V.
  destruct verdict as [[passed issues]|].
  - cbn [post_passed] in D. subst passed.
    eexists. split; [reflexivity|]. repeat split.
  - eexists. split; [reflexivity|]. repeat split.
Qed.

End Loop.

(** *** The text of the next attempt *)

Fixpoint no_newline (s : string) : bool :=
  match s with
  | "" => true
  | String c s' => negb (Ascii.eqb c "010") && no_newline s'
  end.

Definition nl : ascii := "010"%char.

Lemma prefix_refl_app (m rest : string) : prefix m (m ++ rest) = true.
Proof.
  induction m as [|c m IH]; [destruct rest; reflexivity|].
  cbn. destruct (Ascii.ascii_dec c c); [exact IH | congruence].
Qed.

Lemma prefix_before_newline (m s r : string) :
  no_newline m = true ->
  prefix m (s ++ String nl r) = true -> prefix m s = true.
Proof.
  revert s. induction m as [|c m IH]; intros s N.
  - destruct s; reflexivity.
  - cbn [no_newline] in N. apply andb_true_iff in N as [N1 N2].
    destruct s as [|c' s]; cbn.
    + destruct (Ascii.ascii_dec c nl) as [->|]; [discriminate N1 | discriminate].
    + destruct (Ascii.ascii_dec c c'); [apply IH, N2 | discriminate].
Qed.

Lemma includes_app (m s rest : string) : includes m (s ++ m ++ rest) = true.
Proof.
  induction s as [|c s IH]; cbn [append].
  - destruct (m ++ rest)%string eqn:E; cbn [includes];
      rewrite <- E, prefix_refl_app; reflexivity.
  - cbn [includes]. rewrite IH. apply orb_true_r.
Qed.

Lemma includes_cons (m : string) (c : ascii) (s : string) :
  includes m (String c s) = prefix m (String c s) || includes m s.
Proof. reflexivity. Qed.

Section Marker.

Variable m : string.
Variable first : ascii.
Variable m' : string.
Hypothesis Shape : m = String first m'.
Hypothesis Plain : no_newline m = true.

Lemma prefix_newline (r : string) : prefix m (String nl r) = false.
Proof.
  rewrite Shape in *. cbn [no_newline] in Plain.
  apply andb_true_iff in Plain as [N _]. cbn.
  destruct (Ascii.ascii_dec first nl) as [->|]; [discriminate N | reflexivity].
Qed.

Lemma prefix_empty : prefix m "" = false.
Proof. rewrite Shape. reflexivity. Qed.

Lemma includes_two_newlines (s : string) :
  includes m s = false ->
  includes m (s ++ String nl (String nl "")) = false.
Proof.
  induction s as [|c s IH]; intros H.
  - cbn [append includes]. now rewrite !prefix_newline, prefix_empty.
  - rewrite includes_cons in H. apply orb_false_iff in H as [H1 H2].
    change ((String c s) ++ String nl (String nl ""))%string
      with (String c (s ++ String nl (String nl ""))).
    rewrite includes_cons, (IH H2), orb_false_r.
    destruct (prefix m (String c (s ++ String nl (String nl "")))) eqn:P;
      [|reflexivity].
    change (String c (s ++ String nl (String nl "")))
      with ((String c s) ++ String nl (String nl ""))%string in P.
    apply prefix_before_newline in P; [congruence | exact Plain].
Qed.

Lemma before_first_block (s rest : string) :
  includes m s = false ->
  before_first m (s ++ String nl (String nl (m ++ rest)))
  = (s ++ String nl (String nl ""))%string.
Proof.
  induction s as [|c s IH]; intros H.
  - cbn [append before_first]. rewrite !prefix_newline.
    assert (E : before_first m (m ++ rest) = "").
    { destruct (m ++ rest)%string eqn:X; cbn [before_first];
        rewrite <- X, prefix_refl_app; reflexivity. }
    now rewrite E.
  - rewrite includes_cons in H. apply orb_false_iff in H as [H1 H2].
    change ((String c s) ++ String nl (String nl (m ++ rest)))%string
      with (String c (s ++ String nl (String nl (m ++ rest)))).
    cbn [before_first].
    destruct (prefix m (String c (s ++ String nl (String nl (m ++ rest))))) eqn:P.
    + change (String c (s ++ String nl (String nl (m ++ rest))))
        with ((String c s) ++ String nl (String nl (m ++ rest)))%string in P.
      apply prefix_before_newline in P; [congruence | exact Plain].
    + rewrite (IH H2). reflexivity.
Qed.

End Marker.

Definition feedback_body (issues : list issue) : string :=
  newline ++ "The previous attempt had the following issues:" ++ newline
  ++ join newline (map issue_line issues) ++ newline ++ newline
  ++ "Please correct these issues in the next attempt.".

Lemma feedback_shape (issues : list issue) :
  feedback issues = String nl (String nl (marker ++ feedback_body issues)).
Proof.
  reflexivity.
Qed.

(** X24. The feedback of an attempt replaces that of the attempt before:
    the task of the next attempt is the original task, two more line
    breaks, and the one block for the latest issues.  The text in front of
    the block still holds no marker, so the same is true of every later
    attempt. *)
Theorem feedback_is_replaced (task : string) (issues1 issues2 : list issue) :
  includes marker task = false ->
  with_feedback task issues1 = (task ++ feedback issues1)%string /\
  with_feedback (with_feedback task issues1) issues2
  = ((task ++ newline ++ newline) ++ feedback issues2)%string /\
  includes marker (task ++ newline ++ newline) = false.
Proof.
  intros H.
  assert (Shape : marker = String "[" "QUALITY FEEDBACK - PLEASE FIX]:")
    by reflexivity.
  assert (Plain : no_newline marker = true) by reflexivity.
  assert (E1 : with_feedback task issues1 = (task ++ feedback issues1)%string).
  { unfold with_feedback. now rewrite H. }
  split; [exact E1|]. split.
  - rewrite E1, feedback_shape. unfold with_feedback.
    assert (I : includes marker
                  (task ++ String nl (String nl (marker ++ feedback_body issues1)))
                = true).
    { pose proof (includes_app marker (task ++ String nl (String nl ""))
                    (feedback_body issues1)) as X.
      rewrite RegexFacts.append_assoc in X. exact X. }
    rewrite I.
    rewrite (@before_first_block marker _ _ Shape Plain task (feedback_body issues1) H).
    reflexivity.
  - apply (@includes_two_newlines marker _ _ Shape Plain task H).
Qed.

Lemma feedback_is_replaced_witness :
  with_feedback
    (with_feedback "Build a REST API"
       [ {| message := "Security vulnerability found";
            suggestion := Some "Use hashing" |} ])
    [ {| message := "Missing tests"; suggestion := None |} ]
  = (("Build a REST API" ++ newline ++ newline)
     ++ feedback [ {| message := "Missing tests"; suggestion := None |} ])%string.
Proof.
  exact (proj1 (proj2 (@feedback_is_replaced "Build a REST API"
                         [ {| message := "Security vulnerability found";
                              suggestion := Some "Use hashing" |} ]
                         [ {| message := "Missing tests"; suggestion := None |} ]
                         eq_refl))).
Defined.

(** *** The theorems at concrete calls *)

(** A post-validation that resolves to nothing. *)
Definition silent (r : value) (count : nat) : outcome (option post_verdict) * nat :=
  (Returns None, count).

Definition accepting : orchestrate_options nat :=
  {| strategy := None; priority := None; maxAgents := None;
     preValidation := None; postValidation := Some silent;
     maxRetries := Some 3 |}.

Lemma executor_invocations_bounded_witness :
  exists r,
    ClaudeFlowAdapter.orchestrate OrchestratorFacts.answering
      OrchestratorFacts.connected_adapter "Build a REST API"
      (OrchestratorFacts.retries_rejecting 0) 0%nat = Some r /\
    Z.of_nat (executions (calls r)) <= 4.
Proof.
  destruct (@executor_invocations_bounded nat OrchestratorFacts.answering
              OrchestratorFacts.connected_adapter "Build a REST API"
              (OrchestratorFacts.retries_rejecting 0) 0%nat 3 eq_refl eq_refl)
    as (r & R & B & _).
  exists r. split; [exact R | exact B].
Defined.

Lemma accepted_attempt_succeeds_witness :
  exists r,
    orchestrate answering connected_adapter "Build a REST API" accepting 0%nat
      = Some r /\
    resolved r =
      Returns (Finished
                 (Some {| produced :=
                            JObj [("result", JStr "Result for attempt 1")];
                          qualityIssues := None |}) 1 3 "success") /\
    world_after r = 1%nat.
Proof.
  destruct (@accepted_attempt_succeeds nat answering connected_adapter
              "Build a REST API" accepting silent 0%nat 1%nat 1%nat
              (JObj [("result", JStr "Result for attempt 1")]) None
              eq_refl eq_refl eq_refl ltac:(cbn; lia) eq_refl eq_refl I)
    as (r & R & Res & _ & Wd).
  exists r. repeat split; assumption.
Defined.

End RetryFacts.

(** ** The facade: validation wired into the orchestration *)

Module FacadeFacts.

Import PatternValidator ClaudeFlowAdapter ValidatorFacts PostValidationFacts
  PostVerdictFacts.
Open Scope nat_scope.

Lemma message_of_violation (v : violation) :
  get (JLMACFES.violation_value v) "message" = JStr (v_message v).
Proof.
  unfold JLMACFES.violation_value. destruct (v_pattern v); reflexivity.
Qed.

Lemma security_findings_worded (text : string) :
  Forall (fun v => truthy (JStr (v_message v)) = true) (security_findings text).
Proof.
  unfold security_findings.
  repeat (apply Forall_app; split); apply check_Forall; reflexivity.
Qed.

Lemma first_violation (o : options) (c : ascii) (text : string) (t0 t1 : Q) :
  enableSecurityChecks o = true ->
  hit security_rules (String c text) = true ->
  exists first rest,
    violations (validatePre o (JStr (String c text)) t0 t1) = first :: rest /\
    In first (security_findings (String c text)) /\
    truthy (JStr (v_message first)) = true /\
    passed (validatePre o (JStr (String c text)) t0 t1) = false.
Proof.
  intros S H.
  rewrite validatePre_passed_by_rules, validatePre_violations, S, H.
  pose proof (security_findings_none (String c text)) as N. rewrite H in N.
  pose proof (security_findings_worded (String c text)) as Wd.
  destruct (security_findings (String c text)) as [|first rest];
    [discriminate N|].
  exists first. eexists. split; [reflexivity|].
  split; [left; reflexivity|]. split; [|reflexivity].
  inversion Wd. assumption.
Qed.

Section Facade.

Variable now : nat -> Q.
Variable E : Type.
Variable execute : list string -> E -> outcome value * E.

Local Abbreviation orchestrate := (JLMACFES.orchestrate now execute).

(** X25. The facade blocks a task whose text a security rule matches:
    the orchestration resolves to the blocked object with the message of
    the first violation as its reason, the executor is not invoked, and the
    facade counts the validation and the violations. *)
Theorem facade_blocks_critical_tasks (a : adapter) (c : ascii) (text : string)
  (o : JLMACFES.call_options) (st : JLMACFES.state) (e : E) :
  enableSecurityChecks (JLMACFES.validation (JLMACFES.opts st)) = true ->
  hit security_rules (String c text) = true ->
  exists r first,
    orchestrate (Some a) (String c text) o (st, e) = Returns (Some r) /\
    In first (security_findings (String c text)) /\
    resolved r = Returns (Blocked (JStr (v_message first))) /\
    calls r = [PreValidation (String c text)] /\
    snd (world_after r) = e /\
    JLMACFES.validationsRun (JLMACFES.metrics_ (fst (world_after r)))
      = S (JLMACFES.validationsRun (JLMACFES.metrics_ st)) /\
    JLMACFES.violationsBlocked (JLMACFES.metrics_ (fst (world_after r)))
      > JLMACFES.violationsBlocked (JLMACFES.metrics_ st) /\
    blockedOperations (metrics_ (after r)) = S (blockedOperations (metrics_ a)).
Proof.
  intros S H.
  destruct (@first_violation (JLMACFES.validation (JLMACFES.opts st)) c text
              (now (Datatypes.S (JLMACFES.tick st)))
              (now (Datatypes.S (Datatypes.S (JLMACFES.tick st)))) S H)
    as (first & rest & V & I & T & P).
  unfold JLMACFES.orchestrate, ClaudeFlowAdapter.orchestrate.
  change (c_preValidation (config_of (@JLMACFES.adapter_options now E o (fst (st, e)))))
    with (Some (@JLMACFES.preValidation now E)).
  unfold JLMACFES.preValidation at 1, JLMACFES.validatePre.
  cbn [fst snd JLMACFES.pre_result_]. rewrite P, V.
  cbn [map]. unfold block_reason. cbn [pre_violations].
  rewrite message_of_violation, T.
  eexists. exists first. split; [reflexivity|].
  cbn [resolved calls world_after after fst snd JLMACFES.metrics_
       JLMACFES.validationsRun JLMACFES.violationsBlocked with_metrics
       metrics_ blockedOperations List.length].
  repeat split; try assumption; lia.
Qed.

Lemma unreadable_is_object (produced : value) :
  truthy (_extractCode produced) = true ->
  (forall s, _extractCode produced <> JStr s) ->
  is_object produced = true.
Proof.
  intros T N. destruct produced; try reflexivity; try discriminate T.
  exfalso. apply (N s). reflexivity.
Qed.

Lemma validatePost_unreadable (o : options) (produced : value) :
  enableQualityChecks o = true ->
  truthy (_extractCode produced) = true ->
  (forall s, _extractCode produced <> JStr s) ->
  validatePost o produced = Raises TypeError.
Proof.
  intros Q T N. unfold validatePost. rewrite T, Q. cbn [andb].
  destruct (_extractCode produced) as [| |b|q|s|l|props]; try reflexivity.
  exfalso. apply (N s). reflexivity.
Qed.

Lemma retries_allow_one (mr : Z) :
  (0 <= mr)%Z ->
  (1 <= Z_or (Some mr) 3)%Z /\
  exists fuel, Z.to_nat (Z_or (Some mr) 3 + 1) = Datatypes.S fuel.
Proof.
  intros H. assert (L : (1 <= Z_or (Some mr) 3)%Z).
  { destruct mr; cbn; lia. }
  split; [exact L|]. exists (Z.to_nat (Z_or (Some mr) 3)). lia.
Qed.

(** What the first attempt of an orchestration of the facade finds: the
    task has passed the pre-validation, the executor has produced a
    value. *)
Definition first_attempt (task : string) (o : JLMACFES.call_options)
  (st : JLMACFES.state) (e e' : E) (produced : value) : Prop :=
  passed (JLMACFES.pre_result_
            (fst (JLMACFES.validatePre now (JStr task) st))) = true /\
  (0 <= JLMACFES.maxRetries (JLMACFES.opts st))%Z /\
  execute (task_args (config_of (@JLMACFES.adapter_options now E o st)) task) e
  = (Returns produced, e').

(** X26. A result whose code the validator cannot read ends the
    orchestration: when the executor produces an object whose code is a
    truthy value that is no string, the post-validation of the facade
    answers with its error object, and the adapter, reading the issues
    that object does not have, gives up with a [TypeError] after this one
    attempt, whatever the number of retries. *)
Theorem unreadable_result_ends_orchestration (a : adapter) (task : string)
  (o : JLMACFES.call_options) (st : JLMACFES.state) (e e' : E)
  (produced : value) :
  connected a = true ->
  first_attempt task o st e e' produced ->
  enableQualityChecks (JLMACFES.validation (JLMACFES.opts st)) = true ->
  truthy (_extractCode produced) = true ->
  (forall s, _extractCode produced <> JStr s) ->
  exists r,
    orchestrate (Some a) task o (st, e) = Returns (Some r) /\
    resolved r = Returns (Failed TypeError) /\
    calls r =
      [ PreValidation task;
        Execute (task_args (config_of (@JLMACFES.adapter_options now E o st)) task)
          None;
        PostValidation produced ] /\
    snd (world_after r) = e'.
Proof.
  intros C (P & M & X) Q T N.
  destruct (retries_allow_one M) as (L & fuel & F).
  pose proof (unreadable_is_object produced T N) as Ob.
  unfold JLMACFES.orchestrate, ClaudeFlowAdapter.orchestrate. cbn [fst].
  set (c := config_of (@JLMACFES.adapter_options now E o st)) in *.
  assert (Pc : c_preValidation c = Some (@JLMACFES.preValidation now E))
    by reflexivity.
  assert (Qc : c_postValidation c = Some (@JLMACFES.postValidation now E))
    by reflexivity.
  assert (Mc : c_maxRetries c
               = Z_or (Some (JLMACFES.maxRetries (JLMACFES.opts st))) 3)
    by reflexivity.
  clearbody c. rewrite Pc.
  unfold JLMACFES.preValidation at 1.
  destruct (JLMACFES.validatePre now (JStr task) (fst (st, e))) as [reply st1] eqn:V.
  cbn [fst snd] in V, P. rewrite V in P. cbn [fst] in P. rewrite P.
  rewrite C, Mc, F. cbn [ClaudeFlowAdapter.loop attempts]. rewrite Mc.
  replace (0 <=? Z_or (Some (JLMACFES.maxRetries (JLMACFES.opts st))) 3)%Z
    with true by (symmetry; apply Z.leb_le; lia).
  unfold ClaudeFlowAdapter.attempt. cbn [currentTask world log].
  unfold JLMACFES.execute_in at 1. cbn [fst snd]. rewrite X.
  unfold judge. rewrite Qc.
  unfold JLMACFES.postValidation at 1, JLMACFES.validatePost. cbn [fst snd].
  assert (O1 : JLMACFES.opts st1 = JLMACFES.opts st).
  { unfold JLMACFES.validatePre in V. injection V as _ <-. reflexivity. }
  rewrite O1, (validatePost_unreadable _ produced Q T N). cbn [fst snd].
  rewrite Ob. cbn [negb]. rewrite Mc.
  replace (0 + 1 <=? Z_or (Some (JLMACFES.maxRetries (JLMACFES.opts st))) 3)%Z
    with true by (symmetry; apply Z.leb_le; lia).
  eexists. split; [reflexivity|]. repeat split.
Qed.

(** X27. A task that passes the pre-validation and a first result whose
    code the quality checks let pass make a successful orchestration of
    one attempt: the three calls are the pre-validation, the executor and
    the post-validation, and the facade has counted two validations. *)
Theorem clean_task_succeeds_at_once (a : adapter) (task : string)
  (o : JLMACFES.call_options) (st : JLMACFES.state) (e e' : E)
  (produced : value) (text : string) :
  connected a = true ->
  first_attempt task o st e e' produced ->
  _extractCode produced = JStr text ->
  enableQualityChecks (JLMACFES.validation (JLMACFES.opts st))
  && async_without_handling text && leak_pattern text = false ->
  exists r,
    orchestrate (Some a) task o (st, e) = Returns (Some r) /\
    resolved r =
      Returns (Finished (Some {| produced := produced; qualityIssues := None |})
                 1 (Z_or (Some (JLMACFES.maxRetries (JLMACFES.opts st))) 3)
                 "success") /\
    calls r =
      [ PreValidation task;
        Execute (task_args (config_of (@JLMACFES.adapter_options now E o st)) task)
          None;
        PostValidation produced ] /\
    snd (world_after r) = e' /\
    JLMACFES.validationsRun (JLMACFES.metrics_ (fst (world_after r)))
      = Datatypes.S (Datatypes.S (JLMACFES.validationsRun (JLMACFES.metrics_ st))).
Proof.
  intros C (P & M & X) Ex Ok.
  destruct (retries_allow_one M) as (L & fuel & F).
  unfold JLMACFES.orchestrate, ClaudeFlowAdapter.orchestrate. cbn [fst].
  set (c := config_of (@JLMACFES.adapter_options now E o st)) in *.
  assert (Pc : c_preValidation c = Some (@JLMACFES.preValidation now E))
    by reflexivity.
  assert (Qc : c_postValidation c = Some (@JLMACFES.postValidation now E))
    by reflexivity.
  assert (Mc : c_maxRetries c
               = Z_or (Some (JLMACFES.maxRetries (JLMACFES.opts st))) 3)
    by reflexivity.
  clearbody c. rewrite Pc.
  unfold JLMACFES.preValidation at 1.
  destruct (JLMACFES.validatePre now (JStr task) (fst (st, e))) as [reply st1] eqn:V.
  cbn [fst snd] in V, P. rewrite V in P. cbn [fst] in P. rewrite P.
  rewrite C, Mc, F. cbn [ClaudeFlowAdapter.loop attempts]. rewrite Mc.
  replace (0 <=? Z_or (Some (JLMACFES.maxRetries (JLMACFES.opts st))) 3)%Z
    with true by (symmetry; apply Z.leb_le; lia).
  unfold ClaudeFlowAdapter.attempt. cbn [currentTask world log].
  unfold JLMACFES.execute_in at 1. cbn [fst snd]. rewrite X.
  unfold judge. rewrite Qc.
  unfold JLMACFES.postValidation at 1, JLMACFES.validatePost. cbn [fst snd].
  assert (O1 : JLMACFES.opts st1 = JLMACFES.opts st /\
               JLMACFES.validationsRun (JLMACFES.metrics_ st1)
               = Datatypes.S (JLMACFES.validationsRun (JLMACFES.metrics_ st))).
  { unfold JLMACFES.validatePre in V. injection V as _ <-. split; reflexivity. }
  destruct O1 as [O1 O2]. rewrite O1.
  destruct (validatePost_on_text (JLMACFES.validation (JLMACFES.opts st))
              produced Ex) as (r & R & Pr).
  rewrite R. cbn [fst snd]. rewrite Pr, Ok. cbn [negb]. rewrite ?Mc.
  eexists. split; [reflexivity|].
  cbn [resolved calls world_after fst snd JLMACFES.metrics_ JLMACFES.validationsRun].
  rewrite O2. repeat split.
Qed.

End Facade.

(** *** The theorems at concrete calls *)

(** The facade of a default configuration, and an adapter that is
    connected. *)
Definition facade : JLMACFES.state :=
  JLMACFES.new {| JLMACFES.performanceThreshold := 1.0;
                  JLMACFES.maxRetries := 3;
                  JLMACFES.validation := default_options |}.

Definition any_options : JLMACFES.call_options :=
  {| JLMACFES.strategy := None; JLMACFES.priority := None;
     JLMACFES.maxAgents := None |}.

(** An executor that delivers code, and one that delivers a number in its
    place; the world counts the invocations. *)
Definition coding (args : list string) (count : nat) : outcome value * nat :=
  (Returns (JObj [("code", JStr "const x = 1;")]), S count).
Definition garbling (args : list string) (count : nat) : outcome value * nat :=
  (Returns (JObj [("code", JNum 42)]), S count).

Lemma facade_blocks_critical_tasks_witness :
  exists r,
    JLMACFES.orchestrate HookFacts.instant coding
      (Some OrchestratorFacts.connected_adapter) SecretFacts.long_password
      any_options (facade, 0) = Returns (Some r) /\
    resolved r = Returns (Blocked (JStr "Hardcoded password detected")) /\
    snd (world_after r) = 0.
Proof.
  destruct (@facade_blocks_critical_tasks HookFacts.instant nat coding
              OrchestratorFacts.connected_adapter "p"
              ("assword = " ++ SecretFacts.quoted "super_secret_123")
              any_options facade 0 eq_refl)
    as (r & first & R & _ & _ & _ & Wd & _).
  { vm_compute. reflexivity. }
  exists r. split; [exact R|]. split; [|exact Wd].
  vm_compute in R. injection R as <-. reflexivity.
Defined.

Lemma unreadable_result_ends_orchestration_witness :
  exists r,
    JLMACFES.orchestrate HookFacts.instant garbling
      (Some OrchestratorFacts.connected_adapter) "Build a REST API"
      any_options (facade, 0) = Returns (Some r) /\
    resolved r = Returns (Failed TypeError) /\
    snd (world_after r) = 1.
Proof.
  destruct (@unreadable_result_ends_orchestration HookFacts.instant nat garbling
              OrchestratorFacts.connected_adapter "Build a REST API"
              any_options facade 0 1 (JObj [("code", JNum 42)]) eq_refl)
    as (r & R & Res & _ & Wd).
  - split; [vm_compute; reflexivity|]. split; [cbn; lia | reflexivity].
  - reflexivity.
  - reflexivity.
  - intros s. discriminate.
  - exists r. repeat split; assumption.
Defined.

Lemma clean_task_succeeds_at_once_witness :
  exists r,
    JLMACFES.orchestrate HookFacts.instant coding
      (Some OrchestratorFacts.connected_adapter) "Build a REST API"
      any_options (facade, 0) = Returns (Some r) /\
    resolved r =
      Returns (Finished
                 (Some {| produced := JObj [("code", JStr "const x = 1;")];
                          qualityIssues := None |}) 1 3 "success") /\
    snd (world_after r) = 1.
Proof.
  destruct (@clean_task_succeeds_at_once HookFacts.instant nat coding
              OrchestratorFacts.connected_adapter "Build a REST API"
              any_options facade 0 1 (JObj [("code", JStr "const x = 1;")])
              "const x = 1;" eq_refl)
    as (r & R & Res & _ & Wd & _).
  - split; [vm_compute; reflexivity|]. split; [cbn; lia | reflexivity].
  - reflexivity.
  - vm_compute. reflexivity.
  - exists r. repeat split; assumption.
Defined.

End FacadeFacts.

(** ** The tracking of operations *)

Module MonitorFacts.

Import PerformanceMonitor.
Open Scope nat_scope.

(** The calls that change a monitor; [Sample] is the sampling timer. *)
Inductive monitor_call : Type :=
| Begin (operationId type : string) (now : Q)
| Finish (operationId : string) (success : bool) (metadata : value) (now : Q)
| Sample
| Clear.

Definition monitor_step (st : state) (c : monitor_call) : state :=
  match c with
  | Begin i t now => startOperation i t now st
  | Finish i success metadata now => snd (endOperation i success metadata now st)
  | Sample => _collectSample st
  | Clear => reset st
  end.

Definition accounted (st : state) : Prop :=
  totalOperations (stats_ st)
    = successfulOperations (stats_ st) + failedOperations (stats_ st) /\
  List.length (operationTimings st) <= totalOperations (stats_ st) /\
  (0 < historySize (opts st) ->
   List.length (operationTimings st) <= historySize (opts st)).

Lemma slice_from_end_length {A : Type} (n : nat) (l : list A) :
  0 < n -> List.length (slice_from_end n l) = Nat.min n (List.length l).
Proof.
  intros H. unfold slice_from_end.
  destruct (Nat.eqb_spec n 0); [lia|]. rewrite length_skipn. lia.
Qed.

Lemma slice_from_end_bound {A : Type} (n : nat) (l : list A) :
  List.length (slice_from_end n l) <= List.length l.
Proof.
  unfold slice_from_end. destruct (Nat.eqb n 0); [lia|].
  rewrite length_skipn. lia.
Qed.

Lemma monitor_step_accounted (st : state) (c : monitor_call) :
  accounted st -> accounted (monitor_step st c) /\ opts (monitor_step st c) = opts st.
Proof.
  intros (T & L & B). destruct c as [i t now|i success metadata now| |];
    cbn [monitor_step]; try (split; [split; [|split]; cbn; auto; lia | reflexivity]).
  unfold endOperation.
  destruct (assoc i (activeOperations st)) as [operation|];
    [|split; [split; [|split]; assumption | reflexivity]].
  cbn [snd]. split; [|reflexivity].
  unfold accounted.
  cbn [stats_ totalOperations successfulOperations failedOperations
       operationTimings opts].
  split; [destruct success; lia|].
  set (timing := {| t_operationId := i; t_type := op_type operation;
                    t_duration := (now - op_startTime operation)%Q;
                    t_success := success |}).
  assert (Len : List.length (operationTimings st ++ [timing])
                = S (List.length (operationTimings st))).
  { rewrite length_app. cbn. lia. }
  destruct (historySize (opts st) <? _) eqn:Over.
  - apply Nat.ltb_lt in Over.
    pose proof (slice_from_end_bound (historySize (opts st))
                  (operationTimings st ++ [timing])) as Bd.
    split; [lia|]. intros P. rewrite (slice_from_end_length _ P). lia.
  - apply Nat.ltb_ge in Over. split; [lia|]. intros _. lia.
Qed.

Lemma steps_accounted (calls : list monitor_call) (st : state) :
  accounted st ->
  accounted (fold_left monitor_step calls st) /\
  opts (fold_left monitor_step calls st) = opts st.
Proof.
  revert st. induction calls as [|c calls IH]; intros st A; cbn [fold_left];
    [split; [exact A | reflexivity]|].
  destruct (monitor_step_accounted c A) as [A' O].
  destruct (IH _ A') as [A'' O']. split; [exact A''|congruence].
Qed.

Lemma delete_key_lookup {V : Type} (k : string) (m : list (string * V)) :
  assoc k (delete_key k m) = None.
Proof.
  unfold delete_key. induction m as [|[k' v] m IH]; cbn [filter fst]; [reflexivity|].
  destruct (String.eqb k' k) eqn:E; cbn [negb]; [exact IH|].
  cbn [assoc]. rewrite E. exact IH.
Qed.

(** X28. A monitor keeps its books, whatever calls are made on it and in
    whatever order: every operation counted has ended as successful or as
    failed; no more timings are kept than operations were counted, and no
    more than [historySize] when that is positive.  An operation ends
    once: ending it again, like ending one that was never started, returns
    [null] and changes nothing. *)
Theorem operations_are_accounted (o : options) (calls : list monitor_call) :
  let st := fold_left monitor_step calls (new o) in
  totalOperations (stats_ st)
    = successfulOperations (stats_ st) + failedOperations (stats_ st) /\
  List.length (operationTimings st) <= totalOperations (stats_ st) /\
  (0 < historySize o -> List.length (operationTimings st) <= historySize o) /\
  (forall i success metadata now,
     assoc i (activeOperations st) = None ->
     endOperation i success metadata now st = (NotTracked, st)) /\
  (forall i success metadata now success' metadata' now',
     fst (endOperation i success' metadata' now'
            (snd (endOperation i success metadata now st))) = NotTracked).
Proof.
  cbv zeta.
  destruct (@steps_accounted calls (new o)) as [(T & L & B) O].
  { split; [reflexivity|]. split; cbn; lia. }
  cbn [opts new] in O. rewrite O in B.
  split; [exact T|]. split; [exact L|]. split; [exact B|]. split.
  - intros i success metadata now N. unfold endOperation. rewrite N. reflexivity.
  - intros i success metadata now success' metadata' now'.
    set (st := fold_left monitor_step calls (new o)).
    unfold endOperation at 2.
    destruct (assoc i (activeOperations st)) as [operation|] eqn:A; cbn [snd].
    + unfold endOperation. cbn [activeOperations].
      rewrite delete_key_lookup. reflexivity.
    + unfold endOperation. rewrite A. reflexivity.
Qed.

End MonitorFacts.

(** ** Capacity and the circuit breaker *)

Module CoreFacts.

Import EnhancementCore.
Open Scope nat_scope.

(** The calls that change a core; [Recover] is a recovery timer that fires,
    and the time-out of an operation is a [Break]. *)
Inductive core_call : Type :=
| Launch (operationType operationId : string) (now : Q)
| Succeed (operationId : string) (result : value) (now : Q)
| Break (operationId : string) (error : value) (now : Q)
| Recover
| Switch (feature : string) (enabled : bool).

Definition core_step (st : state) (c : core_call) : state :=
  match c with
  | Launch t i now => snd (startOperation t i now st)
  | Succeed i r now => completeOperation i r now st
  | Break i e now => failOperation i e now st
  | Recover => recoveryTimer st
  | Switch f b => setFeature f b st
  end.

Definition within_bounds (st : state) : Prop :=
  List.length (activeOperations st) <= maxConcurrentOps (config_ st) /\
  List.length (operationHistory st) <= 100.

Lemma set_key_length {V : Type} (k : string) (v : V) (m : list (string * V)) :
  List.length (PerformanceMonitor.set_key k v m) <= S (List.length m) /\
  List.length m <= List.length (PerformanceMonitor.set_key k v m).
Proof.
  induction m as [|[k' v'] m IH]; cbn [PerformanceMonitor.set_key List.length];
    [lia|].
  destruct (String.eqb k' k); cbn [List.length]; lia.
Qed.

Lemma delete_key_length {V : Type} (k : string) (m : list (string * V)) :
  List.length (PerformanceMonitor.delete_key k m) <= List.length m.
Proof. apply filter_length_le. Qed.

Lemma archive_length (ended : operation) (history : list operation) :
  List.length history <= 100 ->
  List.length (_archiveOperation ended history) <= 100.
Proof.
  intros H. unfold _archiveOperation.
  destruct (100 <? _) eqn:Over.
  - rewrite length_skipn, length_app. cbn. lia.
  - apply Nat.ltb_ge in Over. exact Over.
Qed.

Lemma checkCircuitBreaker_frame (st : state) :
  activeOperations (_checkCircuitBreaker st) = activeOperations st /\
  operationHistory (_checkCircuitBreaker st) = operationHistory st /\
  config_ (_checkCircuitBreaker st) = config_ st.
Proof.
  unfold _checkCircuitBreaker. destruct (_ && _); repeat split.
Qed.

Lemma step_within_bounds (st : state) (c : core_call) :
  within_bounds st ->
  within_bounds (core_step st c) /\ config_ (core_step st c) = config_ st.
Proof.
  intros [A H]. destruct c as [t i now|i r now|i e now| |f b]; cbn [core_step].
  - unfold startOperation.
    destruct (circuitBreakerOpen (health_ st)); [split; [split|]; auto|].
    destruct (maxConcurrentOps (config_ st) <=? _) eqn:Full;
      [split; [split|]; auto|].
    apply Nat.leb_gt in Full. cbn [snd]. split; [|reflexivity].
    split; cbn [activeOperations operationHistory config_]; [|exact H].
    pose proof (set_key_length i
                  {| op_id := i; op_type := t; op_startTime := now;
                     op_state_ := running; op_duration := None;
                     op_outcome := JUndefined |} (activeOperations st)).
    lia.
  - unfold completeOperation.
    destruct (assoc i (activeOperations st)) as [operation|];
      [|split; [split|]; auto].
    pose proof (delete_key_length i (activeOperations st)).
    destruct (circuitBreakerOpen (health_ st));
      (split; [split|]; cbn; [lia | apply archive_length, H | reflexivity]).
  - unfold failOperation.
    destruct (assoc i (activeOperations st)) as [operation|];
      [|split; [split|]; auto].
    pose proof (delete_key_length i (activeOperations st)).
    cbn [activeOperations operationHistory config_].
    match goal with
    | |- context [_checkCircuitBreaker ?s] =>
        destruct (checkCircuitBreaker_frame s) as (E1 & E2 & E3);
        split; [split|]; cbn [activeOperations operationHistory config_];
        rewrite ?E1, ?E2, ?E3; cbn; [lia | apply archive_length, H | reflexivity]
    end.
  - unfold recoveryTimer. destruct (recoveryTimers st);
      split; [split| |split|]; auto.
  - split; [split|]; auto.
Qed.

Lemma steps_within_bounds (calls : list core_call) (st : state) :
  within_bounds st ->
  within_bounds (fold_left core_step calls st) /\
  config_ (fold_left core_step calls st) = config_ st.
Proof.
  revert st. induction calls as [|c calls IH]; intros st A; cbn [fold_left];
    [split; [exact A | reflexivity]|].
  destruct (step_within_bounds c A) as [A' O].
  destruct (IH _ A') as [A'' O']. split; [exact A''|congruence].
Qed.

(** X29. A core stays within its bounds, whatever calls are made on it
    and whenever its timers fire: no more than [maxConcurrentOps]
    operations are active, and the history keeps 100 operations at most.
    While the circuit breaker is open no operation starts, and a failure
    opens the breaker only with the feature on, five operations counted
    and more than the threshold of them failed. *)
Theorem core_stays_within_bounds (c : config) (calls : list core_call) :
  let st := fold_left core_step calls (new c) in
  List.length (activeOperations st) <= maxConcurrentOps c /\
  List.length (operationHistory st) <= 100 /\
  (circuitBreakerOpen (health_ st) = true ->
   forall t i now,
     startOperation t i now st =
     (Raises (Error "Circuit breaker open - system protecting against cascading failures"),
      st)) /\
  (forall i e now,
     circuitBreakerOpen (health_ st) = false ->
     circuitBreakerOpen (health_ (failOperation i e now st)) = true ->
     circuitBreaker (features_ st) = true /\
     5 <= totalOperations (health_ st) /\
     (circuitBreakerThreshold c * Qnat (totalOperations (health_ st))
      < Qnat (S (failedOperations (health_ st))))%Q).
Proof.
  cbv zeta.
  destruct (@steps_within_bounds calls (new c)) as [[A H] O].
  { split; cbn; lia. }
  cbn [config_ new] in O. rewrite O in A.
  set (st := fold_left core_step calls (new c)) in *.
  split; [exact A|]. split; [exact H|]. split.
  - intros B t i now. unfold startOperation. rewrite B. reflexivity.
  - intros i e now Closed. unfold failOperation.
    destruct (assoc i (activeOperations st)) as [operation|];
      [|intros X; congruence].
    cbn [health_]. unfold _checkCircuitBreaker.
    cbn [features_ health_ config_ circuitBreakerOpen].
    destruct (circuitBreaker (features_ st)); cbn [andb];
      [|intros X; cbn in X; congruence].
    destruct (trips _ _) eqn:Tr; cbn [andb];
      [|intros X; cbn in X; congruence].
    intros _. split; [reflexivity|].
    unfold trips in Tr. cbn [totalOperations failedOperations] in Tr.
    apply andb_true_iff in Tr as [Rate Five]. apply Nat.leb_le in Five.
    split; [exact Five|].
    replace (0 <? totalOperations (health_ st)) with true in Rate
      by (symmetry; apply Nat.ltb_lt; lia).
    rewrite O in Rate.
    apply negb_true_iff in Rate.
    apply PhaseFacts.Qle_bool_false in Rate.
    assert (Pos : (0 < Qnat (totalOperations (health_ st)))%Q).
    { unfold Qnat, Qlt. cbn. lia. }
    apply (Qmult_lt_compat_r _ _ _ Pos) in Rate.
    unfold Qdiv in Rate. rewrite <- Qmult_assoc in Rate.
    rewrite (Qmult_comm (/ _)), Qmult_inv_r, Qmult_1_r in Rate; [exact Rate|].
    intros Z. rewrite Z in Pos. discriminate Pos.
Qed.

End CoreFacts.
